(* ===== verification/_CoqProject ===== *)
-Q . S2P
Prelude.v
Fsm.v
GoNum.v
Asn1.v
GoText.v
Logger.v
Plmn.v
GoCrypto.v
Sqn.v
Milenage.v
UeAuth.v
Auth.v
SecCtx.v
Config.v
Ies.v
Net.v
DuContext.v
AmfContext.v
UeContext.v
CuState.v
CuNgapOut.v
CuRrc.v
CuF1.v
CuNgapIn.v
Init.v
CuInv.v
System.v
SystemInv.v
Prog.v
Fine.v
FineInv.v
FineSystem.v
CuNas.v
Sample.v
CuProps.v
AmfProps.v
CuFlow.v
SystemProps.v
FineStart.v
FineProps.v
FineRace.v
Shutdown.v
