(* ===== verification/Prelude.v ===== *)
(** * central-unit: a verification development

    The program is the control plane of a 5G central unit (CU-CP): it sits between
    distributed units (DUs), which it serves over F1AP, and an AMF, to which it is a
    client over NGAP, and it carries the RRC and NAS messages of user equipment between
    the two.  This library models its Go code under [src/] and states what the code does,
    including where that is not what it means to do.

    ** Parts of the program and files of the development

    Foundations
    - [Prelude]: Go computations (a value, a run-time panic, or an exit), the state
      monad [proc] with the tactic [run] that walks a [do]-block, the invariants [keeps]
      and [ensures] with their hint database [go], record update, slices, stores of heap
      objects with pointers ([loc]), reflexive transitive closure [star], [eventually].
    - [GoNum]: integers at their width (u8 to u64, i64), shifts, big-endian codecs.
      [GoText]: strings as bytes, UTF-8 ranges, [%x], [hex.DecodeString].
    - [Logger]: [internal/common/logger]: padding, colours, fields, the configured level.
    - [GoCrypto]: AES-128, SHA-256 and HMAC of Go's library, with published test vectors.

    Components without the network
    - [Fsm]: [internal/common/fsm]; the event-driven state machine and its worker pool.
    - [Asn1]: [internal/common/utils/asn1.go] and the cell identity readers of
      [handle_du.go].  [Plmn]: PLMN octets and their two decoders.
    - [Sqn], [Milenage], [UeAuth], [Auth], [SecCtx]: the files of the same names in
      [internal/context/uecontext]: sequence numbers, the MILENAGE functions, the key
      derivations, authentication with resynchronisation, the AS and NAS keys.
    - [Config]: [pkg/config/config.go] and the acceptance of a configuration by
      [app.New].

    The CU-CP
    - [Ies]: the shape of the messages and, as the class [Codec], the encoders, decoders
      and constants of the F1AP, NGAP and RRC libraries, which are not part of the
      repository.  [CodecLaws] lists the few facts about their constants that the
      theorems use.
    - [Net]: the interface [World] (a state that records events), logging, and
      [internal/transport/sctpclient.go].
    - [DuContext], [AmfContext], [UeContext]: the three context packages.  The AMF's
      linked lists live in stores of nodes, as the pointers of the code do.
    - [CuState]: [CuCpContext] of [context_cucp.go]; its pointers are locations in three
      stores, so that the current UE, DU and AMF are shared as in the code.  [cu_shape] is
      its well-formedness between two actions, [cu_wf] between two handlers.
    - [CuNgapOut], [CuRrc], [CuF1], [CuNgapIn]: the handlers of [protocol_ngap.go],
      [protocol_rrc.go] with [handle_ue.go], [protocol_f1c.go] with [handle_du.go], and
      [handle_amf.go]; each Go function is a definition of its name.
    - [Init]: [context_init.go] and the connection set-up.  [connect_amf] is
      [InitContext] up to the return of [initAmfConn], after which other goroutines run.
    - [System]: the running process as a transition system, from that point ([boot]) on:
      connections accepted by [f1_server.go] and the later start of their goroutines, the
      read loops, the bounded NGAP queue, one goroutine per received message (with the
      association it was read from, which the code does not pass on), and the rest of
      [InitContext] ([main_at]: the NG Setup Request, the wait on [IsReadyNgap], the F1AP
      server); a handler is one step and waiting goroutines run in any order.
    - [Prog]: computations as trees of atomic actions that may have to wait, their
      execution [exec], pools of goroutines that interleave, termination and progress of a
      pool, goroutines that never wait ([opens]) or go through ([goes]), and safety of a
      goroutine against what the others may do ([safe], [yields]).
    - [Fine]: the handlers cut into actions.  [fine_dispatchF1] and [fine_dispatch] are
      computed by the tactic [cut_up] from [dispatchF1] and [dispatch]: the handlers are
      unfolded down to their primitive operations (a read or write of the state, a
      dereference, an allocation, a method call on one object, a socket write, a log
      line), and each becomes one action; that they execute to the handlers is proved.  An
      increment is a load and a store.  A socket write waits while its association is
      congested, which is up to the peers.  [fine_main] is the rest of [InitContext].
    - [FineSystem]: the process of [System] whose goroutines, [main] among them, may be
      preempted between any two actions; [work] is what the process does without its
      peers.  [fine_simulates]: what [System] reaches, this process reaches.
    - [FineStart]: the start-up and the NG Setup Response in all their interleavings.
    - [Shutdown]: [cmd/main.go], [app.Start], [app.Stop], [Terminate], [SctpConn.Close] and
      the last goroutine of [InitContext], as goroutines over channels and signals; the
      goroutines that serve the network appear by what they can do to these.

    Proofs and properties
    - [CuInv]: every handler keeps any invariant that survives the primitive updates; the
      class [HandlerInv] is that interface.  [SystemInv] discharges it for the
      system's invariant and lifts it to reachable states.
    - [FineInv]: every single action of every handler keeps the invariant, whatever the
      other goroutines do in between.
    - [CuNas]: what each handler computes when the message is well formed; [Sample]: a
      concrete codec and concrete states, where the witnesses are evaluated.
    - [CuProps], [AmfProps], [CuFlow], [SystemProps], [FineProps], [FineRace]: the theorems
      about handlers, NG Setup, a whole registration, and the running system, with atomic
      and with preemptive handlers; [Shutdown] has its own.

    ** What the theorems show

    - Procedures.  An F1 Setup, an RRC Setup, uplink and downlink NAS, NG Setup and the
      start-up do what the code means: state, messages, addressees ([f1_setup_accepted],
      [rrc_setup_served], [setup_complete_forwarded], [uplink_nas_forwarded],
      [downlink_nas_forwarded], [ng_setup_recorded], [start_up]), and their composition
      over the eight messages of a registration ([registration_flow]).
    - Refusals and panics: [f1_setup_rejected], [ul_rrc_guarded],
      [early_message_panics], [validate_not_enough]; no check against the DUs that are
      registered ([f1_setup_duplicates]); a second UE shuts out the first
      ([second_ue_evicts]).
    - Concurrency: what holds in every reachable state, with handlers that interleave
      action by action ([fine_reachable_safe], the first half of [ue_identifiers]) and,
      with handlers that run one at a time, also the uniqueness of RRC identifiers
      ([reachable_safe], the second half of [ue_identifiers]), which preemption inside
      [createUE] breaks ([rrc_id_race]); two more orders that go wrong, of connections
      ([f1_setup_misdirected]) and of messages ([uplink_nas_reordered]).
    - Liveness, in every scheduling of the goroutines: a registration goes through, from
      the bytes that are read to the bytes that are written ([registration_live]); the
      AMF's answer opens the F1AP listener ([ng_setup_opens_f1]); a signal ends the process
      ([signal_exits]).
    - Shutdown: [Terminate] hangs before it cleans up anything
      ([shutdown_never_cleans]), and with an unlucky signal so does the process
      ([shutdown_can_hang]).
    - Security: refinement of TS 35.206 ([milenage_refines]), the derivations of TS
      33.501 by the function of TS 33.220 ([derivations]), acceptance, refusal, resynchronisation and replay of a challenge
      ([auth_accepts], [auth_mac_failure], [auth_resync], [auth_replay],
      [auth_void_mac]), the next-hop chain and the NAS keys.
    - The state machine: every event is answered once and the state follows the table
      ([pool_answers_once]); a synchronous event completes ([sync_event_completes]).
    - Codecs: round trips and exact results of the bit-string readers, PLMN coding,
      sequence numbers; which configurations are accepted ([New_accepts]).

    ** Bounds and fuel

    Loops of the code with a bound are structural recursions on it.  Three definitions
    take fuel: [runes_fuel], started with the number of bytes, of which each rune takes at
    least one; [hex_uint_fuel], started with 16, the digits of a 64-bit number; and
    [Fsm.processNextEvent], whose theorem shows that fuel above the rank of the callbacks
    is enough.  No handler loops: goroutines are finite trees, so that no fuel bounds an
    interleaving, and what keeps one from its end is a panic, a congested association, or
    (for [main]) an AMF that does not answer.
    Integers are wrapped where the code's types wrap.

    ** What is not modelled

    - The F1AP, NGAP, RRC and NAS libraries, YAML decoding, sockets and the file
      system: parameters.  The socket is a function of the events so far, so a write may
      fail at any time, and in [Fine] it may block.  In [System] a write returns.
    - Info log lines of the handlers; warnings and errors are events of the trace.
    - What is finer than an action: one read or write of the state, a method on one
      object ([CreateUeContext], the recording of an NG Setup Response) and one map or slice
      update are atomic in [FineSystem], and memory is sequentially consistent.
    - The send on [IsReadyNgap] is counted ([ready_sends]) and its goroutine goes away:
      the send is the last thing the goroutine does.
    - Unicode's case tables above ASCII, the flag library, the printers.
    - [sctpserver.go], which is commented out as a whole, like [OPC] in [milenage.go]. *)

From Stdlib Require Export ZArith Lia.
From stdpp Require Export prelude list gmap strings.

#[global] Set Default Proof Using "Type".
#[global] Open Scope Z_scope.

Declare Scope go_scope.
Delimit Scope go_scope with go.
#[global] Open Scope go_scope.

(** ** Results of Go computations

    A Go computation either returns a value, panics (which ends the whole
    process, because no handler of the program recovers), or exits the process
    ([os.Exit], reached through the logger's [Fatal]). *)

Inductive panic : Type :=
| NilDeref            (* dereference of a nil pointer *)
| IndexOutOfRange     (* index or slice bounds out of range *)
| NegativeShift       (* shift count below zero *)
| BadAssertion        (* failed unchecked type assertion *)
| NilFunc             (* call of a nil func value *)
| Explicit (msg : string).  (* panic("...") *)

Inductive res (A : Type) : Type :=
| Ok (a : A)
| Panic (p : panic)
| Exit (code : Z).
Arguments Ok {_} _.
Arguments Panic {_} _.
Arguments Exit {_} _.

#[export] Instance res_ret : MRet res := @Ok.
#[export] Instance res_bind : MBind res := λ A B f m,
  match m with Ok a => f a | Panic p => Panic p | Exit c => Exit c end.
#[export] Instance res_fmap : FMap res := λ A B f m,
  match m with Ok a => Ok (f a) | Panic p => Panic p | Exit c => Exit c end.

Lemma res_bind_Ok {A B} (m : res A) (f : A → res B) b :
  m ≫= f = Ok b → ∃ a, m = Ok a ∧ f a = Ok b.
Proof. destruct m; cbn; try done. eauto. Qed.

#[export] Instance panic_eq_dec : EqDecision panic.
Proof. solve_decision. Defined.

(** Stateful computations: the state survives a panic, so that what was sent
    before it is still visible. *)
Definition proc (S A : Type) : Type := S → S * res A.

#[export] Instance proc_ret S : MRet (proc S) := λ A a s, (s, Ok a).
#[export] Instance proc_bind S : MBind (proc S) := λ A B f m s,
  match m s with
  | (s', Ok a) => f a s'
  | (s', Panic p) => (s', Panic p)
  | (s', Exit c) => (s', Exit c)
  end.

Section Proc.
Context {S : Type}.

Definition lift {A} (r : res A) : proc S A := λ s, (s, r).
Definition gets {A} (f : S → A) : proc S A := λ s, (s, Ok (f s)).
Definition modify (f : S → S) : proc S unit := λ s, (f s, Ok tt).
Definition panics {A} (p : panic) : proc S A := λ s, (s, Panic p).
Definition exits {A} (c : Z) : proc S A := λ s, (s, Exit c).

(** Dereference of a pointer that may be nil. *)
Definition deref {A} (o : option A) : proc S A :=
  match o with Some a => mret a | None => panics NilDeref end.

(** [run m s = (s', Ok a)] as a relation that reads well in statements. *)
Definition returns {A} (m : proc S A) (s : S) (a : A) (s' : S) : Prop :=
  m s = (s', Ok a).

Lemma bind_Ok {A B} (m : proc S A) (f : A → proc S B) s s' a :
  m s = (s', Ok a) → (m ≫= f) s = f a s'.
Proof. unfold mbind, proc_bind. by intros ->. Qed.

Lemma bind_Panic {A B} (m : proc S A) (f : A → proc S B) s s' p :
  m s = (s', Panic p) → (m ≫= f) s = (s', Panic p).
Proof. unfold mbind, proc_bind. by intros ->. Qed.

Lemma bind_Ok_inv {A B} (m : proc S A) (f : A → proc S B) s s' b :
  (m ≫= f) s = (s', Ok b) → ∃ s1 a, m s = (s1, Ok a) ∧ f a s1 = (s', Ok b).
Proof. unfold mbind, proc_bind. destruct (m s) as [s1 [a|p|c]]; naive_solver. Qed.

Lemma bind_assoc {A B C} (m : proc S A) (f : A → proc S B) (g : B → proc S C) s :
  ((m ≫= f) ≫= g) s = (m ≫= (λ a, f a ≫= g)) s.
Proof. unfold mbind, proc_bind. by destruct (m s) as [s' [a|p|c]]. Qed.

(** Running a [do]-block step by step. *)
Lemma run_ret {A B} (a : A) (k : A → proc S B) s : ((mret a : proc S A) ≫= k) s = k a s.
Proof. done. Qed.
Lemma run_gets {A B} (f : S → A) (k : A → proc S B) s : (gets f ≫= k) s = k (f s) s.
Proof. done. Qed.
Lemma run_modify {B} f (k : unit → proc S B) s : (modify f ≫= k) s = k tt (f s).
Proof. done. Qed.
Lemma run_lift {A B} (a : A) (k : A → proc S B) s : (lift (Ok a) ≫= k) s = k a s.
Proof. done. Qed.
Lemma run_lift_Panic {A B} p (k : A → proc S B) s : (lift (Panic p) ≫= k) s = (s, Panic p).
Proof. done. Qed.
Lemma run_deref {A B} (a : A) (k : A → proc S B) s : (deref (Some a) ≫= k) s = k a s.
Proof. done. Qed.
Lemma run_deref_None {A B} (k : A → proc S B) s :
  (deref None ≫= k) s = (s, Panic NilDeref).
Proof. done. Qed.
Lemma run_panics {A B} p (k : A → proc S B) s : (panics p ≫= k) s = (s, Panic p).
Proof. done. Qed.

(** *** Invariants: [keeps I m] when a run of [m] that returns keeps [I].  After a
    panic or an exit there is no process whose state could matter. *)
Definition live_ok (I : S → Prop) {A} (out : S * res A) : Prop :=
  match out.2 with Ok _ => I out.1 | _ => True end.
Definition keeps (I : S → Prop) {A} (m : proc S A) : Prop :=
  ∀ s, I s → live_ok I (m s).

Lemma keeps_ret I {A} (a : A) : keeps I (mret a : proc S A).
Proof. by intros s. Qed.
Lemma keeps_lift I {A} (r : res A) : keeps I (lift r).
Proof. by destruct r; intros s. Qed.
Lemma keeps_gets I {A} (f : S → A) : keeps I (gets f).
Proof. by intros s. Qed.
Lemma keeps_panics I {A} p : keeps I (panics (A:=A) p).
Proof. by intros s. Qed.
Lemma keeps_exits I {A} c : keeps I (exits (A:=A) c).
Proof. by intros s. Qed.
Lemma keeps_deref I {A} (o : option A) : keeps I (deref o).
Proof. by destruct o; intros s. Qed.
Lemma keeps_modify (I : S → Prop) f : (∀ s, I s → I (f s)) → keeps I (modify f).
Proof. intros H s. apply H. Qed.
Lemma keeps_bind I {A B} (m : proc S A) (f : A → proc S B) :
  keeps I m → (∀ a, keeps I (f a)) → keeps I (m ≫= f).
Proof.
  intros Hm Hf s Hs. unfold mbind, proc_bind. specialize (Hm s Hs). unfold live_ok in Hm.
  destruct (m s) as [s' [a|p|c]]; simpl in *; try done. by apply Hf.
Qed.

(** [ensures I m Q]: in addition what [m] returns satisfies [Q], a fact that does not
    depend on the state and so survives what follows. *)
Definition ensures (I : S → Prop) {A} (m : proc S A) (Q : A → Prop) : Prop :=
  ∀ s, I s → match m s with (s', Ok a) => I s' ∧ Q a | _ => True end.

Lemma ensures_bind I {A B} (m : proc S A) (f : A → proc S B) Q :
  ensures I m Q → (∀ a, Q a → keeps I (f a)) → keeps I (m ≫= f).
Proof.
  intros Hm Hf s Hs. unfold mbind, proc_bind. specialize (Hm s Hs).
  destruct (m s) as [s' [a|p|c]]; simpl in *; try done. destruct Hm. by apply Hf.
Qed.

(** The same, when the continuation may use what [m] returned and when. *)
Lemma keeps_at I {A B} (m : proc S A) (f : A → proc S B) s :
  (∀ s' a, m s = (s', Ok a) → live_ok I (f a s')) → live_ok I ((m ≫= f) s).
Proof.
  intros H. unfold mbind, proc_bind. destruct (m s) as [s' [a|p|c]]; simpl in *; try done.
  by apply H.
Qed.
End Proc.

Create HintDb go discriminated.
#[export] Hint Constants Opaque : go.
#[export] Hint Variables Opaque : go.
#[export] Hint Resolve keeps_ret keeps_lift keeps_gets keeps_panics keeps_exits
  keeps_deref : go.

Create Rewrite HintDb run.
#[export] Hint Rewrite @bind_assoc @run_ret @run_gets @run_modify @run_lift @run_lift_Panic
  @run_deref @run_deref_None @run_panics : run.
Ltac run := repeat (autorewrite with run; cbn beta iota).

(** Walk down a [do]-block, leaving the primitive updates. *)
Ltac keeps_step :=
  match goal with
  | |- keeps _ (mbind _ _) => apply keeps_bind; [|intros]
  | |- keeps _ (if ?b then _ else _) => destruct b
  | |- keeps _ (match ?x with _ => _ end) => destruct x
  | |- keeps _ _ => solve [auto with go]
  end.
Ltac keeps_tac := repeat keeps_step.

(** ** Record update

    [r <| f := v |>] replaces field [f] of [r].  A record type states its eta
    expansion once ([Eta]); the setter of a field is found from it. *)
Class Eta (R : Type) : Type := eta_expand : R → R.
Class Setter {R T : Type} (proj : R → T) : Type := { set_field : (T → T) → R → R }.

Ltac find_setter proj :=
  lazymatch type of proj with
  | ?R → ?T =>
      let e := constr:(_ : Eta R) in
      let e := eval hnf in e in
      refine (Build_Setter R T proj (fun (new_value : T → T) (old_record : R) =>
        ltac:(let body := eval cbv beta in (e old_record) in
              lazymatch eval pattern (proj old_record) in body with
              | (λ _, ?b) _ => fail "no field" proj
              | ?ctx _ => let out := eval cbv beta in (ctx (new_value (proj old_record))) in exact out
              end)))
  end.
#[export] Hint Extern 0 (@Setter _ _ ?proj) => find_setter proj : typeclass_instances.
Arguments set_field {R T} proj {_} _ _ /.

#[warnings="-postfix-notation-not-level-1"]
Notation "r <| f := v |>" := (set_field f (λ _, v) r)
  (at level 12, f at next level, left associativity) : go_scope.

(** ** Slices

    A Go slice is read as the list of its elements; [index] and [slice] panic
    out of range. *)
Definition index {A} (l : list A) (i : Z) : res A :=
  if i <? 0 then Panic IndexOutOfRange
  else match l !! Z.to_nat i with Some a => Ok a | None => Panic IndexOutOfRange end.

Definition zlen {A} (l : list A) : Z := Z.of_nat (length l).

(** [l[lo:]] and [l[:hi]] on a slice whose capacity is its length. *)
Definition slice_from {A} (l : list A) (lo : Z) : res (list A) :=
  if (lo <? 0) || (zlen l <? lo) then Panic IndexOutOfRange
  else Ok (drop (Z.to_nat lo) l).
Definition slice_to {A} (l : list A) (hi : Z) : res (list A) :=
  if (hi <? 0) || (zlen l <? hi) then Panic IndexOutOfRange
  else Ok (take (Z.to_nat hi) l).

(** ** Generic lemmas *)

Lemma zlen_app {A} (l k : list A) : zlen (l ++ k) = zlen l + zlen k.
Proof. unfold zlen. rewrite length_app. lia. Qed.
Lemma zlen_nonneg {A} (l : list A) : 0 ≤ zlen l.
Proof. unfold zlen. lia. Qed.
Lemma zlen_cons {A} (x : A) l : zlen (x :: l) = 1 + zlen l.
Proof. unfold zlen. simpl length. lia. Qed.

Lemma zlen_nil {A} (l : list A) : l ≠ [] → (zlen l =? 0) = false.
Proof.
  destruct l; [done|]. intros _. apply Z.eqb_neq. rewrite zlen_cons.
  pose proof (zlen_nonneg l). lia.
Qed.

Lemma to_nat_zlen {A} (l : list A) : Z.to_nat (zlen l) = length l.
Proof. unfold zlen. lia. Qed.

Lemma index_Some {A} (l : list A) (i : nat) (a : A) :
  l !! i = Some a → index l (Z.of_nat i) = Ok a.
Proof.
  intros H. unfold index. rewrite (proj2 (Z.ltb_ge _ _)) by lia.
  by rewrite Nat2Z.id, H.
Qed.

(** Lists of at most one element. *)
Lemma app_cons_one {A} (l1 l2 : list A) x y : l1 ++ x :: l2 = [y] → l1 = [] ∧ x = y ∧ l2 = [].
Proof. destruct l1 as [|z l1]; cbn; [by intros [= -> ->]|]. by intros [= _ []%eq_sym%app_cons_not_nil]. Qed.
Lemma singleton_cons {A} (x : A) l k : l ≡ₚ x :: k → (length l ≤ 1)%nat → l = [x] ∧ k = [].
Proof.
  intros H Hl. rewrite H in Hl. destruct k; [|cbn in Hl; lia]. split; [|done]. by apply Permutation_singleton_r.
Qed.

(** Three distinct codes, as the comparisons of a switch see them. *)
Lemma NoDup_eqb (a b c : Z) :
  NoDup [a; b; c] → (b =? a) = false ∧ (c =? a) = false ∧ (c =? b) = false.
Proof.
  rewrite !NoDup_cons, !elem_of_cons, !Z.eqb_neq. intros (? & ? & _). naive_solver.
Qed.

(** [Forall P l] for an explicit list and an arithmetic [P]. *)
Ltac forall_lia := repeat first [apply Forall_nil_2 | apply Forall_cons_2; [lia|]].

(** Evaluate [index] and [zlen] on lists whose spine is known, leaving the
    elements alone. *)
Ltac go_list :=
  cbv beta iota zeta delta [index zlen length lookup list_lookup Z.of_nat Pos.of_succ_nat Pos.succ
    Z.eqb Pos.eqb Z.ltb Z.leb Z.compare Pos.compare Pos.compare_cont
    Z.to_nat Pos.to_nat Pos.iter_op Nat.add mbind res_bind mret res_ret fmap res_fmap
    negb orb andb].

(** ** Stores of heap objects

    Objects reached through pointers live in a store; a pointer is a [positive]
    and [alloc] hands out the next unused one. *)
Abbreviation loc := positive.
Record store (A : Type) : Type := { cells : gmap loc A; brk : loc }.
Arguments cells {_} _.
Arguments brk {_} _.
Arguments Build_store {_} _ _.

Definition empty_store {A} : store A := Build_store ∅ 1%positive.
Definition alloc {A} (a : A) (st : store A) : loc * store A :=
  (brk st, Build_store (<[brk st := a]> (cells st)) (Pos.succ (brk st))).
Definition store_alter {A} (f : A → A) (l : loc) (st : store A) : store A :=
  Build_store (alter f l (cells st)) (brk st).

(** Every allocated location is below the break. *)
Definition store_wf {A} (st : store A) : Prop :=
  ∀ l, is_Some (cells st !! l) → (l < brk st)%positive.

Lemma store_wf_empty {A} : store_wf (A:=A) empty_store.
Proof. intros l [a Ha]. done. Qed.

Lemma store_wf_alloc {A} (a : A) st : store_wf st → store_wf (alloc a st).2.
Proof.
  intros H l. simpl. rewrite lookup_insert. case_decide as E; [lia|].
  intros Hl. specialize (H l Hl). lia.
Qed.

Lemma store_wf_alter {A} (f : A → A) l st : store_wf st → store_wf (store_alter f l st).
Proof.
  intros H k. simpl. rewrite lookup_alter. case_decide as E; [subst|by apply H].
  rewrite fmap_is_Some. apply H.
Qed.

Lemma alloc_fresh {A} (st : store A) : store_wf st → cells st !! brk st = None.
Proof.
  intros H. destruct (cells st !! brk st) eqn:E; [|done].
  pose proof (H (brk st) ltac:(eauto)). lia.
Qed.
#[export] Hint Resolve store_wf_empty store_wf_alloc store_wf_alter : go.

(** Reflexive transitive closure used by the transition systems. *)
Section Star.
Context {C : Type} (step : C → C → Prop).
Inductive star : C → C → Prop :=
| star_refl c : star c c
| star_step c1 c2 c3 : step c1 c2 → star c2 c3 → star c1 c3.

Lemma star_trans c1 c2 c3 : star c1 c2 → star c2 c3 → star c1 c3.
Proof. induction 1; eauto using star. Qed.

Lemma star_one c1 c2 : step c1 c2 → star c1 c2.
Proof. eauto using star. Qed.

Lemma star_invariant (I : C → Prop) :
  (∀ c c', I c → step c c' → I c') → ∀ c c', star c c' → I c → I c'.
Proof. intros Hstep. induction 1; eauto. Qed.

(** [eventually P c]: every run from [c], however the steps are chosen, reaches [P]. *)
Inductive eventually (P : C → Prop) : C → Prop :=
| ev_now c : P c → eventually P c
| ev_later c : (∃ c', step c c') → (∀ c', step c c' → eventually P c') → eventually P c.

Lemma eventually_mono (P Q : C → Prop) c :
  eventually P c → (∀ c', P c' → Q c') → eventually Q c.
Proof. induction 1 as [c H|c H _ IH]; intros HPQ; [by apply ev_now, HPQ|]. apply ev_later; eauto. Qed.

(** A terminating system that, as long as [J] holds, is at [P] or can step, and whose
    steps keep [J], ends in [P]. *)
Lemma eventually_inv (J P : C → Prop) c :
  Acc (λ c' c, step c c') c →
  (∀ c1, J c1 → P c1 ∨ ((∃ c2, step c1 c2) ∧ ∀ c2, step c1 c2 → J c2)) → J c → eventually P c.
Proof.
  intros Hacc Hp. induction Hacc as [c _ IH]. intros HJ.
  destruct (Hp c HJ) as [H|[H Hs]]; [by apply ev_now|]. apply ev_later; eauto.
Qed.
End Star.
#[export] Hint Resolve star_refl : go.
