(* ===== verification/Fsm.v ===== *)
(** The event-driven state machine of [internal/common/fsm]: construction, one event at a
    time under the state's lock, follow-up events, and the worker pool that runs the
    events sent asynchronously. *)
From S2P Require Import Prelude.

Module Fsm.
Definition StateType : Type := string.
Definition EventType : Type := string.
Definition EntryEvent : EventType := "Entry Event".
Definition ExitEvent : EventType := "Exit Event".
Definition StateEventTuple : Type := StateType * EventType.
Definition Tuple (state : StateType) (event : EventType) : StateEventTuple := (state, event).
Definition Transitions : Type := gmap StateEventTuple StateType.

(** [D] is what [evDat] points to, [W] what a callback reaches through [state.info]. *)
Record EventData {D : Type} := { evType : EventType; evDat : option D }.
Arguments EventData : clear implicits.
Record State {D W : Type} := {
  current : StateType; next : option (EventData D); info : W }.
Arguments State : clear implicits.
#[export] Instance eta_State D W : Eta (State D W) :=
  λ s, Build_State D W (current s) (next s) (info s).

Definition NewEmptyEventData {D} (t : EventType) : EventData D :=
  {| evType := t; evDat := None |}.
Definition NewEventData {D} (t : EventType) (value : option D) : EventData D :=
  {| evType := t; evDat := value |}.
Definition clone {D} (e : EventData D) (t : EventType) : EventData D :=
  {| evType := t; evDat := evDat e |}.
Definition Type_ {D} (e : EventData D) : EventType := evType e.
Definition GetEventData {D} (e : EventData D) : option D := evDat e.

Section Machine.
Context {D W : Type}.

Definition NewState (i : StateType) (w : W) : State D W :=
  {| current := i; next := None; info := w |}.
Definition setState (now : StateType) (s : State D W) : State D W := s <| current := now |>.
Definition ForceSetState (now : StateType) (s : State D W) : State D W := s <| current := now |>.
Definition CurrentState (s : State D W) : StateType := current s.
Definition GetStateInfo (s : State D W) : W := info s.
Definition SetNextEvent (e : EventData D) (s : State D W) : State D W :=
  s <| next := Some e |>.

(** A callback runs on the machine's own state. *)
Definition CallbackFn : Type := EventData D → proc (State D W) unit.
Definition Callbacks : Type := gmap StateType (option CallbackFn).

Record fsm := {
  transitions : Transitions; callbacks : Callbacks;
  events : gset EventType; handler : option CallbackFn }.
Record Options := {
  o_Transitions : Transitions; o_Callbacks : Callbacks;
  GenericCallback : option CallbackFn; NonTransitionalEvents : list EventType }.

Definition knownStates (ts : Transitions) : list StateType := (map_to_list ts).*1.*1.
Definition knownEvents (ts : Transitions) : list EventType := (map_to_list ts).*1.*2.

Definition NewFsm (opts : Options) : res fsm :=
  if forallb (λ s, bool_decide (is_Some (o_Callbacks opts !! s)))
       (knownStates (o_Transitions opts))
  then
    if forallb (λ ev, negb (bool_decide (ev ∈ knownEvents (o_Transitions opts))))
         (NonTransitionalEvents opts)
    then Ok {| transitions := o_Transitions opts; callbacks := o_Callbacks opts;
               events := list_to_set (NonTransitionalEvents opts);
               handler := GenericCallback opts |}
    else Panic (Explicit "Non transional event must not in the transision list")
  else Panic (Explicit "unknown state in callback map").

(** ** One event *)
Inductive error : Type := UnknownTransition (s : StateType) (e : EventData D).

(** The machine's state and what was sent on the error channels, in order: the
    channel's number and the value ([None] for nil). *)
Record Run := { state : State D W; sent : list (nat * option error) }.
#[local] Instance eta_Run : Eta Run := λ r, Build_Run (state r) (sent r).

Definition put (errCh : option nat) (e : option error) : proc Run unit :=
  match errCh with
  | Some c => modify (λ r, r <| sent := sent r ++ [(c, e)] |>)
  | None => mret tt
  end.
Definition on_state (m : proc (State D W) unit) : proc Run unit :=
  λ r, let '(s, a) := m (state r) in (r <| state := s |>, a).
Definition call (cb : option CallbackFn) (e : EventData D) : proc Run unit :=
  match cb with Some f => on_state (f e) | None => panics NilFunc end.

Definition transit (f : fsm) (event : EventData D) (errCh : option nat) : proc Run unit :=
  cur ← gets (λ r, current (state r));
  match transitions f !! Tuple cur (evType event) with
  | Some nextState =>
      put errCh None;;
      let curCallback : option CallbackFn := mjoin (callbacks f !! cur) in
      let nextCallback : option CallbackFn := mjoin (callbacks f !! nextState) in
      (if curCallback is Some _ then call curCallback event else mret tt);;
      if bool_decide (cur = nextState) then mret tt
      else
        call curCallback (clone event ExitEvent);;
        modify (λ r, r <| state := setState nextState (state r) |>);;
        if nextCallback is Some _ then call nextCallback (clone event EntryEvent) else mret tt
  | None => put errCh (Some (UnknownTransition cur event))
  end.

(** The loop over the follow-up events; [false] when the fuel ran out. *)
Fixpoint processNextEvent (fuel : nat) (f : fsm) : proc Run bool :=
  n ← gets (λ r, next (state r));
  match n, fuel with
  | None, _ => mret true
  | Some _, O => mret false
  | Some e, S fuel =>
      modify (λ r, r <| state := state r <| next := None |> |>);;
      (if bool_decide (evType e ∈ events f) then call (handler f) e
       else transit f e None);;
      processNextEvent fuel f
  end.

(** The closure [fn] of [handleEvent], which runs with [slock] held. *)
Definition task (fuel : nat) (f : fsm) (event : EventData D) (errCh : nat) : proc Run bool :=
  (if bool_decide (evType event ∈ events f) then call (handler f) event
   else transit f event (Some errCh));;
  processNextEvent fuel f.

(** What [handleEvent] itself sends, once the closure was run or submitted. *)
Definition acknowledge (f : fsm) (event : EventData D) (errCh : nat) : proc Run unit :=
  if bool_decide (evType event ∈ events f) then put (Some errCh) None else mret tt.

Definition answers (c : nat) (r : Run) : list (option error) :=
  (filter (λ p, p.1 = c) (sent r)).*2.

(** [SyncSendEvent] on channel [errCh]: [None] when the receive would block, or when the
    fuel ran out. *)
Definition SyncSendEvent (fuel : nat) (f : fsm) (event : EventData D) (errCh : nat) :
    proc Run (option (option error)) :=
  over ← task fuel f event errCh;
  if (over : bool) then
    acknowledge f event errCh;;
    gets (λ r, head (answers errCh r))
  else mret None.

(** ** The worker pool *)
Record Pool := { run : Run; queue : list (EventData D * nat); issued : nat }.

Inductive step (f : fsm) : Pool → Pool → Prop :=
| step_send r q n ev r' :
    (* SendEvent: the closure is queued, a non-transitional event acknowledged *)
    acknowledge f ev n r = (r', Ok tt) →
    step f {| run := r; queue := q; issued := n |}
           {| run := r'; queue := q ++ [(ev, n)]; issued := S n |}
| step_sync r q n ev fuel r' a :
    SyncSendEvent fuel f ev n r = (r', Ok (Some a)) →
    step f {| run := r; queue := q; issued := n |}
           {| run := r'; queue := q; issued := S n |}
| step_work r q1 ev c q2 n fuel r' :
    (* a worker takes any queued closure *)
    task fuel f ev c r = (r', Ok true) →
    step f {| run := r; queue := q1 ++ (ev, c) :: q2; issued := n |}
           {| run := r'; queue := q1 ++ q2; issued := n |}.

Definition start (s : State D W) : Pool :=
  {| run := {| state := s; sent := [] |}; queue := []; issued := 0 |}.

(** ** Specification

    [edge opts]: the transition relation the options list.  A callback is [quiet]
    when a run of it that returns leaves the current state alone, and [good] when in
    addition it returns, and any follow-up event it asks for lowers [rank]. *)
Definition edge (opts : Options) (a b : StateType) : Prop :=
  ∃ e, o_Transitions opts !! Tuple a e = Some b.
Definition quiet (cb : CallbackFn) : Prop :=
  ∀ e s s', cb e s = (s', Ok tt) → current s' = current s.
Definition every_callback (P : CallbackFn → Prop) (opts : Options) : Prop :=
  (∀ s cb, o_Callbacks opts !! s = Some (Some cb) → P cb) ∧
  (∀ cb, GenericCallback opts = Some cb → P cb).
Definition no_nil_callback (opts : Options) : Prop :=
  (∀ s, o_Callbacks opts !! s ≠ Some None) ∧
  (NonTransitionalEvents opts ≠ [] → is_Some (GenericCallback opts)).
Definition progress (rank : W → nat) (s s' : State D W) : Prop :=
  (next s' = next s ∧ (rank (info s') ≤ rank (info s))%nat) ∨
  (rank (info s') < rank (info s))%nat.
Definition good (rank : W → nat) (cb : CallbackFn) : Prop :=
  ∀ e s, ∃ s', cb e s = (s', Ok tt) ∧ current s' = current s ∧ progress rank s s'.

(** What [handleEvent] owes the sender of [e] in state [cur]: the answer, and where
    the machine goes. *)
Definition outcome (opts : Options) (e : EventData D) (cur cur' : StateType)
    (a : option error) : Prop :=
  if bool_decide (evType e ∈ NonTransitionalEvents opts) then
    a = None ∧ star (edge opts) cur cur'
  else
    match o_Transitions opts !! Tuple cur (evType e) with
    | Some t => a = None ∧ star (edge opts) t cur'
    | None => a = Some (UnknownTransition cur e) ∧ cur' = cur
    end.

(** ** Lemmas *)
Lemma NewFsm_Ok opts f : NewFsm opts = Ok f →
  f = {| transitions := o_Transitions opts; callbacks := o_Callbacks opts;
         events := list_to_set (NonTransitionalEvents opts);
         handler := GenericCallback opts |} ∧
  (∀ s e t, o_Transitions opts !! Tuple s e = Some t →
    is_Some (o_Callbacks opts !! s) ∧ e ∉ NonTransitionalEvents opts).
Proof.
  unfold NewFsm. destruct (forallb _ (knownStates _)) eqn:Hs; [|done].
  destruct (forallb _ (NonTransitionalEvents _)) eqn:He; [|done].
  intros [= <-]. split; [done|]. intros s e t Ht.
  apply elem_of_map_to_list in Ht. rewrite forallb_forall in Hs, He. split.
  - specialize (Hs s). rewrite bool_decide_eq_true in Hs. apply Hs, list_elem_of_In.
    unfold knownStates. apply list_elem_of_fmap. exists (s, e). split; [done|].
    apply list_elem_of_fmap. by exists ((s, e), t).
  - intros Hin. specialize (He e). rewrite <- list_elem_of_In in He. specialize (He Hin).
    apply negb_true_iff, bool_decide_eq_false in He. apply He.
    unfold knownEvents. apply list_elem_of_fmap. exists (s, e). split; [done|].
    apply list_elem_of_fmap. by exists ((s, e), t).
Qed.

Lemma good_quiet rank cb : good rank cb → quiet cb.
Proof. intros H e s s' E. destruct (H e s) as (s1 & E1 & ? & _). congruence. Qed.

Lemma progress_refl rank s : progress rank s s.
Proof. left. split; [done|lia]. Qed.
Lemma progress_trans rank s1 s2 s3 :
  progress rank s1 s2 → progress rank s2 s3 → progress rank s1 s3.
Proof. unfold progress. intros [[]|] [[]|]; (left; split; [congruence|lia]) || (right; lia). Qed.

Definition told (c : option nat) (a : option error) : list (nat * option error) :=
  match c with Some c => [(c, a)] | None => [] end.

Lemma put_eq c e r :
  put c e r = ({| state := state r;
                  sent := sent r ++ told c e |}, Ok tt).
Proof. destruct c, r; cbn; [done|by rewrite app_nil_r]. Qed.

Lemma answers_app c r l st :
  answers c {| state := st; sent := sent r ++ l |} =
  answers c r ++ (filter (λ p, p.1 = c) l).*2.
Proof. unfold answers. cbn [sent]. by rewrite filter_app, fmap_app. Qed.

Lemma answers_snoc c a r st : answers c r = [] →
  answers c {| state := st; sent := sent r ++ [(c, a)] |} = [a].
Proof.
  intros H. rewrite answers_app, H. rewrite filter_cons_True by done. done.
Qed.

Section Runs.
Context (opts : Options) (f : fsm) (Hnew : NewFsm opts = Ok f).

Lemma transitions_eq : transitions f = o_Transitions opts.
Proof using Hnew. by destruct (NewFsm_Ok _ _ Hnew) as [-> _]. Qed.
Lemma events_eq e :
  bool_decide (e ∈ events f) = bool_decide (e ∈ NonTransitionalEvents opts).
Proof using Hnew.
  destruct (NewFsm_Ok _ _ Hnew) as [-> _]. apply bool_decide_ext. cbn.
  apply elem_of_list_to_set.
Qed.
Lemma callback_of s cb : mjoin (callbacks f !! s) = Some cb →
  o_Callbacks opts !! s = Some (Some cb).
Proof using Hnew.
  destruct (NewFsm_Ok _ _ Hnew) as [-> _]. cbn.
  destruct (o_Callbacks opts !! s) as [[]|]; cbn; congruence.
Qed.
Lemma handler_eq : handler f = GenericCallback opts.
Proof using Hnew. by destruct (NewFsm_Ok _ _ Hnew) as [-> _]. Qed.

(** Runs that return, with quiet callbacks. *)
Context (Hquiet : every_callback quiet opts).
#[local] Set Default Proof Using "Type Hnew Hquiet".

Lemma call_callback s e r r' :
  call (mjoin (callbacks f !! s)) e r = (r', Ok tt) →
  current (state r') = current (state r) ∧ sent r' = sent r.
Proof.
  destruct (mjoin _) as [cb|] eqn:E; [|done]. apply callback_of in E.
  unfold call, on_state. destruct (cb e (state r)) as [s' a] eqn:Ec.
  intros [= <- ->]. cbn. split; [|done]. by apply (proj1 Hquiet _ _ E e).
Qed.
Lemma call_handler e r r' :
  call (handler f) e r = (r', Ok tt) →
  current (state r') = current (state r) ∧ sent r' = sent r.
Proof.
  rewrite handler_eq. destruct (GenericCallback opts) as [cb|] eqn:E; [|done].
  unfold call, on_state. destruct (cb e (state r)) as [s' a] eqn:Ec.
  intros [= <- ->]. cbn. split; [|done]. by apply (proj2 Hquiet _ E e).
Qed.
Lemma maybe_call s e r r' :
  (if mjoin (callbacks f !! s) is Some _ then call (mjoin (callbacks f !! s)) e
   else mret tt) r = (r', Ok tt) →
  current (state r') = current (state r) ∧ sent r' = sent r.
Proof.
  pose proof (call_callback s e r r') as H. destruct (mjoin _); [exact H|].
  unfold mret, proc_ret. by intros [= <-].
Qed.

Lemma transit_ends e c r r' : transit f e c r = (r', Ok tt) →
  match o_Transitions opts !! Tuple (current (state r)) (evType e) with
  | Some t => current (state r') = t ∧ sent r' = sent r ++ told c None
  | None => state r' = state r ∧
      sent r' = sent r ++ told c (Some (UnknownTransition (current (state r)) e))
  end.
Proof.
  unfold transit. rewrite run_gets, transitions_eq.
  destruct (o_Transitions opts !! _) as [t|]; [|rewrite put_eq; by intros [= <-]].
  intros (r1 & [] & H1 & (r2 & [] & H2 & H)%bind_Ok_inv)%bind_Ok_inv.
  rewrite put_eq in H1. simplify_eq. apply maybe_call in H2 as [Hc Hs]. cbn in *.
  case_bool_decide as Ht.
  { unfold mret, proc_ret in H. simplify_eq. split; [done|exact Hs]. }
  apply bind_Ok_inv in H as (r3 & [] & H3 & (r4 & [] & H4 & H)%bind_Ok_inv).
  apply call_callback in H3 as [Hc3 Hs3]. unfold modify in H4. simplify_eq/=.
  apply maybe_call in H as [-> ->]. cbn. by rewrite Hs3, Hs.
Qed.

Lemma transit_edge e c r r' : transit f e c r = (r', Ok tt) →
  star (edge opts) (current (state r)) (current (state r')).
Proof.
  intros H%transit_ends. destruct (o_Transitions opts !! _) as [t|] eqn:E.
  - destruct H as [-> _]. apply star_one. by exists (evType e).
  - destruct H as [-> _]. apply star_refl.
Qed.

Lemma processNextEvent_ends fuel r r' b : processNextEvent fuel f r = (r', Ok b) →
  star (edge opts) (current (state r)) (current (state r')) ∧ sent r' = sent r ∧
  (b = true → next (state r') = None).
Proof.
  induction fuel as [|fuel IH] in r |- *; cbn [processNextEvent]; rewrite run_gets;
    destruct (next (state r)) as [e|] eqn:En; intros H.
  1, 2, 4: unfold mret, proc_ret in H; simplify_eq; split_and!; done || apply star_refl.
  rewrite run_modify in H. apply bind_Ok_inv in H as (r1 & [] & H1 & H).
  apply IH in H as (Hstar & Hs & Hb). destruct (bool_decide _).
  - apply call_handler in H1 as [Hc Hs1]. cbn in *. by rewrite <- Hc, <- Hs1, <- Hs.
  - pose proof (transit_edge _ _ _ _ H1) as He. apply transit_ends in H1.
    split; [eapply star_trans; eassumption|]. split; [|done]. rewrite Hs. cbn in *.
    destruct (o_Transitions opts !! _); destruct H1 as [_ ->]; cbn; apply app_nil_r.
Qed.

Lemma task_ends fuel e c r r' b : task fuel f e c r = (r', Ok b) →
  (b = true → next (state r') = None) ∧
  ∃ a, (evType e ∈ NonTransitionalEvents opts → a = None) ∧
    (next (state r) = None →
       outcome opts e (current (state r)) (current (state r')) a) ∧
    star (edge opts) (current (state r)) (current (state r')) ∧
    sent r' = sent r ++
      if bool_decide (evType e ∈ NonTransitionalEvents opts) then [] else [(c, a)].
Proof.
  intros (r1 & [] & H1 & H)%bind_Ok_inv.
  pose proof (processNextEvent_ends _ _ _ _ H) as (Hstar & Hs & Hb). split; [done|].
  rewrite events_eq in H1. unfold outcome.
  case_bool_decide.
  - apply call_handler in H1 as [Hc Hs1]. exists None. rewrite app_nil_r, <- Hc.
    split; [done|]. split; [done|]. split; [done|congruence].
  - pose proof (transit_edge _ _ _ _ H1) as He. apply transit_ends in H1.
    destruct (o_Transitions opts !! _); destruct H1 as [Hr1 Hs1].
    + exists None. rewrite <- Hr1. split; [done|]. split; [done|].
      split; [eapply star_trans; eassumption|]. by rewrite Hs, Hs1.
    + exists (Some (UnknownTransition (current (state r)) e)). split; [done|]. split.
      { intros Hn. split; [done|]. rewrite <- Hr1 in Hn.
        destruct fuel; cbn [processNextEvent] in H; rewrite run_gets, Hn in H;
          unfold mret, proc_ret in H; simplify_eq; congruence. }
      split; [eapply star_trans; eassumption|]. by rewrite Hs, Hs1.
Qed.

Lemma acknowledge_eq e c r :
  acknowledge f e c r =
  ({| state := state r;
      sent := sent r ++
        if bool_decide (evType e ∈ NonTransitionalEvents opts) then [(c, None)] else [] |},
   Ok tt).
Proof.
  unfold acknowledge. rewrite events_eq. case_bool_decide; [by rewrite put_eq|].
  destruct r; cbn; by rewrite app_nil_r.
Qed.

Lemma SyncSendEvent_ends fuel e c r r' a :
  answers c r = [] → SyncSendEvent fuel f e c r = (r', Ok (Some a)) →
  next (state r') = None ∧ sent r' = sent r ++ [(c, a)] ∧
  star (edge opts) (current (state r)) (current (state r')) ∧
  (next (state r) = None → outcome opts e (current (state r)) (current (state r')) a).
Proof.
  intros Hc (r1 & over & H1 & H)%bind_Ok_inv. destruct over; [|done].
  apply task_ends in H1 as (Hn & a' & Ha & Ho & Hstar & Hs).
  erewrite bind_Ok in H by apply acknowledge_eq. unfold gets in H.
  assert (E : (sent r1 ++ if bool_decide (evType e ∈ NonTransitionalEvents opts)
               then [(c, None)] else []) = sent r ++ [(c, a')]).
  { rewrite Hs, <- (assoc_L app). case_bool_decide; [|done]. by rewrite Ha. }
  rewrite E, (answers_snoc _ _ _ _ Hc) in H. injection H as <- <-. cbn. auto.
Qed.
End Runs.

(** Callbacks that make progress: every run returns. *)
Section Progress.
Context (opts : Options) (f : fsm) (Hnew : NewFsm opts = Ok f).
Context (rank : W → nat) (Hgood : every_callback (good rank) opts)
  (Hnil : no_nil_callback opts).
#[local] Set Default Proof Using "Type Hnew Hgood Hnil".

Definition advances (r r' : Run) : Prop := progress rank (state r) (state r').

Lemma every_quiet : every_callback quiet opts.
Proof.
  destruct Hgood as [H1 H2]. split; intros; eapply good_quiet; eauto.
Qed.

Lemma call_good cb e r : good rank cb →
  ∃ r', call (Some cb) e r = (r', Ok tt) ∧ advances r r' ∧
    current (state r') = current (state r).
Proof.
  intros H. destruct (H e (state r)) as (s' & E & ? & ?).
  exists (Build_Run s' (sent r)). unfold call, on_state. by rewrite E.
Qed.
Lemma callback_good s cb : mjoin (callbacks f !! s) = Some cb → good rank cb.
Proof. intros E. apply (callback_of _ _ Hnew) in E. by apply Hgood in E. Qed.

Lemma maybe_call_runs s e r : ∃ r',
  (if mjoin (callbacks f !! s) is Some _ then call (mjoin (callbacks f !! s)) e
   else mret tt) r = (r', Ok tt) ∧ advances r r' ∧
  current (state r') = current (state r).
Proof.
  destruct (mjoin (callbacks f !! s)) as [cb|] eqn:E.
  - by apply call_good, (callback_good s).
  - exists r. split; [done|]. split; [apply progress_refl|done].
Qed.

Lemma transit_runs e c r : ∃ r', transit f e c r = (r', Ok tt) ∧ advances r r'.
Proof.
  unfold transit. rewrite run_gets, (transitions_eq _ _ Hnew).
  destruct (o_Transitions opts !! _) as [t|] eqn:Et.
  2: { eexists. rewrite put_eq. split; [done|]. apply progress_refl. }
  erewrite bind_Ok by apply put_eq. cbn [state]. set (r0 := Build_Run _ _).
  destruct (maybe_call_runs (current (state r)) e r0) as (r1 & E1 & A1 & C1).
  erewrite bind_Ok by exact E1.
  case_bool_decide; [by exists r1|].
  destruct (NewFsm_Ok _ _ Hnew) as [Hf Hkey].
  destruct (proj1 (Hkey _ _ _ Et)) as [[cb|] Hcb]; [|by destruct (proj1 Hnil _ Hcb)].
  assert (mjoin (callbacks f !! current (state r)) = Some cb) as ->
    by (rewrite Hf; cbn; by rewrite Hcb).
  destruct (call_good cb (clone e ExitEvent) r1) as (r2 & E2 & A2 & _);
    [by apply Hgood in Hcb|].
  erewrite bind_Ok by exact E2. rewrite run_modify.
  edestruct (maybe_call_runs t (clone e EntryEvent)) as (r4 & E4 & A4 & _).
  exists r4. split; [exact E4|]. eapply progress_trans; [exact A1|].
  eapply progress_trans; [exact A2|]. exact A4.
Qed.

Lemma handler_runs e r : evType e ∈ NonTransitionalEvents opts →
  ∃ r', call (handler f) e r = (r', Ok tt) ∧ advances r r'.
Proof.
  intros Hin. rewrite (handler_eq _ _ Hnew).
  destruct (proj2 Hnil) as [cb Hcb]; [intros Hn; rewrite Hn in Hin; set_solver|].
  rewrite Hcb. destruct (call_good cb e r) as (r' & ? & ? & _); [|by eauto].
  by apply Hgood.
Qed.

Lemma body_runs e c r : ∃ r',
  (if bool_decide (evType e ∈ events f) then call (handler f) e else transit f e c) r =
    (r', Ok tt) ∧ advances r r'.
Proof.
  rewrite (events_eq _ _ Hnew). case_bool_decide; [by apply handler_runs|].
  apply transit_runs.
Qed.

Lemma processNextEvent_runs fuel r :
  next (state r) = None ∨ (rank (info (state r)) < fuel)%nat →
  ∃ r', processNextEvent fuel f r = (r', Ok true).
Proof.
  induction fuel as [|fuel IH] in r |- *; intros H; cbn [processNextEvent];
    rewrite run_gets; destruct (next (state r)) as [e|]; eauto.
  { destruct H; [done|lia]. }
  destruct H as [|H]; [done|]. rewrite run_modify.
  edestruct (body_runs e None) as (r1 & E1 & A1). erewrite bind_Ok by exact E1.
  apply IH. destruct A1 as [[Hn _]|A1]; [by left|]. right. cbn in A1. lia.
Qed.

Lemma task_runs fuel e c r :
  next (state r) = None → (rank (info (state r)) < fuel)%nat →
  ∃ r', task fuel f e c r = (r', Ok true).
Proof.
  intros Hn Hf. unfold task. destruct (body_runs e (Some c) r) as (r1 & E1 & A1).
  erewrite bind_Ok by exact E1. apply processNextEvent_runs.
  destruct A1 as [[H _]|A1]; [left; congruence|right; lia].
Qed.

Lemma SyncSendEvent_runs fuel e c r :
  answers c r = [] → next (state r) = None → (rank (info (state r)) < fuel)%nat →
  ∃ r' a, SyncSendEvent fuel f e c r = (r', Ok (Some a)).
Proof.
  intros Hc Hn Hf. destruct (task_runs fuel e c r Hn Hf) as (r1 & E1).
  pose proof (task_ends _ _ Hnew every_quiet _ _ _ _ _ _ E1) as (_ & a & Ha & _ & _ & Hs).
  unfold SyncSendEvent. erewrite bind_Ok by exact E1.
  cbn beta iota. erewrite bind_Ok by apply (acknowledge_eq _ _ Hnew every_quiet).
  exists {| state := state r1; sent := sent r ++ [(c, a)] |}, a. unfold gets.
  rewrite Hs, <- (assoc_L app).
  assert ((if bool_decide (evType e ∈ NonTransitionalEvents opts) then [] else [(c, a)]) ++
    (if bool_decide (evType e ∈ NonTransitionalEvents opts) then [(c, None)] else []) =
    [(c, a)]) as -> by (case_bool_decide; [by rewrite Ha|done]).
  by rewrite (answers_snoc _ _ _ _ Hc).
Qed.
End Progress.

#[local] Arguments answers : simpl never.
#[local] Ltac by_event opts ev :=
  destruct (decide (evType ev ∈ NonTransitionalEvents opts)) as [Hin|Hin];
  [rewrite (bool_decide_eq_true_2 _ Hin)|rewrite (bool_decide_eq_false_2 _ Hin)].

(** *** The pool *)
Definition weight (opts : Options) (c : nat) (t : EventData D * nat) : nat :=
  if bool_decide (t.2 = c ∧ evType t.1 ∉ NonTransitionalEvents opts) then 1 else 0.
(** The answers that queued closures still owe on channel [c]. *)
Definition owed (opts : Options) (c : nat) (q : list (EventData D * nat)) : nat :=
  sum_list_with (weight opts c) q.

Record pool_ok (opts : Options) (s0 : StateType) (p : Pool) : Prop := {
  ok_next : next (state (run p)) = None;
  ok_path : star (edge opts) s0 (current (state (run p)));
  ok_answers : ∀ c, (length (answers c (run p)) + owed opts c (queue p) =
    if bool_decide (c < issued p)%nat then 1 else 0)%nat }.

Lemma answers_plus c c' a r st :
  length (answers c {| state := st; sent := sent r ++ [(c', a)] |}) =
  (length (answers c r) + if bool_decide (c' = c) then 1 else 0)%nat.
Proof.
  rewrite answers_app, length_app. f_equal.
  case_bool_decide; [by rewrite filter_cons_True|by rewrite filter_cons_False].
Qed.
Lemma answers_same c r st :
  answers c {| state := st; sent := sent r ++ [] |} = answers c r.
Proof. by rewrite answers_app, app_nil_r. Qed.

Lemma below_S c n :
  (if bool_decide (c < S n)%nat then 1%nat else 0%nat) =
  ((if bool_decide (c < n)%nat then 1 else 0) + if bool_decide (n = c) then 1 else 0)%nat.
Proof. repeat case_bool_decide; lia. Qed.

Lemma Run_eta (r : Run) : r = {| state := state r; sent := sent r |}.
Proof. by destruct r. Qed.

Lemma pool_step opts f s0 p p' :
  NewFsm opts = Ok f → every_callback quiet opts →
  pool_ok opts s0 p → step f p p' → pool_ok opts s0 p'.
Proof.
  intros Hnew Hq [Hn Hp Ha] Hstep. destruct Hstep as [r q n ev r' E|r q n ev fu r' a E|
    r q1 ev c0 q2 n fu r' E]; cbn [run queue issued] in *.
  - rewrite (acknowledge_eq _ _ Hnew Hq) in E. injection E as <-.
    split; [done|done|]. intros c. cbn [run queue issued]. rewrite below_S, <- Ha.
    unfold owed. rewrite sum_list_with_app. cbn. unfold weight at 2. cbn.
    by_event opts ev; [rewrite answers_plus|rewrite answers_same];
      repeat case_bool_decide; naive_solver lia.
  - assert (Hz : answers n r = []).
    { specialize (Ha n). rewrite (bool_decide_eq_false_2 (n < n)%nat) in Ha by lia.
      destruct (answers n r); [done|cbn in Ha; lia]. }
    apply (SyncSendEvent_ends _ _ Hnew Hq) in E as (Hn' & Hs & Hstar & _); [|done].
    split; [done|by eapply star_trans|]. intros c. cbn [run queue issued].
    rewrite below_S, <- Ha, (Run_eta r'), Hs, answers_plus. lia.
  - apply (task_ends _ _ Hnew Hq) in E as (Hn' & a & _ & _ & Hstar & Hs).
    split; [by apply Hn'|by eapply star_trans|]. intros c. cbn [run queue issued].
    rewrite <- Ha, (Run_eta r'), Hs. unfold owed. rewrite !sum_list_with_app. cbn.
    unfold weight at 4. cbn.
    by_event opts ev; [rewrite answers_same|rewrite answers_plus];
      repeat case_bool_decide; naive_solver lia.
Qed.

(** C23: On a machine whose callbacks, if they return, leave its current state alone, and
    whatever the order in which events are sent, synchronously or through the pool, and in which the workers take the queued closures: every event sent is
    answered exactly once, or not yet and then its closure is still queued, so that
    no sender waits in vain and none is told twice (its channel has room for one
    value); and the state has only moved along the transition table. *)
Theorem pool_answers_once opts f i w p :
  NewFsm opts = Ok f → every_callback quiet opts →
  star (step f) (start (NewState i w)) p →
  next (state (run p)) = None ∧
  star (edge opts) i (current (state (run p))) ∧
  ∀ c, (length (answers c (run p)) + owed opts c (queue p) =
    if bool_decide (c < issued p)%nat then 1 else 0)%nat.
Proof.
  intros Hnew Hq Hstar.
  destruct (star_invariant (step f) (pool_ok opts i)) with (start (NewState i w) : Pool) p
    as [? ? ?]; [|done|split; [done|apply star_refl|done]|done].
  intros. by eapply pool_step.
Qed.

(** C22: A synchronous event completes on a machine that [NewFsm] accepts, none of whose
    callbacks is nil (and there is a generic one if there are non-transitional events) and
    whose callbacks return, leave its current state alone and lower a rank with every
    follow-up event they ask for: with fuel above the rank, the call returns; exactly its answer
    is sent on its channel; the answer is an error just when the table has no
    transition for the event, and then the state is what it was; otherwise the machine
    takes the transition and follows the table from there; no follow-up event is left
    behind. *)
Theorem sync_event_completes opts f rank fuel e c (r : Run) :
  NewFsm opts = Ok f → every_callback (good rank) opts → no_nil_callback opts →
  next (state r) = None → answers c r = [] → (rank (info (state r)) < fuel)%nat →
  ∃ r' a, SyncSendEvent fuel f e c r = (r', Ok (Some a)) ∧
    sent r' = sent r ++ [(c, a)] ∧ next (state r') = None ∧
    outcome opts e (current (state r)) (current (state r')) a.
Proof.
  intros Hnew Hgood Hnil Hn Hc Hf.
  destruct (SyncSendEvent_runs _ _ Hnew rank Hgood Hnil _ e _ _ Hc Hn Hf) as (r' & a & E).
  exists r', a. split; [done|].
  apply (SyncSendEvent_ends opts) in E; [|done|by eapply every_quiet|done].
  destruct E as (? & ? & _ & ?). auto.
Qed.
End Machine.
Arguments fsm : clear implicits.
Arguments Options : clear implicits.
Arguments Run : clear implicits.
Arguments Pool : clear implicits.
Arguments CallbackFn : clear implicits.

(** ** A machine of three states

    Its callbacks log what they see; entering [BUSY] asks for the follow-up event
    [done] as long as the budget lasts. *)
Definition trace : Type := nat * list string.
Definition log_cb (name : string) : CallbackFn unit trace := λ e s,
  let '(budget, l) := info s in
  let l := l ++ [(name +:+ ":" +:+ evType e)%string] in
  match decide (evType e = EntryEvent ∧ name = "BUSY"%string), budget with
  | left _, S b => (s <| info := (b, l) |> <| next := Some (NewEmptyEventData "done") |>, Ok tt)
  | _, _ => (s <| info := (budget, l) |>, Ok tt)
  end.
Definition sample_opts : Options unit trace :=
  {| o_Transitions := list_to_map
       [(Tuple "IDLE" "go", "BUSY"%string); (Tuple "BUSY" "done", "IDLE"%string)];
     o_Callbacks := list_to_map
       [("IDLE"%string, Some (log_cb "IDLE")); ("BUSY"%string, Some (log_cb "BUSY"))];
     GenericCallback := Some (log_cb "any");
     NonTransitionalEvents := ["ping"%string] |}.
Definition sample_fsm : fsm unit trace :=
  match NewFsm sample_opts with
  | Ok f => f
  | _ => {| transitions := ∅; callbacks := ∅; events := ∅; handler := None |}
  end.
Definition sample_run (b : nat) : Run unit trace :=
  {| state := NewState "IDLE" (b, []); sent := [] |}.
Definition ev (t : string) : EventData unit := NewEmptyEventData t.

Example go_trace :
  (info (state (SyncSendEvent 2 sample_fsm (ev "go") 0 (sample_run 1)).1)).2 =
  ["IDLE:go"; "IDLE:Exit Event"; "BUSY:Entry Event";
   "BUSY:done"; "BUSY:Exit Event"; "IDLE:Entry Event"]%string.
Proof. vm_compute. reflexivity. Qed.

Lemma sample_new : NewFsm sample_opts = Ok sample_fsm.
Proof. reflexivity. Qed.
Lemma log_cb_good name : good fst (log_cb name).
Proof.
  intros e [cur n [b l]]. unfold log_cb, progress. cbn.
  destruct (decide _) as [|]; [destruct b as [|b]|]; eexists; (split; [done|]);
    (split; [done|]); cbn; (left; split; [done|lia]) || (right; lia).
Qed.
Lemma sample_good : every_callback (good fst) sample_opts.
Proof.
  split; [|intros cb [= <-]; apply log_cb_good].
  intros s cb. unfold sample_opts, o_Callbacks.
  intros H%(elem_of_list_to_map_2 (M:=gmap StateType)). rewrite !elem_of_cons, elem_of_nil in H.
  destruct H as [?|[?|[]]]; simplify_eq; apply log_cb_good.
Qed.
Lemma sample_no_nil : no_nil_callback sample_opts.
Proof.
  split; [|by eexists]. intros s. unfold sample_opts, o_Callbacks.
  intros H%(elem_of_list_to_map_2 (M:=gmap StateType)).
  rewrite !elem_of_cons, elem_of_nil in H. by destruct H as [?|[?|[]]]; simplify_eq.
Qed.
Lemma sample_quiet : every_callback quiet sample_opts.
Proof. exact (every_quiet _ _ sample_new fst sample_good sample_no_nil). Qed.

Lemma sync_event_completes_witness : ∃ r' a,
  SyncSendEvent 2 sample_fsm (ev "go") 0 (sample_run 1) = (r', Ok (Some a)) ∧
  sent r' = [(0%nat, a)] ∧ next (state r') = None ∧
  outcome sample_opts (ev "go") "IDLE" (current (state r')) a.
Proof.
  apply (sync_event_completes sample_opts sample_fsm fst 2 (ev "go") 0 (sample_run 1)
    sample_new sample_good sample_no_nil); [reflexivity|reflexivity|cbn; lia].
Defined.

(** Two events are sent; the worker takes the second one first. *)
Definition sent_two : Pool unit trace :=
  {| run := {| state := NewState "IDLE" (1%nat, []); sent := [(1%nat, None)] |};
     queue := [(ev "go", 0%nat); (ev "ping", 1%nat)]; issued := 2 |}.
Definition worked_one : Pool unit trace :=
  {| run := (task 2 sample_fsm (ev "ping") 1 (run sent_two)).1;
     queue := [(ev "go", 0%nat)]; issued := 2 |}.

Lemma pool_answers_once_witness :
  answers 0 (run worked_one) = [] ∧ answers 1 (run worked_one) = [None] ∧
  next (state (run worked_one)) = None ∧
  star (edge sample_opts) "IDLE" (current (state (run worked_one))) ∧
  ∀ c, (length (answers c (run worked_one)) + owed sample_opts c (queue worked_one) =
    if bool_decide (c < 2)%nat then 1 else 0)%nat.
Proof.
  split; [reflexivity|]. split; [reflexivity|].
  apply (pool_answers_once sample_opts sample_fsm "IDLE" (1%nat, []) worked_one
    sample_new sample_quiet).
  eapply star_step; [by apply (step_send _ _ [] 0 (ev "go"))|].
  eapply star_step; [by apply (step_send _ _ [(ev "go", 0%nat)] 1 (ev "ping"))|].
  apply star_one.
  by apply (step_work _ _ [(ev "go", 0%nat)] (ev "ping") 1 [] 2 2).
Defined.
End Fsm.
