(* ===== verification/GoNum.v ===== *)
(** Machine integers, shifts and big-endian byte strings, as the Go code uses
    them: [uint8]..[uint64] and [int64] conversions, shifts with their panics,
    [encoding/binary]'s big-endian codec and the bytes of a [math/big.Int]. *)
From S2P Require Import Prelude.

(** ** Fixed-width integers *)
Definition u8 (z : Z) : Z := z mod 2 ^ 8.
Definition u16 (z : Z) : Z := z mod 2 ^ 16.
Definition u32 (z : Z) : Z := z mod 2 ^ 32.
Definition u64 (z : Z) : Z := z mod 2 ^ 64.
(** conversion of any integer to [int64] (and to [int] on a 64-bit target) *)
Definition i64 (z : Z) : Z := (z + 2 ^ 63) mod 2 ^ 64 - 2 ^ 63.

(** [uint64] shifts by a signed [int] count: a negative count panics. *)
Definition shl64 (x n : Z) : res Z :=
  if n <? 0 then Panic NegativeShift else Ok (u64 (Z.shiftl x n)).
Definition shr64 (x n : Z) : res Z :=
  if n <? 0 then Panic NegativeShift else Ok (Z.shiftr x n).

(** ** Bytes *)
Abbreviation is_u8 b := (0 ≤ b < 256).
Abbreviation bytes_ok := (Forall (λ b : Z, 0 ≤ b < 256)).

Definition be_step (acc b : Z) : Z := acc * 256 + b.
(** the unsigned integer a big-endian byte string denotes *)
Definition be_from (acc : Z) (bs : list Z) : Z := foldl be_step acc bs.
Definition be_decode (bs : list Z) : Z := be_from 0 bs.

Fixpoint be_encode (n : nat) (z : Z) : list Z :=
  match n with
  | O => []
  | S n' => be_encode n' (z / 256) ++ [z mod 256]
  end.

(** [big.Int.Bytes]: big-endian without leading zero bytes. *)
Definition big_len (z : Z) : nat :=
  if z <=? 0 then O else S (Z.to_nat (Z.log2 z / 8)).
Definition big_bytes (z : Z) : list Z := be_encode (big_len z) z.

Definition xor_bytes (a b : list Z) : list Z := zip_with Z.lxor a b.

(** ** Lemmas: powers and bits *)
Lemma pow2_pos n : 0 ≤ n → 0 < 2 ^ n.
Proof. intros. apply Z.pow_pos_nonneg; lia. Qed.

Lemma land_shiftl_small a b n : 0 ≤ n → 0 ≤ b < 2 ^ n → Z.land (Z.shiftl a n) b = 0.
Proof.
  intros Hn Hb. apply Z.bits_inj'. intros i Hi. rewrite Z.land_spec, Z.bits_0.
  destruct (decide (i < n)).
  - by rewrite Z.shiftl_spec_low.
  - rewrite <- (Z.mod_small b (2 ^ n)) by lia. rewrite Z.mod_pow2_bits_high, andb_false_r by lia. done.
Qed.

Lemma lor_shiftl_add a b n :
  0 ≤ n → 0 ≤ b < 2 ^ n → Z.lor (Z.shiftl a n) b = a * 2 ^ n + b.
Proof.
  intros Hn Hb. pose proof (Z.add_lor_land (Z.shiftl a n) b) as H.
  rewrite land_shiftl_small in H by done. rewrite Z.shiftl_mul_pow2 in * by done. lia.
Qed.

Lemma testbit_high z n i : 0 ≤ z < 2 ^ n → n ≤ i → Z.testbit z i = false.
Proof.
  intros Hz Hi. destruct (decide (n < 0)) as [Hn|Hn].
  - rewrite Z.pow_neg_r in Hz by done. lia.
  - rewrite <- (Z.mod_small z (2 ^ n)) by done. apply Z.mod_pow2_bits_high. lia.
Qed.

Lemma bits_bound z n : 0 ≤ n → 0 ≤ z → (∀ i, n ≤ i → Z.testbit z i = false) → z < 2 ^ n.
Proof.
  intros Hn Hz H. replace z with (z mod 2 ^ n); [by apply Z.mod_pos_bound, pow2_pos|].
  apply Z.bits_inj'. intros i Hi. destruct (decide (i < n)).
  - by rewrite Z.mod_pow2_bits_low.
  - rewrite H by lia. apply Z.mod_pow2_bits_high. lia.
Qed.

Lemma lxor_byte a b : is_u8 a → is_u8 b → is_u8 (Z.lxor a b).
Proof.
  intros Ha Hb. assert (0 ≤ Z.lxor a b) by (apply Z.lxor_nonneg; lia).
  split; [done|]. apply (bits_bound _ 8); [lia|done|]. intros i Hi.
  rewrite Z.lxor_spec, (testbit_high a 8), (testbit_high b 8) by lia. done.
Qed.

Lemma lxor_cancel a b : Z.lxor (Z.lxor a b) b = a.
Proof. by rewrite Z.lxor_assoc, Z.lxor_nilpotent, Z.lxor_0_r. Qed.

Lemma u64_small z : 0 ≤ z < 2 ^ 64 → u64 z = z.
Proof. apply Z.mod_small. Qed.
Lemma i64_small z : - 2 ^ 63 ≤ z < 2 ^ 63 → i64 z = z.
Proof. intros. unfold i64. rewrite Z.mod_small; lia. Qed.
Lemma u64_range z : 0 ≤ u64 z < 2 ^ 64.
Proof. by apply Z.mod_pos_bound. Qed.

(** ** Lemmas: big-endian codec *)
Lemma pow256 n : 2 ^ (8 * Z.of_nat n) = 256 ^ Z.of_nat n.
Proof. rewrite Z.pow_mul_r by lia. done. Qed.

Lemma be_from_add acc bs :
  be_from acc bs = acc * 2 ^ (8 * zlen bs) + be_decode bs.
Proof.
  unfold be_decode, zlen. rewrite pow256. revert acc.
  induction bs as [|b bs IH]; intros acc; unfold be_from; simpl foldl.
  - simpl. lia.
  - simpl length. rewrite Nat2Z.inj_succ, Z.pow_succ_r by lia.
    change (foldl be_step ?x bs) with (be_from x bs).
    rewrite (IH (be_step acc b)), (IH (be_step 0 b)). unfold be_step. lia.
Qed.

Lemma be_decode_cons b bs :
  be_decode (b :: bs) = b * 2 ^ (8 * zlen bs) + be_decode bs.
Proof. rewrite <- be_from_add. unfold be_decode, be_from, be_step. done. Qed.

Lemma be_decode_app l k :
  be_decode (l ++ k) = be_decode l * 2 ^ (8 * zlen k) + be_decode k.
Proof.
  rewrite <- be_from_add. unfold be_decode, be_from. by rewrite foldl_app.
Qed.

Lemma be_decode_bound bs : bytes_ok bs → 0 ≤ be_decode bs < 2 ^ (8 * zlen bs).
Proof.
  unfold zlen. rewrite pow256.
  induction 1 as [|b bs Hb Hbs IH]; [done|].
  rewrite be_decode_cons. unfold zlen. rewrite pow256. simpl length.
  rewrite Nat2Z.inj_succ, Z.pow_succ_r by lia. nia.
Qed.

Lemma be_encode_length n z : length (be_encode n z) = n.
Proof.
  revert z. induction n as [|n IH]; intros z; simpl; [done|].
  rewrite length_app, IH. simpl. lia.
Qed.

Lemma be_encode_zlen n z : zlen (be_encode n z) = Z.of_nat n.
Proof. unfold zlen. by rewrite be_encode_length. Qed.

Lemma be_encode_ok n z : bytes_ok (be_encode n z).
Proof.
  revert z. induction n as [|n IH]; intros z; simpl; [constructor|].
  apply Forall_app. split; [done|]. constructor; [|constructor].
  by apply Z.mod_pos_bound.
Qed.

Lemma be_decode_encode n z : be_decode (be_encode n z) = z mod 2 ^ (8 * Z.of_nat n).
Proof.
  rewrite pow256. revert z. induction n as [|n IH]; intros z; simpl be_encode.
  - by rewrite Z.mod_1_r.
  - rewrite be_decode_app, IH, Nat2Z.inj_succ, Z.pow_succ_r by lia.
    change (zlen [z mod 256]) with 1. change (be_decode [z mod 256]) with (0 * 256 + z mod 256).
    rewrite Z.rem_mul_r by lia. lia.
Qed.

Lemma be_encode_decode bs : bytes_ok bs → be_encode (length bs) (be_decode bs) = bs.
Proof.
  induction bs as [|b bs IH] using rev_ind; intros H; [done|].
  apply Forall_app in H as [Hbs Hb]. inversion_clear Hb as [|?? Hb' _].
  rewrite length_app, Nat.add_comm, be_decode_app. simpl be_encode.
  change (zlen [b]) with 1. change (be_decode [b]) with (0 * 256 + b).
  change (2 ^ (8 * 1)) with 256.
  replace ((be_decode bs * 256 + (0 * 256 + b)) / 256) with (be_decode bs)
    by (rewrite Z.add_0_l, Z.div_add_l, Z.div_small by lia; lia).
  rewrite IH by done. f_equal. f_equal.
  rewrite Z.add_comm, Z.mod_add, Z.mod_small; lia.
Qed.

Lemma be_decode_inj l k :
  bytes_ok l → bytes_ok k → length l = length k → be_decode l = be_decode k → l = k.
Proof.
  intros Hl Hk Hlen E. rewrite <- (be_encode_decode l Hl), <- (be_encode_decode k Hk).
  by rewrite Hlen, E.
Qed.

Lemma be_encode_mod n z : be_encode n (z mod 2 ^ (8 * Z.of_nat n)) = be_encode n z.
Proof.
  apply be_decode_inj; auto using be_encode_ok.
  - by rewrite !be_encode_length.
  - rewrite !be_decode_encode. by rewrite Zmod_mod.
Qed.

Lemma be_encode_app n m z :
  be_encode (n + m) z = be_encode n (z / 2 ^ (8 * Z.of_nat m)) ++ be_encode m z.
Proof.
  rewrite pow256. revert z. induction m as [|m IH]; intros z.
  - rewrite Nat.add_0_r. simpl. by rewrite Z.div_1_r, app_nil_r.
  - rewrite Nat.add_succ_r. simpl be_encode. rewrite IH, app_assoc.
    rewrite Z.div_div, Nat2Z.inj_succ, Z.pow_succ_r by lia. done.
Qed.

Lemma be_encode_0 n : be_encode n 0 = replicate n 0.
Proof.
  induction n as [|n IH]; [done|]. simpl be_encode. change (0 / 256) with 0.
  rewrite IH. change [0 mod 256] with (replicate 1 0).
  rewrite <- replicate_add. f_equal. lia.
Qed.

(** [big_bytes] is the shortest encoding: enough bytes, none of them spare. *)
Lemma big_len_bound z : 0 ≤ z → z < 2 ^ (8 * Z.of_nat (big_len z)).
Proof.
  intros Hz. unfold big_len. destruct (Z.leb_spec z 0); [simpl; lia|].
  pose proof (Z.log2_nonneg z). pose proof (Z.log2_spec z ltac:(lia)) as [_ Hlt].
  eapply Z.lt_le_trans; [exact Hlt|]. apply Z.pow_le_mono_r; [lia|].
  rewrite Nat2Z.inj_succ, Z2Nat.id by (apply Z.div_pos; lia).
  pose proof (Z.mod_pos_bound (Z.log2 z) 8 ltac:(lia)).
  pose proof (Z.div_mod (Z.log2 z) 8 ltac:(lia)). lia.
Qed.

Lemma big_len_le z n : z < 2 ^ (8 * Z.of_nat n) → (big_len z ≤ n)%nat.
Proof.
  intros Hz. unfold big_len. destruct (Z.leb_spec z 0); [lia|].
  assert (Z.log2 z < 8 * Z.of_nat n) by (apply Z.log2_lt_pow2; lia).
  pose proof (Z.log2_nonneg z).
  assert (Z.log2 z / 8 < Z.of_nat n) by (apply Z.div_lt_upper_bound; lia). lia.
Qed.

Lemma big_bytes_length z : length (big_bytes z) = big_len z.
Proof. apply be_encode_length. Qed.

(** Left-padding the minimal encoding to [n] bytes is the [n]-byte encoding. *)
Lemma big_bytes_pad z n :
  0 ≤ z → (big_len z ≤ n)%nat →
  replicate (n - big_len z) 0 ++ big_bytes z = be_encode n z.
Proof.
  intros Hz Hn. replace n with ((n - big_len z) + big_len z)%nat at 2 by lia.
  rewrite be_encode_app, Z.div_small by (split; [done|by apply big_len_bound]).
  by rewrite be_encode_0.
Qed.

(** Keeping the last [n] bytes of a longer encoding is the [n]-byte encoding. *)
Lemma big_bytes_drop z n :
  (n ≤ big_len z)%nat → drop (big_len z - n) (big_bytes z) = be_encode n z.
Proof.
  intros Hn. unfold big_bytes.
  replace (be_encode (big_len z) z) with (be_encode ((big_len z - n) + n) z) by (f_equal; lia).
  rewrite be_encode_app, drop_app_length'; [done|]. by rewrite be_encode_length.
Qed.

(** ** Lemmas: byte-wise xor *)
Lemma xor_bytes_length a b : length (xor_bytes a b) = Nat.min (length a) (length b).
Proof. apply length_zip_with. Qed.

Lemma xor_bytes_ok a b : bytes_ok a → bytes_ok b → bytes_ok (xor_bytes a b).
Proof.
  intros Ha. revert b. induction Ha; intros b Hb; [constructor|].
  inversion Hb; subst; [constructor|]. simpl. constructor; [by apply lxor_byte|].
  by apply IHHa.
Qed.

Lemma xor_bytes_cancel a b :
  length a = length b → xor_bytes (xor_bytes a b) b = a.
Proof.
  revert b. induction a as [|x a IH]; intros [|y b] H; try done.
  unfold xor_bytes in *. simpl in *. rewrite lxor_cancel. f_equal. apply IH. lia.
Qed.

Lemma xor_bytes_comm a b : xor_bytes a b = xor_bytes b a.
Proof.
  revert b. induction a as [|x a IH]; intros [|y b]; try done.
  unfold xor_bytes in *. simpl. by rewrite Z.lxor_comm, IH.
Qed.

Create HintDb bytes discriminated.
Create Rewrite HintDb bytes.
#[export] Hint Resolve be_encode_ok xor_bytes_ok : bytes.
#[export] Hint Rewrite be_encode_length be_encode_zlen xor_bytes_length : bytes.
