(* ===== verification/Asn1.v ===== *)
(** ASN.1 bit strings and the 5G-S-TMSI codec: [internal/common/utils/asn1.go]
    and the cell-identity reader of [internal/context/handle_du.go].

    A bit string is the pair of its bytes and its number of bits, as in the
    [aper.BitString] the code builds with a composite literal. *)
From S2P Require Import Prelude GoNum.

Record BitString := { Bytes : list Z; NumBits : Z }.
#[export] Instance eta_BitString : Eta BitString :=
  λ b, {| Bytes := Bytes b; NumBits := NumBits b |}.
#[export] Instance BitString_eq_dec : EqDecision BitString.
Proof. solve_decision. Defined.

(** What [ies.FiveGSTMSI] carries (the three fields the code sets). *)
Record FiveGSTMSI := { AMFSetID : BitString; AMFPointer : BitString; FiveGTMSI : list Z }.

(** ** Definitions *)

Definition Build5GSTMSI (part2 part1 : BitString) : list Z :=
  let v2 := be_decode (Bytes part2) in
  let v1 := be_decode (Bytes part1) in
  let v2 := Z.shiftl v2 39 in
  let res := Z.lor v2 v1 in
  let b := big_bytes res in
  let outLen := 6%nat in
  if Nat.ltb outLen (length b) then drop (length b - outLen) b
  else if Nat.ltb (length b) outLen then replicate (outLen - length b) 0 ++ b
  else b.

(** [val = (val << 8) | uint64(b)] over [uint64] *)
Definition shift_in (val b : Z) : Z := Z.lor (u64 (Z.shiftl val 8)) b.

Inductive decode_error : Type := ErrTmsiLength (tmsi : list Z).

Definition Decode5GSTMSI (tmsi : list Z) : FiveGSTMSI + decode_error :=
  if negb (zlen tmsi =? 6) then inr (ErrTmsiLength tmsi)
  else
    let val := foldl shift_in 0 tmsi in
    let amfSetIDVal := u16 (Z.shiftr val 38) in
    let amfPtrVal := u8 (Z.land (Z.shiftr val 32) 63) in
    let fivegTMSIVal := u32 val in
    inl {| AMFSetID := {| Bytes := be_encode 2 amfSetIDVal; NumBits := 10 |};
           AMFPointer := {| Bytes := [amfPtrVal]; NumBits := 9 |};
           FiveGTMSI := be_encode 4 fivegTMSIVal |}.

(** The loop of [BitStringToUint64] over all bytes but the last; [shift] drops
    by 8 at every turn and Go panics on a negative count. *)
Fixpoint BitStringToUint64_loop (bs : list Z) (shift result : Z) : res Z :=
  match bs with
  | [] => mret result
  | b :: bs' =>
      x ← shl64 b shift;
      BitStringToUint64_loop bs' (shift - 8) (Z.lor result x)
  end.

Definition BitStringToUint64 (asn : BitString) : res Z :=
  let len := zlen (Bytes asn) in
  let bitsUnused := len * 8 - i64 (NumBits asn) in
  if (len =? 0) || (8 <? len) then Panic (Explicit "invalid BitString size")
  else
    let shift := (len - 1) * 8 - bitsUnused in
    result ← BitStringToUint64_loop (removelast (Bytes asn)) shift 0;
    last ← index (Bytes asn) (len - 1);
    x ← shr64 last bitsUnused;
    mret (Z.lor result x).

Fixpoint be_read (n : nat) (bs : list Z) (value : Z) : Z :=
  match n, bs with
  | S n', b :: bs' => be_read n' bs' (shift_in value b)
  | _, _ => value
  end.

Definition extractRandomValue (randomValueBytes : list Z) : Z :=
  let len := zlen randomValueBytes in
  if len =? 0 then 0
  else if 5 <=? len then
    let value := be_read 5 randomValueBytes 0 in
    if len =? 5 then Z.shiftr value 1 else value
  else be_read (length randomValueBytes) randomValueBytes 0.

(** The reading loop shared (textually) by [extractSTMSI] and
    [extractCellIDValue]: take [bitsToRead] bits from the front, most
    significant first, keeping the leading bits of the last byte read. *)
Fixpoint read_bits (bs : list Z) (bitsToRead value : Z) : Z :=
  match bs with
  | [] => value
  | b :: bs' =>
      if 0 <? bitsToRead then
        let bits := if bitsToRead <? 8 then bitsToRead else 8 in
        read_bits bs' (bitsToRead - bits)
          (Z.lor (u64 (Z.shiftl value bits)) (Z.shiftr b (8 - bits)))
      else value
  end.

Definition extractSTMSI (stmsiBytes : list Z) (numBits : Z) : Z :=
  if zlen stmsiBytes =? 0 then 0
  else
    let bitsToRead := i64 numBits in
    let bitsToRead := if 64 <? bitsToRead then 64 else bitsToRead in
    read_bits stmsiBytes bitsToRead 0.

Definition extractCellIDValue (cellID : BitString) : Z :=
  if zlen (Bytes cellID) =? 0 then 0
  else
    let bitsToRead := i64 (NumBits cellID) in
    let bitsToRead := if 64 <? bitsToRead then 64 else bitsToRead in
    read_bits (Bytes cellID) bitsToRead 0.

Definition cellIDsMatch (cellID1 : BitString) (cellID2 : Z) : bool :=
  extractCellIDValue cellID1 =? cellID2.

(** [copy(padded[8-len(data):], data)]: the slice bound is negative, and Go
    panics, when [data] is longer than 8 bytes. *)
Definition extractUint64FromBytes (data : list Z) : res Z :=
  if zlen data =? 0 then Ok 0
  else if 8 <? zlen data then Panic IndexOutOfRange
  else Ok (be_decode (replicate (8 - length data) 0 ++ data)).

(** ** Reference definitions *)

(** The number the leading [k] bits of a byte string denote. *)
Definition leading_bits (bs : list Z) (k : Z) : Z :=
  Z.shiftr (be_decode bs) (8 * zlen bs - k).

(** The 48-bit number a TMSI triple stands for. *)
Definition tmsi_value (t : FiveGSTMSI) : Z :=
  be_decode (Bytes (AMFSetID t)) * 2 ^ 38
  + be_decode (Bytes (AMFPointer t)) * 2 ^ 32 + be_decode (FiveGTMSI t).

(** ** Lemmas *)
Lemma shift_in_be val b :
  is_u8 b → 0 ≤ val < 2 ^ 56 → shift_in val b = be_step val b.
Proof.
  intros Hb Hv. unfold shift_in, be_step, u64.
  rewrite Z.mod_small by (rewrite Z.shiftl_mul_pow2 by lia; lia).
  by rewrite lor_shiftl_add by lia.
Qed.

Lemma foldl_shift_in bs acc :
  bytes_ok bs → 0 ≤ acc → acc * 2 ^ (8 * zlen bs) + 2 ^ (8 * zlen bs) ≤ 2 ^ 64 →
  foldl shift_in acc bs = be_from acc bs.
Proof.
  intros H. revert acc. induction H as [|b bs Hb Hbs IH]; intros acc Ha Hbd; [done|].
  unfold be_from. simpl. rewrite zlen_cons in Hbd.
  replace (8 * (1 + zlen bs)) with (8 + 8 * zlen bs) in Hbd by lia.
  pose proof (zlen_nonneg bs). pose proof (pow2_pos (8 * zlen bs) ltac:(lia)).
  rewrite Z.pow_add_r in Hbd by lia. change (2 ^ 8) with 256 in Hbd.
  assert (0 ≤ acc < 2 ^ 56) by nia.
  rewrite shift_in_be by done. apply IH; unfold be_step; nia.
Qed.

Lemma be_read_take n bs acc : be_read n bs acc = foldl shift_in acc (take n bs).
Proof.
  revert bs acc. induction n as [|n IH]; intros [|b bs] acc; simpl; done.
Qed.

Lemma read_bits_0 bs v : read_bits bs 0 v = v.
Proof. by destruct bs. Qed.

(** One turn of [read_bits] at a full byte, and at a partial one. *)
Lemma read_bits_spec bs r v :
  bytes_ok bs → 0 ≤ r → 0 ≤ v →
  (v + 1) * 2 ^ (r `min` (8 * zlen bs)) ≤ 2 ^ 64 →
  read_bits bs r v =
    v * 2 ^ (r `min` (8 * zlen bs)) + leading_bits bs (r `min` (8 * zlen bs)).
Proof.
  intros H. revert r v. induction H as [|b bs Hb Hbs IH]; intros r v Hr Hv Hbd.
  { simpl. rewrite Z.min_r by (unfold zlen; simpl; lia).
    change (leading_bits [] _) with 0. change (2 ^ (8 * zlen [])) with 1. lia. }
  simpl. pose proof (zlen_nonneg bs) as Hz. rewrite zlen_cons in *.
  pose proof (be_decode_bound bs Hbs) as HD. unfold leading_bits in *.
  rewrite be_decode_cons, zlen_cons in *. set (m := zlen bs) in *.
  destruct (Z.ltb_spec 0 r) as [Hr0|Hr0].
  2:{ replace r with 0 by lia. rewrite Z.min_l by lia. simpl (2 ^ 0).
      rewrite Z.shiftr_div_pow2, Z.div_small; [lia| |lia].
      replace (8 * (1 + m) - 0) with (8 + 8 * m) by lia.
      rewrite Z.pow_add_r by lia. nia. }
  destruct (Z.ltb_spec r 8) as [Hr8|Hr8].
  - rewrite Z.min_l in * by lia.
    assert (u64 (Z.shiftl v r) = Z.shiftl v r) as ->.
    { apply u64_small. rewrite Z.shiftl_mul_pow2 by lia. pose proof (pow2_pos r). nia. }
    assert (Z.shiftr b (8 - r) < 2 ^ r) as Hsh.
    { rewrite Z.shiftr_div_pow2 by lia. apply Z.div_lt_upper_bound; [apply pow2_pos; lia|].
      rewrite <- Z.pow_add_r by lia. replace (8 - r + r) with 8 by lia. lia. }
    assert (0 ≤ Z.shiftr b (8 - r)) by (apply Z.shiftr_nonneg; lia).
    rewrite lor_shiftl_add by lia.
    replace (r - r) with 0 by lia.
    rewrite read_bits_0.
    f_equal. replace (8 * (1 + m) - r) with (8 * m + (8 - r)) by lia.
    rewrite <- Z.shiftr_shiftr by lia. f_equal.
    rewrite Z.shiftr_div_pow2, Z.div_add_l, Z.div_small by lia. lia.
  - replace (r `min` (8 * (1 + m))) with (8 + (r - 8) `min` (8 * m)) in * by lia.
    set (k := (r - 8) `min` (8 * m)) in *. assert (0 ≤ k ≤ 8 * m) by lia.
    rewrite Z.pow_add_r in * by lia. change (2 ^ 8) with 256 in *.
    pose proof (pow2_pos k ltac:(lia)).
    assert (u64 (Z.shiftl v 8) = Z.shiftl v 8) as ->.
    { apply u64_small. rewrite Z.shiftl_mul_pow2 by lia. nia. }
    change (8 - 8) with 0. rewrite Z.shiftr_0_r, lor_shiftl_add by lia.
    change (2 ^ 8) with 256. fold k in IH. rewrite IH by (fold k; nia). fold k.
    replace (8 * (1 + m) - (8 + k)) with (8 * m - k) by lia.
    rewrite !Z.shiftr_div_pow2 by lia.
    replace (b * 2 ^ (8 * m)) with (b * 2 ^ k * 2 ^ (8 * m - k))
      by (rewrite <- Z.mul_assoc, <- Z.pow_add_r by lia; do 2 f_equal; lia).
    rewrite Z.div_add_l by (pose proof (pow2_pos (8 * m - k)); lia). lia.
Qed.

Lemma u64_shl b s : 0 ≤ s ≤ 56 → is_u8 b → u64 (Z.shiftl b s) = b * 2 ^ s.
Proof.
  intros Hs Hb. rewrite Z.shiftl_mul_pow2 by lia. apply u64_small.
  pose proof (Z.pow_le_mono_r 2 s 56 ltac:(lia) ltac:(lia)).
  pose proof (pow2_pos s ltac:(lia)). nia.
Qed.

(** The loop of [BitStringToUint64] while its shifts stay non-negative: with
    [k] the shift after the last turn, it adds [be_decode bs * 2 ^ (k + 8)]. *)
Lemma BitStringToUint64_loop_Ok bs k q :
  bytes_ok bs → -8 ≤ k → k + 8 * zlen bs ≤ 56 →
  (bs = [] ∨ 0 ≤ k + 8) → 0 ≤ q →
  BitStringToUint64_loop bs (k + 8 * zlen bs) (q * 2 ^ (k + 8 + 8 * zlen bs)) =
    Ok (q * 2 ^ (k + 8 + 8 * zlen bs) + be_decode bs * 2 ^ (k + 8)).
Proof.
  intros H. revert q. induction H as [|b bs Hb Hbs IH]; intros q Hk Hu Hn Hq.
  { simpl. change (be_decode []) with 0. do 2 f_equal. lia. }
  rewrite zlen_cons in *. pose proof (zlen_nonneg bs).
  cbn [BitStringToUint64_loop]. unfold shl64.
  rewrite (proj2 (Z.ltb_ge _ _)) by lia. cbn [mbind res_bind].
  rewrite u64_shl by lia.
  replace (q * 2 ^ (k + 8 + 8 * (1 + zlen bs))) with (q * 256 * 2 ^ (k + 8 * (1 + zlen bs)))
    by (rewrite <- Z.mul_assoc; f_equal; change 256 with (2 ^ 8);
        rewrite <- Z.pow_add_r by lia; f_equal; lia).
  assert (Z.lor (q * 256 * 2 ^ (k + 8 * (1 + zlen bs))) (b * 2 ^ (k + 8 * (1 + zlen bs)))
          = (q * 256 + b) * 2 ^ (k + 8 + 8 * zlen bs)) as ->.
  { replace (k + 8 + 8 * zlen bs) with (k + 8 * (1 + zlen bs)) by lia.
    rewrite <- !Z.shiftl_mul_pow2 by lia. rewrite <- Z.shiftl_lor. f_equal.
    change 256 with (2 ^ 8). rewrite <- (lor_shiftl_add q b 8) by lia.
    by rewrite Z.shiftl_mul_pow2 by lia. }
  replace (k + 8 * (1 + zlen bs) - 8) with (k + 8 * zlen bs) by lia.
  rewrite IH by lia. rewrite be_decode_cons. f_equal.
  replace (2 ^ (k + 8 + 8 * zlen bs)) with (2 ^ (8 * zlen bs) * 2 ^ (k + 8))
    by (rewrite <- Z.pow_add_r by lia; f_equal; lia).
  replace (2 ^ (k + 8 * (1 + zlen bs))) with (2 ^ (8 * zlen bs) * 2 ^ (k + 8))
    by (rewrite <- Z.pow_add_r by lia; f_equal; lia). lia.
Qed.

Lemma BitStringToUint64_loop_neg bs s r :
  s < 8 * (zlen bs - 1) → bs ≠ [] →
  BitStringToUint64_loop bs s r = Panic NegativeShift.
Proof.
  revert s r. induction bs as [|b bs IH]; intros s r Hs Hne; [done|].
  rewrite zlen_cons in Hs. cbn. unfold shl64. destruct (Z.ltb_spec s 0); [done|].
  cbn. apply IH; [lia|]. intros ->. unfold zlen in Hs. simpl in Hs. lia.
Qed.

(** Whatever the shifts, the loop ends with a value or a negative-shift panic. *)
Lemma BitStringToUint64_loop_total bs s r :
  8 * (zlen bs - 1) ≤ s → ∃ v, BitStringToUint64_loop bs s r = Ok v.
Proof.
  revert s r. induction bs as [|b bs IH]; intros s r Hs; [by eexists|].
  rewrite zlen_cons in Hs. pose proof (zlen_nonneg bs). cbn. unfold shl64.
  rewrite (proj2 (Z.ltb_ge _ _)) by lia. cbn. apply IH. lia.
Qed.

Lemma leading_bits_snoc init l u :
  is_u8 l → bytes_ok init → 0 ≤ u ≤ 8 →
  leading_bits (init ++ [l]) (8 * zlen (init ++ [l]) - u)
    = be_decode init * 2 ^ (8 - u) + Z.shiftr l u.
Proof.
  intros Hl Hi Hu. unfold leading_bits.
  replace (8 * zlen (init ++ [l]) - (8 * zlen (init ++ [l]) - u)) with u by lia.
  rewrite be_decode_app. change (be_decode [l]) with (0 * 256 + l).
  change (2 ^ (8 * zlen [l])) with (2 ^ 8). rewrite !Z.shiftr_div_pow2 by lia.
  replace (2 ^ 8) with (2 ^ (8 - u) * 2 ^ u)
    by (rewrite <- Z.pow_add_r by lia; f_equal; lia).
  rewrite Z.mul_assoc, Z.div_add_l by (pose proof (pow2_pos u); lia). done.
Qed.

Lemma shiftr_byte_bound l u : is_u8 l → 0 ≤ u ≤ 8 → 0 ≤ Z.shiftr l u < 2 ^ (8 - u).
Proof.
  intros Hl Hu. split; [apply Z.shiftr_nonneg; lia|].
  rewrite Z.shiftr_div_pow2 by lia. apply Z.div_lt_upper_bound; [by apply pow2_pos; lia|].
  rewrite <- Z.pow_add_r by lia. replace (u + (8 - u)) with 8 by lia. lia.
Qed.

Lemma BitStringToUint64_snoc init l n :
  bytes_ok init → is_u8 l → zlen init ≤ 7 → 0 ≤ n < 2 ^ 63 →
  BitStringToUint64 {| Bytes := init ++ [l]; NumBits := n |} =
    if (8 * zlen init <=? n) && (n <=? 8 * (zlen init + 1))
    then Ok (leading_bits (init ++ [l]) n) else Panic NegativeShift.
Proof.
  intros Hi Hl Hlen Hn. pose proof (zlen_nonneg init). unfold BitStringToUint64. cbn [Bytes NumBits].
  rewrite i64_small by lia. rewrite zlen_app. change (zlen [l]) with 1.
  rewrite (proj2 (Z.eqb_neq _ _)), (proj2 (Z.ltb_ge _ _)) by lia. cbn [orb].
  rewrite removelast_last.
  replace ((zlen init + 1 - 1) * 8 - ((zlen init + 1) * 8 - n)) with (n - 8) by lia.
  assert (index (init ++ [l]) (zlen init + 1 - 1) = Ok l) as Hlast.
  { replace (zlen init + 1 - 1) with (Z.of_nat (length init)) by (unfold zlen; lia).
    apply index_Some. by rewrite lookup_app_r, Nat.sub_diag. }
  unfold shr64. destruct (Z.leb_spec (8 * zlen init) n) as [Hlo|Hlo]; cbn [andb].
  2:{ rewrite BitStringToUint64_loop_neg; [done|lia|]. intros ->. unfold zlen in Hlo. simpl in Hlo. lia. }
  destruct (Z.leb_spec n (8 * (zlen init + 1))) as [Hhi|Hhi].
  - set (u := (zlen init + 1) * 8 - n). assert (0 ≤ u ≤ 8) by lia.
    pose proof (BitStringToUint64_loop_Ok init (n - 8 - 8 * zlen init) 0 Hi
      ltac:(lia) ltac:(lia) ltac:(lia) ltac:(lia)) as Hloop.
    replace (n - 8 - 8 * zlen init + 8 * zlen init) with (n - 8) in Hloop by lia.
    rewrite Z.mul_0_l in Hloop. rewrite Hloop. cbn [mbind res_bind]. rewrite Hlast. cbn [mbind res_bind].
    fold u. rewrite (proj2 (Z.ltb_ge _ _)) by lia. cbn. f_equal.
    replace n with (8 * zlen (init ++ [l]) - u) at 2 by (rewrite zlen_app; change (zlen [l]) with 1; lia).
    rewrite leading_bits_snoc by done. pose proof (shiftr_byte_bound l u Hl ltac:(lia)).
    replace (n - 8 - 8 * zlen init + 8) with (8 - u) by lia.
    rewrite Z.add_0_l, <- (lor_shiftl_add _ _ (8 - u)) by lia.
    by rewrite Z.shiftl_mul_pow2 by lia.
  - destruct (BitStringToUint64_loop_total init (n - 8) 0 ltac:(lia)) as [v ->].
    cbn [mbind res_bind]. rewrite Hlast. cbn [mbind res_bind].
    by rewrite (proj2 (Z.ltb_lt _ _)) by lia.
Qed.

(** *** The 5G-S-TMSI *)
Lemma Build5GSTMSI_eq p2 p1 :
  bytes_ok (Bytes p2) → bytes_ok (Bytes p1) →
  Build5GSTMSI p2 p1 =
    be_encode 6 (Z.lor (Z.shiftl (be_decode (Bytes p2)) 39) (be_decode (Bytes p1))).
Proof.
  intros H2 H1. unfold Build5GSTMSI. cbv zeta. set (v := Z.lor _ _).
  assert (0 ≤ v) as Hv.
  { apply Z.lor_nonneg. split; [apply Z.shiftl_nonneg|]; by apply be_decode_bound. }
  rewrite big_bytes_length.
  destruct (Nat.ltb_spec 6 (big_len v)); [apply big_bytes_drop; lia|].
  destruct (Nat.ltb_spec (big_len v) 6); [apply big_bytes_pad; [done|lia]|].
  unfold big_bytes. f_equal. lia.
Qed.

(** The big-endian split of a 48-bit value that [Decode5GSTMSI] returns. *)
Definition tmsi_of (val : Z) : FiveGSTMSI :=
  {| AMFSetID := {| Bytes := be_encode 2 (val / 2 ^ 38); NumBits := 10 |};
     AMFPointer := {| Bytes := [val / 2 ^ 32 mod 2 ^ 6]; NumBits := 9 |};
     FiveGTMSI := be_encode 4 val |}.

Lemma Decode5GSTMSI_eq tmsi :
  bytes_ok tmsi → zlen tmsi = 6 → Decode5GSTMSI tmsi = inl (tmsi_of (be_decode tmsi)).
Proof.
  intros Hb Hl. unfold Decode5GSTMSI, tmsi_of. rewrite Hl. cbn [negb Z.eqb Pos.eqb].
  rewrite foldl_shift_in by (rewrite ?Hl; done || lia).
  change (be_from 0 tmsi) with (be_decode tmsi).
  pose proof (be_decode_bound tmsi Hb) as HB. rewrite Hl in HB. change (8 * 6) with 48 in HB.
  set (v := be_decode tmsi) in *. rewrite !Z.shiftr_div_pow2 by lia. do 2 f_equal.
  - do 2 f_equal. unfold u16. apply Z.mod_small. split; [by apply Z.div_pos; lia|].
    apply Z.div_lt_upper_bound; lia.
  - do 2 f_equal. change 63 with (Z.ones 6). rewrite Z.land_ones by lia. unfold u8.
    apply Z.mod_small. pose proof (Z.mod_pos_bound (v / 2 ^ 32) (2 ^ 6)). lia.
  - unfold u32. change 32 with (8 * Z.of_nat 4). apply be_encode_mod.
Qed.

Lemma tmsi_of_value val :
  0 ≤ val < 2 ^ 48 →
  tmsi_value (tmsi_of val) = val ∧
  0 ≤ be_decode (Bytes (AMFSetID (tmsi_of val))) < 2 ^ 10 ∧
  0 ≤ be_decode (Bytes (AMFPointer (tmsi_of val))) < 2 ^ 6.
Proof.
  intros Hv. unfold tmsi_value, tmsi_of. cbn [AMFSetID AMFPointer FiveGTMSI Bytes].
  rewrite !be_decode_encode. change (8 * Z.of_nat 2) with 16. change (8 * Z.of_nat 4) with 32.
  assert (be_decode [val / 2 ^ 32 mod 2 ^ 6] = val / 2 ^ 32 mod 2 ^ 6) as -> by done.
  assert (0 ≤ val / 2 ^ 38 < 2 ^ 10).
  { split; [apply Z.div_pos; lia|]. apply Z.div_lt_upper_bound; lia. }
  rewrite (Z.mod_small (val / 2 ^ 38)) by lia.
  pose proof (Z.mod_pos_bound (val / 2 ^ 32) (2 ^ 6) ltac:(lia)).
  split; [|lia].
  replace (val / 2 ^ 38) with (val / 2 ^ 32 / 2 ^ 6) by (rewrite Z.div_div; done || lia).
  pose proof (Z.div_mod (val / 2 ^ 32) (2 ^ 6)). pose proof (Z.div_mod val (2 ^ 32)). lia.
Qed.

Lemma extractCellIDValue_spec_aux (c : BitString) :
  bytes_ok (Bytes c) → 0 ≤ NumBits c < 2 ^ 63 →
  extractCellIDValue c =
    leading_bits (Bytes c) (Z.min (Z.min (NumBits c) 64) (8 * zlen (Bytes c))).
Proof.
  intros Hb Hn. unfold extractCellIDValue. rewrite i64_small by lia.
  destruct (Z.eqb_spec (zlen (Bytes c)) 0) as [H0|H0].
  { destruct (Bytes c); [|unfold zlen in H0; simpl in H0; lia]. 
    unfold leading_bits. by rewrite Z.shiftr_0_l. }
  set (r := if 64 <? NumBits c then 64 else NumBits c).
  assert (r = Z.min (NumBits c) 64) as E by (unfold r; destruct (Z.ltb_spec 64 (NumBits c)); lia).
  rewrite <- E. clearbody r.
  rewrite read_bits_spec; [lia|done|lia|lia|].
  pose proof (Z.pow_le_mono_r 2 (r `min` (8 * zlen (Bytes c))) 64 ltac:(lia) ltac:(lia)). lia.
Qed.

(** ** Properties *)

(** C35: [extractCellIDValue] reads the leading [NumBits] bits of the bit string
    as a big-endian number, capped at 64 bits and at the bytes present. *)
Theorem extractCellIDValue_spec (c : BitString) :
  bytes_ok (Bytes c) → 0 ≤ NumBits c < 2 ^ 63 →
  extractCellIDValue c =
    leading_bits (Bytes c) (Z.min (Z.min (NumBits c) 64) (8 * zlen (Bytes c))).
Proof. apply extractCellIDValue_spec_aux. Qed.

Lemma extractCellIDValue_spec_witness :
  extractCellIDValue {| Bytes := [0x12; 0x34; 0x56; 0x78; 0x90]; NumBits := 36 |} = 0x123456789.
Proof.
  rewrite extractCellIDValue_spec; [reflexivity| |simpl; lia].
  forall_lia.
Defined.

(** [BitStringToUint64] computes the same number as [extractCellIDValue]
    exactly when the bit count leaves 0 to 8 spare bits in the last byte; for
    every other bit count of a 1-to-8-byte string it panics on a negative shift,
    and on any other length it panics explicitly. *)
Theorem BitStringToUint64_spec (c : BitString) :
  bytes_ok (Bytes c) → 0 ≤ NumBits c < 2 ^ 63 →
  let len := zlen (Bytes c) in
  BitStringToUint64 c =
    if (len =? 0) || (8 <? len) then Panic (Explicit "invalid BitString size")
    else if (8 * (len - 1) <=? NumBits c) && (NumBits c <=? 8 * len)
    then Ok (extractCellIDValue c) else Panic NegativeShift.
Proof.
  intros Hb Hn len. destruct c as [bs n]; cbn [Bytes NumBits] in *.
  destruct ((len =? 0) || (8 <? len)) eqn:Hlen.
  { unfold BitStringToUint64. cbn [Bytes]. fold len. by rewrite Hlen. }
  apply orb_false_iff in Hlen as [H0 H8]. apply Z.eqb_neq in H0. apply Z.ltb_ge in H8.
  destruct bs as [|l init _] using rev_ind; [done|].
  apply Forall_app in Hb as [Hi Hl]. inversion_clear Hl.
  assert (len = zlen init + 1) as El by (unfold len; rewrite zlen_app; done).
  rewrite BitStringToUint64_snoc by (done || lia). rewrite El.
  replace (zlen init + 1 - 1) with (zlen init) by lia.
  destruct ((8 * zlen init <=? n) && (n <=? 8 * (zlen init + 1))) eqn:E; [|done].
  apply andb_true_iff in E as [E1 E2]. apply Z.leb_le in E1, E2.
  rewrite extractCellIDValue_spec_aux; [|apply Forall_app; auto|done]. cbn [Bytes NumBits].
  fold len. do 2 f_equal. lia.
Qed.

Lemma BitStringToUint64_spec_witness :
  BitStringToUint64 {| Bytes := [0x12; 0x34; 0x50]; NumBits := 20 |} = Ok 0x12345
  ∧ BitStringToUint64 {| Bytes := [0x12; 0x34; 0x50]; NumBits := 12 |} = Panic NegativeShift.
Proof.
  split; rewrite BitStringToUint64_spec; try reflexivity; try (simpl; lia);
    forall_lia.
Defined.

(** C26: The 5G-S-TMSI round trip.  For a 9-bit part 2 and a 39-bit part 1 given
    as right-aligned big-endian numbers, [Build5GSTMSI] returns six bytes that
    [Decode5GSTMSI] accepts, and the decoded triple stands for
    [part2 * 2^39 + part1] with a 10-bit set id and a 6-bit pointer. *)
Theorem Decode_Build5GSTMSI (p2 p1 : BitString) :
  bytes_ok (Bytes p2) → bytes_ok (Bytes p1) →
  be_decode (Bytes p2) < 2 ^ 9 → be_decode (Bytes p1) < 2 ^ 39 →
  zlen (Build5GSTMSI p2 p1) = 6 ∧
  ∃ t, Decode5GSTMSI (Build5GSTMSI p2 p1) = inl t ∧
    tmsi_value t = be_decode (Bytes p2) * 2 ^ 39 + be_decode (Bytes p1) ∧
    0 ≤ be_decode (Bytes (AMFSetID t)) < 2 ^ 10 ∧
    0 ≤ be_decode (Bytes (AMFPointer t)) < 2 ^ 6.
Proof.
  intros H2 H1 B2 B1. pose proof (be_decode_bound _ H2). pose proof (be_decode_bound _ H1).
  rewrite Build5GSTMSI_eq by done. rewrite be_encode_zlen. split; [done|].
  rewrite lor_shiftl_add by lia. set (v := _ + _).
  assert (0 ≤ v < 2 ^ 48) by (unfold v; lia). exists (tmsi_of v).
  rewrite Decode5GSTMSI_eq by auto using be_encode_ok, be_encode_zlen.
  rewrite be_decode_encode, Z.mod_small by done. split; [done|]. by apply tmsi_of_value.
Qed.

Lemma Decode_Build5GSTMSI_witness :
  let p2 := {| Bytes := [0x01; 0xff]; NumBits := 9 |} in
  let p1 := {| Bytes := [0x12; 0x34; 0x56; 0x78; 0x9a]; NumBits := 39 |} in
  zlen (Build5GSTMSI p2 p1) = 6 ∧
  ∃ t, Decode5GSTMSI (Build5GSTMSI p2 p1) = inl t ∧
    tmsi_value t = be_decode (Bytes p2) * 2 ^ 39 + be_decode (Bytes p1) ∧
    0 ≤ be_decode (Bytes (AMFSetID t)) < 2 ^ 10 ∧
    0 ≤ be_decode (Bytes (AMFPointer t)) < 2 ^ 6.
Proof.
  intros p2 p1. apply Decode_Build5GSTMSI; try (vm_compute; reflexivity);
    forall_lia.
Defined.

(** With left-aligned bit strings (unused bits at the end, the layout that
    [BitStringToUint64] and [extractCellIDValue] read) [Build5GSTMSI] does not
    assemble [part2 * 2^39 + part1]: part 1 is doubled and part 2 is shifted seven
    bits too far, so that its upper bits fall off the six bytes. *)
Theorem Build5GSTMSI_left_aligned (v2 v1 : Z) :
  0 ≤ v2 < 2 ^ 9 → 0 ≤ v1 < 2 ^ 39 →
  let p2 := {| Bytes := be_encode 2 (v2 * 2 ^ 7); NumBits := 9 |} in
  let p1 := {| Bytes := be_encode 5 (v1 * 2); NumBits := 39 |} in
  extractCellIDValue p2 = v2 ∧ extractCellIDValue p1 = v1 ∧
  be_decode (Build5GSTMSI p2 p1) = (v2 * 2 ^ 46 + 2 * v1) mod 2 ^ 48.
Proof.
  intros H2 H1 p2 p1.
  assert (be_decode (Bytes p2) = v2 * 2 ^ 7 ∧ be_decode (Bytes p1) = v1 * 2) as [E2 E1].
  { unfold p2, p1. cbn [Bytes]. rewrite !be_decode_encode.
    change (8 * Z.of_nat 2) with 16. change (8 * Z.of_nat 5) with 40.
    rewrite !Z.mod_small by lia. done. }
  repeat split.
  - rewrite extractCellIDValue_spec_aux; unfold p2; cbn [Bytes NumBits];
      auto using be_encode_ok; [|lia]. unfold leading_bits. fold p2 in E2. cbn [p2 Bytes] in E2.
    rewrite E2, be_encode_zlen. change (Z.min _ _) with 9.
    rewrite Z.shiftr_div_pow2 by lia. change (8 * Z.of_nat 2 - 9) with 7.
    by rewrite Z.div_mul by lia.
  - rewrite extractCellIDValue_spec_aux; unfold p1; cbn [Bytes NumBits];
      auto using be_encode_ok; [|lia]. unfold leading_bits. cbn [p1 Bytes] in E1.
    rewrite E1, be_encode_zlen. change (Z.min _ _) with 39.
    rewrite Z.shiftr_div_pow2 by lia. change (8 * Z.of_nat 5 - 39) with 1.
    by rewrite Z.div_mul by lia.
  - rewrite Build5GSTMSI_eq by apply be_encode_ok. rewrite E2, E1, be_decode_encode.
    change (8 * Z.of_nat 6) with 48.
    replace (Z.shiftl (v2 * 2 ^ 7) 39) with (Z.shiftl v2 46)
      by (rewrite !Z.shiftl_mul_pow2 by lia; lia).
    rewrite lor_shiftl_add by lia. f_equal. lia.
Qed.

Lemma Build5GSTMSI_left_aligned_witness :
  let p2 := {| Bytes := be_encode 2 (3 * 2 ^ 7); NumBits := 9 |} in
  let p1 := {| Bytes := be_encode 5 (5 * 2); NumBits := 39 |} in
  extractCellIDValue p2 = 3 ∧ extractCellIDValue p1 = 5 ∧
  be_decode (Build5GSTMSI p2 p1) = (3 * 2 ^ 46 + 2 * 5) mod 2 ^ 48.
Proof. apply Build5GSTMSI_left_aligned; lia. Defined.

(** [extractRandomValue] returns the 39-bit number of a five-byte identity,
    the whole number of a shorter one, and only the first 40 bits of a longer
    one; the result always fits in 40 bits. *)
Theorem extractRandomValue_spec (bs : list Z) :
  bytes_ok bs →
  extractRandomValue bs =
    (if zlen bs =? 5 then be_decode bs / 2 else be_decode (take 5 bs)) ∧
  0 ≤ extractRandomValue bs < 2 ^ 40.
Proof.
  intros Hb. assert (bytes_ok (take 5 bs)) as Ht by by apply Forall_take.
  pose proof (be_decode_bound _ Ht) as HB.
  assert (zlen (take 5 bs) ≤ 5) as H5 by (unfold zlen; rewrite length_take; lia).
  pose proof (zlen_nonneg (take 5 bs)).
  assert (2 ^ (8 * zlen (take 5 bs)) ≤ 2 ^ 40) by (apply Z.pow_le_mono_r; lia).
  assert (be_read 5 bs 0 = be_decode (take 5 bs)) as Hr.
  { rewrite be_read_take, foldl_shift_in; [done|done|lia|]. lia. }
  unfold extractRandomValue. rewrite Hr.
  destruct (Z.eqb_spec (zlen bs) 0) as [Hz|Hz].
  { destruct bs; [|unfold zlen in Hz; simpl in Hz; lia]. split; [done|lia]. }
  destruct (Z.eqb_spec (zlen bs) 5) as [Hl|Hl].
  { rewrite Hl. cbn [Z.leb Z.compare Pos.compare Pos.compare_cont].
    assert (take 5 bs = bs) as E by (apply take_ge; unfold zlen in Hl; lia).
    rewrite E in *. rewrite Z.shiftr_div_pow2 by lia. change (2 ^ 1) with 2. split; [done|].
    split; [apply Z.div_pos; lia|]. apply Z.div_lt_upper_bound; lia. }
  destruct (Z.leb_spec 5 (zlen bs)) as [Hge|Hlt]; [split; [done|lia]|].
  assert (take 5 bs = bs) as E by (apply take_ge; unfold zlen in *; lia).
  rewrite be_read_take, E in Hr. rewrite be_read_take, firstn_all, Hr, E in *.
  split; [done|lia].
Qed.

Lemma extractRandomValue_spec_witness :
  extractRandomValue [1; 2; 3; 4; 5; 6] = 0x0102030405 ∧
  0 ≤ extractRandomValue [1; 2; 3; 4; 5; 6] < 2 ^ 40.
Proof.
  apply (extractRandomValue_spec [1; 2; 3; 4; 5; 6]).
  forall_lia.
Defined.
