(* ===== verification/GoText.v ===== *)
(** Go strings: their bytes, UTF-8 runes ([for range s], [string(r)], [%c]),
    hexadecimal text ([%x], [encoding/hex]) and the reversal helper of
    [internal/context/context_cucp.go]. *)
From Stdlib Require Import Ascii.
From S2P Require Import Prelude GoNum.

(** ** Bytes of a string *)
Definition ascii_byte (a : ascii) : Z := Z.of_N (Ascii.N_of_ascii a).
Definition byte_ascii (b : Z) : ascii := Ascii.ascii_of_N (Z.to_N b).

Fixpoint str_bytes (s : string) : list Z :=
  match s with EmptyString => [] | String a s' => ascii_byte a :: str_bytes s' end.
Fixpoint bytes_str (bs : list Z) : string :=
  match bs with [] => EmptyString | b :: bs' => String (byte_ascii b) (bytes_str bs') end.

(** ** UTF-8 *)
Definition rune_error : Z := 0xFFFD.
Definition is_cont (lo hi b : Z) : bool := (lo <=? b) && (b <=? hi).

(** [utf8.DecodeRune]: the first rune and how many bytes it takes. *)
Definition decode_rune (bs : list Z) : Z * nat :=
  match bs with
  | [] => (rune_error, O)
  | b0 :: t =>
      let bad := (rune_error, 1%nat) in
      if b0 <? 0x80 then (b0, 1%nat)
      else if (b0 <? 0xC2) || (0xF4 <? b0) then bad
      else if b0 <? 0xE0 then
        match t with
        | b1 :: _ => if is_cont 0x80 0xBF b1
                     then ((b0 - 0xC0) * 64 + (b1 - 0x80), 2%nat) else bad
        | _ => bad
        end
      else if b0 <? 0xF0 then
        let lo := if b0 =? 0xE0 then 0xA0 else 0x80 in
        let hi := if b0 =? 0xED then 0x9F else 0xBF in
        match t with
        | b1 :: b2 :: _ =>
            if is_cont lo hi b1 && is_cont 0x80 0xBF b2
            then (((b0 - 0xE0) * 64 + (b1 - 0x80)) * 64 + (b2 - 0x80), 3%nat) else bad
        | _ => bad
        end
      else
        let lo := if b0 =? 0xF0 then 0x90 else 0x80 in
        let hi := if b0 =? 0xF4 then 0x8F else 0xBF in
        match t with
        | b1 :: b2 :: b3 :: _ =>
            if is_cont lo hi b1 && is_cont 0x80 0xBF b2 && is_cont 0x80 0xBF b3
            then ((((b0 - 0xF0) * 64 + (b1 - 0x80)) * 64 + (b2 - 0x80)) * 64 + (b3 - 0x80),
                  4%nat)
            else bad
        | _ => bad
        end
  end.

(** [string(r)] and the verb [%c] *)
Definition encode_rune (r : Z) : list Z :=
  let r := if (r <? 0) || (0x10FFFF <? r) || is_cont 0xD800 0xDFFF r then rune_error else r in
  if r <? 0x80 then [r]
  else if r <? 0x800 then [0xC0 + r / 64; 0x80 + r mod 64]
  else if r <? 0x10000 then [0xE0 + r / 4096; 0x80 + r / 64 mod 64; 0x80 + r mod 64]
  else [0xF0 + r / 262144; 0x80 + r / 4096 mod 64; 0x80 + r / 64 mod 64; 0x80 + r mod 64].

(** The runes a [for range] loop over the string visits; the fuel is the
    length, since every turn consumes at least one byte. *)
Fixpoint runes_fuel (n : nat) (bs : list Z) : list Z :=
  match n, bs with
  | _, [] => []
  | O, _ => []
  | S n', _ => let '(r, w) := decode_rune bs in r :: runes_fuel n' (drop w bs)
  end.
Definition runes (bs : list Z) : list Z := runes_fuel (length bs) bs.

Definition reverse (s : string) : string :=
  bytes_str (foldl (λ aux valor, encode_rune valor ++ aux) [] (runes (str_bytes s))).

(** ** Hexadecimal *)
Definition hex_digit (d : Z) : Z := if d <? 10 then 48 + d else 87 + d.
(** [fmt.Sprintf("%x", bytes)] *)
Definition hex_bytes (bs : list Z) : list Z :=
  bs ≫= λ b, [hex_digit (b / 16); hex_digit (b mod 16)].
Definition fmt_x (bs : list Z) : string := bytes_str (hex_bytes bs).

(** [fmt.Sprintf("%x", n)] of an unsigned number *)
Fixpoint hex_uint_fuel (n : nat) (z : Z) : list Z :=
  match n with
  | O => []
  | S n' => if z <? 16 then [hex_digit z]
            else hex_uint_fuel n' (z / 16) ++ [hex_digit (z mod 16)]
  end.
Definition fmt_x_uint (z : Z) : string := bytes_str (hex_uint_fuel 16 z).

Definition from_hex_char (c : Z) : option Z :=
  if is_cont 48 57 c then Some (c - 48)
  else if is_cont 97 102 c then Some (c - 87)
  else if is_cont 65 70 c then Some (c - 55)
  else None.

Inductive hex_error : Type := InvalidByte (c : Z) | ErrLength.

(** [hex.DecodeString]: the bytes decoded before the first error, and it. *)
Fixpoint hex_decode (cs : list Z) : list Z * option hex_error :=
  match cs with
  | [] => ([], None)
  | [c] => match from_hex_char c with
           | None => ([], Some (InvalidByte c)) | Some _ => ([], Some ErrLength) end
  | p :: q :: t =>
      match from_hex_char p, from_hex_char q with
      | None, _ => ([], Some (InvalidByte p))
      | _, None => ([], Some (InvalidByte q))
      | Some a, Some b => let '(bs, e) := hex_decode t in (a * 16 + b :: bs, e)
      end
  end.
Definition DecodeString (s : string) : list Z * option hex_error := hex_decode (str_bytes s).

(** ** Lemmas *)
Lemma byte_ascii_byte a : byte_ascii (ascii_byte a) = a.
Proof. unfold byte_ascii, ascii_byte. by rewrite N2Z.id, Ascii.ascii_N_embedding. Qed.

Lemma ascii_byte_ascii b : is_u8 b → ascii_byte (byte_ascii b) = b.
Proof.
  intros Hb. unfold byte_ascii, ascii_byte. rewrite Ascii.N_ascii_embedding by lia. lia.
Qed.

Lemma bytes_str_bytes s : bytes_str (str_bytes s) = s.
Proof. induction s as [|a s IH]; simpl; [done|]. by rewrite byte_ascii_byte, IH. Qed.

Lemma str_bytes_str bs : bytes_ok bs → str_bytes (bytes_str bs) = bs.
Proof. induction 1 as [|b bs Hb Hbs IH]; simpl; [done|]. by rewrite ascii_byte_ascii, IH. Qed.

Lemma ascii_byte_ok a : is_u8 (ascii_byte a).
Proof. unfold ascii_byte. pose proof (Ascii.N_ascii_bounded a). lia. Qed.

Lemma str_bytes_ok s : bytes_ok (str_bytes s).
Proof. induction s; simpl; constructor; auto using ascii_byte_ok. Qed.

Lemma str_bytes_inj s t : str_bytes s = str_bytes t → s = t.
Proof. intros E. by rewrite <- (bytes_str_bytes s), <- (bytes_str_bytes t), E. Qed.

Lemma str_bytes_length s : length (str_bytes s) = String.length s.
Proof. induction s; simpl; auto. Qed.

Abbreviation is_ascii b := (0 ≤ b < 128).
Abbreviation all_ascii := (Forall (λ b : Z, 0 ≤ b < 128)).

Lemma encode_rune_ascii b : is_ascii b → encode_rune b = [b].
Proof.
  intros Hb. unfold encode_rune, is_cont.
  rewrite (proj2 (Z.ltb_ge b 0)), (proj2 (Z.ltb_ge _ b)), (proj2 (Z.leb_gt _ b)) by lia.
  cbn. by rewrite (proj2 (Z.ltb_lt b 128)) by lia.
Qed.

Lemma runes_ascii bs : all_ascii bs → runes bs = bs.
Proof.
  unfold runes. induction 1 as [|b bs Hb Hbs IH]; [done|]. simpl.
  rewrite (proj2 (Z.ltb_lt b 128)) by lia. change (drop 1 (b :: bs)) with bs. by rewrite IH.
Qed.

Lemma foldl_prepend_rev (bs acc : list Z) : foldl (λ aux b, b :: aux) acc bs = rev bs ++ acc.
Proof.
  revert acc. induction bs as [|b bs IH]; intros acc; [done|]. simpl.
  by rewrite IH, <- app_assoc.
Qed.

Lemma reverse_ascii s :
  all_ascii (str_bytes s) → str_bytes (reverse s) = rev (str_bytes s).
Proof.
  intros H. unfold reverse. rewrite runes_ascii by done.
  rewrite str_bytes_str.
  - transitivity (foldl (λ aux b, b :: aux) [] (str_bytes s)).
    + generalize (@nil Z). induction H as [|b bs Hb Hbs IH]; intros acc; [done|].
      simpl. rewrite encode_rune_ascii by done. apply IH.
    + by rewrite foldl_prepend_rev, app_nil_r.
  - assert (∀ acc, bytes_ok acc → bytes_ok (foldl (λ aux v, encode_rune v ++ aux) acc (str_bytes s)))
      as Hk; [|by apply Hk].
    induction H as [|b bs Hb Hbs IH]; intros acc Hacc; [done|]. simpl. apply IH.
    rewrite encode_rune_ascii by done. constructor; [lia|done].
Qed.

(** Lower-case hexadecimal text *)
Definition is_hex (c : Z) : bool := is_cont 48 57 c || is_cont 97 102 c.

Lemma from_hex_char_hex c :
  is_hex c = true → ∃ d, from_hex_char c = Some d ∧ 0 ≤ d < 16 ∧ hex_digit d = c.
Proof.
  unfold is_hex, from_hex_char, is_cont. intros H.
  destruct ((48 <=? c) && (c <=? 57)) eqn:E1; cbn in H.
  - apply andb_true_iff in E1 as [?%Z.leb_le ?%Z.leb_le]. eexists. split; [done|].
    split; [lia|]. unfold hex_digit. rewrite (proj2 (Z.ltb_lt _ _)) by lia. lia.
  - rewrite H. apply andb_true_iff in H as [?%Z.leb_le ?%Z.leb_le]. eexists. split; [done|].
    split; [lia|]. unfold hex_digit. rewrite (proj2 (Z.ltb_ge _ _)) by lia. lia.
Qed.

Lemma hex_digit_hex d : 0 ≤ d < 16 → is_hex (hex_digit d) = true.
Proof.
  intros Hd. unfold hex_digit, is_hex, is_cont. apply orb_true_iff.
  destruct (Z.ltb_spec d 10); [left|right]; apply andb_true_iff; split; apply Z.leb_le; lia.
Qed.

Lemma is_hex_ascii c : is_hex c = true → is_ascii c.
Proof.
  unfold is_hex, is_cont. rewrite orb_true_iff, !andb_true_iff, !Z.leb_le. lia.
Qed.

(** Decoding then printing gives lower-case hex text back, byte by byte. *)
Lemma hex_decode_pair p q t :
  is_hex p = true → is_hex q = true →
  ∃ b, is_u8 b ∧ hex_decode (p :: q :: t) = (b :: (hex_decode t).1, (hex_decode t).2) ∧
       hex_bytes [b] = [p; q].
Proof.
  intros (a & Ha & Ba & Ea)%from_hex_char_hex (b & Hb & Bb & Eb)%from_hex_char_hex.
  exists (a * 16 + b). split; [lia|]. split.
  - cbn [hex_decode]. rewrite Ha, Hb. by destruct (hex_decode t).
  - unfold hex_bytes. cbn [mbind list_bind app].
    rewrite Z.div_add_l, Z.div_small, Z.add_0_r by lia.
    rewrite Z.add_comm, Z.mod_add, Z.mod_small by lia. by rewrite Ea, Eb.
Qed.

Lemma hex_bytes_app a b : hex_bytes (a ++ b) = hex_bytes a ++ hex_bytes b.
Proof. unfold hex_bytes. by rewrite bind_app. Qed.

Lemma hex_bytes_length bs : length (hex_bytes bs) = (2 * length bs)%nat.
Proof.
  induction bs as [|b bs IH]; [done|].
  change (hex_bytes (b :: bs)) with (hex_digit (b / 16) :: hex_digit (b mod 16) :: hex_bytes bs).
  simpl length. rewrite IH. lia.
Qed.

Lemma hex_bytes_ok bs : bytes_ok bs → bytes_ok (hex_bytes bs).
Proof.
  induction 1 as [|b bs Hb Hbs IH]; [constructor|].
  assert (0 ≤ b / 16 < 16) by (split; [apply Z.div_pos; lia|apply Z.div_lt_upper_bound; lia]).
  pose proof (Z.mod_pos_bound b 16 ltac:(lia)).
  unfold hex_bytes. cbn [mbind list_bind app].
  repeat constructor; try exact IH;
    match goal with |- context [hex_digit ?d] =>
      pose proof (is_hex_ascii _ (hex_digit_hex d ltac:(lia))) end; lia.
Qed.

Lemma str_fmt_x bs : bytes_ok bs → str_bytes (fmt_x bs) = hex_bytes bs.
Proof. intros H. apply str_bytes_str. by apply hex_bytes_ok. Qed.
