(* ===== verification/Logger.v ===== *)
(** The logger: [internal/common/logger/logger.go].

    The entries themselves are zerolog's; what is modelled is what the program's code
    does to them: the padding of formats, the colours of levels, the fields of a logger
    and the parsing of the configured level.  Unicode's case tables are parameters, their
    ASCII part is written out. *)
From S2P Require Import Prelude GoNum GoText.
#[local] Open Scope Z_scope.

(** ** [fmt.Sprintf("%-50s\t", format)]

    The width counts runes. *)
Definition pad_format (format : string) : string :=
  let bs := str_bytes format in
  bytes_str (bs ++ replicate (50 - length (runes bs)) 32 ++ [9]).

Section Case.
(** [unicode.ToLower] and [unicode.ToUpper] above ASCII. *)
Variable unicode_lower unicode_upper : Z → Z.

Definition lower_rune (r : Z) : Z :=
  if r <? 128 then if is_cont 65 90 r then r + 32 else r else unicode_lower r.
Definition upper_rune (r : Z) : Z :=
  if r <? 128 then if is_cont 97 122 r then r - 32 else r else unicode_upper r.
(** [strings.Map] *)
Definition map_runes (f : Z → Z) (s : string) : string :=
  bytes_str (concat (map (λ r, encode_rune (f r)) (runes (str_bytes s)))).
Definition ToLower : string → string := map_runes lower_rune.
Definition ToUpper : string → string := map_runes upper_rune.

(** ** [FormatLevel]: escape, level, reset *)
Definition esc (code : string) (level : string) : string :=
  bytes_str [27] +:+ "[" +:+ code +:+ "m" +:+ level +:+ bytes_str [27] +:+ "[0m".
Definition FormatLevel (i : string) : string :=
  let level := ToUpper i in
  if bool_decide (level = "DEBUG") then esc "36" level
  else if bool_decide (level = "INFO") then esc "32" level
  else if bool_decide (level = "WARN") then esc "33" level
  else if bool_decide (level = "ERROR") then esc "31" level
  else if bool_decide (level = "FATAL") then esc "35" level
  else level.

(** ** [InitLogger]

    [fields] in the order the map is iterated, [None] for a nil map; [added] is what
    zerolog's [Fields] adds for them.  The level argument is not used. *)
Record Logger := { NoColor : bool; context : list (string * string) }.
Definition InitLogger (added : list (string * string) → list (string * string))
    (level : string) (fields : option (list (string * string))) : Logger :=
  {| NoColor := true;
     context := match fields with None => [] | Some fs => added fs ++ fs end |}.

(** ** [ParseLogLevel]

    [ParseLevel] is zerolog's, [DefaultLogLevel] its info level; the result is the new
    global level, and whether the failure was logged. *)
Variable ParseLevel : string → Z * option string.
Variable DefaultLogLevel : Z.
Definition ParseLogLevel (level : string) (global : Z) : Z * bool :=
  if 0 <? zlen (str_bytes level) then
    let '(logLevel, err) := ParseLevel (ToLower level) in
    match err with Some _ => (DefaultLogLevel, true) | None => (logLevel, false) end
  else (global, false).

(** ** Lemmas *)
Lemma lower_rune_ascii b : is_ascii b → is_ascii (lower_rune b).
Proof.
  intros Hb. unfold lower_rune. rewrite (proj2 (Z.ltb_lt _ _)) by lia. unfold is_cont.
  destruct (Z.leb_spec 65 b), (Z.leb_spec b 90); cbn; lia.
Qed.
Lemma upper_rune_ascii b : is_ascii b → is_ascii (upper_rune b).
Proof.
  intros Hb. unfold upper_rune. rewrite (proj2 (Z.ltb_lt _ _)) by lia. unfold is_cont.
  destruct (Z.leb_spec 97 b), (Z.leb_spec b 122); cbn; lia.
Qed.
Lemma lower_upper b : is_ascii b → lower_rune (upper_rune b) = lower_rune b.
Proof.
  intros Hb. unfold lower_rune, upper_rune, is_cont. rewrite (proj2 (Z.ltb_lt b 128)) by lia.
  destruct (Z.leb_spec 97 b), (Z.leb_spec b 122); cbn; repeat case_match; lia.
Qed.

Lemma map_runes_ascii f s :
  (∀ b, is_ascii b → is_ascii (f b)) → all_ascii (str_bytes s) →
  map_runes f s = bytes_str (map f (str_bytes s)).
Proof.
  intros Hf Hs. unfold map_runes. rewrite runes_ascii by done. f_equal.
  induction Hs as [|b bs Hb _ IH]; [done|]. cbn. rewrite IH, encode_rune_ascii by auto. done.
Qed.

Lemma ascii_bytes_ok bs : all_ascii bs → bytes_ok bs.
Proof. intros H. eapply Forall_impl; [exact H|]. cbn. lia. Qed.
Lemma map_ascii f bs : (∀ b, is_ascii b → is_ascii (f b)) → all_ascii bs → all_ascii (map f bs).
Proof. intros Hf H. apply Forall_map. eapply Forall_impl; [exact H|]. apply Hf. Qed.
Lemma ToUpper_bytes s :
  all_ascii (str_bytes s) → str_bytes (ToUpper s) = map upper_rune (str_bytes s).
Proof.
  intros H. unfold ToUpper. rewrite map_runes_ascii by (done || apply upper_rune_ascii).
  apply str_bytes_str, ascii_bytes_ok, map_ascii; [apply upper_rune_ascii|done].
Qed.
Lemma ToLower_upper s : all_ascii (str_bytes s) → ToLower (ToUpper s) = ToLower s.
Proof.
  intros H. unfold ToLower. rewrite !map_runes_ascii; try apply lower_rune_ascii; try done.
  - rewrite ToUpper_bytes, map_map by done. f_equal. apply map_ext_Forall.
    eapply Forall_impl; [exact H|]. apply lower_upper.
  - rewrite ToUpper_bytes by done. apply map_ascii; [apply upper_rune_ascii|done].
Qed.

(** The configured level is read without regard to case. *)
Lemma ParseLogLevel_case level global :
  all_ascii (str_bytes level) → ParseLogLevel (ToUpper level) global = ParseLogLevel level global.
Proof.
  intros H. unfold ParseLogLevel. rewrite ToLower_upper by done.
  by rewrite (ToUpper_bytes _ H); unfold zlen; rewrite length_map.
Qed.
End Case.

(** A padded ASCII format is at least 50 wide, and the format is all there. *)
Lemma pad_format_ascii format :
  all_ascii (str_bytes format) →
  str_bytes (pad_format format) =
    str_bytes format ++ replicate (50 - String.length format) 32 ++ [9].
Proof.
  intros H. unfold pad_format. rewrite runes_ascii, str_bytes_length by done.
  apply str_bytes_str. apply Forall_app. split; [by apply ascii_bytes_ok|].
  apply Forall_app. split; [|forall_lia]. apply Forall_replicate. lia.
Qed.
