(* ===== verification/Plmn.v ===== *)
(** PLMN identities: their octets on the wire and their text form.
    [GetMccAndMncInOctets] ([internal/context/context_cucp.go]), the two copies of
    the decoder [ConvertMccMnc] ([amfcontext.go]) and [convertMccMnc]
    ([uecontext.go]), and [plmnMatches] ([handle_du.go]). *)
From S2P Require Import Prelude GoNum GoText.

(** ** Definitions *)

(** [fmt.Sprintf("%c%c...", ...)] of bytes, followed by [hex.DecodeString] whose
    error is dropped, so that the decoded prefix is the result. *)
Definition sprintf_c (cs : list Z) : list Z := cs ≫= encode_rune.

Definition GetMccAndMncInOctets (mcc mnc : string) : res (list Z) :=
  let mcc := str_bytes (reverse mcc) in
  let mnc := str_bytes (reverse mnc) in
  text ←
    (if zlen mnc =? 2 then
       m1 ← index mcc 1; m2 ← index mcc 2; m0 ← index mcc 0;
       n0 ← index mnc 0; n1 ← index mnc 1;
       mret (sprintf_c [m1; m2; 102 (* 'f' *); m0; n0; n1])
     else
       m1 ← index mcc 1; m2 ← index mcc 2; n2 ← index mnc 2;
       m0 ← index mcc 0; n0 ← index mnc 0; n1 ← index mnc 1;
       mret (sprintf_c [m1; m2; n2; m0; n0; n1]));
  mret (hex_decode text).1.

Definition ConvertMccMnc (plmn : string) : res (string * string) :=
  let p := str_bytes plmn in
  p2 ← index p 2;
  if p2 =? 102 (* 'f' *) then
    p1 ← index p 1; p0 ← index p 0; p3 ← index p 3;
    p5 ← index p 5; p4 ← index p 4;
    mret (bytes_str (sprintf_c [p1; p0; p3]), bytes_str (sprintf_c [p5; p4]))
  else
    p1 ← index p 1; p0 ← index p 0; p3 ← index p 3;
    p5 ← index p 5; p4 ← index p 4;
    mret (bytes_str (sprintf_c [p1; p0; p3]), bytes_str (sprintf_c [p2; p5; p4])).

(** The copy in [uecontext.go], character for character the same body. *)
Definition convertMccMnc (plmn : string) : res (string * string) := ConvertMccMnc plmn.

Definition plmnMatches (plmn1 plmn2 : list Z) : bool :=
  if negb (zlen plmn1 =? zlen plmn2) || negb (zlen plmn1 =? 3) then false
  else forallb (λ i : nat, bool_decide (plmn1 !! i = plmn2 !! i)) [0; 1; 2]%nat.

(** ** Digits *)
Abbreviation is_digit d := (0 ≤ d < 10).
Abbreviation all_digits := (Forall (λ d : Z, 0 ≤ d < 10)).
Definition digit_chars (ds : list Z) : list Z := map (Z.add 48) ds.
(** the decimal text of a list of digits *)
Definition digits (ds : list Z) : string := bytes_str (digit_chars ds).

(** ** Lemmas *)
Lemma digit_chars_ascii ds : all_digits ds → all_ascii (digit_chars ds).
Proof. induction 1; constructor; auto; lia. Qed.

Lemma all_ascii_ok bs : all_ascii bs → bytes_ok bs.
Proof. intros H. eapply Forall_impl; [exact H|]. simpl. lia. Qed.

Lemma str_digits ds : all_digits ds → str_bytes (digits ds) = digit_chars ds.
Proof. intros H. by apply str_bytes_str, all_ascii_ok, digit_chars_ascii. Qed.

Lemma str_reverse_digits ds :
  all_digits ds → str_bytes (reverse (digits ds)) = rev (digit_chars ds).
Proof. intros H. rewrite reverse_ascii; rewrite str_digits; auto using digit_chars_ascii. Qed.

Lemma sprintf_c_ascii cs : all_ascii cs → sprintf_c cs = cs.
Proof.
  unfold sprintf_c. induction 1 as [|c cs Hc Hcs IH]; [done|].
  cbn [mbind list_bind]. rewrite encode_rune_ascii by done. simpl. by f_equal.
Qed.

Lemma from_hex_digit d : is_digit d → from_hex_char (48 + d) = Some d.
Proof.
  intros Hd. unfold from_hex_char, is_cont.
  rewrite (proj2 (Z.leb_le _ _)), (proj2 (Z.leb_le _ _)) by lia. cbn. f_equal. lia.
Qed.

Lemma hex_digit_digit d : is_digit d → hex_digit d = 48 + d.
Proof. intros Hd. unfold hex_digit. by rewrite (proj2 (Z.ltb_lt _ _)) by lia. Qed.

(** One octet from two hexadecimal characters, and back. *)
Lemma hex_decode_cons p q t a b :
  from_hex_char p = Some a → from_hex_char q = Some b →
  (hex_decode (p :: q :: t)).1 = (a * 16 + b) :: (hex_decode t).1.
Proof. intros Ha Hb. cbn [hex_decode]. rewrite Ha, Hb. by destruct (hex_decode t). Qed.

Lemma nibbles a b : 0 ≤ b < 16 → (a * 16 + b) / 16 = a ∧ (a * 16 + b) mod 16 = b.
Proof.
  intros Hb. split.
  - rewrite Z.div_add_l, Z.div_small by lia. lia.
  - by rewrite Z.add_comm, Z.mod_add, Z.mod_small by lia.
Qed.

Lemma hex_bytes_octet a b t :
  0 ≤ b < 16 →
  hex_bytes ((a * 16 + b) :: t) = hex_digit a :: hex_digit b :: hex_bytes t.
Proof.
  intros Hb. change (hex_bytes ((a * 16 + b) :: t)) with
    (hex_digit ((a * 16 + b) / 16) :: hex_digit ((a * 16 + b) mod 16) :: hex_bytes t).
  by destruct (nibbles a b Hb) as [-> ->].
Qed.

(** The NGAP octets of a PLMN: two digits per octet, low nibble first, a filler
    [f] in place of the third MNC digit of a two-digit MNC. *)
Definition plmn_octets (mcc mnc : list Z) : list Z :=
  match mcc, mnc with
  | [a; b; c], [x; y] => [b * 16 + a; 15 * 16 + c; y * 16 + x]
  | [a; b; c], [x; y; z] => [b * 16 + a; x * 16 + c; z * 16 + y]
  | _, _ => []
  end.

(** What a well-formed PLMN is: three MCC digits and two or three MNC digits. *)
Definition plmn_wf (mcc mnc : list Z) : Prop :=
  all_digits mcc ∧ all_digits mnc ∧ length mcc = 3%nat ∧
  (length mnc = 2%nat ∨ length mnc = 3%nat).

Ltac plmn_wf_tac :=
  split; [forall_lia|split; [forall_lia|split;
    [reflexivity|solve [left; reflexivity | right; reflexivity]]]].

Lemma plmn_wf_inv mcc mnc :
  plmn_wf mcc mnc →
  ∃ a b c x y, mcc = [a; b; c] ∧ is_digit a ∧ is_digit b ∧ is_digit c ∧
    is_digit x ∧ is_digit y ∧ (mnc = [x; y] ∨ ∃ z, is_digit z ∧ mnc = [x; y; z]).
Proof.
  intros (Hc & Hn & Lc & Ln).
  destruct mcc as [|a [|b [|c [|]]]]; try done.
  destruct mnc as [|x [|y [|z [|]]]]; simpl in Ln; try lia.
  - decompose_Forall_hyps. exists a, b, c, x, y. repeat split; eauto; lia.
  - decompose_Forall_hyps. exists a, b, c, x, y. repeat split; eauto; lia.
Qed.

Lemma GetMccAndMncInOctets_eq mcc mnc :
  plmn_wf mcc mnc →
  GetMccAndMncInOctets (digits mcc) (digits mnc) = Ok (plmn_octets mcc mnc).
Proof.
  intros (a & b & c & x & y & -> & Ha & Hb & Hc & Hx & Hy & Hm)%plmn_wf_inv.
  unfold GetMccAndMncInOctets.
  destruct Hm as [->|(z & Hz & ->)]; do 2 (rewrite str_reverse_digits; [|forall_lia]);
    cbn [digit_chars map rev app]; go_list; rewrite sprintf_c_ascii by forall_lia;
    repeat (erewrite hex_decode_cons; [|(apply from_hex_digit; lia) || reflexivity ..]);
    reflexivity.
Qed.

Lemma plmn_octets_ok mcc mnc :
  plmn_wf mcc mnc → bytes_ok (plmn_octets mcc mnc) ∧ zlen (plmn_octets mcc mnc) = 3.
Proof.
  intros (a & b & c & x & y & -> & Ha & Hb & Hc & Hx & Hy & Hm)%plmn_wf_inv.
  destruct Hm as [->|(z & Hz & ->)]; (split; [forall_lia|done]).
Qed.

(** The decoder on six characters. *)
Lemma ConvertMccMnc_six plmn p0 p1 p2 p3 p4 p5 :
  str_bytes plmn = [p0; p1; p2; p3; p4; p5] →
  ConvertMccMnc plmn =
    Ok (bytes_str (sprintf_c [p1; p0; p3]),
        if p2 =? 102 then bytes_str (sprintf_c [p5; p4])
        else bytes_str (sprintf_c [p2; p5; p4])).
Proof.
  intros E. unfold ConvertMccMnc. rewrite E.
  change (index [p0; p1; p2; p3; p4; p5] 2) with (Ok p2). cbn [mbind res_bind].
  destruct (p2 =? 102); go_list; reflexivity.
Qed.

Lemma ConvertMccMnc_octets mcc mnc :
  plmn_wf mcc mnc →
  ConvertMccMnc (fmt_x (plmn_octets mcc mnc)) = Ok (digits mcc, digits mnc).
Proof.
  intros Hwf. pose proof (plmn_octets_ok _ _ Hwf) as [Hok _].
  apply str_fmt_x in Hok.
  apply plmn_wf_inv in Hwf as (a & b & c & x & y & -> & Ha & Hb & Hc & Hx & Hy & Hm).
  destruct Hm as [->|(z & Hz & ->)]; unfold plmn_octets in *;
    rewrite !hex_bytes_octet in Hok by lia; change (hex_digit 15) with 102 in Hok;
    rewrite !hex_digit_digit in Hok by lia; erewrite ConvertMccMnc_six by exact Hok.
  - by rewrite !sprintf_c_ascii by forall_lia.
  - rewrite (proj2 (Z.eqb_neq (48 + x) 102)) by lia.
    by rewrite !sprintf_c_ascii by forall_lia.
Qed.

Lemma plmnMatches_true p q : plmnMatches p q = true ↔ p = q ∧ zlen p = 3.
Proof.
  unfold plmnMatches. destruct (Z.eqb_spec (zlen p) (zlen q)) as [E|E]; cbn [negb orb].
  2:{ split; [done|]. intros [-> _]. done. }
  destruct (Z.eqb_spec (zlen p) 3) as [E3|E3]; cbn [negb]; [|split; [done|by intros [_ ?]]].
  destruct p as [|a [|b [|c [|]]]]; unfold zlen in *; simpl in E3; try lia.
  destruct q as [|a' [|b' [|c' [|]]]]; simpl in E; try lia.
  cbn. rewrite !andb_true_iff, !bool_decide_eq_true. naive_solver.
Qed.

Lemma digits_inj ds es : all_digits ds → all_digits es → digits ds = digits es → ds = es.
Proof.
  intros Hd He E. apply (f_equal str_bytes) in E. rewrite !str_digits in E by done.
  unfold digit_chars in E. clear -E. revert es E.
  induction ds as [|d ds IH]; intros [|e es] E; simplify_eq/=; [done|].
  f_equal; [lia|by apply IH].
Qed.

Lemma plmn_octets_inj mcc mnc mcc' mnc' :
  plmn_wf mcc mnc → plmn_wf mcc' mnc' →
  plmn_octets mcc mnc = plmn_octets mcc' mnc' → mcc = mcc' ∧ mnc = mnc'.
Proof.
  intros Hw Hw' E. pose proof (ConvertMccMnc_octets _ _ Hw) as H1.
  rewrite E, (ConvertMccMnc_octets _ _ Hw') in H1.
  destruct Hw as (? & ? & _), Hw' as (? & ? & _). simplify_eq.
  split; apply digits_inj; done.
Qed.

(** ** Properties *)

(** C25: The PLMN round trip.  For three MCC digits and two or three MNC digits
    [GetMccAndMncInOctets] returns the three NGAP octets (two digits per octet,
    low nibble first, filler [f]), and the decoder of the AMF and UE contexts gives
    the configured MCC and MNC back from the hexadecimal text of those octets. *)
Theorem plmn_roundtrip (mcc mnc : list Z) :
  plmn_wf mcc mnc →
  ∃ bs, GetMccAndMncInOctets (digits mcc) (digits mnc) = Ok bs ∧
    bs = plmn_octets mcc mnc ∧ zlen bs = 3 ∧
    ConvertMccMnc (fmt_x bs) = Ok (digits mcc, digits mnc) ∧
    convertMccMnc (fmt_x bs) = Ok (digits mcc, digits mnc).
Proof.
  intros H. exists (plmn_octets mcc mnc). unfold convertMccMnc.
  rewrite GetMccAndMncInOctets_eq, ConvertMccMnc_octets by done.
  repeat split. by apply plmn_octets_ok.
Qed.

Lemma plmn_roundtrip_witness :
  plmn_wf [2; 0; 8] [9; 3] ∧
  ∃ bs, GetMccAndMncInOctets "208" "93" = Ok bs ∧ bs = [0x02; 0xf8; 0x39] ∧ zlen bs = 3 ∧
    ConvertMccMnc (fmt_x bs) = Ok ("208"%string, "93"%string) ∧
    convertMccMnc (fmt_x bs) = Ok ("208"%string, "93"%string).
Proof.
  assert (plmn_wf [2; 0; 8] [9; 3]) as H.
  { plmn_wf_tac. }
  split; [exact H|]. exact (plmn_roundtrip _ _ H).
Defined.

(** Two well-formed PLMNs have matching octets ([plmnMatches], the test of the
    F1 Setup handler) exactly when their MCC and MNC digits are equal. *)
Theorem plmnMatches_octets (mcc mnc mcc' mnc' : list Z) :
  plmn_wf mcc mnc → plmn_wf mcc' mnc' →
  plmnMatches (plmn_octets mcc mnc) (plmn_octets mcc' mnc') = true ↔
  mcc = mcc' ∧ mnc = mnc'.
Proof.
  intros Hw Hw'. rewrite plmnMatches_true. split.
  - intros [E _]. by apply plmn_octets_inj.
  - intros [-> ->]. split; [done|]. by apply plmn_octets_ok.
Qed.

Lemma plmnMatches_octets_witness :
  plmnMatches (plmn_octets [2; 0; 8] [9; 3]) (plmn_octets [2; 0; 8] [9; 3]) = true ↔
  [2; 0; 8] = [2; 0; 8] ∧ [9; 3] = [9; 3].
Proof.
  apply plmnMatches_octets; plmn_wf_tac.
Defined.

(** An MNC of fewer than two digits makes [GetMccAndMncInOctets] panic: any
    length other than 2 takes the three-digit branch, which indexes the third
    character. *)
Lemma GetMccAndMncInOctets_panics (mcc mnc : list Z) :
  all_digits mcc → all_digits mnc → length mcc = 3%nat → (length mnc < 2)%nat →
  GetMccAndMncInOctets (digits mcc) (digits mnc) = Panic IndexOutOfRange.
Proof.
  intros Hc Hn Lc Ln. unfold GetMccAndMncInOctets. rewrite !str_reverse_digits by done.
  destruct mcc as [|a [|b [|c [|]]]]; simpl in Lc; try lia.
  destruct mnc as [|x [|]]; simpl in Ln; try lia;
    cbn [digit_chars map rev app]; go_list; reflexivity.
Qed.
