(* ===== verification/GoCrypto.v ===== *)
(** The parts of Go's [crypto/aes], [crypto/sha256] and [crypto/hmac] the program uses:
    the AES-128 block encryption (FIPS 197), SHA-256 (FIPS 180-4) and HMAC (FIPS 198-1),
    executable, on lists of bytes.  [Example]s run the published test vectors. *)
From S2P Require Import Prelude GoNum.

(** ** AES-128 *)
Module AES.
(** Multiplication by x in GF(2^8). *)
Definition xtime (b : Z) : Z :=
  let d := Z.shiftl b 1 in if Z.testbit b 7 then Z.lxor (Z.land d 0xff) 0x1b else d.
Definition gf_mul (a b : Z) : Z :=
  foldr (λ i r, let r := xtime r in if Z.testbit b i then Z.lxor r a else r) 0 (seqZ 0 8).
(** The inverse of [b] is its 254th power; the S-box is its affine image. *)
Definition gf_inv (b : Z) : Z := Nat.iter 254 (gf_mul b) 1.
Definition affine (b : Z) : Z :=
  let rotl i := Z.land (Z.lor (Z.shiftl b i) (Z.shiftr b (8 - i))) 0xff in
  foldr Z.lxor 0x63 (map rotl [0; 1; 2; 3; 4]).
Definition sbox : list Z := Eval vm_compute in map (λ b, affine (gf_inv b)) (seqZ 0 256).
Definition sub (b : Z) : Z := nth (Z.to_nat b) sbox 0.

(** The state is its four columns; a round key likewise. *)
Definition column : Type := Z * Z * Z * Z.
Definition to_columns (bs : list Z) : list column :=
  match bs with
  | [a0; a1; a2; a3; b0; b1; b2; b3; c0; c1; c2; c3; d0; d1; d2; d3] =>
      [(a0, a1, a2, a3); (b0, b1, b2, b3); (c0, c1, c2, c3); (d0, d1, d2, d3)]
  | _ => []
  end.
Definition of_column (c : column) : list Z := let '(a, b, c, d) := c in [a; b; c; d].
Definition of_columns (cs : list column) : list Z := concat (map of_column cs).

Definition xor_column (x y : column) : column :=
  let '(a, b, c, d) := x in let '(e, f, g, h) := y in
  (Z.lxor a e, Z.lxor b f, Z.lxor c g, Z.lxor d h).
Definition sub_column (x : column) : column :=
  let '(a, b, c, d) := x in (sub a, sub b, sub c, sub d).
Definition mix_column (x : column) : column :=
  let '(a, b, c, d) := x in
  let m p q r s := Z.lxor (Z.lxor (xtime p) (Z.lxor (xtime q) q)) (Z.lxor r s) in
  (m a b c d, m b c d a, m c d a b, m d a b c).
Definition shift_rows (cs : list column) : list column :=
  match cs with
  | [(a0, a1, a2, a3); (b0, b1, b2, b3); (c0, c1, c2, c3); (d0, d1, d2, d3)] =>
      [(a0, b1, c2, d3); (b0, c1, d2, a3); (c0, d1, a2, b3); (d0, a1, b2, c3)]
  | _ => []
  end.
Definition add_key (k s : list column) : list column := zip_with xor_column s k.

(** Key schedule: the next round key from the last one. *)
Definition next_key (rcon : Z) (k : list column) : list column :=
  match k with
  | [k0; k1; k2; (a, b, c, d)] =>
      let t := xor_column (sub_column (b, c, d, a)) (rcon, 0, 0, 0) in
      let w0 := xor_column k0 t in
      let w1 := xor_column k1 w0 in
      let w2 := xor_column k2 w1 in
      [w0; w1; w2; xor_column (a, b, c, d) w2]
  | _ => []
  end.

Fixpoint rounds (rcons : list Z) (k s : list column) : list column :=
  match rcons with
  | [] => s
  | [rc] => add_key (next_key rc k) (shift_rows (map sub_column s))
  | rc :: rcons' =>
      let k' := next_key rc k in
      rounds rcons' k' (add_key k' (map mix_column (shift_rows (map sub_column s))))
  end.
Definition rcons : list Z := [0x01; 0x02; 0x04; 0x08; 0x10; 0x20; 0x40; 0x80; 0x1b; 0x36].

(** [block.Encrypt(dst, src)] for the block of [aes.NewCipher(key)]: the new [dst]. *)
Definition encrypt (key src : list Z) : list Z :=
  let k := to_columns key in of_columns (rounds rcons k (add_key k (to_columns src))).

(** FIPS 197, appendix B. *)
Example fips197 :
  encrypt [0x2b; 0x7e; 0x15; 0x16; 0x28; 0xae; 0xd2; 0xa6; 0xab; 0xf7; 0x15; 0x88; 0x09; 0xcf; 0x4f; 0x3c]
    [0x32; 0x43; 0xf6; 0xa8; 0x88; 0x5a; 0x30; 0x8d; 0x31; 0x31; 0x98; 0xa2; 0xe0; 0x37; 0x07; 0x34]
  = [0x39; 0x25; 0x84; 0x1d; 0x02; 0xdc; 0x09; 0xfb; 0xdc; 0x11; 0x85; 0x97; 0x19; 0x6a; 0x0b; 0x32].
Proof. vm_compute. reflexivity. Qed.

Lemma to_columns_length bs : length bs = 16%nat → length (to_columns bs) = 4%nat.
Proof. intros H. do 16 (destruct bs as [|? bs]; [done|]). by destruct bs. Qed.
Lemma shift_rows_length cs : length cs = 4%nat → length (shift_rows cs) = 4%nat.
Proof.
  intros H. do 4 (destruct cs as [|[[[? ?] ?] ?] cs]; [done|]). by destruct cs.
Qed.
Lemma next_key_length rc k : length k = 4%nat → length (next_key rc k) = 4%nat.
Proof.
  intros H. do 4 (destruct k as [|[[[? ?] ?] ?] k]; [done|]). by destruct k.
Qed.
Lemma add_key_length k s : length k = 4%nat → length s = 4%nat → length (add_key k s) = 4%nat.
Proof. intros Hk Hs. unfold add_key. rewrite length_zip_with. lia. Qed.

Lemma aes_rounds_length rs k s :
  length k = 4%nat → length s = 4%nat → length (rounds rs k s) = 4%nat.
Proof.
  revert k s. induction rs as [|rc rs IH]; intros k s Hk Hs; [done|]. cbn [rounds].
  pose proof (next_key_length rc k Hk) as Hk'.
  destruct rs as [|rc2 rs]; [|apply IH; [done|]];
    (apply add_key_length; [done|]; rewrite ?length_map; apply shift_rows_length;
     by rewrite length_map).
Qed.

Lemma of_columns_length cs : length (of_columns cs) = (4 * length cs)%nat.
Proof.
  induction cs as [|[[[? ?] ?] ?] cs IH]; [done|]. unfold of_columns in *. cbn. rewrite IH. lia.
Qed.

Lemma encrypt_length key src :
  length key = 16%nat → length src = 16%nat → length (encrypt key src) = 16%nat.
Proof.
  intros Hk Hs. unfold encrypt. rewrite of_columns_length, aes_rounds_length; [done| |].
  - by apply to_columns_length.
  - by apply add_key_length; apply to_columns_length.
Qed.
End AES.

(** ** SHA-256 *)
Module SHA256.
(** The constants, from their definition in FIPS 180-4: the first 32 bits of the
    fractional parts of the square roots of the first 8 primes, and of the cube roots of
    the first 64. *)
Definition prime (n : nat) : bool :=
  forallb (λ d, negb (Nat.modulo n d =? 0)%nat) (seq 2 (n - 2)).
Definition primes : list Z := map Z.of_nat (filter (λ n, prime n) (seq 2 310)).
(** The largest [r] below [2^k] with [r^e <= n], bit by bit from the top. *)
Fixpoint root (e n : Z) (k : nat) (r : Z) : Z :=
  match k with
  | O => r
  | S k =>
      let r' := r + 2 ^ Z.of_nat k in
      root e n k (if r' ^ e <=? n then r' else r)
  end.
Definition fraction (e p : Z) : Z := u32 (root e (p * 2 ^ (32 * e)) 37 0).
Definition K : list Z := Eval vm_compute in map (fraction 3) primes.
Definition H0 : list Z := Eval vm_compute in map (fraction 2) (take 8 primes).

Example constants :
  zlen K = 64 ∧ head K = Some 0x428a2f98 ∧ last K = Some 0xc67178f2 ∧ head H0 = Some 0x6a09e667.
Proof. vm_compute. done. Qed.

Definition add32 (a b : Z) : Z := u32 (a + b).
Definition rotr (n x : Z) : Z := Z.lor (Z.shiftr x n) (u32 (Z.shiftl x (32 - n))).
Definition Ch (x y z : Z) : Z := Z.lxor (Z.land x y) (Z.land (Z.lxor x 0xffffffff) z).
Definition Maj (x y z : Z) : Z := Z.lxor (Z.land x y) (Z.lxor (Z.land x z) (Z.land y z)).
Definition S0 (x : Z) : Z := Z.lxor (rotr 2 x) (Z.lxor (rotr 13 x) (rotr 22 x)).
Definition S1 (x : Z) : Z := Z.lxor (rotr 6 x) (Z.lxor (rotr 11 x) (rotr 25 x)).
Definition s0 (x : Z) : Z := Z.lxor (rotr 7 x) (Z.lxor (rotr 18 x) (Z.shiftr x 3)).
Definition s1 (x : Z) : Z := Z.lxor (rotr 17 x) (Z.lxor (rotr 19 x) (Z.shiftr x 10)).

(** Big-endian words of a block. *)
Fixpoint words (bs : list Z) : list Z :=
  match bs with
  | a :: b :: c :: d :: bs' => be_decode [a; b; c; d] :: words bs'
  | _ => []
  end.

(** The message schedule, newest word first: [w] holds at least 16 words. *)
Definition next_word (w : list Z) : Z :=
  add32 (add32 (s1 (nth 1 w 0)) (nth 6 w 0)) (add32 (s0 (nth 14 w 0)) (nth 15 w 0)).
Fixpoint extend (n : nat) (w : list Z) : list Z :=
  match n with O => w | S n' => extend n' (next_word w :: w) end.
Definition schedule (block : list Z) : list Z := rev (extend 48 (rev (words block))).

Definition round (st : list Z) (kw : Z * Z) : list Z :=
  match st with
  | [a; b; c; d; e; f; g; h] =>
      let t1 := add32 (add32 h (S1 e)) (add32 (Ch e f g) (add32 kw.1 kw.2)) in
      let t2 := add32 (S0 a) (Maj a b c) in
      [add32 t1 t2; a; b; c; add32 d t1; e; f; g]
  | _ => st
  end.
Definition compress (st block : list Z) : list Z :=
  zip_with add32 st (foldl round st (zip K (schedule block))).

(** Padding: 0x80, zeros, the length in bits as 64 bits. *)
Definition pad (msg : list Z) : list Z :=
  msg ++ [0x80] ++ replicate (Z.to_nat ((55 - zlen msg) mod 64)) 0
    ++ be_encode 8 (u64 (8 * zlen msg)).

Fixpoint blocks (n : nat) (bs : list Z) : list (list Z) :=
  match n with O => [] | S n' => take 64 bs :: blocks n' (drop 64 bs) end.
Definition sum (msg : list Z) : list Z :=
  let p := pad msg in
  concat (map (be_encode 4) (foldl compress H0 (blocks (length p / 64) p))).

(** FIPS 180-4, the message abc. *)
Example fips180 :
  sum [0x61; 0x62; 0x63] =
  [0xba; 0x78; 0x16; 0xbf; 0x8f; 0x01; 0xcf; 0xea; 0x41; 0x41; 0x40; 0xde; 0x5d; 0xae; 0x22; 0x23;
   0xb0; 0x03; 0x61; 0xa3; 0x96; 0x17; 0x7a; 0x9c; 0xb4; 0x10; 0xff; 0x61; 0xf2; 0x00; 0x15; 0xad].
Proof. vm_compute. reflexivity. Qed.

Lemma round_length st kw : length st = 8%nat → length (round st kw) = 8%nat.
Proof. intros H. do 8 (destruct st as [|? st]; [done|]). by destruct st. Qed.
Lemma rounds_length kws st : length st = 8%nat → length (foldl round st kws) = 8%nat.
Proof. revert st. induction kws; intros st H; [done|]. cbn. by apply IHkws, round_length. Qed.
Lemma compress_length st b : length st = 8%nat → length (compress st b) = 8%nat.
Proof. intros H. unfold compress. rewrite length_zip_with, rounds_length; [lia|done]. Qed.
Lemma fold_compress_length bs st : length st = 8%nat → length (foldl compress st bs) = 8%nat.
Proof. revert st. induction bs; intros st H; [done|]. cbn. by apply IHbs, compress_length. Qed.

Lemma encode_words_length ws : length (concat (map (be_encode 4) ws)) = (4 * length ws)%nat.
Proof. induction ws; [done|]. cbn [map concat]. rewrite length_app, be_encode_length, IHws. cbn. lia. Qed.

Lemma sha256_length msg : length (sum msg) = 32%nat.
Proof. unfold sum. by rewrite encode_words_length, fold_compress_length. Qed.
End SHA256.

(** ** HMAC-SHA-256 *)
Module HMAC.
Definition key_block (key : list Z) : list Z :=
  let k := if 64 <? zlen key then SHA256.sum key else key in
  k ++ replicate (64 - length k) 0.
Definition sum (key msg : list Z) : list Z :=
  let k := key_block key in
  SHA256.sum (map (Z.lxor 0x5c) k ++ SHA256.sum (map (Z.lxor 0x36) k ++ msg)).

(** RFC 4231, test case 1. *)
Example rfc4231 :
  sum (replicate 20 0x0b) [0x48; 0x69; 0x20; 0x54; 0x68; 0x65; 0x72; 0x65] =
  [0xb0; 0x34; 0x4c; 0x61; 0xd8; 0xdb; 0x38; 0x53; 0x5c; 0xa8; 0xaf; 0xce; 0xaf; 0x0b; 0xf1; 0x2b;
   0x88; 0x1d; 0xc2; 0x00; 0xc9; 0x83; 0x3d; 0xa7; 0x26; 0xe9; 0x37; 0x6c; 0x2e; 0x32; 0xcf; 0xf7].
Proof. vm_compute. reflexivity. Qed.

Lemma hmac_length key msg : length (sum key msg) = 32%nat.
Proof. apply SHA256.sha256_length. Qed.
End HMAC.
