(* ===== verification/Sqn.v ===== *)
(** Authentication sequence numbers: [internal/context/uecontext/sqn.go]. *)
From S2P Require Import Prelude GoNum.

Definition SQN_MAX : Z := 0xffffffffffff.
Definition SQN_IND : Z := 32.

(** [Sqn], the value of its only field, a [uint64]. *)
Record Sqn := { value : Z }.

(** [copy(dst, src)] into a slice of length [n] that holds zeros. *)
Definition copy_into (n : nat) (src : list Z) : list Z :=
  take n src ++ replicate (n - length src) 0.

Definition Sqn_Bytes (n : Sqn) : list Z := drop 2 (be_encode 8 (value n)).
Definition Sqn_Inc (n : Sqn) : Sqn :=
  let v := u64 (value n + 1) in {| value := if SQN_MAX <? v then 0 else v |}.
Definition Sqn_Set (sqn : list Z) : Sqn :=
  {| value := be_decode ([0; 0] ++ copy_into 6 sqn) |}.
Definition GetVal (n : Sqn) : Z := value n.
Definition Sqn_reset (sqn : list Z) : Sqn :=
  let n := Sqn_Set sqn in Sqn_Inc {| value := u64 (value n + (SQN_IND - 1)) |}.

(** Sequence numbers are 48-bit; every operation that builds one keeps that. *)
Definition sqn_ok (n : Sqn) : Prop := 0 ≤ value n ≤ SQN_MAX.

(** ** Lemmas *)
Lemma copy_into_full n src : length src = n → copy_into n src = src.
Proof. intros <-. unfold copy_into. by rewrite Nat.sub_diag, app_nil_r, firstn_all. Qed.

Lemma copy_into_length n src : length (copy_into n src) = n.
Proof. unfold copy_into. rewrite length_app, length_take, length_replicate. lia. Qed.

Lemma copy_into_ok n src : bytes_ok src → bytes_ok (copy_into n src).
Proof.
  intros H. apply Forall_app. split; [by apply Forall_take|]. apply Forall_replicate. lia.
Qed.

Lemma Sqn_Set_value sqn : value (Sqn_Set sqn) = be_decode (copy_into 6 sqn).
Proof. unfold Sqn_Set. cbn [value]. by rewrite be_decode_app. Qed.

Lemma Sqn_Set_ok sqn : bytes_ok sqn → sqn_ok (Sqn_Set sqn).
Proof.
  intros H. unfold sqn_ok. rewrite Sqn_Set_value.
  pose proof (be_decode_bound _ (copy_into_ok 6 sqn H)) as Hb. unfold zlen in Hb.
  rewrite copy_into_length in Hb. unfold SQN_MAX. lia.
Qed.

Lemma Sqn_Bytes_length n : length (Sqn_Bytes n) = 6%nat.
Proof. unfold Sqn_Bytes. by rewrite length_drop, be_encode_length. Qed.

Lemma Sqn_Bytes_ok n : bytes_ok (Sqn_Bytes n).
Proof. apply Forall_drop, be_encode_ok. Qed.

Lemma Sqn_Bytes_six n : sqn_ok n → Sqn_Bytes n = be_encode 6 (value n).
Proof.
  intros [H1 H2]. unfold Sqn_Bytes, SQN_MAX in *. change 8%nat with (2 + 6)%nat.
  rewrite be_encode_app, drop_app_length'; [done|by rewrite be_encode_length].
Qed.

Lemma Sqn_Set_Bytes n : sqn_ok n → Sqn_Set (Sqn_Bytes n) = n.
Proof.
  intros H. destruct n as [v] eqn:E. rewrite <- E in *. rewrite Sqn_Bytes_six by done.
  destruct (Sqn_Set (be_encode 6 (value n))) as [w] eqn:Ew. subst n. f_equal.
  change w with (value {| value := w |}). rewrite <- Ew, Sqn_Set_value.
  rewrite copy_into_full by apply be_encode_length. rewrite be_decode_encode.
  destruct H. unfold SQN_MAX in *. cbn in *. rewrite Z.mod_small; [done|]. lia.
Qed.

Lemma Sqn_Bytes_Set bs : bytes_ok bs → length bs = 6%nat → Sqn_Bytes (Sqn_Set bs) = bs.
Proof.
  intros Hb Hl. rewrite Sqn_Bytes_six by by apply Sqn_Set_ok.
  rewrite Sqn_Set_value, copy_into_full, <- Hl by done. by apply be_encode_decode.
Qed.

Lemma Sqn_Inc_mod n : sqn_ok n → value (Sqn_Inc n) = (value n + 1) mod 2 ^ 48.
Proof.
  intros [H1 H2]. unfold Sqn_Inc, SQN_MAX in *. cbn [value]. rewrite u64_small by lia.
  destruct (Z.ltb_spec 0xffffffffffff (value n + 1)).
  - by replace (value n + 1) with (2 ^ 48) by lia.
  - rewrite Z.mod_small; lia.
Qed.

(** A sequence number survives its six-byte encoding, and six bytes survive being
    read as a sequence number. *)
Theorem Sqn_roundtrip n bs :
  sqn_ok n → bytes_ok bs → length bs = 6%nat →
  Sqn_Set (Sqn_Bytes n) = n ∧ Sqn_Bytes (Sqn_Set bs) = bs ∧ length (Sqn_Bytes n) = 6%nat.
Proof.
  intros. split; [by apply Sqn_Set_Bytes|]. split; [by apply Sqn_Bytes_Set|]. apply Sqn_Bytes_length.
Qed.

Lemma Sqn_roundtrip_witness :
  Sqn_Set (Sqn_Bytes {| value := 0xff9bb4d0b607 |}) = {| value := 0xff9bb4d0b607 |}.
Proof.
  destruct (Sqn_roundtrip {| value := 0xff9bb4d0b607 |} [0; 0; 0; 0; 0; 1]) as (H & _ & _).
  - unfold sqn_ok, SQN_MAX. cbn. lia.
  - forall_lia.
  - reflexivity.
  - exact H.
Defined.

(** C36: [Inc] counts modulo 2^48 and never leaves the 48-bit range.  [reset] advances
    the number it is given by 32 when that fits; within 32 of the maximum it starts again
    at 0 instead of wrapping by 32. *)
Theorem Sqn_Inc_reset n bs :
  sqn_ok n → bytes_ok bs →
  sqn_ok (Sqn_Inc n) ∧ value (Sqn_Inc n) = (value n + 1) mod 2 ^ 48 ∧
  sqn_ok (Sqn_reset bs) ∧
  value (Sqn_reset bs) =
    (let v := value (Sqn_Set bs) in if v + SQN_IND <=? SQN_MAX then v + SQN_IND else 0).
Proof.
  intros Hn Hb. pose proof (Sqn_Inc_mod n Hn) as Hi.
  destruct (Sqn_Set_ok bs Hb) as [H1 H2].
  assert (value (Sqn_reset bs) =
    (if value (Sqn_Set bs) + SQN_IND <=? SQN_MAX then value (Sqn_Set bs) + SQN_IND else 0)) as Hr.
  { unfold Sqn_reset, Sqn_Inc, SQN_IND, SQN_MAX in *. cbn [value].
    rewrite (u64_small (value _ + _)) by lia. rewrite u64_small by lia.
    destruct (Z.ltb_spec 0xffffffffffff (value (Sqn_Set bs) + (32 - 1) + 1)),
      (Z.leb_spec (value (Sqn_Set bs) + 32) 0xffffffffffff); lia. }
  split; [|split; [done|split; [|done]]].
  - unfold sqn_ok. rewrite Hi. unfold SQN_MAX. pose proof (Z.mod_pos_bound (value n + 1) (2 ^ 48)). lia.
  - unfold sqn_ok. rewrite Hr. unfold SQN_IND, SQN_MAX in *.
    destruct (Z.leb_spec (value (Sqn_Set bs) + 32) 0xffffffffffff); lia.
Qed.

Lemma Sqn_Inc_reset_witness :
  value (Sqn_Inc {| value := SQN_MAX |}) = 0 ∧
  value (Sqn_reset [0xff; 0xff; 0xff; 0xff; 0xff; 0xf0]) = 0.
Proof.
  destruct (Sqn_Inc_reset {| value := SQN_MAX |} [0xff; 0xff; 0xff; 0xff; 0xff; 0xf0])
    as (_ & H1 & _ & H2).
  - unfold sqn_ok, SQN_MAX. cbn. lia.
  - forall_lia.
  - exact (conj H1 H2).
Defined.
