(* ===== verification/Milenage.v ===== *)
(** The MILENAGE functions: [internal/context/uecontext/milenage.go].

    The block cipher is the [cipher.Block] interface: any function on 16-byte blocks
    ([BlockCipher]).  [NewMilenageEx] puts AES-128 there. *)
From S2P Require Import Prelude GoNum GoCrypto Sqn.

(** What the code relies on of [cipher.Block]: blocks of bytes go to blocks of bytes. *)
Class BlockCipher (E : list Z → list Z) : Prop := {
  block_length x : length x = 16%nat → length (E x) = 16%nat
}.
#[export] Instance aes_block key : length key = 16%nat → BlockCipher (AES.encrypt key).
Proof. intros H. constructor. intros x. by apply AES.encrypt_length. Qed.

Record Milenage := {
  block : list Z → list Z;
  opc : list Z;
  randxor : list Z;    (* E_k(rand XOR opc) *)
  rand : list Z
}.

Definition zeros16 : list Z := replicate 16 0.
Definition at_ (bs : list Z) (i : nat) : Z := nth i bs 0.
(** [for i := range 16 { a[j(i)] = g(i) }] *)
Definition fill16 (j : nat → nat) (g : nat → Z) : list Z :=
  foldl (λ a i, <[j i := g i]> a) zeros16 (seq 0 16).

(** [m.randxor] for the current [m.rand]. *)
Definition with_rand (m : Milenage) (r : list Z) : Milenage :=
  {| block := block m; opc := opc m; rand := r;
     randxor := block m (fill16 id (λ i, Z.lxor (at_ r i) (at_ (opc m) i))) |}.

(** [rnd] is what the reader leaves in [m.rand]. *)
Definition Refresh (m : Milenage) (rnd : list Z) : Milenage := with_rand m rnd.
Definition SetRand (m : Milenage) (r : list Z) : option Milenage :=
  if negb (zlen r =? 16) then None else Some (with_rand m r).
Definition GetRand (m : Milenage) : list Z := rand m.

(** [NewMilenageEx]; [None] is the error. *)
Definition NewMilenageEx (k rnd opopc : list Z) (isopc : bool) : option Milenage :=
  if negb (zlen k =? 16) || negb (zlen opopc =? 16) then None
  else
    let E := AES.encrypt k in
    let opc := if negb isopc then fill16 id (λ i, Z.lxor (at_ (E opopc) i) (at_ opopc i)) else opopc in
    Some (Refresh {| block := E; opc := opc; randxor := zeros16; rand := zeros16 |} rnd).
Definition NewMilenage (k rnd opopc : list Z) (isopc : bool) : option Milenage :=
  NewMilenageEx k rnd opopc isopc.

(** f1 and f1*: [None] is the error of wrong sizes (both results nil). *)
Definition F1 (m : Milenage) (sqn amf : list Z) : option (list Z * list Z) :=
  if negb (zlen sqn =? 6) || negb (zlen amf =? 2) then None
  else
    let b := (sqn ++ amf) ++ (sqn ++ amf) in
    let j i := ((i + 8) mod 16)%nat in
    let c := fill16 j (λ i, Z.lxor (Z.lxor (at_ b i) (at_ (opc m) i)) (at_ (randxor m) (j i))) in
    let e := block m c in
    let a := fill16 id (λ i, Z.lxor (at_ e i) (at_ (opc m) i)) in
    Some (take 8 a, drop 8 a).

Definition operation (m : Milenage) (rot : nat) (v : Z) : list Z :=
  let c := <[15%nat := v]> zeros16 in
  let j i := ((i + rot) mod 16)%nat in
  let a := fill16 j (λ i, Z.lxor (Z.lxor (at_ (randxor m) i) (at_ (opc m) i)) (at_ c (j i))) in
  let e := block m a in
  fill16 id (λ i, Z.lxor (at_ e i) (at_ (opc m) i)).

Definition F2F5 (m : Milenage) : list Z * list Z :=
  let tmp := operation m 0 1 in (take 8 (drop 8 tmp), take 6 tmp).
Definition F3 (m : Milenage) : list Z := operation m 12 2.
Definition F4 (m : Milenage) : list Z := operation m 8 4.
Definition F5star (m : Milenage) : list Z := take 6 (operation m 4 8).

(** [ValidateAuts]: the new state of [m], the SQN, and whether the MAC was right;
    [None] is the size error, which leaves [m] alone. *)
Definition ValidateAuts (m : Milenage) (auts randv : list Z) : option (Milenage * list Z * bool) :=
  if negb (zlen auts =? 14) || negb (zlen randv =? 16) then None
  else
    m ← SetRand m randv;
    let sqn := xor_bytes (F5star m) (take 6 auts) in
    let macs := match F1 m sqn [0; 0] with Some (_, macs) => macs | None => [] end in
    Some (m, sqn, bool_decide (macs = drop 6 auts)).

(** TS 35.208, test set 1. *)
Section TestSet1.
Let k := [0x46; 0x5b; 0x5c; 0xe8; 0xb1; 0x99; 0xb4; 0x9f; 0xaa; 0x5f; 0x0a; 0x2e; 0xe2; 0x38; 0xa6; 0xbc].
Let rnd := [0x23; 0x55; 0x3c; 0xbe; 0x96; 0x37; 0xa8; 0x9d; 0x21; 0x8a; 0xe6; 0x4d; 0xae; 0x47; 0xbf; 0x35].
Let op := [0xcd; 0xc2; 0x02; 0xd5; 0x12; 0x3e; 0x20; 0xf6; 0x2b; 0x6d; 0x67; 0x6a; 0xc7; 0x2c; 0xb3; 0x18].
Example ts35208 :
  match NewMilenage k rnd op false with
  | Some m =>
      F1 m [0xff; 0x9b; 0xb4; 0xd0; 0xb6; 0x07] [0xb9; 0xb9] =
        Some ([0x4a; 0x9f; 0xfa; 0xc3; 0x54; 0xdf; 0xaf; 0xb3],
              [0x01; 0xcf; 0xaf; 0x9e; 0xc4; 0xe8; 0x71; 0xe9]) ∧
      F2F5 m = ([0xa5; 0x42; 0x11; 0xd5; 0xe3; 0xba; 0x50; 0xbf],
                [0xaa; 0x68; 0x9c; 0x64; 0x83; 0x70]) ∧
      F3 m = [0xb4; 0x0b; 0xa9; 0xa3; 0xc5; 0x8b; 0x2a; 0x05; 0xbb; 0xf0; 0xd9; 0x87; 0xb2; 0x1b; 0xf8; 0xcb] ∧
      F5star m = [0x45; 0x1e; 0x8b; 0xec; 0xa4; 0x3b]
  | None => False
  end.
Proof. vm_compute. repeat split. Qed.
End TestSet1.

(** ** Specification: TS 35.206, clause 4.1

    [OUT_1 = E[TEMP xor rot(IN1 xor OPc, r1) xor c1] xor OPc] and
    [OUT_i = E[rot(TEMP xor OPc, ri) xor ci] xor OPc], with [rot] the cyclic rotation
    to the left by a number of bits. *)
Module Spec.
Definition rot (bits : nat) (x : list Z) : list Z := drop (bits / 8) x ++ take (bits / 8) x.
Definition const (v : Z) : list Z := replicate 15 0 ++ [v].

Section Spec.
Variables (E : list Z → list Z) (opc rnd : list Z).
Definition TEMP : list Z := E (xor_bytes rnd opc).
Definition OUT1 (sqn amf : list Z) : list Z :=
  xor_bytes (E (xor_bytes (xor_bytes TEMP (rot 64 (xor_bytes (sqn ++ amf ++ sqn ++ amf) opc)))
    (const 0))) opc.
Definition OUT (r : nat) (c : Z) : list Z :=
  xor_bytes (E (xor_bytes (rot r (xor_bytes TEMP opc)) (const c))) opc.
Definition f1 (sqn amf : list Z) : list Z := take 8 (OUT1 sqn amf).
Definition f1star (sqn amf : list Z) : list Z := drop 8 (OUT1 sqn amf).
Definition f2 : list Z := take 8 (drop 8 (OUT 0 1)).
Definition f3 : list Z := OUT 32 2.
Definition f4 : list Z := OUT 64 4.
Definition f5 : list Z := take 6 (OUT 0 1).
Definition f5star : list Z := take 6 (OUT 96 8).
End Spec.
End Spec.

(** A context that was set up: 16-byte fields, and [randxor] up to date. *)
Record milenage_wf (m : Milenage) : Prop := {
  mw_block : BlockCipher (block m);
  mw_opc : length (opc m) = 16%nat;
  mw_rand : length (rand m) = 16%nat;
  mw_randxor : randxor m = block m (xor_bytes (rand m) (opc m))
}.

(** ** Lemmas *)
Lemma fill16_id g : fill16 id g = map g (seq 0 16).
Proof. reflexivity. Qed.

Ltac explode x H := do 16 (destruct x as [|? x]; [discriminate H|]); destruct x; [|discriminate H].

Lemma fill16_xor a b :
  length a = 16%nat → length b = 16%nat → fill16 id (λ i, Z.lxor (at_ a i) (at_ b i)) = xor_bytes a b.
Proof. intros Ha Hb. explode a Ha. explode b Hb. reflexivity. Qed.

Lemma xor16_length a b : length a = 16%nat → length b = 16%nat → length (xor_bytes a b) = 16%nat.
Proof. intros Ha Hb. rewrite xor_bytes_length. lia. Qed.

(** The rotation of the loops, [rot] bytes up, is the specification's to the left. *)
Lemma operation_spec m rot v r :
  milenage_wf m → (rot, r) ∈ [(0, 0); (12, 32); (8, 64); (4, 96)]%nat →
  operation m rot v = Spec.OUT (block m) (opc m) (rand m) r v.
Proof.
  intros [HE Ho Hr Hx] Hin. unfold operation, Spec.OUT, Spec.TEMP. rewrite <- Hx.
  assert (length (randxor m) = 16%nat) as Hl by (rewrite Hx; apply HE, xor16_length; done).
  assert (fill16 (λ i, ((i + rot) mod 16)%nat) (λ i, Z.lxor (Z.lxor (at_ (randxor m) i) (at_ (opc m) i))
      (at_ (<[15%nat := v]> zeros16) ((i + rot) mod 16))) =
    xor_bytes (Spec.rot r (xor_bytes (randxor m) (opc m))) (Spec.const v)) as ->.
  { clear - Ho Hl Hin. generalize dependent (randxor m). generalize dependent (opc m).
    intros o Ho x Hl. explode o Ho. explode x Hl.
    repeat (apply elem_of_cons in Hin as [[= -> ->]|Hin]; [reflexivity|]). by apply elem_of_nil in Hin. }
  apply fill16_xor; [|done]. apply HE. rewrite xor_bytes_length. unfold Spec.rot, Spec.const.
  rewrite !length_app, length_drop, length_take, xor16_length, length_replicate by done. cbn. lia.
Qed.

Lemma F1_spec m sqn amf :
  milenage_wf m → length sqn = 6%nat → length amf = 2%nat →
  F1 m sqn amf = Some (Spec.f1 (block m) (opc m) (rand m) sqn amf,
                       Spec.f1star (block m) (opc m) (rand m) sqn amf).
Proof.
  intros [HE Ho Hr Hx] Hs Ha. unfold F1, zlen. rewrite Hs, Ha. cbn [negb orb Z.eqb Z.of_nat].
  change (negb _ || negb _) with false. cbn beta iota. cbv zeta.
  assert (length (randxor m) = 16%nat) as Hl by (rewrite Hx; apply HE, xor16_length; done).
  unfold Spec.f1, Spec.f1star, Spec.OUT1, Spec.TEMP. rewrite <- Hx.
  set (c := fill16 (λ i, ((i + 8) mod 16)%nat) _).
  assert (c = xor_bytes (xor_bytes (randxor m)
    (Spec.rot 64 (xor_bytes (sqn ++ amf ++ sqn ++ amf) (opc m)))) (Spec.const 0)) as Ec.
  { unfold c. clear - Ho Hl Hs Ha. generalize dependent (randxor m). generalize dependent (opc m).
    intros o Ho x Hl. explode o Ho. explode x Hl.
    do 6 (destruct sqn as [|? sqn]; [discriminate Hs|]). destruct sqn; [|discriminate Hs].
    do 2 (destruct amf as [|? amf]; [discriminate Ha|]). destruct amf; [|discriminate Ha].
    cbv -[Z.lxor]. rewrite !Z.lxor_0_r. do 16 (apply f_equal2; [apply Z.lxor_comm|]). reflexivity. }
  rewrite fill16_xor, Ec; [done| |done]. rewrite Ec. apply HE. rewrite !xor_bytes_length.
  unfold Spec.rot, Spec.const.
  rewrite !length_app, length_drop, length_take, xor_bytes_length, !length_app, length_replicate.
  rewrite Hs, Ha, Ho, Hl. reflexivity.
Qed.

Lemma OUT_length E opc rnd r c :
  BlockCipher E → length opc = 16%nat → length rnd = 16%nat →
  length (Spec.OUT E opc rnd r c) = 16%nat.
Proof.
  intros HE Ho Hr. unfold Spec.OUT, Spec.TEMP.
  assert (length (E (xor_bytes rnd opc)) = 16%nat) as Ht by (apply HE, xor16_length; done).
  apply xor16_length; [|done]. apply HE. rewrite xor_bytes_length. unfold Spec.rot, Spec.const.
  rewrite !length_app, length_drop, length_take, xor16_length, length_replicate by done. cbn. lia.
Qed.

Lemma OUT1_length E opc rnd sqn amf :
  BlockCipher E → length opc = 16%nat → length rnd = 16%nat → length sqn = 6%nat →
  length amf = 2%nat → length (Spec.OUT1 E opc rnd sqn amf) = 16%nat.
Proof.
  intros HE Ho Hr Hs Ha. unfold Spec.OUT1, Spec.TEMP.
  assert (length (E (xor_bytes rnd opc)) = 16%nat) as Ht by (apply HE, xor16_length; done).
  apply xor16_length; [|done]. apply HE. rewrite !xor_bytes_length. unfold Spec.rot, Spec.const.
  rewrite !length_app, length_drop, length_take, xor_bytes_length, !length_app, length_replicate.
  rewrite Hs, Ha, Ho, Ht. reflexivity.
Qed.

Lemma with_rand_wf m r :
  BlockCipher (block m) → length (opc m) = 16%nat → length r = 16%nat → milenage_wf (with_rand m r).
Proof. intros HE Ho Hr. constructor; try done.
  unfold with_rand. cbn [block opc rand randxor]. by rewrite fill16_xor.
Qed.

Lemma NewMilenageEx_Some k rnd op isopc :
  length k = 16%nat → length op = 16%nat → length rnd = 16%nat →
  ∃ m, NewMilenageEx k rnd op isopc = Some m ∧ milenage_wf m ∧ rand m = rnd ∧
    block m = AES.encrypt k ∧
    opc m = if isopc then op else xor_bytes (AES.encrypt k op) op.
Proof.
  intros Hk Ho Hr. unfold NewMilenageEx, zlen. rewrite Hk, Ho. eexists. split; [reflexivity|].
  split; [|split; [done|split; [done|]]].
  - apply with_rand_wf; cbn; [by apply aes_block| |done]. by destruct isopc.
  - destruct isopc; [done|]. unfold Refresh, with_rand. cbn [opc negb]. apply fill16_xor; [by apply AES.encrypt_length|done].
Qed.

(** ** Theorems *)

(** C19: The five MILENAGE functions of a context that was set up are those of
    TS 35.206, for any block cipher: the byte-index loops compute the specified
    rotations, offsets and truncations. *)
Theorem milenage_refines m sqn amf :
  milenage_wf m → length sqn = 6%nat → length amf = 2%nat →
  let E := block m in let o := opc m in let r := rand m in
  F1 m sqn amf = Some (Spec.f1 E o r sqn amf, Spec.f1star E o r sqn amf) ∧
  F2F5 m = (Spec.f2 E o r, Spec.f5 E o r) ∧
  F3 m = Spec.f3 E o r ∧ F4 m = Spec.f4 E o r ∧ F5star m = Spec.f5star E o r.
Proof.
  intros Hm Hs Ha. split; [by apply F1_spec|]. unfold F2F5, F3, F4, F5star.
  rewrite (operation_spec m 0 1 0), (operation_spec m 12 2 32), (operation_spec m 8 4 64),
    (operation_spec m 4 8 96) by (done || set_solver).
  done.
Qed.

(** A block cipher for examples: byte-wise xor with a constant. *)
Definition toy_block (x : list Z) : list Z := map (Z.lxor 0x5a) x.
#[export] Instance toy_block_cipher : BlockCipher toy_block.
Proof. constructor. intros x H. unfold toy_block. by rewrite length_map. Defined.
Definition toy_milenage : Milenage :=
  with_rand {| block := toy_block; opc := replicate 16 7; randxor := zeros16; rand := zeros16 |}
    (replicate 16 9).

Lemma milenage_refines_witness :
  F3 toy_milenage = Spec.f3 toy_block (replicate 16 7) (replicate 16 9).
Proof.
  destruct (milenage_refines toy_milenage (replicate 6 1) (replicate 2 0)) as (_ & _ & H & _).
  - constructor; [apply toy_block_cipher|reflexivity..].
  - reflexivity.
  - reflexivity.
  - exact H.
Defined.

(** A set-up context is well formed and carries AES-128 under the key, the given
    random value and the OPc given or computed from OP; wrong sizes are refused. *)
Theorem NewMilenage_wf k rnd op isopc :
  length rnd = 16%nat →
  match NewMilenage k rnd op isopc with
  | Some m => milenage_wf m ∧ length k = 16%nat ∧ length op = 16%nat ∧ block m = AES.encrypt k ∧
      rand m = rnd ∧ opc m = (if isopc then op else xor_bytes (AES.encrypt k op) op)
  | None => length k ≠ 16%nat ∨ length op ≠ 16%nat
  end.
Proof.
  intros Hr. unfold NewMilenage. destruct (decide (length k = 16%nat)) as [Hk|Hk].
  - destruct (decide (length op = 16%nat)) as [Ho|Ho].
    + destruct (NewMilenageEx_Some k rnd op isopc Hk Ho Hr) as (m & -> & H1 & H2 & H3 & H4). done.
    + unfold NewMilenageEx. rewrite (proj2 (Z.eqb_neq (zlen op) 16)) by (unfold zlen; lia).
      rewrite orb_true_r. by right.
  - unfold NewMilenageEx. rewrite (proj2 (Z.eqb_neq (zlen k) 16)) by (unfold zlen; lia). by left.
Qed.

Lemma NewMilenage_wf_witness :
  match NewMilenage (replicate 16 1) (replicate 16 2) (replicate 16 3) true with
  | Some m => opc m = replicate 16 3 | None => False end.
Proof.
  assert (H := NewMilenage_wf (replicate 16 1) (replicate 16 2) (replicate 16 3) true eq_refl).
  destruct (NewMilenage _ _ _ _) as [m|].
  - destruct H as (_ & _ & _ & _ & _ & H). exact H.
  - destruct H as [H|H]; by destruct H.
Defined.
