(* ===== verification/UeAuth.v ===== *)
(** Key derivation: [internal/context/uecontext/ueauth.go]. *)
From S2P Require Import Prelude GoNum GoText GoCrypto.

Definition FC_FOR_CK_PRIME_IK_PRIME_DERIVATION : string := "20".
Definition FC_FOR_ALGORITHM_KEY_DERIVATION : string := "69".
Definition FC_FOR_KAUSF_DERIVATION : string := "6A".
Definition FC_FOR_RES_STAR_XRES_STAR_DERIVATION : string := "6B".
Definition FC_FOR_KSEAF_DERIVATION : string := "6C".
Definition FC_FOR_KAMF_DERIVATION : string := "6D".
Definition FC_FOR_KAMF_PRIME_DERIVATION : string := "72".
Definition FC_FOR_KGNB_KN3IWF_DERIVATION : string := "6E".
Definition FC_FOR_NH_DERIVATION : string := "6F".

(** The length of a parameter, as the two bytes of a [uint16]. *)
Definition kdfLen (input : list Z) : list Z := be_encode 2 (u16 (zlen input)).
Arguments kdfLen : simpl never.

(** [s] after the loop over the parameters: each one, then its length. *)
Fixpoint kdf_input (s : list Z) (params : list (list Z)) : list Z :=
  match params with
  | [] => s
  | p :: params' => kdf_input ((s ++ p) ++ kdfLen p) params'
  end.

(** Results of the derivations: the bytes and an error; [Write] on a hash never fails. *)
Definition KDF (key : list Z) (FC : string) (params : list (list Z)) : list Z * option hex_error :=
  let '(s, err) := DecodeString FC in
  match err with
  | Some e => ([], Some e)
  | None => (HMAC.sum key (kdf_input s params), None)
  end.

Definition SeafKey key p := KDF key FC_FOR_KSEAF_DERIVATION p.
Definition AlgKey key p := KDF key FC_FOR_ALGORITHM_KEY_DERIVATION p.
Definition RanKey key p := KDF key FC_FOR_KGNB_KN3IWF_DERIVATION p.
Definition NhKey key p := KDF key FC_FOR_NH_DERIVATION p.
Definition KAMF kseaf supi abba := KDF kseaf FC_FOR_KAMF_DERIVATION [supi; abba].
Definition KamfPrime kamf direction count := KDF kamf FC_FOR_KAMF_PRIME_DERIVATION [direction; count].
Definition KAUSF ckik servingnet sqnxorak :=
  KDF ckik FC_FOR_KAUSF_DERIVATION [servingnet; sqnxorak].

(** The two halves of a derived key. *)
Definition halves (r : list Z * option hex_error) : list Z * list Z * option hex_error :=
  match r with
  | (buf, None) => let l := (length buf / 2)%nat in (take l buf, drop l buf, None)
  | (_, Some e) => ([], [], Some e)
  end.
Definition CkPrimeIkPrime key servingnet sqnxorak :=
  halves (KDF key FC_FOR_CK_PRIME_IK_PRIME_DERIVATION [servingnet; sqnxorak]).
Definition ResstarXresstar key servingnet rand res :=
  halves (KDF key FC_FOR_RES_STAR_XRES_STAR_DERIVATION [servingnet; rand; res]).

(** ** Lemmas *)
Lemma kdf_input_app s ps qs : kdf_input s (ps ++ qs) = kdf_input (kdf_input s ps) qs.
Proof. revert s. induction ps as [|p ps IH]; intros s; cbn; [done|]. apply IH. Qed.

Lemma kdf_input_snoc s ps p : kdf_input s (ps ++ [p]) = (kdf_input s ps ++ p) ++ kdfLen p.
Proof. by rewrite kdf_input_app. Qed.

Lemma kdf_input_length s ps : (length s + 2 * length ps ≤ length (kdf_input s ps))%nat.
Proof.
  revert s. induction ps as [|p ps IH]; intros s; cbn; [lia|]. specialize (IH ((s ++ p) ++ kdfLen p)).
  assert (length (kdfLen p) = 2%nat) as Hl by apply be_encode_length.
  rewrite !length_app, Hl in IH. lia.
Qed.

Lemma kdfLen_inj p q : zlen p < 2 ^ 16 → zlen q < 2 ^ 16 → kdfLen p = kdfLen q → length p = length q.
Proof.
  intros Hp Hq H. pose proof (zlen_nonneg p). pose proof (zlen_nonneg q). unfold kdfLen, u16 in H.
  rewrite !Z.mod_small in H by lia. apply (f_equal be_decode) in H.
  rewrite !be_decode_encode, !Z.mod_small in H by lia. unfold zlen in H. lia.
Qed.

Lemma app_inj_tail_length {A} (l1 l2 k1 k2 : list A) :
  length k1 = length k2 → l1 ++ k1 = l2 ++ k2 → l1 = l2 ∧ k1 = k2.
Proof.
  intros Hl H. apply app_inj_1; [|done]. apply (f_equal length) in H. rewrite !length_app in H. lia.
Qed.

Lemma kdf_input_inj s t ps qs :
  length s = 1%nat → length t = 1%nat → Forall (λ p, zlen p < 2 ^ 16) ps →
  Forall (λ p, zlen p < 2 ^ 16) qs → kdf_input s ps = kdf_input t qs → s = t ∧ ps = qs.
Proof.
  intros Hs Ht. revert qs. induction ps as [|p ps IH] using rev_ind; intros qs Hp Hq H;
    destruct qs as [|q qs _] using rev_ind.
  - done.
  - apply (f_equal length) in H. cbn in H. pose proof (kdf_input_length t (qs ++ [q])) as Hb.
    rewrite length_app in Hb. cbn in Hb. lia.
  - apply (f_equal length) in H. cbn in H. pose proof (kdf_input_length s (ps ++ [p])) as Hb.
    rewrite length_app in Hb. cbn in Hb. lia.
  - rewrite !kdf_input_snoc in H. apply Forall_app in Hp as [Hp [Hp1 _]%Forall_cons].
    apply Forall_app in Hq as [Hq [Hq1 _]%Forall_cons].
    apply app_inj_tail_length in H as [H Hl]; [|unfold kdfLen; by rewrite !be_encode_length].
    apply kdfLen_inj in Hl; [|done..]. apply app_inj_tail_length in H as [H ->]; [|done].
    by destruct (IH qs Hp Hq H) as [-> ->].
Qed.

Lemma KDF_code key FC s ps :
  DecodeString FC = (s, None) → KDF key FC ps = (HMAC.sum key (kdf_input s ps), None).
Proof. unfold KDF. by intros ->. Qed.

Lemma ResstarXresstar_eq key snn rnd r :
  ResstarXresstar key snn rnd r =
    (take 16 (HMAC.sum key (kdf_input [0x6b] [snn; rnd; r])),
     drop 16 (HMAC.sum key (kdf_input [0x6b] [snn; rnd; r])), None).
Proof.
  unfold ResstarXresstar, halves. rewrite (KDF_code _ _ [0x6b]) by done.
  by rewrite HMAC.hmac_length.
Qed.

(** *** The key derivation function of TS 33.220, clause B.2.0 *)
Definition ts33220_string (fc : Z) (ps : list (list Z)) : list Z :=
  fc :: concat (map (λ p, p ++ [zlen p / 256; zlen p mod 256]) ps).
Definition ts33220 (key : list Z) (fc : Z) (ps : list (list Z)) : list Z :=
  HMAC.sum key (ts33220_string fc ps).

Lemma kdfLen_spec p : zlen p < 2 ^ 16 → kdfLen p = [zlen p / 256; zlen p mod 256].
Proof.
  intros Hp. pose proof (zlen_nonneg p). unfold kdfLen, u16. rewrite Z.mod_small by lia.
  cbn [be_encode app]. rewrite (Z.mod_small (zlen p / 256)); [done|].
  split; [by apply Z.div_pos|]. apply Z.div_lt_upper_bound; [done|]. exact Hp.
Qed.
Lemma kdf_input_spec fc ps :
  Forall (λ p, zlen p < 2 ^ 16) ps → kdf_input [fc] ps = ts33220_string fc ps.
Proof.
  intros H. change (ts33220_string fc ps)
    with ([fc] ++ concat (map (λ p, p ++ [zlen p / 256; zlen p mod 256]) ps)). generalize [fc].
  induction H as [|p ps Hp _ IH]; intros s; cbn [kdf_input map concat]; [by rewrite app_nil_r|].
  by rewrite IH, kdfLen_spec, <- !app_assoc by done.
Qed.
Lemma halves_spec r bs :
  r = (bs, None) → length bs = 32%nat →
  ∃ x y, halves r = (x, y, None) ∧ x ++ y = bs ∧ length x = 16%nat ∧ length y = 16%nat.
Proof.
  intros -> Hl. exists (take 16 bs), (drop 16 bs). unfold halves. rewrite Hl.
  split; [done|]. split; [apply take_drop|]. rewrite length_take, length_drop. lia.
Qed.

(** ** Theorems *)

(** C30: The input of the key derivation is unambiguous: as long as every parameter is
    shorter than 2^16 bytes, two derivations feed the HMAC the same string only if they
    have the same code and the same parameters (the lengths come after the parameters,
    so the string is read from its end). *)
Theorem kdf_input_unambiguous fc1 fc2 ps qs :
  Forall (λ p, zlen p < 2 ^ 16) ps → Forall (λ p, zlen p < 2 ^ 16) qs →
  kdf_input [fc1] ps = kdf_input [fc2] qs → fc1 = fc2 ∧ ps = qs.
Proof. intros Hp Hq H. apply kdf_input_inj in H as [[= ->] ->]; done. Qed.

Lemma kdf_input_unambiguous_witness : 0x6a = 0x6a ∧ [[1; 2]; [3]] = [[1; 2]; [3]].
Proof.
  apply (kdf_input_unambiguous 0x6a 0x6a).
  - do 2 (apply Forall_cons_2; [reflexivity|]). apply Forall_nil_2.
  - do 2 (apply Forall_cons_2; [reflexivity|]). apply Forall_nil_2.
  - reflexivity.
Defined.

(** C29: Every derivation is the one of TS 33.501 and TS 33.402 by the key derivation
    function of TS 33.220: HMAC-SHA-256 under the given key of the string [FC], then each
    parameter followed by its length in two bytes, high byte first ([ts33220], stated
    apart from the code's loop).  The codes are 6A for KAUSF, 6C for KSEAF, 6D for KAMF,
    72 for KAMF', 69 for the algorithm keys, 6E for KgNB, 6F for NH, 20 for CK' and IK',
    6B for RES* and XRES*; the last two are cut into halves of 16 bytes.  No derivation
    fails, and each gives 32 bytes.  Parameters are shorter than 2^16 bytes. *)
Theorem derivations key p1 p2 p3 ps
  (Hp : Forall (λ p, zlen p < 2 ^ 16) [p1; p2; p3]) (Hps : Forall (λ p, zlen p < 2 ^ 16) ps) :
  KAUSF key p1 p2 = (ts33220 key 0x6a [p1; p2], None) ∧
  SeafKey key ps = (ts33220 key 0x6c ps, None) ∧
  KAMF key p1 p2 = (ts33220 key 0x6d [p1; p2], None) ∧
  KamfPrime key p1 p2 = (ts33220 key 0x72 [p1; p2], None) ∧
  AlgKey key ps = (ts33220 key 0x69 ps, None) ∧
  RanKey key ps = (ts33220 key 0x6e ps, None) ∧
  NhKey key ps = (ts33220 key 0x6f ps, None) ∧
  (∃ ck ik, CkPrimeIkPrime key p1 p2 = (ck, ik, None) ∧ ck ++ ik = ts33220 key 0x20 [p1; p2] ∧
     length ck = 16%nat ∧ length ik = 16%nat) ∧
  (∃ resstar xresstar, ResstarXresstar key p1 p2 p3 = (resstar, xresstar, None) ∧
     resstar ++ xresstar = ts33220 key 0x6b [p1; p2; p3] ∧
     length resstar = 16%nat ∧ length xresstar = 16%nat) ∧
  ∀ fc, length (ts33220 key fc ps) = 32%nat.
Proof.
  apply Forall_cons in Hp as [H1 [H2 [H3 _]%Forall_cons]%Forall_cons].
  assert (∀ FC fc qs, DecodeString FC = ([fc], None) → Forall (λ p, zlen p < 2 ^ 16) qs →
    KDF key FC qs = (ts33220 key fc qs, None)) as HK.
  { intros FC fc qs HFC Hq. rewrite (KDF_code _ _ _ _ HFC), kdf_input_spec by done. done. }
  repeat (split; [apply HK; [done|by repeat constructor]|]).
  split; [|split; [|intros fc; apply HMAC.hmac_length]].
  - apply (halves_spec _ (ts33220 key 0x20 [p1; p2])); [|apply HMAC.hmac_length].
    apply HK; [done|by repeat constructor].
  - apply (halves_spec _ (ts33220 key 0x6b [p1; p2; p3])); [|apply HMAC.hmac_length].
    apply HK; [done|by repeat constructor].
Qed.

Lemma derivations_witness :
  ts33220_string 0x6a [[2; 3]; [4]] = [0x6a; 2; 3; 0; 2; 4; 0; 1] ∧
  KAUSF [1] [2; 3] [4] = (ts33220 [1] 0x6a [[2; 3]; [4]], None) ∧
  NhKey [1] [[2]] = (ts33220 [1] 0x6f [[2]], None).
Proof.
  destruct (derivations [1] [2; 3] [4] [] [[2]]) as (H1 & _ & _ & _ & _ & _ & H2 & _).
  - do 3 (apply Forall_cons_2; [reflexivity|]). apply Forall_nil_2.
  - apply Forall_cons_2; [reflexivity|apply Forall_nil_2].
  - exact (conj eq_refl (conj H1 H2)).
Defined.
