(* ===== verification/Auth.v ===== *)
(** The UE's side of 5G-AKA: [internal/context/uecontext/auth.go]. *)
From S2P Require Import Prelude GoNum GoText GoCrypto Sqn Milenage UeAuth.

Definition AUTH_SUCCESS : Z := 0.
Definition AUTH_MAC_FAILURE : Z := 1.
Definition AUTH_SYNC_FAILURE : Z := 2.

(** [AuthContext], without the key set identifier, which no code reads. *)
Record AuthContext := {
  supi : string;
  snn : list Z;
  kamf : list Z;
  au_rand : list Z;
  sqn : Sqn;
  amf : list Z;
  milenage : option Milenage
}.
#[export] Instance eta_AuthContext : Eta AuthContext := λ a,
  {| supi := supi a; snn := snn a; kamf := kamf a; au_rand := au_rand a; sqn := sqn a;
     amf := amf a; milenage := milenage a |}.

(** The two halves of [F1], nil when it refuses the sizes. *)
Definition F1_maca (m : Milenage) (sqn amf : list Z) : list Z :=
  match F1 m sqn amf with Some (maca, _) => maca | None => [] end.
Definition F1_macs (m : Milenage) (sqn amf : list Z) : list Z :=
  match F1 m sqn amf with Some (_, macs) => macs | None => [] end.

(** [processAuthenticationInfo]: the context after it, the code and the output. *)
Definition processAuthenticationInfo (auth : AuthContext) (autn abba : list Z)
    : res (AuthContext * Z * list Z) :=
  let ueSqn := Sqn_Bytes (sqn auth) in
  m ← (match milenage auth with Some m => Ok m | None => Panic NilDeref end);
  let '(resp, ak) := F2F5 m in
  let key := F3 m ++ F4 m in
  sqnXorAk ← slice_to autn 6;
  netMacA ← slice_from autn 8;
  let netSqn := xor_bytes sqnXorAk ak in
  let macA := F1_maca m netSqn (amf auth) in
  if negb (bool_decide (macA = netMacA)) then mret (auth, AUTH_MAC_FAILURE, [])
  else
    let tmpSqn := Sqn_Set netSqn in
    if GetVal tmpSqn <? GetVal (sqn auth) then
      let macS := F1_macs m ueSqn [0; 0] in
      mret (auth, AUTH_SYNC_FAILURE, xor_bytes ueSqn (F5star m) ++ macS)
    else
      let auth := auth <| sqn := Sqn_Set netSqn |> in
      let '(kAusf, _) := KAUSF key (snn auth) (xor_bytes netSqn ak) in
      let '(kSeaf, _) := SeafKey kAusf [snn auth] in
      supi' ← slice_from (str_bytes (supi auth)) 5;
      let auth := auth <| kamf := (KAMF kSeaf supi' abba).1 |> in
      let '(_, output, _) := ResstarXresstar key (snn auth) (au_rand auth) resp in
      mret (auth, AUTH_SUCCESS, output).

(** ** The network's side of the protocol *)

(** AUTN for sequence number [sq] and AMF field [field], with the MAC over [macamf]. *)
Definition network_autn (m : Milenage) (sq : Sqn) (field macamf : list Z) : list Z :=
  xor_bytes (Sqn_Bytes sq) (F2F5 m).2 ++ field ++ F1_maca m (Sqn_Bytes sq) macamf.

(** What both sides derive from an accepted challenge. *)
Definition ck_ik (m : Milenage) : list Z := F3 m ++ F4 m.
Definition anchor_key (auth : AuthContext) (m : Milenage) (netSqn abba : list Z) : list Z :=
  let kausf := HMAC.sum (ck_ik m)
    (kdf_input [0x6a] [snn auth; xor_bytes netSqn (F2F5 m).2]) in
  let kseaf := HMAC.sum kausf (kdf_input [0x6c] [snn auth]) in
  HMAC.sum kseaf (kdf_input [0x6d] [drop 5 (str_bytes (supi auth)); abba]).
Definition xres_star (auth : AuthContext) (m : Milenage) : list Z :=
  drop 16 (HMAC.sum (ck_ik m) (kdf_input [0x6b] [snn auth; au_rand auth; (F2F5 m).1])).

(** ** Lemmas *)
#[global] Strategy opaque [HMAC.sum AES.encrypt].

Lemma slice_to_app {A} (l k : list A) n :
  zlen l = n → slice_to (l ++ k) n = Ok l.
Proof.
  intros H. unfold slice_to. pose proof (zlen_nonneg l). pose proof (zlen_nonneg k).
  rewrite zlen_app. rewrite (proj2 (Z.ltb_ge n 0)), (proj2 (Z.ltb_ge _ _)) by lia.
  cbn. f_equal. apply take_app_length'. unfold zlen in H. lia.
Qed.
Lemma slice_from_app {A} (l k : list A) n :
  zlen l = n → slice_from (l ++ k) n = Ok k.
Proof.
  intros H. unfold slice_from. pose proof (zlen_nonneg l). pose proof (zlen_nonneg k).
  rewrite zlen_app. rewrite (proj2 (Z.ltb_ge n 0)), (proj2 (Z.ltb_ge _ _)) by lia.
  cbn. f_equal. apply drop_app_length'. unfold zlen in H. lia.
Qed.
Lemma slice_from_ok {A} (l : list A) n :
  0 ≤ n ≤ zlen l → slice_from l n = Ok (drop (Z.to_nat n) l).
Proof.
  intros H. unfold slice_from. by rewrite (proj2 (Z.ltb_ge n 0)), (proj2 (Z.ltb_ge _ _)) by lia.
Qed.
Lemma slice_to_ok {A} (l : list A) n :
  0 ≤ n ≤ zlen l → slice_to l n = Ok (take (Z.to_nat n) l).
Proof.
  intros H. unfold slice_to. by rewrite (proj2 (Z.ltb_ge n 0)), (proj2 (Z.ltb_ge _ _)) by lia.
Qed.

Lemma ak_length m : milenage_wf m → length (F2F5 m).2 = 6%nat.
Proof.
  intros Hm. unfold F2F5. cbn [snd]. destruct Hm as [HE Ho Hr Hx] eqn:E.
  rewrite (operation_spec m 0 1 0) by (done || set_solver).
  by rewrite length_take, OUT_length.
Qed.
Lemma akstar_length m : milenage_wf m → length (F5star m) = 6%nat.
Proof.
  intros Hm. unfold F5star. destruct Hm as [HE Ho Hr Hx] eqn:E.
  rewrite (operation_spec m 4 8 96) by (done || set_solver).
  by rewrite length_take, OUT_length.
Qed.
Lemma macs_length m sq am :
  milenage_wf m → length sq = 6%nat → length am = 2%nat → length (F1_macs m sq am) = 8%nat.
Proof.
  intros Hm Hs Ha. unfold F1_macs. rewrite F1_spec by done. unfold Spec.f1star.
  destruct Hm. by rewrite length_drop, OUT1_length.
Qed.

(** Undoing the masking of the sequence number. *)
Lemma unmask_sqn sq ak :
  length ak = 6%nat → xor_bytes (xor_bytes (Sqn_Bytes sq) ak) ak = Sqn_Bytes sq.
Proof. intros H. apply xor_bytes_cancel. by rewrite Sqn_Bytes_length. Qed.

(** Every outcome of [processAuthenticationInfo]. *)
Lemma process_cases auth m autn abba :
  milenage auth = Some m →
  processAuthenticationInfo auth autn abba =
    let netSqn := xor_bytes (take 6 autn) (F2F5 m).2 in
    if zlen autn <? 8 then Panic IndexOutOfRange
    else if negb (bool_decide (F1_maca m netSqn (amf auth) = drop 8 autn))
    then Ok (auth, AUTH_MAC_FAILURE, [])
    else if value (Sqn_Set netSqn) <? value (sqn auth) then
      Ok (auth, AUTH_SYNC_FAILURE,
          xor_bytes (Sqn_Bytes (sqn auth)) (F5star m) ++ F1_macs m (Sqn_Bytes (sqn auth)) [0; 0])
    else if zlen (str_bytes (supi auth)) <? 5 then Panic IndexOutOfRange
    else Ok (auth <| sqn := Sqn_Set netSqn |> <| kamf := anchor_key auth m netSqn abba |>,
             AUTH_SUCCESS, xres_star auth m).
Proof.
  intros Hm. unfold processAuthenticationInfo, anchor_key, xres_star, ck_ik. rewrite Hm.
  cbn [mbind res_bind]. destruct (F2F5 m) as [resp ak]. cbn [fst snd].
  pose proof (zlen_nonneg autn). destruct (Z.ltb_spec (zlen autn) 8) as [E|E].
  { destruct (Z.ltb_spec (zlen autn) 6) as [E'|E'].
    - unfold slice_to. rewrite (proj2 (Z.ltb_lt _ _) E'). by rewrite orb_true_r.
    - rewrite slice_to_ok by lia. cbn [mbind res_bind]. unfold slice_from.
      rewrite (proj2 (Z.ltb_lt _ _) E). by rewrite orb_true_r. }
  rewrite slice_to_ok, slice_from_ok by lia. cbn [mbind res_bind].
  change (Z.to_nat 6) with 6%nat. change (Z.to_nat 8) with 8%nat.
  destruct (negb _); [done|]. unfold GetVal. destruct (value _ <? value _); [done|].
  unfold KAUSF, SeafKey. rewrite !(KDF_code _ _ [0x6a]), !(KDF_code _ _ [0x6c]) by done.
  change (supi (auth <| sqn := _ |>)) with (supi auth).
  destruct (Z.ltb_spec (zlen (str_bytes (supi auth))) 5) as [Hs|Hs].
  { unfold slice_from. rewrite (proj2 (Z.ltb_lt _ _) Hs). by rewrite orb_true_r. }
  rewrite slice_from_ok by lia. cbn [mbind res_bind]. rewrite ResstarXresstar_eq.
  unfold KAMF. by rewrite (KDF_code _ _ [0x6d]).
Qed.

(** What a second acceptance would write is already there. *)
Lemma fresh_again auth m net abba :
  let auth' := auth <| sqn := Sqn_Set net |> <| kamf := anchor_key auth m net abba |> in
  Ok (auth' <| sqn := Sqn_Set net |> <| kamf := anchor_key auth' m net abba |>, AUTH_SUCCESS,
      xres_star auth' m) = Ok (auth', AUTH_SUCCESS, xres_star auth m).
Proof. unfold anchor_key, xres_star. cbn. reflexivity. Qed.

(** On the network's AUTN the MAC is right and the number is the network's. *)
Lemma process_network_autn auth m sq field abba :
  milenage auth = Some m → milenage_wf m → sqn_ok sq → length field = 2%nat →
  processAuthenticationInfo auth (network_autn m sq field (amf auth)) abba =
    if value sq <? value (sqn auth) then
      Ok (auth, AUTH_SYNC_FAILURE,
          xor_bytes (Sqn_Bytes (sqn auth)) (F5star m) ++ F1_macs m (Sqn_Bytes (sqn auth)) [0; 0])
    else if zlen (str_bytes (supi auth)) <? 5 then Panic IndexOutOfRange
    else Ok (auth <| sqn := sq |> <| kamf := anchor_key auth m (Sqn_Bytes sq) abba |>, AUTH_SUCCESS,
             xres_star auth m).
Proof.
  intros Hm Hw Hsq Hf. pose proof (ak_length m Hw) as Hak.
  assert (length (xor_bytes (Sqn_Bytes sq) (F2F5 m).2) = 6%nat) as Hx
    by (rewrite xor_bytes_length, Sqn_Bytes_length; lia).
  rewrite (process_cases _ m) by done. unfold network_autn. cbv zeta.
  rewrite (take_app_length' _ _ 6) by done. rewrite unmask_sqn by done.
  rewrite app_assoc, (drop_app_length' _ _ 8) by (rewrite length_app; lia).
  rewrite bool_decide_eq_true_2, Sqn_Set_Bytes by done.
  rewrite (proj2 (Z.ltb_ge _ 8)); [done|].
  rewrite !zlen_app. unfold zlen. lia.
Qed.

(** ** Theorems *)

(** C20: The UE accepts the network's AUTN exactly when its own sequence number is not
    ahead.  Then it takes over the network's number, derives K_AMF by the chain
    K_AUSF, K_SEAF, K_AMF of TS 33.501 from CK||IK, the serving network, the SUPI and the
    ABBA, and answers RES*.  The AMF field inside the AUTN plays no part: the MAC is
    checked against the AMF the UE is configured with. *)
Theorem auth_accepts auth m sq field abba
  (Hm : milenage auth = Some m) (Hw : milenage_wf m) (Hsq : sqn_ok sq)
  (Hf : length field = 2%nat) (Hsupi : 5 ≤ zlen (str_bytes (supi auth))) :
  (∃ auth' out, processAuthenticationInfo auth (network_autn m sq field (amf auth)) abba =
     Ok (auth', AUTH_SUCCESS, out) ∧
     sqn auth' = sq ∧ kamf auth' = anchor_key auth m (Sqn_Bytes sq) abba ∧ out = xres_star auth m ∧
     length out = 16%nat ∧ milenage auth' = Some m) ↔
  value (sqn auth) ≤ value sq.
Proof.
  rewrite (process_network_autn auth m sq field abba Hm Hw Hsq Hf).
  destruct (Z.ltb_spec (value sq) (value (sqn auth))) as [E|E].
  - split; [|lia]. intros (auth' & out & [=] & _).
  - split; [done|]. intros _. rewrite (proj2 (Z.ltb_ge _ _)) by lia. eexists _, _. split; [done|].
    repeat (split; [done|]). split; [|done]. unfold xres_star.
    by rewrite length_drop, HMAC.hmac_length.
Qed.

(** The UE of the examples: its number is [v], its context the toy one. *)
Definition toy_auth (v : Z) : AuthContext :=
  {| supi := "imsi-001010000000001"; snn := [53; 71]; kamf := []; au_rand := replicate 16 9;
     sqn := {| value := v |}; amf := [0x80; 0]; milenage := Some toy_milenage |}.
Lemma toy_milenage_wf : milenage_wf toy_milenage.
Proof. constructor; [apply toy_block_cipher|reflexivity..]. Qed.

Lemma auth_accepts_witness :
  ∃ auth' out, processAuthenticationInfo (toy_auth 32)
    (network_autn toy_milenage {| value := 64 |} [0; 0] [0x80; 0]) [0; 0] = Ok (auth', AUTH_SUCCESS, out) ∧
    sqn auth' = {| value := 64 |}.
Proof.
  destruct (proj2 (auth_accepts (toy_auth 32) toy_milenage {| value := 64 |} [0; 0] [0; 0]
    eq_refl toy_milenage_wf ltac:(unfold sqn_ok, SQN_MAX; cbn; lia) eq_refl ltac:(by vm_compute)))
    as (auth' & out & H & Hs & _).
  - cbn. lia.
  - exists auth', out. exact (conj H Hs).
Defined.

(** C21: Resynchronisation.  When the UE's number is ahead of the network's, it keeps its
    state and answers a 14-byte AUTS; from it the home network, with the same key and
    OPc and the RAND of the challenge, recovers the UE's sequence number and finds the
    MAC right. *)
Theorem auth_resync auth m sq field abba net
  (Hm : milenage auth = Some m) (Hw : milenage_wf m) (Hsq : sqn_ok sq)
  (Hf : length field = 2%nat) (Hahead : value sq < value (sqn auth))
  (Hue : sqn_ok (sqn auth)) (Hb : block net = block m) (Ho : opc net = opc m) :
  ∃ auts net', processAuthenticationInfo auth (network_autn m sq field (amf auth)) abba =
      Ok (auth, AUTH_SYNC_FAILURE, auts) ∧ length auts = 14%nat ∧
    ValidateAuts net auts (rand m) = Some (net', Sqn_Bytes (sqn auth), true) ∧
    Sqn_Set (Sqn_Bytes (sqn auth)) = sqn auth.
Proof.
  rewrite (process_network_autn auth m sq field abba Hm Hw Hsq Hf).
  rewrite (proj2 (Z.ltb_lt _ _) Hahead).
  pose proof (akstar_length m Hw) as Hak. pose proof (Sqn_Bytes_length (sqn auth)) as Hsl.
  pose proof (macs_length m (Sqn_Bytes (sqn auth)) [0; 0] Hw Hsl eq_refl) as Hml.
  assert (length (xor_bytes (Sqn_Bytes (sqn auth)) (F5star m)) = 6%nat) as Hxl
    by (rewrite xor_bytes_length; lia).
  assert (with_rand net (rand m) = m) as Hnet.
  { destruct m as [E o x r] eqn:Em. unfold with_rand. cbn in Hb, Ho |- *. rewrite Hb, Ho. f_equal.
    destruct Hw as [_ Ho' Hr Hx]. cbn in *. rewrite Hx. f_equal. by apply fill16_xor. }
  eexists _, m. split; [done|]. split; [rewrite length_app; lia|]. split; [|by apply Sqn_Set_Bytes].
  unfold ValidateAuts, SetRand. destruct Hw as [_ _ Hr _].
  rewrite zlen_app. unfold zlen. rewrite Hxl, Hml, Hr. cbn [negb orb Z.eqb Z.add Z.of_nat].
  change (negb _ || negb _) with false. cbn beta iota. change (negb (Z.eqb _ _)) with false.
  cbn beta iota. cbn [mbind option_bind]. rewrite Hnet.
  rewrite take_app_length', drop_app_length' by done.
  rewrite (xor_bytes_comm (F5star m)), xor_bytes_cancel by lia.
  unfold F1_macs. by rewrite bool_decide_eq_true_2.
Qed.

Lemma auth_resync_witness :
  ∃ auts net', processAuthenticationInfo (toy_auth 96)
      (network_autn toy_milenage {| value := 64 |} [0; 0] [0x80; 0]) [0; 0] =
      Ok (toy_auth 96, AUTH_SYNC_FAILURE, auts) ∧
    ValidateAuts toy_milenage auts (replicate 16 9) = Some (net', [0; 0; 0; 0; 0; 96], true).
Proof.
  destruct (auth_resync (toy_auth 96) toy_milenage {| value := 64 |} [0; 0] [0; 0] toy_milenage
    eq_refl toy_milenage_wf ltac:(unfold sqn_ok, SQN_MAX; cbn; lia) eq_refl ltac:(by cbn)
    ltac:(unfold sqn_ok, SQN_MAX; cbn; lia) eq_refl eq_refl) as (auts & net' & H & _ & Hv & _).
  exists auts, net'. exact (conj H Hv).
Defined.

(** C34: A wrong MAC is refused: the code is AUTH_MAC_FAILURE, there is no output and the
    context is unchanged.  An AUTN shorter than 8 bytes is a run-time panic. *)
Theorem auth_mac_failure auth m autn abba
  (Hm : milenage auth = Some m) (Hamf : length (amf auth) = 2%nat) :
  if zlen autn <? 8 then processAuthenticationInfo auth autn abba = Panic IndexOutOfRange
  else F1_maca m (xor_bytes (take 6 autn) (F2F5 m).2) (amf auth) ≠ drop 8 autn →
       processAuthenticationInfo auth autn abba = Ok (auth, AUTH_MAC_FAILURE, []).
Proof.
  rewrite (process_cases _ m) by done. cbv zeta. destruct (zlen autn <? 8); [done|].
  intros Hne. by rewrite bool_decide_eq_false_2.
Qed.

Lemma auth_mac_failure_witness :
  processAuthenticationInfo (toy_auth 32) (replicate 16 0) [0; 0] =
    Ok (toy_auth 32, AUTH_MAC_FAILURE, []).
Proof.
  assert (H := auth_mac_failure (toy_auth 32) toy_milenage (replicate 16 0) [0; 0] eq_refl eq_refl).
  apply H. by vm_compute.
Defined.

(** C40: There is no replay protection for the last challenge: an AUTN that was accepted
    is accepted again, with the same output and without any change of state, since a
    sequence number equal to the UE's counts as fresh. *)
Theorem auth_replay auth autn abba auth' out
  (Hok : processAuthenticationInfo auth autn abba = Ok (auth', AUTH_SUCCESS, out)) :
  processAuthenticationInfo auth' autn abba = Ok (auth', AUTH_SUCCESS, out).
Proof.
  destruct (milenage auth) as [m|] eqn:Hm.
  2:{ unfold processAuthenticationInfo in Hok. by rewrite Hm in Hok. }
  rewrite (process_cases _ m) in Hok by done. cbv zeta in Hok.
  set (net := xor_bytes (take 6 autn) (F2F5 m).2) in *.
  destruct (zlen autn <? 8) eqn:E1; [done|]. destruct (negb _) eqn:E2; [done|].
  destruct (value (Sqn_Set net) <? value (sqn auth)); [done|].
  destruct (zlen (str_bytes (supi auth)) <? 5) eqn:E3; [done|]. injection Hok as <- <-.
  set (auth' := auth <| sqn := Sqn_Set net |> <| kamf := anchor_key auth m net abba |>).
  rewrite (process_cases auth' m) by done. cbv zeta. fold net.
  change (amf auth') with (amf auth). change (supi auth') with (supi auth).
  change (sqn auth') with (Sqn_Set net).
  rewrite E1, E2, E3, Z.ltb_irrefl. exact (fresh_again auth m net abba).
Qed.

Lemma auth_replay_witness :
  let autn := network_autn toy_milenage {| value := 64 |} [0; 0] [0x80; 0] in
  ∃ auth' out, processAuthenticationInfo (toy_auth 64) autn [0; 0] = Ok (auth', AUTH_SUCCESS, out) ∧
    processAuthenticationInfo auth' autn [0; 0] = Ok (auth', AUTH_SUCCESS, out).
Proof.
  intros autn. eexists _, _.
  assert (processAuthenticationInfo (toy_auth 64) autn [0; 0] =
    Ok (toy_auth 64 <| kamf := anchor_key (toy_auth 64) toy_milenage (Sqn_Bytes {| value := 64 |}) [0; 0] |>,
        AUTH_SUCCESS, xres_star (toy_auth 64) toy_milenage)) as H.
  { etrans; [apply (process_network_autn (toy_auth 64) toy_milenage {| value := 64 |} [0; 0] [0; 0])|];
      [reflexivity|apply toy_milenage_wf|unfold sqn_ok, SQN_MAX; cbn; lia|reflexivity|reflexivity]. }
  split; [exact H|]. apply (auth_replay (toy_auth 64) autn [0; 0]). exact H.
Defined.

(** With an AMF value that is not two bytes the MAC check is void: [F1] fails, its
    result is nil, and an 8-byte AUTN without a MAC is accepted whatever it says, unless
    the sequence number it unmasks to is behind the UE's. *)
Theorem auth_void_mac auth m autn abba
  (Hm : milenage auth = Some m) (Hamf : length (amf auth) ≠ 2%nat) (Hl : length autn = 8%nat)
  (Hsupi : 5 ≤ zlen (str_bytes (supi auth)))
  (Hsq : value (sqn auth) ≤ value (Sqn_Set (xor_bytes (take 6 autn) (F2F5 m).2))) :
  ∃ auth', processAuthenticationInfo auth autn abba = Ok (auth', AUTH_SUCCESS, xres_star auth m).
Proof.
  rewrite (process_cases _ m) by done. cbv zeta.
  rewrite (proj2 (Z.ltb_ge _ 8)) by (unfold zlen; lia).
  unfold F1_maca, F1. rewrite (proj2 (Z.eqb_neq (zlen (amf auth)) 2)) by (unfold zlen; lia).
  rewrite orb_true_r, bool_decide_eq_true_2 by (by rewrite drop_ge by lia). cbn [negb].
  rewrite (proj2 (Z.ltb_ge _ _)) by lia. rewrite (proj2 (Z.ltb_ge _ 5)) by lia. by eexists.
Qed.

Lemma auth_void_mac_witness :
  ∃ auth', processAuthenticationInfo (toy_auth 0 <| amf := [] |>) (replicate 8 0) [] =
    Ok (auth', AUTH_SUCCESS, xres_star (toy_auth 0 <| amf := [] |>) toy_milenage).
Proof.
  apply (auth_void_mac (toy_auth 0 <| amf := [] |>) toy_milenage (replicate 8 0) []).
  - reflexivity.
  - done.
  - reflexivity.
  - by vm_compute.
  - by vm_compute.
Defined.
