(* ===== verification/SecCtx.v ===== *)
(** The 5G security context: [internal/context/uecontext/secctx.go].  The NAS contexts
    ([reogac/nas]) and the key derivations of [reogac/utils/sec5g] are third-party code:
    fields of [NasLib]. *)
From S2P Require Import Prelude GoNum.

Class NasLib := {
  NasContext : Type;
  NewNasContext : bool → NasContext;
  UlCounter : NasContext → Z;
  DlCounter : NasContext → Z;
  (** the context after the call, and the error *)
  DeriveKeys : NasContext → Z → Z → list Z → NasContext * option string;
  sec_RanKey : list Z → list Z → list Z → list Z * option string;
  sec_NhKey : list Z → list Z → list Z * option string;
  sec_KamfPrime : list Z → list Z → list Z → list Z * option string;
  AccessType3GPP : Z;
  AccessTypeNon3GPP : Z
}.

Definition HDP_NONE : Z := 0.
Definition HDP_HANDOVER : Z := 1.
Definition HDP_MOBILITY_UPDATE : Z := 2.

(** [nas.KeySetIdentifier], the two fields the source reads. *)
Record KeySetIdentifier := { Tsc : Z; Id : Z }.

Section SecCtx.
Context `{NL : NasLib}.

Record SecurityContext := {
  isAmf : bool;
  gppNas : NasContext;
  nonGppNas : NasContext;
  ngKsi : KeySetIdentifier;
  sc_kamf : list Z;
  kgnb : list Z;
  kn3iwf : list Z;
  nh : list Z;
  ncc : Z
}.
#[export] Instance eta_SecurityContext : Eta SecurityContext := λ c,
  {| isAmf := isAmf c; gppNas := gppNas c; nonGppNas := nonGppNas c; ngKsi := ngKsi c;
     sc_kamf := sc_kamf c; kgnb := kgnb c; kn3iwf := kn3iwf c; nh := nh c; ncc := ncc c |}.

Definition NewSecurityContext (ksi : KeySetIdentifier) (kamf : list Z) (isAmf : bool)
    : SecurityContext :=
  {| isAmf := isAmf; gppNas := NewNasContext isAmf; nonGppNas := NewNasContext isAmf;
     ngKsi := ksi; sc_kamf := kamf; kgnb := []; kn3iwf := []; nh := []; ncc := 0 |}.

Definition NgKsi (ctx : SecurityContext) : KeySetIdentifier := ngKsi ctx.
Definition sc_NasContext (ctx : SecurityContext) (isGpp : bool) : NasContext :=
  if isGpp then gppNas ctx else nonGppNas ctx.
Definition MatchNgKsi (ctx : SecurityContext) (k : KeySetIdentifier) : bool :=
  (Tsc (ngKsi ctx) =? Tsc k) && (Id (ngKsi ctx) =? Id k).
Definition Kamf (ctx : SecurityContext) : list Z := sc_kamf ctx.
Definition Kgnb (ctx : SecurityContext) : list Z := kgnb ctx.
Definition Kn3iwf (ctx : SecurityContext) : list Z := kn3iwf ctx.

(** [binary.BigEndian.PutUint32] of a counter. *)
Definition counter_bytes (c : Z) : list Z := be_encode 4 (u32 c).

(** Results: the context after the call and the error. *)
Definition createAnKey (ctx : SecurityContext) : SecurityContext * option string :=
  let '(k, err) := sec_RanKey (sc_kamf ctx) (counter_bytes (UlCounter (gppNas ctx))) [AccessType3GPP] in
  let ctx := ctx <| kgnb := k |> in
  match err with
  | Some e => (ctx, Some e)
  | None =>
      let '(k, err) :=
        sec_RanKey (sc_kamf ctx) (counter_bytes (UlCounter (nonGppNas ctx))) [AccessTypeNon3GPP] in
      (ctx <| kn3iwf := k |>, err)
  end.

Definition createNh (ctx : SecurityContext) (syncinput : list Z) : SecurityContext * option string :=
  let '(k, err) := sec_NhKey (sc_kamf ctx) syncinput in (ctx <| nh := k |>, err).

Definition DeriveAsKeys (ctx : SecurityContext) : SecurityContext * option string :=
  let '(ctx, err) := createAnKey ctx in
  match err with
  | Some e => (ctx, Some e)
  | None => let '(ctx, err) := createNh ctx (kgnb ctx) in (ctx <| ncc := 1 |>, err)
  end.

Definition UpdateNh (ctx : SecurityContext) : SecurityContext * option string :=
  let ctx := ctx <| ncc := u8 (ncc ctx + 1) |> in
  let ctx := ctx <| ncc := Z.land (ncc ctx) 0x07 |> in
  createNh ctx (nh ctx).

Definition DeriveNasKeys (ctx : SecurityContext) (encAlg intAlg hdp : Z)
    : SecurityContext * option string :=
  let '(kamf, err) :=
    if hdp =? HDP_HANDOVER then
      sec_KamfPrime (sc_kamf ctx) [0x01] (counter_bytes (DlCounter (gppNas ctx)))
    else if hdp =? HDP_MOBILITY_UPDATE then
      sec_KamfPrime (sc_kamf ctx) [0x00] (counter_bytes (UlCounter (gppNas ctx)))
    else (sc_kamf ctx, None) in
  match err with
  | Some e => (ctx, Some e)
  | None =>
      let '(g, err) := DeriveKeys (gppNas ctx) encAlg intAlg kamf in
      let ctx := ctx <| gppNas := g |> in
      match err with
      | Some e => (ctx, Some e)
      | None =>
          let '(n, err) := DeriveKeys (nonGppNas ctx) encAlg intAlg kamf in
          let ctx := ctx <| nonGppNas := n |> in
          match err with
          | Some e => (ctx, Some e)
          | None => (ctx <| sc_kamf := kamf |>, None)
          end
      end
  end.

(** ** The next-hop chain *)

(** [n] more next-hop keys in a chain that starts from [k]. *)
Fixpoint nh_chain (kamf k : list Z) (n : nat) : list Z :=
  match n with O => k | S n' => (sec_NhKey kamf (nh_chain kamf k n')).1 end.
Fixpoint updates (ctx : SecurityContext) (n : nat) : SecurityContext :=
  match n with O => ctx | S n' => (UpdateNh (updates ctx n')).1 end.

Lemma land7 z : Z.land z 0x07 = z mod 8.
Proof. change 0x07 with (Z.ones 3). by rewrite Z.land_ones. Qed.

Lemma UpdateNh_ncc ctx : ncc (UpdateNh ctx).1 = (ncc ctx + 1) mod 8.
Proof.
  unfold UpdateNh, createNh. cbn. destruct (sec_NhKey _ _). cbn. rewrite land7.
  unfold u8. rewrite Z.mod_mod_divide; [done|by exists 32].
Qed.
Lemma UpdateNh_kamf ctx : sc_kamf (UpdateNh ctx).1 = sc_kamf ctx.
Proof. unfold UpdateNh, createNh. cbn. by destruct (sec_NhKey _ _). Qed.
Lemma UpdateNh_nh ctx : nh (UpdateNh ctx).1 = (sec_NhKey (sc_kamf ctx) (nh ctx)).1.
Proof. unfold UpdateNh, createNh. cbn. by destruct (sec_NhKey _ _). Qed.

Lemma updates_kamf ctx n : sc_kamf (updates ctx n) = sc_kamf ctx.
Proof. induction n as [|n IH]; cbn; [done|]. by rewrite UpdateNh_kamf. Qed.

(** C24: After the AS keys are derived, the next-hop chain is K_gNB, NH, NH of NH, ...:
    [n] updates leave the key of step [n + 1] and the chaining counter [1 + n] modulo 8,
    K_AMF unchanged; a counter is always a 3-bit value. *)
Theorem next_hop_chain ctx ctx0 n :
  DeriveAsKeys ctx0 = (ctx, None) →
  nh (updates ctx n) = nh_chain (sc_kamf ctx) (kgnb ctx) (S n) ∧
  ncc (updates ctx n) = (1 + Z.of_nat n) mod 8 ∧
  sc_kamf (updates ctx n) = sc_kamf ctx0.
Proof.
  unfold DeriveAsKeys. destruct (createAnKey ctx0) as [c1 [e|]] eqn:E; [done|].
  unfold createNh. destruct (sec_NhKey (sc_kamf c1) (kgnb c1)) as [k err] eqn:Ek.
  intros [= <- ->]. set (ctx := c1 <| nh := k |> <| ncc := 1 |>).
  assert (sc_kamf ctx = sc_kamf ctx0) as Hk.
  { unfold createAnKey in E. destruct (sec_RanKey _ _ _) as [k1 [e|]]; [done|].
    destruct (sec_RanKey _ _ _) as [k2 e2]. by injection E as <- ->. }
  split; [|split].
  - induction n as [|n IH]; [cbn; by rewrite Ek|]. cbn [updates].
    rewrite UpdateNh_nh, updates_kamf, IH. done.
  - induction n as [|n IH]; [done|]. cbn [updates]. rewrite UpdateNh_ncc, IH.
    rewrite Zplus_mod_idemp_l. f_equal. lia.
  - by rewrite updates_kamf.
Qed.

(** C28: The NAS keys.  On success both NAS contexts are keyed with the same K_AMF,
    which becomes the context's: the old one, or K'_AMF with direction 1 and the
    downlink count for a handover, direction 0 and the uplink count for a mobility
    update.  On an error the context keeps its K_AMF. *)
Theorem nas_keys ctx encAlg intAlg hdp ctx' err :
  DeriveNasKeys ctx encAlg intAlg hdp = (ctx', err) →
  match err with
  | None => ∃ kamf,
      gppNas ctx' = (DeriveKeys (gppNas ctx) encAlg intAlg kamf).1 ∧
      nonGppNas ctx' = (DeriveKeys (nonGppNas ctx) encAlg intAlg kamf).1 ∧
      sc_kamf ctx' = kamf ∧
      kamf = (if hdp =? HDP_HANDOVER then
                (sec_KamfPrime (sc_kamf ctx) [1] (be_encode 4 (u32 (DlCounter (gppNas ctx))))).1
              else if hdp =? HDP_MOBILITY_UPDATE then
                (sec_KamfPrime (sc_kamf ctx) [0] (be_encode 4 (u32 (UlCounter (gppNas ctx))))).1
              else sc_kamf ctx)
  | Some _ => sc_kamf ctx' = sc_kamf ctx
  end ∧ ncc ctx' = ncc ctx ∧ nh ctx' = nh ctx ∧ kgnb ctx' = kgnb ctx.
Proof.
  unfold DeriveNasKeys, counter_bytes. destruct (if hdp =? HDP_HANDOVER then _ else _) as [k [e|]] eqn:Ek.
  { by intros [= <- <-]. }
  assert (k = (if hdp =? HDP_HANDOVER then
                (sec_KamfPrime (sc_kamf ctx) [1] (be_encode 4 (u32 (DlCounter (gppNas ctx))))).1
              else if hdp =? HDP_MOBILITY_UPDATE then
                (sec_KamfPrime (sc_kamf ctx) [0] (be_encode 4 (u32 (UlCounter (gppNas ctx))))).1
              else sc_kamf ctx)) as Hk.
  { destruct (hdp =? HDP_HANDOVER); [by rewrite Ek|].
    destruct (hdp =? HDP_MOBILITY_UPDATE); [by rewrite Ek|]. by injection Ek. }
  destruct (DeriveKeys (gppNas ctx) encAlg intAlg k) as [g [e|]] eqn:Eg.
  { by intros [= <- <-]. }
  cbn. destruct (DeriveKeys (nonGppNas ctx) encAlg intAlg k) as [n [e|]] eqn:En.
  { by intros [= <- <-]. }
  intros [= <- <-]. split; [|done]. exists k. cbn. by rewrite Eg, En.
Qed.
End SecCtx.

(** ** Witnesses: a library in which a derived key is its parameters *)
Module SecSample.
#[export] Instance lib : NasLib :=
  {| NasContext := list Z; NewNasContext _ := []; UlCounter _ := 5; DlCounter _ := 6;
     DeriveKeys _ e i k := (e :: i :: k, None);
     sec_RanKey k p0 p1 := (p0 ++ p1, None); sec_NhKey k p := (k ++ p, None);
     sec_KamfPrime k d c := (k ++ d ++ c, None); AccessType3GPP := 1; AccessTypeNon3GPP := 2 |}.
Definition ctx : SecurityContext := NewSecurityContext {| Tsc := 0; Id := 1 |} [7] true.
End SecSample.

Lemma next_hop_chain_witness :
  ncc (updates (DeriveAsKeys SecSample.ctx).1 9) = 2.
Proof.
  destruct (next_hop_chain (DeriveAsKeys SecSample.ctx).1 SecSample.ctx 9 eq_refl) as (_ & H & _).
  exact H.
Defined.

Lemma nas_keys_witness :
  sc_kamf (DeriveNasKeys SecSample.ctx 1 2 HDP_HANDOVER).1 = [7; 1; 0; 0; 0; 6].
Proof.
  destruct (nas_keys SecSample.ctx 1 2 HDP_HANDOVER _ _ eq_refl) as [(k & _ & _ & H & Hk) _].
  etrans; [exact H|exact Hk].
Defined.
