(* ===== verification/Config.v ===== *)
(** The configuration: [pkg/config/config.go].  Reading the YAML file ([Load] up to
    the decoder) is not modelled; what [Load] does to the decoded value is. *)
From S2P Require Import Prelude GoNum GoText.

Module Config.
Record PLMN := { MCC : string; MNC : string; MNCLength : Z }.
Record Slice := { SST : string; SD : string }.
Record SCTPConfig := { InStreams : Z; OutStreams : Z }.
Record CUCPConfig := {
  NodeID : string; NodeName : string; cu_PLMN : PLMN; Slices : list Slice; TAC : string }.
Record F1Timers := { F1Setup : Z }.
Record F1APConfig := {
  f1_LocalAddress : string; f1_LocalPort : Z; f1_SCTP : SCTPConfig; Timers : F1Timers }.
Record E1APConfig := { e1_LocalAddress : string; e1_LocalPort : Z; e1_SCTP : SCTPConfig }.
Record NGAPConfig := {
  GnbId : string; AMFAddress : string; AMFPort : Z;
  ng_LocalAddress : string; ng_LocalPort : Z; ng_SCTP : SCTPConfig }.
Record LoggingConfig := { Level : string; Format : string }.
Record FeatureFlags := { SplitArchitecture : bool; ConnectedInactiveState : bool }.
Record TunablesConfig := { UEStoreShards : Z }.
Record Config := {
  CUCP : CUCPConfig; F1AP : F1APConfig; E1AP : E1APConfig; NGAP : NGAPConfig;
  Logging : LoggingConfig; Features : FeatureFlags; Tunables : TunablesConfig }.

(** ** Checks: the text of an error, [None] for nil *)
Definition join (problems : list string) : string := String.concat "; " problems.

Definition when (b : bool) (problem : string) : list string := if b then [problem] else [].
Definition of_err (err : option string) : list string :=
  match err with Some e => [e] | None => [] end.
Definition strlen (s : string) : Z := Z.of_nat (String.length s).
Definition empty (s : string) : bool := bool_decide (s = ""%string).

Definition validateEndpoint (name addr : string) (port : Z) : option string :=
  if empty addr || (port <=? 0) then
    Some (name +:+ ".local_address and " +:+ name +:+ ".local_port must be set")
  else None.

Definition validateSCTP (name : string) (cfg : SCTPConfig) : option string :=
  if (InStreams cfg =? 0) || (OutStreams cfg =? 0) then
    Some (name +:+ ".in_streams and " +:+ name +:+ ".out_streams must be non-zero")
  else None.

Definition plmn_problems (p : PLMN) : list string :=
  when (negb (strlen (MCC p) =? 3)) "mcc must be 3 digits" ++
  when (negb (MNCLength p =? 2) && negb (MNCLength p =? 3)) "mnc_length must be 2 or 3" ++
  when (empty (MNC p)) "mnc is required".
Definition plmn_validate (p : PLMN) : option string :=
  match plmn_problems p with [] => None | ps => Some (join ps) end.

(** A word in double quotes. *)
Definition quoted (s : string) : string :=
  let q := String (Ascii.ascii_of_nat 34) EmptyString in q +:+ s +:+ q.

Definition problems (c : Config) : list string :=
  when (empty (NodeID (CUCP c))) "cucp.node_id must be non-zero" ++
  when (empty (NodeName (CUCP c))) "cucp.node_name is required" ++
  match plmn_validate (cu_PLMN (CUCP c)) with
  | Some e => [("cucp.plmn: " +:+ e)%string] | None => [] end ++
  of_err (validateEndpoint "f1ap" (f1_LocalAddress (F1AP c)) (f1_LocalPort (F1AP c))) ++
  of_err (validateSCTP "f1ap.sctp" (f1_SCTP (F1AP c))) ++
  when (F1Setup (Timers (F1AP c)) <=? 0) "f1ap.timers.f1_setup_timer must be >0" ++
  of_err (validateEndpoint "e1ap" (e1_LocalAddress (E1AP c)) (e1_LocalPort (E1AP c))) ++
  of_err (validateSCTP "e1ap.sctp" (e1_SCTP (E1AP c))) ++
  when (empty (AMFAddress (NGAP c)) || (AMFPort (NGAP c) <=? 0))
    "ngap.amf_address and ngap.amf_port are required" ++
  when (empty (ng_LocalAddress (NGAP c))) "ngap.local_address is required" ++
  of_err (validateSCTP "ngap.sctp" (ng_SCTP (NGAP c))) ++
  when (empty (Level (Logging c))) "logging.level is required" ++
  when (negb (bool_decide (Format (Logging c) = "json"%string)) &&
        negb (bool_decide (Format (Logging c) = "text"%string)))
    ("logging.format must be either " +:+ quoted "json" +:+ " or " +:+ quoted "text").

Definition Validate (c : Config) : option string :=
  match problems c with
  | [] => None
  | ps => Some ("config validation failed: " +:+ join ps)%string
  end.

Definition applyDefaults (c : Config) : Config :=
  {| CUCP := CUCP c; F1AP := F1AP c; E1AP := E1AP c; NGAP := NGAP c;
     Logging := {| Level := if empty (Level (Logging c)) then "info" else Level (Logging c);
                   Format := if empty (Format (Logging c)) then "json" else Format (Logging c) |};
     Features := Features c;
     Tunables := {| UEStoreShards :=
       if UEStoreShards (Tunables c) <=? 0 then 64 else UEStoreShards (Tunables c) |} |}.

(** ** Loading: the file's contents, or the error of reading it, is an argument, the
    YAML decoder a parameter. *)
Section Load.
Context (decode : string → Config + string).

Definition Load (file : string + string) : Config + string :=
  match file with
  | inr err => inr ("read config: " +:+ err)%string
  | inl raw =>
      match decode raw with
      | inr err => inr ("decode config: " +:+ err)%string
      | inl cfg => inl (applyDefaults cfg)
      end
  end.

(** [app.New], which starts nothing unless the configuration is accepted. *)
Definition New (file : string + string) : Config + string :=
  match Load file with
  | inr err => inr ("load config: " +:+ err)%string
  | inl cfg =>
      match Validate cfg with
      | Some err => inr ("invalid config: " +:+ err)%string
      | None => inl cfg
      end
  end.
End Load.

(** ** Specification: the requirements, as one predicate *)
Definition endpoint_ok (addr : string) (port : Z) : Prop := addr ≠ ""%string ∧ 0 < port.
Definition sctp_ok (s : SCTPConfig) : Prop := InStreams s ≠ 0 ∧ OutStreams s ≠ 0.
Record valid (c : Config) : Prop := {
  v_node : NodeID (CUCP c) ≠ ""%string ∧ NodeName (CUCP c) ≠ ""%string;
  v_mcc : strlen (MCC (cu_PLMN (CUCP c))) = 3;
  v_mnc : MNC (cu_PLMN (CUCP c)) ≠ ""%string ∧
    (MNCLength (cu_PLMN (CUCP c)) = 2 ∨ MNCLength (cu_PLMN (CUCP c)) = 3);
  v_f1 : endpoint_ok (f1_LocalAddress (F1AP c)) (f1_LocalPort (F1AP c)) ∧
    sctp_ok (f1_SCTP (F1AP c)) ∧ 0 < F1Setup (Timers (F1AP c));
  v_e1 : endpoint_ok (e1_LocalAddress (E1AP c)) (e1_LocalPort (E1AP c)) ∧
    sctp_ok (e1_SCTP (E1AP c));
  v_ng : endpoint_ok (AMFAddress (NGAP c)) (AMFPort (NGAP c)) ∧
    ng_LocalAddress (NGAP c) ≠ ""%string ∧ sctp_ok (ng_SCTP (NGAP c));
  v_log : Level (Logging c) ≠ ""%string ∧
    (Format (Logging c) = "json"%string ∨ Format (Logging c) = "text"%string)
}.

(** ** Lemmas *)
Lemma when_nil b p : when b p = [] ↔ b = false.
Proof. by destruct b. Qed.
Lemma of_err_nil e : of_err e = [] ↔ e = None.
Proof. by destruct e. Qed.
Lemma empty_false s : empty s = false ↔ s ≠ ""%string.
Proof. unfold empty. by rewrite bool_decide_eq_false. Qed.

Lemma validateEndpoint_None n a p : validateEndpoint n a p = None ↔ endpoint_ok a p.
Proof.
  unfold validateEndpoint, endpoint_ok. rewrite <- empty_false.
  destruct (empty a), (Z.leb_spec p 0); cbn; split; (done || lia || naive_solver lia).
Qed.
Lemma validateSCTP_None n s : validateSCTP n s = None ↔ sctp_ok s.
Proof.
  unfold validateSCTP, sctp_ok.
  destruct (Z.eqb_spec (InStreams s) 0), (Z.eqb_spec (OutStreams s) 0); cbn; naive_solver.
Qed.
Lemma plmn_validate_None p :
  plmn_validate p = None ↔
  strlen (MCC p) = 3 ∧ MNC p ≠ ""%string ∧ (MNCLength p = 2 ∨ MNCLength p = 3).
Proof.
  unfold plmn_validate. trans (plmn_problems p = []); [by destruct (plmn_problems p)|].
  unfold plmn_problems. rewrite !app_nil, !when_nil, empty_false, andb_false_iff,
    !negb_false_iff, !Z.eqb_eq. tauto.
Qed.

Lemma problems_nil c : problems c = [] ↔ valid c.
Proof.
  unfold problems. rewrite !app_nil, !when_nil, !of_err_nil, !validateEndpoint_None,
    !validateSCTP_None, !empty_false, orb_false_iff, empty_false, !Z.leb_gt,
    andb_false_iff, !negb_false_iff, !bool_decide_eq_true.
  assert (∀ o : option string,
    match o with Some e => [("cucp.plmn: " +:+ e)%string] | None => [] end = [] ↔ o = None)
    as -> by by intros [].
  rewrite plmn_validate_None. split.
  - intros H. constructor; unfold endpoint_ok in *; tauto.
  - intros []. unfold endpoint_ok in *. tauto.
Qed.

Lemma Validate_None c : Validate c = None ↔ valid c.
Proof. rewrite <- problems_nil. unfold Validate. by destruct (problems c). Qed.

Lemma applyDefaults_idemp c : applyDefaults (applyDefaults c) = applyDefaults c.
Proof.
  destruct c as [? ? ? ? [l f] ? [n]]. unfold applyDefaults. cbn. unfold empty.
  f_equal.
  - f_equal; by repeat case_bool_decide.
  - f_equal. destruct (Z.leb_spec n 0); [done|]. by rewrite (proj2 (Z.leb_gt n 0)).
Qed.

(** C27: The configuration [app.New] hands on is the decoded file with its defaults
    filled in, exactly when the file can be read and decoded and the result meets
    every requirement ([valid]); it then is its own defaulting, and has a positive
    number of shards.  In every other case the call returns an error. *)
Theorem New_accepts decode file c :
  (New decode file = inl c ↔
   ∃ raw d, file = inl raw ∧ decode raw = inl d ∧ c = applyDefaults d ∧ valid c) ∧
  (New decode file = inl c → applyDefaults c = c ∧ 0 < UEStoreShards (Tunables c)).
Proof.
  assert (H : New decode file = inl c ↔
   ∃ raw d, file = inl raw ∧ decode raw = inl d ∧ c = applyDefaults d ∧ valid c).
  { unfold New, Load. destruct file as [raw|]; [|by split; [|intros (? & ? & ? & _)]].
    destruct (decode raw) as [d|] eqn:Hd; [|split; [done|];
      intros (? & ? & [= <-] & ? & _); congruence].
    pose proof (Validate_None (applyDefaults d)) as Hv. split.
    - destruct (Validate _); [done|]. intros [= <-]. exists raw, d. by rewrite <- Hv.
    - intros (raw' & d' & [= <-] & E & -> & Hok). rewrite Hd in E. injection E as <-.
      by rewrite (proj2 Hv Hok). }
  split; [exact H|]. intros (raw & d & -> & _ & -> & _)%H.
  split; [apply applyDefaults_idemp|]. cbn. by destruct (Z.leb_spec (UEStoreShards (Tunables d)) 0).
Qed.
End Config.
