(* ===== verification/Ies.v ===== *)
(** The messages the CU-CP reads and writes, and the codecs it calls.

    The information elements come from generated third-party packages
    ([f1-gen/ies], [ngap/ies], [rrc/ies]).  A record here has the fields the
    source reads or sets, pointers as options.  Types whose content the source
    never looks at, the encoders and decoders, and the numeric constants of those
    packages are fields of the classes [IeTypes] and [Codec]: every definition and
    theorem of the development that uses them is stated for all their values. *)
From S2P Require Import Prelude GoNum Asn1.

(** Information elements the source only passes around. *)
Class IeTypes := {
  CellGroupConfig : Type;
  EstablishmentCause_t : Type;
  UESecurityCapabilities_t : Type;
  MaskedIMEISV_t : Type;
  RRCVersion : Type;
  Cause : Type
}.

(** What the program does to the outside world: a write on an SCTP association
    (with its PPID), or a log line (level and format string). *)
Inductive log_level : Type := LError | LWarn | LFatal.
Inductive event : Type :=
| EvWrite (conn : Z) (ppid : Z) (pdu : list Z)
| EvLog (level : log_level) (format : string).

#[export] Instance log_level_eq_dec : EqDecision log_level.
Proof. solve_decision. Defined.
#[export] Instance event_eq_dec : EqDecision event.
Proof. solve_decision. Defined.

Section Messages.
Context {IE : IeTypes}.

(** ** F1AP *)
Record NRCGI := { PLMNIdentity : list Z; NRCellIdentity : BitString }.

Record ServedCellInformation := {
  sci_NRCGI : NRCGI;
  sci_NRPCI : Z;
  sci_FiveGSTAC : list Z;
  sci_ServedPLMNs : list (list Z);
  sci_MeasurementTimingConfiguration : list Z
}.
Record GNBDUSystemInformation := { MIBMessage : list Z; SIB1Message : list Z }.
Record ServedCellItem := {
  item_ServedCellInformation : ServedCellInformation;
  item_GNBDUSystemInformation : option GNBDUSystemInformation
}.
Record F1SetupRequest := {
  req_TransactionID : Z;
  req_GNBDUID : Z;
  req_GNBDUName : list Z;
  req_GNBDUServedCellsList : list ServedCellItem;
  req_GNBDURRCVersion : RRCVersion
}.
Record InitialULRRCMessageTransfer := {
  iul_GNBDUUEF1APID : Z;
  iul_NRCGI : NRCGI;
  iul_CRNTI : Z;
  iul_RRCContainer : list Z;
  iul_DUtoCURRCContainer : option (list Z)
}.
Record ULRRCMessageTransfer := {
  ul_GNBCUUEF1APID : Z;
  ul_GNBDUUEF1APID : Z;
  ul_SRBID : Z;
  ul_RRCContainer : list Z
}.

(** The dynamic type of [pdu.Message.Msg]; [F1Other] is any other. *)
Inductive F1In :=
| F1SetupRequestMsg (m : F1SetupRequest)
| InitialULRRCMessageTransferMsg (m : InitialULRRCMessageTransfer)
| ULRRCMessageTransferMsg (m : ULRRCMessageTransfer)
| UEContextSetupResponseMsg
| F1Other.
Record F1apPdu := { f1_Present : Z; f1_ProcedureCode : Z; f1_Msg : F1In }.

Record CellstobeActivatedListItem := { cta_NRCGI : NRCGI; cta_NRPCI : Z }.
Record DLRRCMessageTransfer := {
  dl_GNBCUUEF1APID : Z;
  dl_GNBDUUEF1APID : Z;
  dl_SRBID : Z;
  dl_RRCContainer : list Z;
  dl_ExecuteDuplication : Z;
  dl_RedirectedRRCmessage : list Z
}.
Record UEContextSetupRequest := {
  ucs_GNBCUUEF1APID : Z;
  ucs_GNBDUUEF1APID : option Z;
  ucs_SpCellID : NRCGI;
  ucs_ServCellIndex : Z;
  ucs_CGConfigInfo : list Z;
  ucs_SRBsToBeSetupList : list Z;
  ucs_DRBsToBeSetupList : list Z;
  ucs_SidelinkAMBR : Z;
  ucs_CHOTrigger : Z
}.
Inductive F1Out :=
| F1SetupResponse (TransactionID : Z) (GNBCURRCVersion : RRCVersion)
    (CellstobeActivatedList : list CellstobeActivatedListItem) (GNBCUName : list Z)
| DLRRCMessageTransferOut (m : DLRRCMessageTransfer)
| UEContextSetupRequestOut (m : UEContextSetupRequest).

(** ** RRC, uplink *)
Inductive UeIdentityChoice := RandomValue | Ng_5G_S_TMSI_Part1 | OtherIdentity.
Record RRCSetupRequest_IEs := {
  rsr_Choice : UeIdentityChoice;
  rsr_Ng_5G_S_TMSI_Part1 : BitString;
  rsr_EstablishmentCause : EstablishmentCause_t
}.
(** [Message.C1] and [Message.C1.RrcSetupRequest] are pointers. *)
Record UL_CCCH_Message := { ccch_C1 : option (option RRCSetupRequest_IEs) }.

Inductive TmsiChoice := TmsiPart2 | TmsiFull | OtherTmsi.
Record TmsiValue := {
  tv_Choice : TmsiChoice;
  tv_Part2 : BitString;
  tv_Tmsi : option BitString
}.
Record RRCSetupComplete_IEs := {
  rsc_Ng_5G_S_TMSI_Value : option TmsiValue;
  rsc_DedicatedNAS_Message : option (list Z)
}.
Inductive UlDcchChoice :=
| C1_RrcSetupComplete | C1_UlInformationTransfer | C1_SecurityModeComplete
| C1_RrcReconfigurationComplete | C1_Other (choice : Z).
(** An inner [option] is the [CriticalExtensions] pointer the handler follows. *)
Record UL_DCCH_C1 := {
  c1_Choice : UlDcchChoice;
  c1_RrcSetupComplete : option (option RRCSetupComplete_IEs);
  c1_UlInformationTransfer : option (option (option (list Z)));
  c1_SecurityModeComplete : option unit;
  c1_RrcReconfigurationComplete : option unit
}.
Record UL_DCCH_Message := { dcch_Choice : Z; dcch_C1 : option UL_DCCH_C1 }.

(** ** RRC, downlink *)
Record RRCSetup := {
  rs_TransactionIdentifier : Z;
  rs_Srb_ToAddModList : list Z;
  rs_MasterCellGroup : list Z
}.
Record RRCReconfiguration := {
  rr_TransactionIdentifier : Z;
  rr_Srb_ToAddModList : list Z;
  rr_Drb_ToAddModList : list Z;
  rr_SecondaryCellGroup : list Z;
  rr_MeasConfig : unit;   (* present and empty *)
  rr_MasterCellGroup : list Z;
  rr_DedicatedNAS_MessageList : list (list Z)
}.
Inductive RrcDl :=
| DL_CCCH_RrcSetup (m : RRCSetup)
| DL_DCCH_DlInformationTransfer (TransactionIdentifier : Z) (DedicatedNAS_Message : list Z)
| DL_DCCH_RrcReconfiguration (m : RRCReconfiguration).

(** ** NGAP *)
Record SNSSAI := { SST : option (list Z); SD : option (list Z) }.
Record PLMNSupportItem := { psi_PLMNIdentity : list Z; psi_SliceSupportList : list SNSSAI }.
Record NGSetupResponse := {
  nsr_AMFName : list Z;
  nsr_RelativeAMFCapacity : Z;
  nsr_PLMNSupportList : list PLMNSupportItem
}.
Record DownlinkNASTransport := { dnt_AMFUENGAPID : Z; dnt_NASPDU : list Z }.
Record InitialContextSetupRequest := {
  ics_AllowedNSSAI : list SNSSAI;
  ics_MobilityRestrictionList : option (list Z);   (* its ServingPLMN *)
  ics_MaskedIMEISV : option MaskedIMEISV_t;
  ics_UESecurityCapabilities : UESecurityCapabilities_t;
  ics_NASPDU : list Z
}.
Inductive NgapIn :=
| NGSetupResponseMsg (m : NGSetupResponse)
| DownlinkNASTransportMsg (m : DownlinkNASTransport)
| InitialContextSetupRequestMsg (m : InitialContextSetupRequest)
| NgapOther.
Record NgapPdu := { ng_Present : Z; ng_ProcedureCode : Z; ng_Msg : NgapIn }.

Record UserLocationInformationNR := {
  uli_NRCellIdentity : BitString;
  uli_NRCGI_PLMN : list Z;
  uli_TAI_PLMN : list Z;
  uli_TAC : list Z
}.
Record NGSetupRequest := {
  nsq_GNB_PLMN : list Z;
  nsq_GNBID : BitString;
  nsq_RANNodeName : list Z;
  nsq_TAC : list Z;
  nsq_BroadcastPLMN : list Z;
  nsq_SST : list Z;
  nsq_SD : option (list Z);
  nsq_DefaultPagingDRX : Z
}.
Inductive NgapOut :=
| NGSetupRequestOut (m : NGSetupRequest)
| InitialUEMessage (RANUENGAPID : Z) (NASPDU : list Z) (uli : UserLocationInformationNR)
    (RRCEstablishmentCause : Z) (FiveGSTMSI : option FiveGSTMSI)
| UplinkNASTransport (AMFUENGAPID RANUENGAPID : Z) (NASPDU : list Z)
    (uli : UserLocationInformationNR)
| InitialContextSetupResponse (AMFUENGAPID RANUENGAPID : Z).
End Messages.

(** The third-party functions and constants.  An encoder returns its bytes and an
    error, a PDU decoder a possibly nil PDU and an error.  [SCTPWrite] may fail
    differently at every call, so it sees the history, and so does [SCTPListen], which
    gives the F1AP listener or an error. *)
Class Codec `{IE : IeTypes} := {
  F1apDecode : list Z → option F1apPdu * option string;
  F1apEncode : F1Out → list Z * option string;
  NgapDecode : list Z → option NgapPdu * option string;
  NgapEncode : NgapOut → list Z * option string;
  RrcDecodeUlCcch : list Z → UL_CCCH_Message + string;
  RrcDecodeUlDcch : list Z → UL_DCCH_Message + string;
  RrcDecodeCellGroup : list Z → CellGroupConfig + string;
  RrcEncode : RrcDl → list Z * option string;
  RrcEncodeCellGroup : option CellGroupConfig → res (list Z * option string);
  F1SetupFailureEncode : Z → Cause → list Z * option string;
  CauseMiscUnspecified : Cause;
  PlmnIdToNgap : string → string → list Z;
  fmt_x_imeisv : MaskedIMEISV_t → string;
  SCTPWrite : list event → Z → list Z → option string;
  SCTPListen : list event → Z + string;

  CHOtriggerInterDUChoinitiation : Z;
  RRCEstablishmentCauseMosignalling : Z;
  PagingDRXV128 : Z;

  F1apPduInitiatingMessage : Z;
  F1apPduSuccessfulOutcome : Z;
  F1apPduUnsuccessfulOutcome : Z;
  F1_ProcedureCode_F1Setup : Z;
  F1_ProcedureCode_InitialULRRCMessageTransfer : Z;
  F1_ProcedureCode_ULRRCMessageTransfer : Z;
  F1_ProcedureCode_UEContextSetup : Z;
  NgapPduInitiatingMessage : Z;
  NgapPduSuccessfulOutcome : Z;
  NG_ProcedureCode_DownlinkNASTransport : Z;
  NG_ProcedureCode_InitialContextSetup : Z;
  NG_ProcedureCode_NGSetup : Z
}.

(** What the generated packages guarantee of their constants: the PDU kinds and
    the procedure codes used here are non-zero and pairwise different (they are
    cases of one Go [switch], which rejects duplicates, and TS 38.473 / TS 38.413
    give them the codes 1, 11, 13, 5 and 4, 14, 21). *)
Class CodecLaws `{CO : Codec} : Prop := {
  f1_present_nonzero :
    F1apPduInitiatingMessage ≠ 0 ∧ F1apPduSuccessfulOutcome ≠ 0;
  f1_present_distinct :
    NoDup [F1apPduInitiatingMessage; F1apPduSuccessfulOutcome; F1apPduUnsuccessfulOutcome];
  f1_codes_nonzero :
    F1_ProcedureCode_F1Setup ≠ 0 ∧ F1_ProcedureCode_InitialULRRCMessageTransfer ≠ 0 ∧
    F1_ProcedureCode_ULRRCMessageTransfer ≠ 0 ∧ F1_ProcedureCode_UEContextSetup ≠ 0;
  f1_codes_distinct :
    NoDup [F1_ProcedureCode_F1Setup; F1_ProcedureCode_InitialULRRCMessageTransfer;
           F1_ProcedureCode_ULRRCMessageTransfer];
  ng_present_distinct : NgapPduInitiatingMessage ≠ NgapPduSuccessfulOutcome;
  ng_codes_distinct :
    NG_ProcedureCode_DownlinkNASTransport ≠ NG_ProcedureCode_InitialContextSetup
}.
