(* ===== verification/Net.v ===== *)
(** The outside world as the components see it: logging, SCTP writes, and the
    sending half of [internal/transport/sctpclient.go].

    [World S] is the interface a component needs of the state it runs on: a trace
    of events it can append to.  The methods of the AMF and DU contexts are written
    against it, the CU-CP state implements it. *)
From S2P Require Import Prelude GoNum Ies.

Class World (S : Type) := {
  trace_of : S → list event;
  push : event → S → S
}.
Class WorldLaws (S : Type) `{World S} : Prop := {
  trace_push e s : trace_of (push e s) = trace_of s ++ [e]
}.

Definition NGAP_PPID : Z := 60.
Definition F1AP_PPID : Z := 62.

Section Net.
Context `{CO : Codec} {S : Type} `{W : World S}.

Definition emit (e : event) : proc S unit := modify (push e).
Definition Error (format : string) : proc S unit := emit (EvLog LError format).
Definition Warn (format : string) : proc S unit := emit (EvLog LWarn format).
(** zerolog's [Fatal().Msgf] ends in [os.Exit(1)]. *)
Definition Fatal {A} (format : string) : proc S A :=
  emit (EvLog LFatal format) ≫= λ _, exits 1.

Definition sctp_write (conn ppid : Z) (pdu : list Z) : proc S (option string) := λ s,
  (push (EvWrite conn ppid pdu) s, Ok (SCTPWrite (trace_of s) conn pdu)).
End Net.

(** ** [SctpConn], the NGAP client association *)
Module SctpClient.
Record SctpConn := { gnbId : string; localAddr : string; remoteAddr : string; conn : option Z }.

Section Send.
Context `{CO : Codec} {S : Type} `{W : World S}.

(** [Send] on a possibly nil [*SctpConn]; the error of the write is dropped. *)
Definition Send (sc : option SctpConn) (data : list Z) : proc S (option string) :=
  sc ← deref sc;
  match conn sc with
  | None => mret (Some "SCTP connection not established"%string)
  | Some c => _ ← sctp_write c NGAP_PPID data; mret None
  end.
End Send.

(** [NewSctpConn] returns nil when a string is empty. *)
Definition NewSctpConn (gnbid localAddr remoteAddr : string) : option SctpConn :=
  if bool_decide (gnbid = "") || bool_decide (localAddr = "") || bool_decide (remoteAddr = "")
  then None
  else Some {| gnbId := gnbid; localAddr := localAddr; remoteAddr := remoteAddr; conn := None |}.
End SctpClient.

(** ** Lemmas *)
Section NetLemmas.
Context `{CO : Codec} {S : Type} `{W : World S}.

Lemma keeps_emit (I : S → Prop) e : (∀ e s, I s → I (push e s)) → keeps I (emit e).
Proof. intros H. apply keeps_modify. auto. Qed.

Lemma keeps_sctp_write (I : S → Prop) c p d :
  (∀ e s, I s → I (push e s)) → keeps I (sctp_write c p d).
Proof. intros H s Hs. unfold live_ok. simpl. auto. Qed.

Lemma keeps_Fatal (I : S → Prop) {A} f :
  (∀ e s, I s → I (push e s)) → keeps I (Fatal (A:=A) f).
Proof. intros H. apply keeps_bind; [by apply keeps_emit|]. intros. apply keeps_exits. Qed.

Lemma keeps_Send (I : S → Prop) sc d :
  (∀ e s, I s → I (push e s)) → keeps I (SctpClient.Send sc d).
Proof.
  intros H. unfold SctpClient.Send. apply keeps_bind; [apply keeps_deref|]. intros sc'.
  destruct (SctpClient.conn sc'); [|apply keeps_ret].
  apply keeps_bind; [by apply keeps_sctp_write|]. intros. apply keeps_ret.
Qed.
End NetLemmas.
