(* ===== verification/DuContext.v ===== *)
(** The DU context: [internal/context/du/ducontext.go] and [handlers.go]. *)
From S2P Require Import Prelude GoNum GoText Asn1 Ies Net.

Definition DU_INACTIVE : string := "DU_INACTIVE".
Definition DU_ACTIVE : string := "DU_ACTIVE".
Definition DU_LOST : string := "DU_LOST".

Record PLMNInfo := { MCC : string; MNC : string }.
Record ServedCell := {
  CellID : Z;
  GlobalCellID : string;
  PLMN : PLMNInfo;
  PCI : Z;
  BandwidthMHz : Z;
  TAC : list Z
}.

Section Du.
Context `{CO : Codec}.

Record GNBDU := {
  DuId : Z;
  DuName : string;
  State : string;
  SctpConn : option Z;
  SetupReq : option F1SetupRequest;
  MIB : list Z;
  SIB1 : list Z;
  MTC : list Z;
  ServedCells : list ServedCell
}.
#[export] Instance eta_GNBDU : Eta GNBDU := λ d,
  {| DuId := DuId d; DuName := DuName d; State := State d; SctpConn := SctpConn d;
     SetupReq := SetupReq d; MIB := MIB d; SIB1 := SIB1 d; MTC := MTC d;
     ServedCells := ServedCells d |}.

(** [&GNBDU{}] *)
Definition zero_GNBDU : GNBDU :=
  {| DuId := 0; DuName := ""; State := ""; SctpConn := None; SetupReq := None;
     MIB := []; SIB1 := []; MTC := []; ServedCells := [] |}.

(** *** Queries *)

(** The Go method returns a pointer into the slice: the index of the cell. *)
Fixpoint GetCellByID_from (cells : list ServedCell) (cellID : Z) (i : nat) : option nat :=
  match cells with
  | [] => None
  | c :: cells' => if CellID c =? cellID then Some i else GetCellByID_from cells' cellID (S i)
  end.
Definition GetCellByID (du : GNBDU) (cellID : Z) : option nat :=
  GetCellByID_from (ServedCells du) cellID 0.

Definition IsActive (du : GNBDU) : bool := bool_decide (State du = DU_ACTIVE).

Definition DefaultRRCVersion : list Z := [0x0c; 0x22; 0x38].

(** The local PDU wrapper around the library decoder. *)
Record F1apMessage := { fm_ProcedureCode : Z; fm_Msg : F1In }.
Record F1apPDU := { fp_Present : Z; fp_Message : F1apMessage }.
Definition duF1apDecode (data : list Z) : res (option F1apPDU * option string) :=
  let '(pdu, err) := F1apDecode data in
  match err with
  | Some e => Ok (None, Some e)
  | None =>
      match pdu with
      | None => Panic NilDeref
      | Some pdu =>
          Ok (Some {| fp_Present := i64 (f1_Present pdu);
                      fp_Message := {| fm_ProcedureCode := i64 (f1_ProcedureCode pdu);
                                       fm_Msg := f1_Msg pdu |} |}, None)
      end
  end.

(** *** Sending *)
Section Send.
Context {S : Type} `{W : World S}.

Definition SendF1ap (du : GNBDU) (pdu : list Z) : proc S (option string) :=
  match SctpConn du with
  | None => mret (Some "SCTP connection not established for DU"%string)
  | Some conn => sctp_write conn F1AP_PPID pdu
  end.

Definition F1SetupResponse_of (transactionID : Z) (gnbCURRCVersion : RRCVersion)
    (cellsToActivate : list CellstobeActivatedListItem) : F1Out :=
  F1SetupResponse transactionID gnbCURRCVersion cellsToActivate (str_bytes "CU-CP").

(** [SendF1SetupResponse] first stores the connection in the DU
    ([set_conn], its first statement), then encodes and sends. *)
Definition set_conn (conn : option Z) (du : GNBDU) : GNBDU := du <| SctpConn := conn |>.
Definition SendF1SetupResponse (du : GNBDU) (transactionID : Z)
    (gnbCURRCVersion : RRCVersion) (cellsToActivate : list CellstobeActivatedListItem)
    : proc S (option string) :=
  let '(buf, err) :=
    F1apEncode (F1SetupResponse_of transactionID gnbCURRCVersion cellsToActivate) in
  match err with
  | Some e => mret (Some ("encode F1 Setup Response: " +:+ e))
  | None => SendF1ap du buf
  end.

(** The dynamic type of the [cause interface{}] argument. *)
Inductive cause_arg := NilCause | IsCause (c : Cause) | NotCause.

Definition SendF1SetupFailure (du : GNBDU) (transactionID : Z) (cause : cause_arg)
    : proc S (option string) :=
  let send c :=
    let '(buf, err) := F1SetupFailureEncode transactionID c in
    match err with
    | Some e => mret (Some ("encode F1 Setup Failure: " +:+ e))
    | None => SendF1ap du buf
    end in
  match cause with
  | IsCause c => send c
  | NotCause => mret (Some "invalid cause type for F1 Setup Failure"%string)
  | NilCause => send CauseMiscUnspecified
  end.

(** *** Lemmas *)
Lemma SendF1ap_run du pdu k s :
  SctpConn du = Some k →
  SendF1ap du pdu s =
    (push (EvWrite k F1AP_PPID pdu) s, Ok (SCTPWrite (trace_of s) k pdu)).
Proof. unfold SendF1ap. by intros ->. Qed.

Lemma keeps_SendF1ap (I : S → Prop) du pdu :
  (∀ e s, I s → I (push e s)) → keeps I (SendF1ap du pdu).
Proof.
  intros H. unfold SendF1ap. destruct (SctpConn du); [by apply keeps_sctp_write|apply keeps_ret].
Qed.

Lemma keeps_SendF1SetupResponse (I : S → Prop) du t v cs :
  (∀ e s, I s → I (push e s)) → keeps I (SendF1SetupResponse du t v cs).
Proof.
  intros H. unfold SendF1SetupResponse.
  destruct (F1apEncode _) as [buf [e|]]; [apply keeps_ret|by apply keeps_SendF1ap].
Qed.
End Send.

(** [GetCellByID] returns the first cell with that identity. *)
Lemma GetCellByID_from_spec cells cellID k :
  match GetCellByID_from cells cellID k with
  | Some i => ∃ j c, i = (k + j)%nat ∧ cells !! j = Some c ∧ CellID c = cellID ∧
      ∀ j' c', (j' < j)%nat → cells !! j' = Some c' → CellID c' ≠ cellID
  | None => ∀ j c, cells !! j = Some c → CellID c ≠ cellID
  end.
Proof.
  revert k. induction cells as [|c cells IH]; intros k; simpl; [done|].
  destruct (Z.eqb_spec (CellID c) cellID) as [E|E].
  - exists 0%nat, c. split; [lia|]. split; [done|]. split; [done|]. lia.
  - specialize (IH (S k)). destruct (GetCellByID_from cells cellID (S k)) as [i|].
    + destruct IH as (j & c' & -> & Hl & Hc & Hmin). exists (S j), c'.
      split; [lia|]. repeat split; try done.
      intros [|j'] c'' Hlt Hj; simplify_eq/=; [done|]. apply (Hmin j'); [lia|done].
    + intros [|j] c' Hj; simplify_eq/=; [done|eauto].
Qed.
End Du.
