(* ===== verification/AmfContext.v ===== *)
(** The AMF context: [internal/context/amfcontext/amfcontext.go].

    The supported PLMNs and slices are singly linked lists of heap nodes with a
    length counter.  [Module LinkedList] models the nodes as a store, gives the
    walk of [AddedPlmn]/[AddedSlice] over it, and relates it to plain lists. *)
From S2P Require Import Prelude GoNum GoText Asn1 Plmn Ies Net.

Module LinkedList.
Record node (A : Type) : Type := { payload : A; Next : option loc }.
Arguments payload {_} _.
Arguments Next {_} _.
Arguments Build_node {_} _ _.

Section Ops.
Context {A : Type}.

Definition read (h : store (node A)) (p : option loc) : res (node A) :=
  match p with
  | None => Panic NilDeref
  | Some l => match cells h !! l with Some n => Ok n | None => Panic NilDeref end
  end.
Definition set_Next (p : option loc) (n : node A) : node A := Build_node (payload n) p.

(** [for range n { if mov.Next == nil { ...; mov.Next = newElem } else
    { mov = mov.Next } }]: [mk] builds the payload of the new node. *)
Fixpoint append_loop (n : nat) (mov : option loc) (mk : res A) (h : store (node A))
    : res (store (node A)) :=
  match n with
  | O => Ok h
  | S n' =>
      nd ← read h mov;
      match Next nd, mov with
      | None, Some l =>
          a ← mk;
          let '(newElem, h1) := alloc (Build_node a None) h in
          append_loop n' mov mk (store_alter (set_Next (Some newElem)) l h1)
      | nx, _ => append_loop n' nx mk h
      end
  end.

(** [for range index { mov = mov.Next }] *)
Fixpoint advance (n : nat) (mov : option loc) (h : store (node A)) : res (option loc) :=
  match n with
  | O => Ok mov
  | S n' => nd ← read h mov; advance n' (Next nd) h
  end.

(** [p] points to a chain of the nodes at [ls] with payloads [xs]. *)
Fixpoint chain (h : store (node A)) (p : option loc) (ls : list loc) (xs : list A) : Prop :=
  match ls, xs with
  | [], [] => p = None
  | l :: ls', x :: xs' =>
      p = Some l ∧ ∃ nx, cells h !! l = Some (Build_node x nx) ∧ chain h nx ls' xs'
  | _, _ => False
  end.

(** A well-formed linked list holding [xs]. *)
Definition is_list (h : store (node A)) (p : option loc) (xs : list A) : Prop :=
  store_wf h ∧ ∃ ls, NoDup ls ∧ chain h p ls xs.

Lemma chain_length h p ls xs : chain h p ls xs → length ls = length xs.
Proof.
  revert p xs. induction ls as [|l ls IH]; intros p [|x xs]; simpl; try done.
  intros (_ & nx & _ & H). by rewrite (IH _ _ H).
Qed.

Lemma chain_frame h h' p ls xs :
  (∀ l, l ∈ ls → cells h' !! l = cells h !! l) → chain h p ls xs → chain h' p ls xs.
Proof.
  revert p xs. induction ls as [|l ls IH]; intros p [|x xs] Hf; simpl; try done.
  intros (-> & nx & Hl & Hc). split; [done|]. exists nx.
  rewrite Hf by set_solver. split; [done|]. apply IH; [|done]. set_solver.
Qed.

Lemma chain_in h p ls xs l : chain h p ls xs → l ∈ ls → is_Some (cells h !! l).
Proof.
  revert p xs. induction ls as [|k ls IH]; intros p [|x xs]; simpl; try done.
  { by intros _ ?%not_elem_of_nil. }
  intros (_ & nx & Hk & Hc) [->|Hin]%elem_of_cons; [by eexists|]. by eapply IH.
Qed.

Lemma append_loop_next n l m x mk h :
  cells h !! l = Some (Build_node x (Some m)) →
  append_loop (S n) (Some l) mk h = append_loop n (Some m) mk h.
Proof. intros Hl. cbn [append_loop]. unfold read at 1. by rewrite Hl. Qed.

(** The loop, run as many times as the list has nodes, appends one node at the
    end, and touches no other cell. *)
Lemma append_loop_spec h l ls xs a :
  store_wf h → NoDup (l :: ls) → chain h (Some l) (l :: ls) xs →
  ∃ h', append_loop (length (l :: ls)) (Some l) (Ok a) h = Ok h' ∧
    store_wf h' ∧ chain h' (Some l) ((l :: ls) ++ [brk h]) (xs ++ [a]) ∧
    ∀ k, k ∉ l :: ls → k ≠ brk h → cells h' !! k = cells h !! k.
Proof.
  revert l xs. induction ls as [|l2 ls IH]; intros l xs Hwf Hnd Hch.
  - destruct xs as [|x [|y xs]]; simpl in Hch; [done| |by destruct Hch as (_ & ? & _ & ?)].
    destruct Hch as (_ & nx & Hl & ->).
    assert (l ≠ brk h) as Hlb by (pose proof (Hwf l ltac:(eauto)); lia).
    eexists. simpl. unfold read. rewrite Hl. simpl. split; [done|]. split.
    { apply store_wf_alter. by apply (store_wf_alloc (Build_node a None)). }
    simpl. split.
    + split; [done|]. exists (Some (brk h)).
      rewrite lookup_alter_eq, lookup_insert_ne, Hl by done. split; [done|].
      split; [done|]. exists None.
      rewrite lookup_alter_ne, lookup_insert_eq by done. done.
    + intros k Hk Hb. rewrite lookup_alter_ne by set_solver.
      by rewrite lookup_insert_ne by done.
  - destruct xs as [|x xs]; simpl in Hch; [done|].
    destruct Hch as (_ & nx & Hl & Hch). destruct xs as [|x2 xs]; [done|].
    destruct Hch as (-> & Hch2). apply NoDup_cons in Hnd as [Hnin Hnd].
    destruct (IH l2 (x2 :: xs) Hwf Hnd) as (h' & Hrun & Hwf' & Hch' & Hfr); [by split|].
    exists h'. split.
    { rewrite <- Hrun. by apply (append_loop_next _ _ _ x). }
    split; [done|]. split.
    + cbn [app chain]. split; [done|]. exists (Some l2). split; [|exact Hch'].
      rewrite Hfr; [done|done|]. pose proof (Hwf l ltac:(eauto)). lia.
    + intros k Hk Hb. apply Hfr; [set_solver|done].
Qed.

Lemma advance_spec h p ls xs i x :
  chain h p ls xs → xs !! i = Some x →
  ∃ q nx, advance i p h = Ok q ∧ read h q = Ok (Build_node x nx).
Proof.
  revert p ls xs. induction i as [|i IH]; intros p [|l ls] [|y xs] Hch Hx; simplify_eq/=; try done.
  - destruct Hch as (-> & nx & Hl & _). exists (Some l), nx. unfold read. by rewrite Hl.
  - destruct Hch as (-> & nx & Hl & Hch). unfold read at 1. rewrite Hl. simpl. by eapply IH.
Qed.
End Ops.
End LinkedList.
Import LinkedList.

Definition AMF_INACTIVE : string := "AMF_INACTIVE".
Definition AMF_ACTIVE : string := "AMF_ACTIVE".
Definition AMF_OVERLOADED : string := "AMF_OVERLOAD".

Record PlmnSupported := { ps_Mcc : string; ps_Mnc : string }.
Record SliceSupported := { ss_Sst : string; ss_Sd : string; ss_Status : string }.

(** [GNBAmf]; the nodes its two lists own are kept beside it. *)
Record GNBAmf := {
  AmfIp : string;
  AmfPort : Z;
  AmfId : Z;
  Tnla_SctpConn : option SctpClient.SctpConn;
  RelativeAmfCapacity : Z;
  amf_State : string;
  Name : string;
  RegionId : BitString;
  SetId : BitString;
  Pointer : BitString;
  Plmns : option loc;
  Slices : option loc;
  LenSlice : Z;
  LenPlmn : Z;
  BackupAMF : string;
  plmn_nodes : store (node PlmnSupported);
  slice_nodes : store (node SliceSupported)
}.
#[export] Instance eta_GNBAmf : Eta GNBAmf := λ a,
  {| AmfIp := AmfIp a; AmfPort := AmfPort a; AmfId := AmfId a; Tnla_SctpConn := Tnla_SctpConn a;
     RelativeAmfCapacity := RelativeAmfCapacity a; amf_State := amf_State a; Name := Name a;
     RegionId := RegionId a; SetId := SetId a; Pointer := Pointer a; Plmns := Plmns a;
     Slices := Slices a; LenSlice := LenSlice a; LenPlmn := LenPlmn a;
     BackupAMF := BackupAMF a; plmn_nodes := plmn_nodes a; slice_nodes := slice_nodes a |}.

Definition zero_BitString : BitString := {| Bytes := []; NumBits := 0 |}.

(** ** Operations *)

Definition GetSliceSupport (amf : GNBAmf) (index : Z) : res (string * string) :=
  mov ← advance (Z.to_nat index) (Slices amf) (slice_nodes amf);
  n ← read (slice_nodes amf) mov;
  mret (ss_Sst (payload n), ss_Sd (payload n)).

Definition GetPlmnSupport (amf : GNBAmf) (index : Z) : res (string * string) :=
  mov ← advance (Z.to_nat index) (Plmns amf) (plmn_nodes amf);
  n ← read (plmn_nodes amf) mov;
  mret (ps_Mcc (payload n), ps_Mnc (payload n)).

(** [newElem.Mcc, newElem.Mnc = ConvertMccMnc(plmn)] *)
Definition plmn_payload (plmn : string) : res PlmnSupported :=
  '(mcc, mnc) ← ConvertMccMnc plmn;
  mret {| ps_Mcc := mcc; ps_Mnc := mnc |}.

Definition AddedPlmn (amf : GNBAmf) (plmn : string) : res GNBAmf :=
  let mk := plmn_payload plmn in
  if LenPlmn amf =? 0 then
    a ← mk;
    let '(newElem, h) := alloc (Build_node a None) (plmn_nodes amf) in
    mret (amf <| plmn_nodes := h |> <| Plmns := Some newElem |>
              <| LenPlmn := i64 (LenPlmn amf + 1) |>)
  else
    h ← append_loop (Z.to_nat (LenPlmn amf)) (Plmns amf) mk (plmn_nodes amf);
    mret (amf <| plmn_nodes := h |> <| LenPlmn := i64 (LenPlmn amf + 1) |>).

Definition AddedSlice (amf : GNBAmf) (sst sd : string) : res GNBAmf :=
  let mk := {| ss_Sst := sst; ss_Sd := sd; ss_Status := "" |} in
  if LenSlice amf =? 0 then
    let '(newElem, h) := alloc (Build_node mk None) (slice_nodes amf) in
    mret (amf <| slice_nodes := h |> <| Slices := Some newElem |>
              <| LenSlice := i64 (LenSlice amf + 1) |>)
  else
    h ← append_loop (Z.to_nat (LenSlice amf)) (Slices amf) (Ok mk) (slice_nodes amf);
    mret (amf <| slice_nodes := h |> <| LenSlice := i64 (LenSlice amf + 1) |>).

Definition octets_BitString (bs : list Z) : BitString :=
  {| Bytes := bs; NumBits := u64 (zlen bs * 8) |}.
Definition SetRegionId (amf : GNBAmf) (regionId : list Z) : GNBAmf :=
  amf <| RegionId := octets_BitString regionId |>.
Definition SetSetId (amf : GNBAmf) (setId : list Z) : GNBAmf :=
  amf <| SetId := octets_BitString setId |>.
Definition SetPointer (amf : GNBAmf) (pointer : list Z) : GNBAmf :=
  amf <| Pointer := octets_BitString pointer |>.

Section Send.
Context `{CO : Codec} {S : Type} `{W : World S}.

Definition SendNgap (amf : GNBAmf) (pdu : list Z) : proc S (option string) :=
  err ← SctpClient.Send (Tnla_SctpConn amf) pdu;
  match err with
  | Some e => _ ← Error "Error sending NGAP message: %v"; mret (Some e)
  | None => mret None
  end.

(** An association is up: the context has a client and the client a connection. *)
Definition connected (amf : GNBAmf) (k : Z) : Prop :=
  ∃ sc, Tnla_SctpConn amf = Some sc ∧ SctpClient.conn sc = Some k.

Lemma SendNgap_run amf pdu k s :
  connected amf k → SendNgap amf pdu s = (push (EvWrite k NGAP_PPID pdu) s, Ok None).
Proof.
  intros (sc & Hs & Hk). unfold SendNgap, SctpClient.Send. rewrite Hs. run. by rewrite Hk.
Qed.

Lemma keeps_SendNgap (I : S → Prop) amf pdu :
  (∀ e s, I s → I (push e s)) → keeps I (SendNgap amf pdu).
Proof.
  intros H. unfold SendNgap. apply keeps_bind; [by apply keeps_Send|]. intros [e|].
  - apply keeps_bind; [by apply keeps_emit|]. intros. apply keeps_ret.
  - apply keeps_ret.
Qed.
End Send.

(** ** Abstraction: the two lists of an AMF context *)
Definition amf_lists (amf : GNBAmf) (plmns : list PlmnSupported) (slices : list SliceSupported)
    : Prop :=
  is_list (plmn_nodes amf) (Plmns amf) plmns ∧ LenPlmn amf = zlen plmns ∧
  is_list (slice_nodes amf) (Slices amf) slices ∧ LenSlice amf = zlen slices.

Lemma is_list_single {A} (a : A) h :
  store_wf h → is_list (alloc (Build_node a None) h).2 (Some (brk h)) [a].
Proof.
  intros Hwf. split; [by apply store_wf_alloc|]. exists [brk h]. split; [apply NoDup_singleton|].
  simpl. split; [done|]. exists None. by rewrite lookup_insert_eq.
Qed.

Lemma append_is_list {A} h p (xs : list A) a :
  is_list h p xs → xs ≠ [] →
  ∃ h', append_loop (length xs) p (Ok a) h = Ok h' ∧ is_list h' p (xs ++ [a]).
Proof.
  intros (Hwf & ls & Hnd & Hch) Hne. pose proof (chain_length _ _ _ _ Hch) as Hlen.
  destruct ls as [|l ls]; [by destruct xs|].
  assert (p = Some l) as -> by (destruct xs; [done|apply Hch]).
  destruct (append_loop_spec h l ls xs a Hwf Hnd Hch) as (h' & Hrun & Hwf' & Hch' & _).
  exists h'. rewrite <- Hlen. split; [done|]. split; [done|]. exists ((l :: ls) ++ [brk h]).
  split; [|done]. apply NoDup_app. split; [done|]. split; [|apply NoDup_singleton].
  intros k Hk ->%list_elem_of_singleton.
  pose proof (Hwf _ (chain_in _ _ _ _ _ Hch Hk)). lia.
Qed.

Lemma AddedPlmn_lists amf plmns slices plmn p :
  amf_lists amf plmns slices → zlen plmns < 2 ^ 62 →
  plmn_payload plmn = Ok p →
  ∃ amf', AddedPlmn amf plmn = Ok amf' ∧
    amf_lists amf' (plmns ++ [p]) slices ∧
    Tnla_SctpConn amf' = Tnla_SctpConn amf ∧ AmfId amf' = AmfId amf.
Proof.
  intros (Hp & Lp & Hs & Ls) Hb Hc. pose proof (zlen_nonneg plmns).
  unfold AddedPlmn. rewrite Hc.
  rewrite Lp, (i64_small (_ + _)) by lia. destruct (Z.eqb_spec (zlen plmns) 0) as [E|E].
  - cbn. eexists. split; [done|]. split; [|done]. unfold amf_lists. simpl.
    destruct plmns; [|unfold zlen in E; simpl in E; lia]. simpl.
    split; [apply is_list_single, Hp|done].
  - destruct (append_is_list _ _ _ p Hp) as (h' & Hrun & Hl).
    { by intros ->. }
    rewrite to_nat_zlen, Hrun. cbn. eexists. split; [done|]. split; [|done].
    unfold amf_lists. simpl. rewrite zlen_app. change (zlen [_]) with 1. done.
Qed.

Lemma AddedSlice_lists amf plmns slices sst sd :
  amf_lists amf plmns slices → zlen slices < 2 ^ 62 →
  ∃ amf', AddedSlice amf sst sd = Ok amf' ∧
    amf_lists amf' plmns (slices ++ [{| ss_Sst := sst; ss_Sd := sd; ss_Status := "" |}]) ∧
    Tnla_SctpConn amf' = Tnla_SctpConn amf ∧ AmfId amf' = AmfId amf.
Proof.
  intros (Hp & Lp & Hs & Ls) Hb. pose proof (zlen_nonneg slices).
  unfold AddedSlice. rewrite Ls, (i64_small (_ + _)) by lia.
  destruct (Z.eqb_spec (zlen slices) 0) as [E|E].
  - eexists. split; [done|]. split; [|done]. unfold amf_lists. simpl.
    destruct slices; [|unfold zlen in E; simpl in E; lia]. simpl.
    split; [done|]. split; [done|]. split; [apply is_list_single, Hs|done].
  - destruct (append_is_list _ _ _ {| ss_Sst := sst; ss_Sd := sd; ss_Status := "" |} Hs)
      as (h' & Hrun & Hl). { by intros ->. }
    rewrite to_nat_zlen, Hrun. cbn. eexists. split; [done|]. split; [|done].
    unfold amf_lists. simpl. rewrite zlen_app. change (zlen [_]) with 1. done.
Qed.

Lemma GetPlmnSupport_list amf plmns slices i p :
  amf_lists amf plmns slices → plmns !! i = Some p →
  GetPlmnSupport amf (Z.of_nat i) = Ok (ps_Mcc p, ps_Mnc p).
Proof.
  intros ((_ & ls & _ & Hch) & _) Hi. unfold GetPlmnSupport. rewrite Nat2Z.id.
  destruct (advance_spec _ _ _ _ _ _ Hch Hi) as (q & nx & -> & Hr). cbn. by rewrite Hr.
Qed.

Lemma GetSliceSupport_list amf plmns slices i p :
  amf_lists amf plmns slices → slices !! i = Some p →
  GetSliceSupport amf (Z.of_nat i) = Ok (ss_Sst p, ss_Sd p).
Proof.
  intros (_ & _ & (_ & ls & _ & Hch) & _) Hi. unfold GetSliceSupport. rewrite Nat2Z.id.
  destruct (advance_spec _ _ _ _ _ _ Hch Hi) as (q & nx & -> & Hr). cbn. by rewrite Hr.
Qed.
