(* ===== verification/UeContext.v ===== *)
(** The UE context: [internal/context/uecontext/uecontext.go] and the slice type
    of [pkg/model/slice.go]. *)
From S2P Require Import Prelude GoNum GoText Asn1 Plmn Ies.

(** UE main states *)
Definition UE_INITIALIZED : Z := 0.
Definition UE_ONGOING : Z := 1.
Definition UE_READY : Z := 2.
Definition UE_DOWN : Z := 3.

(** [model.Snssai] *)
Record Snssai := { Sst : string; Sd : string }.

Section Ue.
Context `{IE : IeTypes}.

(** [GNBUe], without the fields no code of the program touches after the zero
    value: [SctpConnection], [Auth], [SecCtx], the logger and [Lock]. *)
Record GNBUe := {
  RanUeNgapId : Z;
  AmfUeNgapId : Z;
  ue_AmfId : Z;
  ue_State : Z;
  RrcUeId : Z;
  ue_DuId : Z;
  DuUeId : Z;
  Tmsi5gs_part1 : option BitString;
  Tmsi5gs : option FiveGSTMSI;
  Rnti : Z;
  Random_ue_identity : list Z;
  NrCellId : option BitString;
  MasterCellGroup : option CellGroupConfig;
  EstablishmentCause : option EstablishmentCause_t;
  RegistrationAccept : list Z;
  Mobility_Mcc : string;
  Mobility_Mnc : string;
  MaskedIMEISV : string;
  AllowedSnssai : list Snssai;
  ue_LenSlice : Z;
  UeSecurityCapabilities : option UESecurityCapabilities_t
}.
#[export] Instance eta_GNBUe : Eta GNBUe := λ u,
  {| RanUeNgapId := RanUeNgapId u; AmfUeNgapId := AmfUeNgapId u; ue_AmfId := ue_AmfId u;
     ue_State := ue_State u; RrcUeId := RrcUeId u; ue_DuId := ue_DuId u; DuUeId := DuUeId u;
     Tmsi5gs_part1 := Tmsi5gs_part1 u; Tmsi5gs := Tmsi5gs u; Rnti := Rnti u;
     Random_ue_identity := Random_ue_identity u; NrCellId := NrCellId u;
     MasterCellGroup := MasterCellGroup u; EstablishmentCause := EstablishmentCause u;
     RegistrationAccept := RegistrationAccept u; Mobility_Mcc := Mobility_Mcc u;
     Mobility_Mnc := Mobility_Mnc u; MaskedIMEISV := MaskedIMEISV u;
     AllowedSnssai := AllowedSnssai u; ue_LenSlice := ue_LenSlice u;
     UeSecurityCapabilities := UeSecurityCapabilities u |}.

Definition zero_GNBUe : GNBUe :=
  {| RanUeNgapId := 0; AmfUeNgapId := 0; ue_AmfId := 0; ue_State := UE_INITIALIZED;
     RrcUeId := 0; ue_DuId := 0; DuUeId := 0; Tmsi5gs_part1 := None; Tmsi5gs := None;
     Rnti := 0; Random_ue_identity := []; NrCellId := None; MasterCellGroup := None;
     EstablishmentCause := None; RegistrationAccept := []; Mobility_Mcc := "";
     Mobility_Mnc := ""; MaskedIMEISV := ""; AllowedSnssai := []; ue_LenSlice := 0;
     UeSecurityCapabilities := None |}.

Definition CreateUeContext (ue : GNBUe) (plmn imeisv : string) (allowednssai : list Snssai)
    (ueSecurityCapabilities : option UESecurityCapabilities_t) : res GNBUe :=
  ue ← (if negb (bool_decide (plmn = "not informed"%string)) then
          '(mcc, mnc) ← convertMccMnc plmn;
          mret (ue <| Mobility_Mcc := mcc |> <| Mobility_Mnc := mnc |>)
        else mret (ue <| Mobility_Mcc := plmn |> <| Mobility_Mnc := plmn |>));
  mret (ue <| MaskedIMEISV := imeisv |> <| AllowedSnssai := allowednssai |>
           <| UeSecurityCapabilities := ueSecurityCapabilities |>).

(** The identifiers of a UE context survive [CreateUeContext]. *)
Lemma CreateUeContext_ids ue plmn imeisv ns caps ue' :
  CreateUeContext ue plmn imeisv ns caps = Ok ue' →
  RrcUeId ue' = RrcUeId ue ∧ DuUeId ue' = DuUeId ue ∧ AmfUeNgapId ue' = AmfUeNgapId ue ∧
  RanUeNgapId ue' = RanUeNgapId ue ∧ ue_State ue' = ue_State ue ∧
  NrCellId ue' = NrCellId ue ∧ MasterCellGroup ue' = MasterCellGroup ue ∧
  AllowedSnssai ue' = ns ∧ MaskedIMEISV ue' = imeisv.
Proof.
  unfold CreateUeContext. destruct (negb _).
  - destruct (convertMccMnc plmn) as [[mcc mnc]|p|c]; intros E; cbn in E; try done.
    injection E as <-. repeat split.
  - intros E. cbn in E. injection E as <-. repeat split.
Qed.
End Ue.
