(* ===== verification/CuState.v ===== *)
(** The CU-CP context: its state ([internal/context/context_cucp.go]), the heap
    objects it points to, and the small methods the handlers share. *)
From S2P Require Import Prelude GoNum GoText Asn1 Plmn Ies Net DuContext AmfContext UeContext.

Record Slice := { sd : string; sst : string }.
#[export] Instance eta_Slice : Eta Slice := λ s, {| sd := sd s; sst := sst s |}.

Record ControlInfo := {
  mcc : string;
  mnc : string;
  tac : string;
  ng_gnbId : string;
  ng_gnbIp : string;
  ng_gnbPort : Z;
  f1_gnbId : string;
  f1_gnbIp : string;
  f1_gnbPort : Z;
  n2 : option SctpClient.SctpConn
}.
#[export] Instance eta_ControlInfo : Eta ControlInfo := λ c,
  {| mcc := mcc c; mnc := mnc c; tac := tac c; ng_gnbId := ng_gnbId c; ng_gnbIp := ng_gnbIp c;
     ng_gnbPort := ng_gnbPort c; f1_gnbId := f1_gnbId c; f1_gnbIp := f1_gnbIp c;
     f1_gnbPort := f1_gnbPort c; n2 := n2 c |}.

Section State.
Context `{CO : Codec}.

(** [CuCpContext].  [UE], [DU], [AMF] and the values of [DuPool] are pointers
    into the stores [ues], [dus] and [amfs]; [SctpConn]s are named by integers.
    [ready_sends] counts the goroutines that sent on [IsReadyNgap], [trace] is
    what the process did to the outside world, oldest first.  [congested] belongs to
    the outside world too: the associations on which a write would block.  The pools and
    generators no code touches are left out. *)
Record CuCpContext := {
  ci : ControlInfo;
  UE : option loc;
  AMF : option loc;
  DuPool : gmap Z loc;
  DU : option loc;
  TempDuConn : option Z;
  F1APListener : option Z;
  SliceInfo : Slice;
  IdAmfGenerator : Z;
  IdRrcUeGenerator : Z;
  ready_sends : nat;
  ues : store GNBUe;
  dus : store GNBDU;
  amfs : store GNBAmf;
  trace : list event;
  congested : list Z
}.
#[export] Instance eta_CuCpContext : Eta CuCpContext := λ s,
  {| ci := ci s; UE := UE s; AMF := AMF s; DuPool := DuPool s; DU := DU s;
     TempDuConn := TempDuConn s; F1APListener := F1APListener s; SliceInfo := SliceInfo s;
     IdAmfGenerator := IdAmfGenerator s; IdRrcUeGenerator := IdRrcUeGenerator s;
     ready_sends := ready_sends s; ues := ues s; dus := dus s; amfs := amfs s;
     trace := trace s; congested := congested s |}.

#[export] Instance CuCp_World : World CuCpContext :=
  {| trace_of := trace; push e s := s <| trace := trace s ++ [e] |> |}.
#[export] Instance CuCp_WorldLaws : WorldLaws CuCpContext.
Proof. by constructor. Qed.

Abbreviation CU := (proc CuCpContext).

(** ** Heap access *)
Definition find {A} (st : store A) (p : option loc) : option A := p ≫= λ l, cells st !! l.
Definition get_ue (p : option loc) : CU GNBUe := s ← gets id; deref (find (ues s) p).
Definition get_du (p : option loc) : CU GNBDU := s ← gets id; deref (find (dus s) p).
Definition get_amf (p : option loc) : CU GNBAmf := s ← gets id; deref (find (amfs s) p).

Definition upd_at {A} (p : option loc) (f : A → A) (st : store A) : store A :=
  match p with Some l => store_alter f l st | None => st end.
(** Writes through a pointer that was dereferenced before. *)
Definition upd_ue (p : option loc) (f : GNBUe → GNBUe) : CU unit :=
  modify (λ s, s <| ues := upd_at p f (ues s) |>).
Definition upd_du (p : option loc) (f : GNBDU → GNBDU) : CU unit :=
  modify (λ s, s <| dus := upd_at p f (dus s) |>).
Definition upd_amf (p : option loc) (f : GNBAmf → GNBAmf) : CU unit :=
  modify (λ s, s <| amfs := upd_at p f (amfs s) |>).

(** [&T{...}]: the runtime hands out a fresh object, whatever the other goroutines do. *)
Definition alloc_ue (u : GNBUe) : CU loc := λ s,
  (s <| ues := (alloc u (ues s)).2 |>, Ok (brk (ues s))).
Definition alloc_du (d : GNBDU) : CU loc := λ s,
  (s <| dus := (alloc d (dus s)).2 |>, Ok (brk (dus s))).
Definition alloc_amf (a : GNBAmf) : CU loc := λ s,
  (s <| amfs := (alloc a (amfs s)).2 |>, Ok (brk (amfs s))).

(** A method that works on one object and may panic. *)
Definition call_ue (p : option loc) (f : GNBUe → res GNBUe) : CU unit := λ s,
  match find (ues s) p with
  | None => (s, Panic NilDeref)
  | Some u =>
      match f u with
      | Ok u' => (s <| ues := upd_at p (λ _, u') (ues s) |>, Ok tt)
      | Panic e => (s, Panic e)
      | Exit c => (s, Exit c)
      end
  end.
Definition call_amf (p : option loc) (f : GNBAmf → res GNBAmf) : CU unit := λ s,
  match find (amfs s) p with
  | None => (s, Panic NilDeref)
  | Some a =>
      match f a with
      | Ok a' => (s <| amfs := upd_at p (λ _, a') (amfs s) |>, Ok tt)
      | Panic e => (s, Panic e)
      | Exit c => (s, Exit c)
      end
  end.

Lemma get_ue_eq p s :
  get_ue p s = (s, if find (ues s) p is Some u then Ok u else Panic NilDeref).
Proof. unfold get_ue. cbv [mbind proc_bind gets id]. by destruct (find (ues s) p). Qed.
Lemma get_du_eq p s :
  get_du p s = (s, if find (dus s) p is Some d then Ok d else Panic NilDeref).
Proof. unfold get_du. cbv [mbind proc_bind gets id]. by destruct (find (dus s) p). Qed.
Lemma get_amf_eq p s :
  get_amf p s = (s, if find (amfs s) p is Some a then Ok a else Panic NilDeref).
Proof. unfold get_amf. cbv [mbind proc_bind gets id]. by destruct (find (amfs s) p). Qed.

Lemma get_ue_Ok p s s' u : get_ue p s = (s', Ok u) → s' = s ∧ find (ues s) p = Some u.
Proof. rewrite get_ue_eq. case_match; naive_solver. Qed.
Lemma get_du_Ok p s s' d : get_du p s = (s', Ok d) → s' = s ∧ find (dus s) p = Some d.
Proof. rewrite get_du_eq. case_match; naive_solver. Qed.
Lemma get_amf_Ok p s s' a : get_amf p s = (s', Ok a) → s' = s ∧ find (amfs s) p = Some a.
Proof. rewrite get_amf_eq. case_match; naive_solver. Qed.

(** Running through a pointer. *)
Lemma run_get_ue {B} p u (k : GNBUe → CU B) s :
  find (ues s) p = Some u → (get_ue p ≫= k) s = k u s.
Proof. intros H. apply bind_Ok. by rewrite get_ue_eq, H. Qed.
Lemma run_get_du {B} p d (k : GNBDU → CU B) s :
  find (dus s) p = Some d → (get_du p ≫= k) s = k d s.
Proof. intros H. apply bind_Ok. by rewrite get_du_eq, H. Qed.
Lemma run_get_amf {B} p a (k : GNBAmf → CU B) s :
  find (amfs s) p = Some a → (get_amf p ≫= k) s = k a s.
Proof. intros H. apply bind_Ok. by rewrite get_amf_eq, H. Qed.
Lemma run_get_ue_nil {B} p (k : GNBUe → CU B) s :
  find (ues s) p = None → (get_ue p ≫= k) s = (s, Panic NilDeref).
Proof. intros H. apply bind_Panic. by rewrite get_ue_eq, H. Qed.
Lemma run_get_du_nil {B} p (k : GNBDU → CU B) s :
  find (dus s) p = None → (get_du p ≫= k) s = (s, Panic NilDeref).
Proof. intros H. apply bind_Panic. by rewrite get_du_eq, H. Qed.
Lemma run_get_amf_nil {B} p (k : GNBAmf → CU B) s :
  find (amfs s) p = None → (get_amf p ≫= k) s = (s, Panic NilDeref).
Proof. intros H. apply bind_Panic. by rewrite get_amf_eq, H. Qed.
Lemma run_upd_ue {B} p f (k : unit → CU B) s :
  (upd_ue p f ≫= k) s = k tt (s <| ues := upd_at p f (ues s) |>).
Proof. done. Qed.
Lemma run_upd_du {B} p f (k : unit → CU B) s :
  (upd_du p f ≫= k) s = k tt (s <| dus := upd_at p f (dus s) |>).
Proof. done. Qed.
Lemma run_upd_amf {B} p f (k : unit → CU B) s :
  (upd_amf p f ≫= k) s = k tt (s <| amfs := upd_at p f (amfs s) |>).
Proof. done. Qed.

Lemma run_alloc_ue {B} u (k : loc → CU B) s :
  (alloc_ue u ≫= k) s = k (brk (ues s)) (s <| ues := (alloc u (ues s)).2 |>).
Proof. done. Qed.
Lemma run_alloc_du {B} d (k : loc → CU B) s :
  (alloc_du d ≫= k) s = k (brk (dus s)) (s <| dus := (alloc d (dus s)).2 |>).
Proof. done. Qed.
Lemma run_alloc_amf {B} a (k : loc → CU B) s :
  (alloc_amf a ≫= k) s = k (brk (amfs s)) (s <| amfs := (alloc a (amfs s)).2 |>).
Proof. done. Qed.
Lemma run_call_ue {B} p f u u' (k : unit → CU B) s :
  find (ues s) p = Some u → f u = Ok u' →
  (call_ue p f ≫= k) s = k tt (s <| ues := upd_at p (λ _, u') (ues s) |>).
Proof. intros Hu Hf. apply bind_Ok. unfold call_ue. by rewrite Hu, Hf. Qed.
Lemma run_call_ue_nil {B} p f (k : unit → CU B) s :
  find (ues s) p = None → (call_ue p f ≫= k) s = (s, Panic NilDeref).
Proof. intros Hu. apply bind_Panic. unfold call_ue. by rewrite Hu. Qed.
Lemma run_call_amf {B} p f a a' (k : unit → CU B) s :
  find (amfs s) p = Some a → f a = Ok a' →
  (call_amf p f ≫= k) s = k tt (s <| amfs := upd_at p (λ _, a') (amfs s) |>).
Proof. intros Ha Hf. apply bind_Ok. unfold call_amf. by rewrite Ha, Hf. Qed.
Lemma call_ue_Ok p f s s' :
  call_ue p f s = (s', Ok tt) → ∃ u u', find (ues s) p = Some u ∧ f u = Ok u' ∧
    s' = s <| ues := upd_at p (λ _, u') (ues s) |>.
Proof.
  unfold call_ue. destruct (find (ues s) p) as [u|]; [|done].
  destruct (f u) as [u'| |] eqn:Hf; [|done..]. intros [= <-]. eauto.
Qed.
Lemma call_amf_Ok p f s s' :
  call_amf p f s = (s', Ok tt) → ∃ a a', find (amfs s) p = Some a ∧ f a = Ok a' ∧
    s' = s <| amfs := upd_at p (λ _, a') (amfs s) |>.
Proof.
  unfold call_amf. destruct (find (amfs s) p) as [a|]; [|done].
  destruct (f a) as [a'| |] eqn:Hf; [|done..]. intros [= <-]. eauto.
Qed.

Lemma find_upd_at {A} (st : store A) p f a :
  find st p = Some a → find (upd_at p f st) p = Some (f a).
Proof.
  destruct p as [l|]; [|done]. unfold find, upd_at, store_alter. cbn. intros H.
  by rewrite lookup_alter_eq, H.
Qed.
Lemma upd_at_other {A} (st : store A) p f l :
  p ≠ Some l → cells (upd_at p f st) !! l = cells st !! l.
Proof.
  destruct p as [k|]; [|done]. cbn. intros H. apply lookup_alter_ne. congruence.
Qed.
Lemma pointer_find {A} (st : store A) p :
  find st p = None → p = None ∨ ∃ l, p = Some l ∧ cells st !! l = None.
Proof. destruct p as [l|]; cbn; [right; eauto|by left]. Qed.

(** [log := func] helpers: an error of [hex.DecodeString] is logged. *)
Definition log_hex_error (err : option hex_error) (format : string) : CU unit :=
  match err with Some _ => Error format | None => mret tt end.

(** ** Methods of [context_cucp.go] *)
Definition cuGetMccAndMncInOctets : CU (list Z) :=
  s ← gets id; lift (GetMccAndMncInOctets (mcc (ci s)) (mnc (ci s))).

Definition getGnbIdInBytes : CU (list Z) :=
  s ← gets id;
  let '(resu, err) := DecodeString (ng_gnbId (ci s)) in
  _ ← log_hex_error err "can not get ng_gnbid in byte";
  mret resu.

Definition getSliceInBytes : CU (list Z * option (list Z)) :=
  s ← gets id;
  let '(sstBytes, err) := DecodeString (sst (SliceInfo s)) in
  _ ← log_hex_error err "can not get Slice-sst in byte";
  if negb (bool_decide (sd (SliceInfo s) = ""%string)) then
    let '(sdBytes, err) := DecodeString (sd (SliceInfo s)) in
    _ ← log_hex_error err "can not get Slice-sd in byte";
    mret (sstBytes, Some sdBytes)
  else mret (sstBytes, None).

(** The decoded TAC is overwritten by the constant 000001. *)
Definition getTacInBytes : CU (list Z) :=
  s ← gets id;
  let '(_, err) := DecodeString (tac (ci s)) in
  _ ← log_hex_error err "can not get Tac in byte";
  mret [0x00; 0x00; 0x01].

Lemma run_getTac {B} (k : list Z → CU B) s :
  (DecodeString (tac (ci s))).2 = None → (getTacInBytes ≫= k) s = k [0x00; 0x00; 0x01] s.
Proof.
  intros H. unfold getTacInBytes, log_hex_error. run. cbn [id].
  destruct (DecodeString (tac (ci s))) as [b e]. cbn in H. subst e. by run.
Qed.

Lemma run_getGnbId {B} (k : list Z → CU B) s :
  (DecodeString (ng_gnbId (ci s))).2 = None →
  (getGnbIdInBytes ≫= k) s = k (DecodeString (ng_gnbId (ci s))).1 s.
Proof.
  intros H. unfold getGnbIdInBytes, log_hex_error. run. cbn [id].
  destruct (DecodeString (ng_gnbId (ci s))) as [b e]. cbn in H. subst e. by run.
Qed.

Definition getRanAmfId : CU Z :=
  id ← gets IdAmfGenerator;
  loaded ← gets IdAmfGenerator;
  _ ← modify (λ s, s <| IdAmfGenerator := i64 (loaded + 1) |>);
  mret id.

Definition SetSliceInfoFromConfig (sst' sd' : string) : CU unit :=
  modify (λ s, s <| SliceInfo := {| sst := sst'; sd := "" |} |>).

Definition GetPLMNIdentity : CU (list Z) :=
  s ← gets id; mret (PlmnIdToNgap (mcc (ci s)) (mnc (ci s))).

Definition GetNRCellIdentity : CU BitString :=
  nci ← getGnbIdInBytes;
  mret {| Bytes := nci ++ [0; 0]; NumBits := 36 |}.

(** ** Well-formed states

    [cu_shape]: every pointer leads to an object and the stores are well formed; the
    pool files each DU under its identifier; every DU is active with one cell; UE
    states are legal.  [cu_wf] adds that the n-th UE context was given the n-th value of
    the RRC identifier generator, so that identifiers are unique up to wrap-around. *)
Definition pointer_ok {A} (st : store A) (p : option loc) : Prop :=
  ∀ l, p = Some l → is_Some (cells st !! l).

Record cu_shape (s : CuCpContext) : Prop := {
  wf_ues : store_wf (ues s);
  wf_dus : store_wf (dus s);
  wf_amfs : store_wf (amfs s);
  wf_UE : pointer_ok (ues s) (UE s);
  wf_DU : pointer_ok (dus s) (DU s);
  wf_AMF : pointer_ok (amfs s) (AMF s);
  wf_pool : ∀ k l, DuPool s !! k = Some l → is_Some (cells (dus s) !! l);
  wf_pool_id : ∀ k l d, DuPool s !! k = Some l → cells (dus s) !! l = Some d → DuId d = k;
  wf_du_active : ∀ l d, cells (dus s) !! l = Some d → IsActive d = true ∧ zlen (ServedCells d) = 1;
  wf_ran_id : ∀ l u, cells (ues s) !! l = Some u → RanUeNgapId u = 1;
  wf_ue_state : ∀ l u, cells (ues s) !! l = Some u →
    ue_State u = UE_INITIALIZED ∨ ue_State u = UE_ONGOING ∨ ue_State u = UE_READY
}.

Record cu_wf (s : CuCpContext) : Prop := {
  wf_shape : cu_shape s;
  wf_gen : IdRrcUeGenerator s = i64 (Z.pos (brk (ues s)) - 1);
  wf_rrc_id : ∀ l u, cells (ues s) !! l = Some u → RrcUeId u = u64 (Z.pos l - 1)
}.
End State.
#[export] Hint Rewrite @run_alloc_ue @run_alloc_du @run_alloc_amf : run.
Abbreviation CU := (proc CuCpContext).
