(* ===== verification/CuNgapOut.v ===== *)
(** NGAP messages towards the AMF: [internal/context/protocol_ngap.go]. *)
From S2P Require Import Prelude GoNum GoText Asn1 Plmn Ies Net DuContext AmfContext UeContext CuState.

Section NgapOut.
Context `{CO : Codec}.

Definition ngInitialUEMessage (nasPdu : list Z) (ue : option loc)
    : CU (list Z * option string) :=
  tac ← getTacInBytes;
  plmn ← GetPLMNIdentity;
  cellid ← GetNRCellIdentity;
  u ← get_ue ue;
  let msg := InitialUEMessage (RanUeNgapId u) nasPdu
    {| uli_NRCellIdentity := cellid; uli_NRCGI_PLMN := plmn;
       uli_TAI_PLMN := plmn; uli_TAC := tac |}
    RRCEstablishmentCauseMosignalling (Tmsi5gs u) in
  mret (NgapEncode msg).

Definition ngUplinkNasTransport (nasPdu : list Z) (ue : option loc)
    : CU (list Z * option string) :=
  u ← get_ue ue;
  cellid ← GetNRCellIdentity;
  plmn ← GetPLMNIdentity;
  plmn' ← GetPLMNIdentity;
  tac ← getTacInBytes;
  let msg := UplinkNASTransport (AmfUeNgapId u) (RanUeNgapId u) nasPdu
    {| uli_NRCellIdentity := cellid; uli_NRCGI_PLMN := plmn;
       uli_TAI_PLMN := plmn'; uli_TAC := tac |} in
  mret (NgapEncode msg).

(** The tail of [SendNasPdu]: the result of [SendNgap] is dropped and [err] is
    nil by then. *)
Definition send_to_amf (buf : list Z) (amf : option loc) : CU unit :=
  a ← get_amf amf;
  _ ← SendNgap a buf;
  mret tt.

Definition SendNasPdu (nasPdu : list Z) (ue amf : option loc) : CU unit :=
  u ← get_ue ue;
  if ue_State u =? UE_INITIALIZED then
    '(buf, err) ← ngInitialUEMessage nasPdu ue;
    _ ← upd_ue ue (λ u, u <| ue_State := UE_ONGOING |>);
    match err with
    | Some _ => Error "Encode NG Initial UE Message: %s"
    | None => send_to_amf buf amf
    end
  else if (ue_State u =? UE_ONGOING) || (ue_State u =? UE_READY) then
    '(buf, err) ← ngUplinkNasTransport nasPdu ue;
    match err with
    | Some _ => Error "Encode NG Uplink NAS Transport: %s"
    | None => send_to_amf buf amf
    end
  else send_to_amf [] amf.

Definition SendNgSetupRequest (amf : option loc) : CU unit :=
  gnbPlmn ← cuGetMccAndMncInOctets;
  gnbId ← getGnbIdInBytes;
  '(sst, sd) ← getSliceInBytes;
  tac ← getTacInBytes;
  bplmn ← cuGetMccAndMncInOctets;
  let msg := NGSetupRequestOut
    {| nsq_GNB_PLMN := gnbPlmn; nsq_GNBID := {| Bytes := gnbId; NumBits := 24 |};
       nsq_RANNodeName := str_bytes "cu-cp"; nsq_TAC := tac; nsq_BroadcastPLMN := bplmn;
       nsq_SST := sst; nsq_SD := sd; nsq_DefaultPagingDRX := PagingDRXV128 |} in
  let '(ngapPdu, err) := NgapEncode msg in
  let log_err : CU unit :=
    match err with Some _ => Error "Error sending NG Setup Request: " | None => mret tt end in
  _ ← log_err;
  a ← get_amf amf;
  _ ← SendNgap a ngapPdu;
  log_err.
End NgapOut.
