(* ===== verification/CuRrc.v ===== *)
(** UE creation and the RRC procedures: [internal/context/handle_ue.go] and
    [internal/context/protocol_rrc.go]. *)
From S2P Require Import Prelude GoNum GoText Asn1 Plmn Ies Net DuContext AmfContext UeContext CuState CuNgapOut.

Section Rrc.
Context `{CO : Codec}.

(** [createUE]: draws an RRC identifier, allocates the context, makes it the
    current UE and returns its pointer.  The increment [cu.IdRrcUeGenerator++] loads the
    generator again and stores. *)
Definition createUE (duid crnti : Z) (ueIdentity : list Z) (duUeId : Z) : CU (option loc) :=
  rrcUeid ← gets IdRrcUeGenerator;
  loaded ← gets IdRrcUeGenerator;
  _ ← modify (λ s, s <| IdRrcUeGenerator := i64 (loaded + 1) |>);
  amf ← gets AMF;
  a ← get_amf amf;
  let ue := zero_GNBUe <| ue_DuId := u64 duid |> <| Rnti := crnti |>
    <| Random_ue_identity := ueIdentity |> <| AmfUeNgapId := 1 |> <| RanUeNgapId := 1 |>
    <| RrcUeId := u64 rrcUeid |> <| DuUeId := u64 duUeId |> <| ue_AmfId := AmfId a |> in
  p ← alloc_ue ue;
  _ ← modify (λ s, s <| UE := Some p |>);
  mret (Some p).

(** The context it allocates and the state it leaves, for the AMF object [a]. *)
Definition new_ue (duid crnti : Z) (ident : list Z) (duUeId rrcUeid amfId : Z) : GNBUe :=
  zero_GNBUe <| ue_DuId := u64 duid |> <| Rnti := crnti |>
    <| Random_ue_identity := ident |> <| AmfUeNgapId := 1 |> <| RanUeNgapId := 1 |>
    <| RrcUeId := u64 rrcUeid |> <| DuUeId := u64 duUeId |> <| ue_AmfId := amfId |>.
Definition with_new_ue (u : GNBUe) (s : CuCpContext) : CuCpContext :=
  s <| IdRrcUeGenerator := i64 (IdRrcUeGenerator s + 1) |>
    <| ues := (alloc u (ues s)).2 |> <| UE := Some (brk (ues s)) |>.

Lemma createUE_eq duid crnti ident duUeId s a :
  find (amfs s) (AMF s) = Some a →
  createUE duid crnti ident duUeId s =
  (with_new_ue (new_ue duid crnti ident duUeId (IdRrcUeGenerator s) (AmfId a)) s,
   Ok (Some (brk (ues s)))).
Proof.
  intros H. unfold createUE. run. rewrite (run_get_amf _ a) by done. by run.
Qed.
Lemma createUE_no_amf duid crnti ident duUeId s :
  find (amfs s) (AMF s) = None →
  createUE duid crnti ident duUeId s =
  (s <| IdRrcUeGenerator := i64 (IdRrcUeGenerator s + 1) |>, Panic NilDeref).
Proof.
  intros H. unfold createUE. run. by apply run_get_amf_nil.
Qed.

Definition rrc_setup_pdu (masterCellGroup : list Z) : RrcDl :=
  DL_CCCH_RrcSetup {| rs_TransactionIdentifier := 0; rs_Srb_ToAddModList := [1];
                      rs_MasterCellGroup := masterCellGroup |}.

Definition dl_rrc_setup (rrcUeId duUeId : Z) (buf : list Z) : F1Out :=
  DLRRCMessageTransferOut
    {| dl_GNBCUUEF1APID := i64 rrcUeId; dl_GNBDUUEF1APID := i64 duUeId; dl_SRBID := 0;
       dl_RRCContainer := buf; dl_ExecuteDuplication := 0; dl_RedirectedRRCmessage := [0] |}.

(** An [error] result is the option of its text. *)
Definition handleRRCSetupRequest (duCtx : option loc) (rrcSetupRequest : RRCSetupRequest_IEs)
    (f1apMsg : InitialULRRCMessageTransfer) : CU (option string) :=
  d ← get_du duCtx;
  let create identity := createUE (DuId d) (iul_CRNTI f1apMsg) identity (iul_GNBDUUEF1APID f1apMsg) in
  '(ue, err) ←
    match rsr_Choice rrcSetupRequest with
    | RandomValue => ue ← create []; mret (ue, None)
    | Ng_5G_S_TMSI_Part1 =>
        let part1 := rsr_Ng_5G_S_TMSI_Part1 rrcSetupRequest in
        ue ← create (Bytes part1);
        _ ← upd_ue ue (λ u, u <| Tmsi5gs_part1 := Some part1 |>);
        mret (ue, None)
    | OtherIdentity =>
        ue ← create [];
        mret (ue, Some "invalid UE identity choice"%string)
    end;
  match err with
  | Some e => mret (Some e)
  | None =>
      match iul_DUtoCURRCContainer f1apMsg with
      | None => mret (Some "DUtoCURRCContainer nil"%string)
      | Some container =>
          match RrcDecodeCellGroup container with
          | inr e => mret (Some e)
          | inl cellGroup =>
              _ ← upd_ue ue (λ u, u <| MasterCellGroup := Some cellGroup |>);
              _ ← upd_ue ue (λ u, u
                <| EstablishmentCause := Some (rsr_EstablishmentCause rrcSetupRequest) |>
                <| NrCellId := Some (NRCellIdentity (iul_NRCGI f1apMsg)) |>);
              let '(rrcSetupBytes, err) := RrcEncode (rrc_setup_pdu container) in
              match err with
              | Some e => mret (Some ("failed to generate RRC Setup message: " +:+ e))
              | None =>
                  u ← get_ue ue;
                  let '(f1apBytes, err) :=
                    F1apEncode (dl_rrc_setup (RrcUeId u) (DuUeId u) rrcSetupBytes) in
                  match err with
                  | Some e =>
                      _ ← Error "failed to encode DL RRC Message Transfer: %v";
                      mret (Some ("failed to encode DL RRC Message Transfer: " +:+ e))
                  | None => d ← get_du duCtx; SendF1ap d f1apBytes
                  end
              end
          end
      end
  end.

(** The 5G-S-TMSI bytes of an RRC Setup Complete: part 2 joined with the stored
    part 1, or the full value; [[]] stands for a nil slice. *)
Definition setup_complete_tmsi (u : GNBUe) (tmsi : TmsiValue) : CU (list Z) :=
  match tv_Choice tmsi, Tmsi5gs_part1 u with
  | TmsiPart2, Some part1 => mret (Build5GSTMSI (tv_Part2 tmsi) part1)
  | TmsiFull, _ => t ← deref (tv_Tmsi tmsi); mret (Bytes t)
  | _, _ => mret []
  end.

Definition decode_error_text (e : decode_error) : string := "5G-S-TMSI must be 6 bytes".

Definition handleRrcSetupComplete (ue : option loc) (msg : option RRCSetupComplete_IEs)
    : CU (option string) :=
  ies ← deref msg;
  err ←
    match rsc_Ng_5G_S_TMSI_Value ies with
    | None => mret None
    | Some tmsi =>
        u ← get_ue ue;
        tmsi5gs ← setup_complete_tmsi u tmsi;
        if 0 <? zlen tmsi5gs then
          match Decode5GSTMSI tmsi5gs with
          | inr e =>
              _ ← upd_ue ue (λ u, u <| Tmsi5gs := None |>);
              mret (Some ("failed to decode 5G-S-TMSI: " +:+ decode_error_text e))
          | inl t =>
              _ ← upd_ue ue (λ u, u <| Tmsi5gs := Some t |> <| Random_ue_identity := tmsi5gs |>);
              mret None
          end
        else mret None
    end;
  match err with
  | Some e => mret (Some e)
  | None =>
      _ ← get_ue ue;
      _ ← upd_ue ue (λ u, u <| ue_State := UE_INITIALIZED |>);
      amf ← gets AMF;
      nas ← deref (rsc_DedicatedNAS_Message ies);
      _ ← SendNasPdu nas ue amf;
      mret None
  end.

Definition handleULInformationTransfer (ue : option loc)
    (ulInformationTransfer : option (option (list Z))) : CU (option string) :=
  _ ← get_ue ue;
  _ ← upd_ue ue (λ u, u <| ue_State := UE_ONGOING |>);
  amf ← gets AMF;
  ies ← deref ulInformationTransfer;
  nas ← deref ies;
  _ ← SendNasPdu nas ue amf;
  mret None.

Definition handleRRCSecurityModeComplete (ue : option loc) : CU (option string) :=
  u ← get_ue ue;
  plmn ← cuGetMccAndMncInOctets;
  cell ← deref (NrCellId u);
  let msg := UEContextSetupRequestOut
    {| ucs_GNBCUUEF1APID := i64 (RrcUeId u);
       ucs_GNBDUUEF1APID := Some (i64 (DuUeId u));
       ucs_SpCellID := {| PLMNIdentity := plmn; NRCellIdentity := cell |};
       ucs_ServCellIndex := 0;
       ucs_CGConfigInfo := [0x00];
       ucs_SRBsToBeSetupList := [2];
       ucs_DRBsToBeSetupList := [0];
       ucs_SidelinkAMBR := 1000000000;
       ucs_CHOTrigger := CHOtriggerInterDUChoinitiation |} in
  let '(f1apBytes, err) := F1apEncode msg in
  match err with
  | Some e => mret (Some ("failed to encode UE Context Setup Request: " +:+ e))
  | None =>
      du ← gets DU;
      d ← get_du du;
      err ← SendF1ap d f1apBytes;
      match err with
      | Some e => mret (Some ("failed to send UE Context Setup Request: " +:+ e))
      | None => mret None
      end
  end.

Definition handleRRCReconfigurationComplete (ue : option loc) : CU (option string) :=
  _ ← get_ue ue;
  _ ← upd_ue ue (λ u, u <| ue_State := UE_READY |>);
  u ← get_ue ue;
  let '(ngapBytes, err) :=
    NgapEncode (InitialContextSetupResponse (AmfUeNgapId u) (RanUeNgapId u)) in
  match err with
  | Some e => mret (Some ("failed to encode Initial Context Setup Response: " +:+ e))
  | None =>
      amf ← gets AMF;
      a ← get_amf amf;
      err ← SendNgap a ngapBytes;
      match err with
      | Some e =>
          mret (Some ("failed to send NGAP Initial Context Setup Response: " +:+ e))
      | None => mret None
      end
  end.
End Rrc.
