(* ===== verification/CuF1.v ===== *)
(** F1AP messages from the DU: [internal/context/handle_du.go] (dispatch) and
    [internal/context/protocol_f1c.go] (procedures). *)
From S2P Require Import Prelude GoNum GoText Asn1 Plmn Ies Net DuContext AmfContext UeContext CuState CuNgapOut CuRrc.

Section F1.
Context `{CO : Codec}.

(** ** F1 Setup *)

(** The DU context an accepted request creates. *)
Definition du_of_request (setupReq : F1SetupRequest) (item : ServedCellItem)
    (cellPLMNBytes : list Z) (mcc mnc : string) : GNBDU :=
  let cellInfo := item_ServedCellInformation item in
  let '(mib, sib1) :=
    match item_GNBDUSystemInformation item with
    | Some si => (MIBMessage si, SIB1Message si)
    | None => ([], [])
    end in
  let cellIDValue := extractCellIDValue (NRCellIdentity (sci_NRCGI cellInfo)) in
  zero_GNBDU
    <| DuId := req_GNBDUID setupReq |>
    <| DuName := bytes_str (req_GNBDUName setupReq) |>
    <| State := DU_ACTIVE |>
    <| SetupReq := Some setupReq |>
    <| MIB := mib |> <| SIB1 := sib1 |>
    <| MTC := sci_MeasurementTimingConfiguration cellInfo |>
    <| ServedCells :=
         [{| CellID := cellIDValue;
             GlobalCellID := fmt_x cellPLMNBytes +:+ "-" +:+ fmt_x_uint cellIDValue;
             PLMN := {| MCC := mcc; MNC := mnc |};
             PCI := u16 (i64 (sci_NRPCI cellInfo));
             BandwidthMHz := 0;
             TAC := sci_FiveGSTAC cellInfo |}] |>.

Definition cell_to_activate (item : ServedCellItem) (cellPLMNBytes : list Z)
    : CellstobeActivatedListItem :=
  let cellInfo := item_ServedCellInformation item in
  {| cta_NRCGI := {| PLMNIdentity := cellPLMNBytes;
                     NRCellIdentity := NRCellIdentity (sci_NRCGI cellInfo) |};
     cta_NRPCI := i64 (sci_NRPCI cellInfo) |}.

(** [cu.DuPool.Store(duId, duCtx); cu.DU = duCtx], with the pointer of [duCtx]. *)
Definition install_du (duId : Z) (duCtx : GNBDU) : CU (option loc) :=
  p ← alloc_du duCtx;
  _ ← modify (λ s, s <| DuPool := <[duId := p]> (DuPool s) |>);
  _ ← modify (λ s, s <| DU := Some p |>);
  mret (Some p).

Definition with_new_du (duId : Z) (duCtx : GNBDU) (s : CuCpContext) : CuCpContext :=
  s <| dus := (alloc duCtx (dus s)).2 |> <| DuPool := <[duId := brk (dus s)]> (DuPool s) |>
    <| DU := Some (brk (dus s)) |>.

Lemma install_du_eq duId duCtx s :
  install_du duId duCtx s = (with_new_du duId duCtx s, Ok (Some (brk (dus s)))).
Proof. unfold install_du. by run. Qed.

Lemma run_with_new_du {B} k d f (c : unit → CU B) s :
  (upd_du (Some (brk (dus s))) f ≫= c) (with_new_du k d s) = c tt (with_new_du k (f d) s).
Proof.
  rewrite run_upd_du. f_equal. unfold with_new_du. cbn. unfold store_alter. cbn. f_equal.
  f_equal. apply map_eq. intros j. rewrite lookup_alter, !lookup_insert.
  case_decide; [|done]. by rewrite decide_True.
Qed.

Lemma find_with_new_du k d s : find (dus (with_new_du k d s)) (Some (brk (dus s))) = Some d.
Proof. cbn. by rewrite lookup_insert_eq. Qed.

Definition handleF1SetupRequest (setupReq : F1SetupRequest) : CU unit :=
  let transactionID := req_TransactionID setupReq in
  let duId := req_GNBDUID setupReq in
  cellItem ← lift (index (req_GNBDUServedCellsList setupReq) 0);
  let cellInfo := item_ServedCellInformation cellItem in
  let numCells := zlen (req_GNBDUServedCellsList setupReq) in
  if negb (numCells =? 1) then Error "can only handle one DU cell, but gNB_DU %d has %d"
  else if zlen (sci_ServedPLMNs cellInfo) =? 0 then Error "No PLMN in served cell information"
  else
    cellPLMNBytes ← lift (index (sci_ServedPLMNs cellInfo) 0);
    cuPLMNBytes ← cuGetMccAndMncInOctets;
    if negb (plmnMatches cellPLMNBytes cuPLMNBytes) then
      Error "PLMN mismatch: CU %s.%s, DU %.8b"
    else
      s ← gets id;
      let duCtx := du_of_request setupReq cellItem cellPLMNBytes (mcc (ci s)) (mnc (ci s)) in
      p ← install_du duId duCtx;
      conn ← gets TempDuConn;
      _ ← upd_du p (set_conn conn);
      d ← get_du p;
      err ← SendF1SetupResponse d transactionID (req_GNBDURRCVersion setupReq)
              [cell_to_activate cellItem cellPLMNBytes];
      match err with
      | Some _ => Error "Error sending F1 Setup Response: %v"
      | None => mret tt
      end.

(** ** RRC containers *)

Definition log_err (r : option string) (format : string) : CU unit :=
  match r with Some _ => Error format | None => mret tt end.

Definition handleInitialULRRCMessageTransfer (msg : InitialULRRCMessageTransfer) : CU unit :=
  duCtx ← gets DU;
  match RrcDecodeUlCcch (iul_RRCContainer msg) with
  | inr _ => Error "Error decoding RRC container: %s"
  | inl ulCcchMsg =>
      c1 ← deref (ccch_C1 ulCcchMsg);
      rrcSetupRequest ← deref c1;
      err ← handleRRCSetupRequest duCtx rrcSetupRequest msg;
      log_err err "Error handling RRC Setup Request: %s"
  end.

(** The [switch] over the C1 message of a UL-DCCH message. *)
Definition handle_ul_dcch_c1 (ue : option loc) (c1 : UL_DCCH_C1) : CU unit :=
  match c1_Choice c1 with
  | C1_RrcSetupComplete =>
      match c1_RrcSetupComplete c1 with
      | None => Error "UL RRC Message Transfer: RrcSetupComplete is nil"
      | Some m =>
          err ← handleRrcSetupComplete ue m;
          log_err err "Error handling RRC Setup Complete: %s"
      end
  | C1_UlInformationTransfer =>
      match c1_UlInformationTransfer c1 with
      | None => Error "UL RRC Message Transfer: UlInformationTransfer is nil"
      | Some m =>
          err ← handleULInformationTransfer ue m;
          log_err err "Error handling UL Information Transfer: %s"
      end
  | C1_SecurityModeComplete =>
      match c1_SecurityModeComplete c1 with
      | None => Error "UL RRC Message Transfer: SecurityModeComplete is nil"
      | Some _ =>
          err ← handleRRCSecurityModeComplete ue;
          log_err err "Error handling Security Mode Complete: %s"
      end
  | C1_RrcReconfigurationComplete =>
      match c1_RrcReconfigurationComplete c1 with
      | None => Error "UL RRC Message Transfer: RrcReconfigurationComplete is nil"
      | Some _ =>
          err ← handleRRCReconfigurationComplete ue;
          log_err err "Error handling RRC Reconfiguration Complete: %s"
      end
  | C1_Other _ => Warn "UL RRC Message Transfer: Unsupported C1 message type %d"
  end.

Definition handleULRRCMessageTransfer (msg : ULRRCMessageTransfer) : CU unit :=
  ue ← gets UE;
  u ← get_ue ue;
  if negb (u64 (ul_GNBDUUEF1APID msg) =? DuUeId u) then
    Error "UL RRC Message Transfer: DU UE ID mismatch. Expected %d, got %d"
  else if ul_SRBID msg <? 1 then
    Error "UL RRC Message Transfer: Invalid SRBID %d, must be >= 1"
  else
    match RrcDecodeUlDcch (ul_RRCContainer msg) with
    | inr _ => Error "Err decode RRC from UL RRC Message Transfer: %s - %v"
    | inl ulDcchMsg =>
        if negb (dcch_Choice ulDcchMsg =? 1) then
          Error "UL RRC Message Transfer: Unsupported message choice %d"
        else
          match dcch_C1 ulDcchMsg with
          | None => Error "UL RRC Message Transfer: C1 is nil"
          | Some c1 => handle_ul_dcch_c1 ue c1
          end
    end.

Definition rrc_reconfiguration_pdu (masterCellGroupBytes registrationAccept : list Z) : RrcDl :=
  DL_DCCH_RrcReconfiguration
    {| rr_TransactionIdentifier := 0; rr_Srb_ToAddModList := [2]; rr_Drb_ToAddModList := [0];
       rr_SecondaryCellGroup := masterCellGroupBytes; rr_MeasConfig := tt;
       rr_MasterCellGroup := masterCellGroupBytes;
       rr_DedicatedNAS_MessageList := [registrationAccept] |}.

Definition handleRRCUEContextSetupResponse : CU unit :=
  ue ← gets UE;
  u ← get_ue ue;
  '(masterCellGroupBytes, err) ← lift (RrcEncodeCellGroup (MasterCellGroup u));
  match err with
  | Some _ => Error "Error encoding MasterCellGroup: %s"
  | None =>
      let '(buf, err) :=
        RrcEncode (rrc_reconfiguration_pdu masterCellGroupBytes (RegistrationAccept u)) in
      match err with
      | Some _ => Error "Error encoding DL DCCH Message: %s"
      | None =>
          duCtx ← gets DU;
          d ← get_du duCtx;
          _ ← SendF1ap d buf;
          mret tt
      end
  end.

(** ** Dispatch *)
Definition dispatchF1 (rawMsg : list Z) : CU unit :=
  if zlen rawMsg =? 0 then Error "F1AP message is empty"
  else
    let '(pdu, err) := F1apDecode rawMsg in
    match err with
    | Some _ => Error "Error decoding F1AP message from DU: %v"
    | None =>
        pdu ← deref pdu;
        let code := f1_ProcedureCode pdu in
        if (f1_Present pdu =? 0) || (code =? 0) then
          Warn "Decoded F1AP PDU is nil or has no message"
        else if f1_Present pdu =? F1apPduInitiatingMessage then
          if code =? F1_ProcedureCode_F1Setup then
            match f1_Msg pdu with
            | F1SetupRequestMsg m => handleF1SetupRequest m
            | _ => panics BadAssertion
            end
          else if code =? F1_ProcedureCode_InitialULRRCMessageTransfer then
            match f1_Msg pdu with
            | InitialULRRCMessageTransferMsg m => handleInitialULRRCMessageTransfer m
            | _ => Error "Failed to cast Initial UL RRC Message Transfer"
            end
          else if code =? F1_ProcedureCode_ULRRCMessageTransfer then
            match f1_Msg pdu with
            | ULRRCMessageTransferMsg m => handleULRRCMessageTransfer m
            | _ => Error "Failed to cast Initial UL RRC Message Transfer"
            end
          else Warn "Received unknown F1AP message with procedure code %d"
        else if f1_Present pdu =? F1apPduSuccessfulOutcome then
          if code =? F1_ProcedureCode_UEContextSetup then
            match f1_Msg pdu with
            | UEContextSetupResponseMsg => handleRRCUEContextSetupResponse
            | _ => Error "Failed to cast UE Context Setup Response"
            end
          else mret tt
        else if f1_Present pdu =? F1apPduUnsuccessfulOutcome then mret tt
        else Warn "Received F1AP message with unknown present type %d"
    end.
End F1.
