(* ===== verification/CuNgapIn.v ===== *)
(** NGAP messages from the AMF: [internal/context/handle_amf.go]. *)
From S2P Require Import Prelude GoNum GoText Asn1 Plmn Ies Net DuContext AmfContext UeContext CuState CuNgapOut.

Section NgapIn.
Context `{CO : Codec}.

(** [model.AMF] *)
Record AMF_addr := { Ip : string; Port : Z }.

Definition newAmf (amfs : AMF_addr) : CU (option loc) :=
  id ← getRanAmfId;
  let amf :=
    {| AmfIp := Ip amfs; AmfPort := Port amfs; AmfId := id; Tnla_SctpConn := None;
       RelativeAmfCapacity := 0; amf_State := AMF_INACTIVE; Name := "";
       RegionId := zero_BitString; SetId := zero_BitString; Pointer := zero_BitString;
       Plmns := None; Slices := None; LenSlice := 0; LenPlmn := 0; BackupAMF := "";
       plmn_nodes := empty_store; slice_nodes := empty_store |} in
  p ← alloc_amf amf;
  _ ← modify (λ s, s <| AMF := Some p |>);
  mret (Some p).

(** ** NG Setup Response *)

(** The nested loops over the supported PLMNs and their slices, on the AMF
    object alone; nil byte slices print as the empty string. *)
Definition fmt_x_opt (bs : option (list Z)) : string := fmt_x (default [] bs).

Fixpoint add_slices (amf : GNBAmf) (slices : list SNSSAI) : res GNBAmf :=
  match slices with
  | [] => mret amf
  | sl :: slices' =>
      amf ← AddedSlice amf (fmt_x_opt (SST sl)) (fmt_x_opt (SD sl));
      add_slices amf slices'
  end.

Fixpoint add_plmns (amf : GNBAmf) (items : list PLMNSupportItem) : res GNBAmf :=
  match items with
  | [] => mret amf
  | it :: items' =>
      amf ← AddedPlmn amf (fmt_x (psi_PLMNIdentity it));
      amf ← add_slices amf (psi_SliceSupportList it);
      add_plmns amf items'
  end.

(** [for i := range n { ... amf.GetXSupport(i) ... }], the logging loops. *)
Fixpoint check_supported (get : Z → res (string * string)) (n : nat) (i : Z) : res unit :=
  match n with
  | O => mret tt
  | S n' => _ ← get i; check_supported get n' (i + 1)
  end.

Definition amf_after_ng_setup (amf : GNBAmf) (msg : NGSetupResponse) : res GNBAmf :=
  let amf := amf <| Name := bytes_str (nsr_AMFName msg) |>
                 <| RelativeAmfCapacity := nsr_RelativeAMFCapacity msg |> in
  amf ← add_plmns amf (nsr_PLMNSupportList msg);
  let amf := amf <| amf_State := AMF_ACTIVE |> in
  _ ← check_supported (GetPlmnSupport amf) (Z.to_nat (LenPlmn amf)) 0;
  _ ← check_supported (GetSliceSupport amf) (Z.to_nat (LenSlice amf)) 0;
  mret amf.

Lemma amf_after_ng_setup_active a m a' :
  amf_after_ng_setup a m = Ok a' → amf_State a' = AMF_ACTIVE.
Proof.
  intros (a1 & _ & (? & _ & (? & _ & [= <-])%res_bind_Ok)%res_bind_Ok)%res_bind_Ok. done.
Qed.

Definition handlerNgSetupResponse (amf : option loc) (msg : NGSetupResponse) : CU unit :=
  _ ← call_amf amf (λ a, amf_after_ng_setup a msg);
  modify (λ s, s <| ready_sends := S (ready_sends s) |>).

(** ** Downlink NAS *)

Definition dl_nas_transfer (amfId duId : Z) (buf : list Z) : F1Out :=
  DLRRCMessageTransferOut
    {| dl_GNBCUUEF1APID := i64 amfId; dl_GNBDUUEF1APID := i64 duId; dl_SRBID := 0;
       dl_RRCContainer := buf; dl_ExecuteDuplication := 0; dl_RedirectedRRCmessage := [0] |}.

Definition handleNgDownlinkNasTransport (amf : option loc) (msg : DownlinkNASTransport) : CU unit :=
  duCtx ← gets DU;
  ue ← gets UE;
  _ ← get_ue ue;
  _ ← upd_ue ue (λ u, u <| AmfUeNgapId := dnt_AMFUENGAPID msg |>);
  let '(buf, err) := RrcEncode (DL_DCCH_DlInformationTransfer 0 (dnt_NASPDU msg)) in
  match err with
  | Some _ => Error "Error encoding DL RRC Message Transfer: %v"
  | None =>
      a ← get_amf amf;
      d ← get_du duCtx;
      let '(f1apBytes, err) := F1apEncode (dl_nas_transfer (AmfId a) (DuId d) buf) in
      match err with
      | Some _ => Error "Error encoding DL RRC Message Transfer: %v"
      | None =>
          err ← SendF1ap d f1apBytes;
          match err with
          | Some _ => Error "Error sending Downlink NAS Transport to DU: %v"
          | None => mret tt
          end
      end
  end.

(** ** Initial Context Setup *)

Definition informed_or (o : option (list Z)) : string :=
  match o with Some bs => fmt_x bs | None => "not informed" end.
Definition snssai_text (s : SNSSAI) : Snssai :=
  {| Sst := informed_or (SST s); Sd := informed_or (SD s) |}.

Definition handlerInitialContextSetupRequest (msg : InitialContextSetupRequest) : CU unit :=
  let allowednssai := map snssai_text (ics_AllowedNSSAI msg) in
  let mobilityRestrict := informed_or (ics_MobilityRestrictionList msg) in
  let maskedImeisv :=
    match ics_MaskedIMEISV msg with
    | None => "not informed"%string | Some v => fmt_x_imeisv v end in
  ue ← gets UE;
  _ ← call_ue ue (λ u, CreateUeContext u mobilityRestrict maskedImeisv allowednssai
                         (Some (ics_UESecurityCapabilities msg)));
  upd_ue ue (λ u, u <| RegistrationAccept := ics_NASPDU msg |>).

(** ** Dispatch: a decoding error is logged and the PDU is used all the same. *)
Definition dispatch (amf : option loc) (rawMsg : list Z) : CU unit :=
  if zlen rawMsg =? 0 then Error "NGAP message is empty"
  else
    let '(ngapMsg, err) := NgapDecode rawMsg in
    let log : CU unit :=
      match err with
      | Some _ => Error "Error decoding NGAP message in %s GNB: %v" | None => mret tt end in
    _ ← log;
    pdu ← deref ngapMsg;
    let code := ng_ProcedureCode pdu in
    if ng_Present pdu =? NgapPduInitiatingMessage then
      if code =? NG_ProcedureCode_DownlinkNASTransport then
        match ng_Msg pdu with
        | DownlinkNASTransportMsg m => handleNgDownlinkNasTransport amf m
        | _ => panics BadAssertion
        end
      else if code =? NG_ProcedureCode_InitialContextSetup then
        match ng_Msg pdu with
        | InitialContextSetupRequestMsg m => handlerInitialContextSetupRequest m
        | _ => panics BadAssertion
        end
      else Warn "Received unknown NgapPduInitiatingMessage ProcedureCode 0x%x"
    else if ng_Present pdu =? NgapPduSuccessfulOutcome then
      if code =? NG_ProcedureCode_NGSetup then
        match ng_Msg pdu with
        | NGSetupResponseMsg m => handlerNgSetupResponse amf m
        | _ => panics BadAssertion
        end
      else Warn "Received unknown NgapPduSuccessfulOutcome ProcedureCode 0x%x"
    else Warn "Received unknown NGAP message present 0x%x".
End NgapIn.
