(* ===== verification/Init.v ===== *)
(** Start-up and the NGAP association: [internal/context/context_init.go],
    [initAmfConn] of [handle_amf.go] and [Connect] of
    [internal/transport/sctpclient.go].  Opening sockets is a parameter: [dial] gives
    the association or the text of the error, for the local and remote address. *)
From S2P Require Import Prelude GoNum GoText Config Asn1 Plmn Ies Net DuContext AmfContext UeContext CuState CuNgapOut CuNgapIn.
From stdpp Require Import pretty.
#[local] Open Scope Z_scope.

Section Init.
Context `{CO : Codec}.
Variable dial : string → string → Z + string.

(** [Connect] on a possibly nil client; with the connection set it subscribes,
    sets parameters and starts the read loop. *)
Definition Connect (sc : option SctpClient.SctpConn) : res (SctpClient.SctpConn + string) :=
  match sc with
  | None => Panic NilDeref
  | Some sc =>
      match dial (SctpClient.localAddr sc) (SctpClient.remoteAddr sc) with
      | inl c => Ok (inl {| SctpClient.gnbId := SctpClient.gnbId sc;
                            SctpClient.localAddr := SctpClient.localAddr sc;
                            SctpClient.remoteAddr := SctpClient.remoteAddr sc;
                            SctpClient.conn := Some c |})
      | inr e => Ok (inr e)
      end
  end.

(** [fmt.Sprintf("%s:%d", ip, port)] *)
Definition host_port (ip : string) (port : Z) : string := ip +:+ ":" +:+ pretty port.

Definition initAmfConn (amf : option loc) : CU unit :=
  a ← get_amf amf;
  s ← gets id;
  let remote := host_port (AmfIp a) (AmfPort a) in
  let lcl := host_port (ng_gnbIp (ci s)) (ng_gnbPort (ci s)) in
  r ← lift (Connect (SctpClient.NewSctpConn (ng_gnbId (ci s)) lcl remote));
  match r with
  | inr _ => Fatal "Create SCTP connection err: %s"
  | inl sc =>
      _ ← upd_amf amf (λ a, a <| Tnla_SctpConn := Some sc |>);
      modify (λ s, s <| ci := ci s <| n2 := Some sc |> |>)
  end.

(** The context [InitContext] builds before it talks to anyone. *)
Definition empty_context : CuCpContext :=
  {| ci := {| mcc := ""; mnc := ""; tac := ""; ng_gnbId := ""; ng_gnbIp := ""; ng_gnbPort := 0;
              f1_gnbId := ""; f1_gnbIp := ""; f1_gnbPort := 0; n2 := None |};
     UE := None; AMF := None; DuPool := ∅; DU := None; TempDuConn := None;
     F1APListener := None; SliceInfo := {| sd := ""; sst := "" |}; IdAmfGenerator := 0;
     IdRrcUeGenerator := 0; ready_sends := 0; ues := empty_store; dus := empty_store;
     amfs := empty_store; trace := []; congested := [] |}.

Definition control_info (cfg : Config.Config) : ControlInfo :=
  {| mcc := Config.MCC (Config.cu_PLMN (Config.CUCP cfg));
     mnc := Config.MNC (Config.cu_PLMN (Config.CUCP cfg));
     tac := Config.TAC (Config.CUCP cfg);
     ng_gnbId := Config.GnbId (Config.NGAP cfg);
     ng_gnbIp := Config.ng_LocalAddress (Config.NGAP cfg);
     ng_gnbPort := Config.ng_LocalPort (Config.NGAP cfg);
     f1_gnbId := Config.NodeID (Config.CUCP cfg);
     f1_gnbIp := Config.f1_LocalAddress (Config.F1AP cfg);
     f1_gnbPort := Config.f1_LocalPort (Config.F1AP cfg); n2 := None |}.

(** [InitContext] up to the return of [initAmfConn], which leaves a goroutine reading
    from the AMF's association and dispatching with the AMF pointer returned here. *)
Definition connect_amf (cfg : Config.Config) : CU (option loc) :=
  _ ← modify (λ s, s <| ci := control_info cfg |>);
  _ ← (match Config.Slices (Config.CUCP cfg) with
       | [] => mret tt
       | sl :: _ => SetSliceInfoFromConfig (Config.SST sl) (Config.SD sl)
       end : CU unit);
  amf ← newAmf {| Ip := Config.AMFAddress (Config.NGAP cfg); Port := Config.AMFPort (Config.NGAP cfg) |};
  _ ← initAmfConn amf;
  mret amf.
(** [InitContext] up to [<-cuCtx.IsReadyNgap]. *)
Definition InitContext (cfg : Config.Config) : CU (option loc) :=
  amf ← connect_amf cfg;
  _ ← SendNgSetupRequest amf;
  mret amf.

(** [<-cuCtx.IsReadyNgap], when a goroutine is sending; then the F1AP listener. *)
Definition receive_ready : CU unit :=
  modify (λ s, s <| ready_sends := pred (ready_sends s) |>).
Definition initF1APServer : CU unit :=
  s ← gets id;
  match SCTPListen (trace s) with
  | inl l => modify (λ s, s <| F1APListener := Some l |>)
  | inr _ => Fatal "Error initializing F1AP server: %v"
  end.

(** [IsReadyCheck]: the signal, or three seconds pass.  Both may be possible. *)
Inductive IsReadyCheck : CuCpContext → bool → CuCpContext → Prop :=
| check_signal s n :
    ready_sends s = S n → IsReadyCheck s true (s <| ready_sends := n |>)
| check_timeout s : IsReadyCheck s false s.

(** ** The state it leaves *)
Definition amf_client (cfg : Config.Config) (c : option Z) : SctpClient.SctpConn :=
  {| SctpClient.gnbId := Config.GnbId (Config.NGAP cfg);
     SctpClient.localAddr :=
       host_port (Config.ng_LocalAddress (Config.NGAP cfg)) (Config.ng_LocalPort (Config.NGAP cfg));
     SctpClient.remoteAddr :=
       host_port (Config.AMFAddress (Config.NGAP cfg)) (Config.AMFPort (Config.NGAP cfg));
     SctpClient.conn := c |}.
Definition new_amf (cfg : Config.Config) (c : Z) : GNBAmf :=
  {| AmfIp := Config.AMFAddress (Config.NGAP cfg); AmfPort := Config.AMFPort (Config.NGAP cfg);
     AmfId := 0; Tnla_SctpConn := Some (amf_client cfg (Some c)); RelativeAmfCapacity := 0;
     amf_State := AMF_INACTIVE; Name := ""; RegionId := zero_BitString; SetId := zero_BitString;
     Pointer := zero_BitString; Plmns := None; Slices := None; LenSlice := 0; LenPlmn := 0;
     BackupAMF := ""; plmn_nodes := empty_store; slice_nodes := empty_store |}.
Definition first_slice (cfg : Config.Config) : Slice :=
  match Config.Slices (Config.CUCP cfg) with
  | [] => {| sd := ""; sst := "" |} | sl :: _ => {| sd := ""; sst := Config.SST sl |} end.
Definition connected_context (cfg : Config.Config) (c : Z) : CuCpContext :=
  empty_context <| ci := control_info cfg <| n2 := Some (amf_client cfg (Some c)) |> |>
    <| SliceInfo := first_slice cfg |> <| IdAmfGenerator := 1 |> <| AMF := Some 1%positive |>
    <| amfs := (alloc (new_amf cfg c) empty_store).2 |>.

Lemma host_port_nonempty ip port : host_port ip port ≠ ""%string.
Proof. unfold host_port. by destruct ip. Qed.

Lemma NewSctpConn_amf cfg :
  Config.GnbId (Config.NGAP cfg) ≠ ""%string →
  SctpClient.NewSctpConn (Config.GnbId (Config.NGAP cfg))
    (host_port (Config.ng_LocalAddress (Config.NGAP cfg)) (Config.ng_LocalPort (Config.NGAP cfg)))
    (host_port (Config.AMFAddress (Config.NGAP cfg)) (Config.AMFPort (Config.NGAP cfg))) =
    Some (amf_client cfg None).
Proof.
  intros Hg. unfold SctpClient.NewSctpConn.
  by rewrite !bool_decide_eq_false_2 by (done || apply host_port_nonempty).
Qed.

(** The AMF answers the dial. *)
Lemma connect_amf_connected cfg c :
  Config.GnbId (Config.NGAP cfg) ≠ ""%string →
  (∀ l r, dial l r = inl c) →
  connect_amf cfg empty_context = (connected_context cfg c, Ok (Some 1%positive)).
Proof.
  intros Hg Hd. unfold connect_amf. run.
  erewrite (bind_Ok _ _ _
    (empty_context <| ci := control_info cfg |> <| SliceInfo := first_slice cfg |>) tt)
    by (unfold first_slice; by destruct (Config.Slices (Config.CUCP cfg))).
  unfold newAmf, getRanAmfId, initAmfConn. run.
  erewrite run_get_amf by reflexivity. run. cbn [id]. cbn -[host_port].
  rewrite NewSctpConn_amf by done.
  unfold Connect. cbn [lift]. rewrite Hd. run. rewrite run_upd_amf. run. f_equal.
Qed.
(** What is left of [InitContext] then. *)
Lemma InitContext_connected cfg c :
  Config.GnbId (Config.NGAP cfg) ≠ ""%string →
  (∀ l r, dial l r = inl c) →
  InitContext cfg empty_context =
    (SendNgSetupRequest (Some 1%positive) ≫= λ _, mret (Some 1%positive)) (connected_context cfg c).
Proof.
  intros Hg Hd. unfold InitContext. by rewrite (bind_Ok _ _ _ _ _ (connect_amf_connected cfg c Hg Hd)).
Qed.

(** ** NG Setup Request *)
Definition ng_setup_request (cfg : Config.Config) (plmn : list Z) : NgapOut :=
  NGSetupRequestOut
    {| nsq_GNB_PLMN := plmn;
       nsq_GNBID := {| Bytes := (DecodeString (Config.GnbId (Config.NGAP cfg))).1; NumBits := 24 |};
       nsq_RANNodeName := str_bytes "cu-cp"; nsq_TAC := [0x00; 0x00; 0x01];
       nsq_BroadcastPLMN := plmn; nsq_SST := (DecodeString (sst (first_slice cfg))).1;
       nsq_SD := None; nsq_DefaultPagingDRX := PagingDRXV128 |}.

(** The hexadecimal strings of a configuration decode. *)
Record config_hex (cfg : Config.Config) : Prop := {
  ch_gnb : (DecodeString (Config.GnbId (Config.NGAP cfg))).2 = None;
  ch_tac : (DecodeString (Config.TAC (Config.CUCP cfg))).2 = None;
  ch_sst : (DecodeString (sst (first_slice cfg))).2 = None
}.

Lemma first_slice_sd cfg : sd (first_slice cfg) = ""%string.
Proof. unfold first_slice. by destruct (Config.Slices (Config.CUCP cfg)). Qed.

Lemma run_getSlice {B} (k : list Z * option (list Z) → CU B) s :
  (DecodeString (sst (SliceInfo s))).2 = None → sd (SliceInfo s) = ""%string →
  (getSliceInBytes ≫= k) s = k ((DecodeString (sst (SliceInfo s))).1, None) s.
Proof.
  intros H Hsd. unfold getSliceInBytes, log_hex_error. run. cbn [id].
  destruct (DecodeString (sst (SliceInfo s))) as [b e]. cbn in H. subst e. run.
  by rewrite bool_decide_eq_true_2.
Qed.

Lemma SendNgSetupRequest_connected cfg c plmn buf :
  config_hex cfg →
  GetMccAndMncInOctets (Config.MCC (Config.cu_PLMN (Config.CUCP cfg)))
    (Config.MNC (Config.cu_PLMN (Config.CUCP cfg))) = Ok plmn →
  NgapEncode (ng_setup_request cfg plmn) = (buf, None) →
  SendNgSetupRequest (Some 1%positive) (connected_context cfg c) =
    (push (EvWrite c NGAP_PPID buf) (connected_context cfg c), Ok tt).
Proof.
  intros [Hg Ht Hs] Hp Henc. unfold SendNgSetupRequest, cuGetMccAndMncInOctets. run. cbn [id].
  change (mcc (ci (connected_context cfg c))) with (Config.MCC (Config.cu_PLMN (Config.CUCP cfg))).
  change (mnc (ci (connected_context cfg c))) with (Config.MNC (Config.cu_PLMN (Config.CUCP cfg))).
  rewrite Hp. run. rewrite run_getGnbId by exact Hg. run.
  rewrite run_getSlice by (done || apply first_slice_sd). run.
  rewrite run_getTac by exact Ht. run. cbn [id].
  change (mcc (ci (connected_context cfg c))) with (Config.MCC (Config.cu_PLMN (Config.CUCP cfg))).
  change (mnc (ci (connected_context cfg c))) with (Config.MNC (Config.cu_PLMN (Config.CUCP cfg))).
  rewrite Hp. run. 
  match goal with |- context [NgapEncode ?m] => change m with (ng_setup_request cfg plmn) end.
  rewrite Henc. run.
  rewrite (run_get_amf _ (new_amf cfg c)) by done.
  erewrite bind_Ok; [reflexivity|]. apply SendNgap_run. by eexists.
Qed.

(** Without a gNB id there is no client, and [Connect] dereferences nil. *)
Lemma connect_amf_no_gnbid cfg :
  Config.GnbId (Config.NGAP cfg) = ""%string →
  ∃ s, connect_amf cfg empty_context = (s, Panic NilDeref).
Proof.
  intros Hg. unfold connect_amf. run.
  erewrite (bind_Ok _ _ _
    (empty_context <| ci := control_info cfg |> <| SliceInfo := first_slice cfg |>) tt)
    by (unfold first_slice; by destruct (Config.Slices (Config.CUCP cfg))).
  unfold newAmf, getRanAmfId, initAmfConn. run. erewrite run_get_amf by reflexivity. run.
  cbn [id]. cbn -[host_port]. rewrite Hg. by eexists.
Qed.
Lemma InitContext_no_gnbid cfg :
  Config.GnbId (Config.NGAP cfg) = ""%string →
  ∃ s, InitContext cfg empty_context = (s, Panic NilDeref).
Proof.
  intros Hg. destruct (connect_amf_no_gnbid cfg Hg) as [s Hs]. exists s.
  unfold InitContext. by apply bind_Panic.
Qed.

(** A failed dial is fatal. *)
Lemma InitContext_dial_fails cfg e :
  Config.GnbId (Config.NGAP cfg) ≠ ""%string → (∀ l r, dial l r = inr e) →
  ∃ s, InitContext cfg empty_context = (s, Exit 1).
Proof.
  intros Hg Hd. unfold InitContext, connect_amf. run.
  erewrite (bind_Ok _ _ _
    (empty_context <| ci := control_info cfg |> <| SliceInfo := first_slice cfg |>) tt)
    by (unfold first_slice; by destruct (Config.Slices (Config.CUCP cfg))).
  unfold newAmf, getRanAmfId, initAmfConn. run. erewrite run_get_amf by reflexivity. run.
  cbn [id]. cbn -[host_port]. rewrite NewSctpConn_amf by done. unfold Connect. cbn [lift].
  rewrite Hd. by eexists.
Qed.

(** A PLMN that cannot be put in octets ends the start in a panic. *)
Lemma InitContext_bad_plmn cfg c p :
  Config.GnbId (Config.NGAP cfg) ≠ ""%string → (∀ l r, dial l r = inl c) →
  GetMccAndMncInOctets (Config.MCC (Config.cu_PLMN (Config.CUCP cfg)))
    (Config.MNC (Config.cu_PLMN (Config.CUCP cfg))) = Panic p →
  InitContext cfg empty_context = (connected_context cfg c, Panic p).
Proof.
  intros Hg Hd Hp. rewrite (InitContext_connected cfg c) by done. apply bind_Panic.
  unfold SendNgSetupRequest, cuGetMccAndMncInOctets. run. cbn [id].
  change (mcc (ci (connected_context cfg c))) with (Config.MCC (Config.cu_PLMN (Config.CUCP cfg))).
  change (mnc (ci (connected_context cfg c))) with (Config.MNC (Config.cu_PLMN (Config.CUCP cfg))).
  by rewrite Hp.
Qed.
End Init.
