(* ===== verification/CuInv.v ===== *)
(** Invariants of the handlers.

    [HandlerInv I PD PA PC] says what a predicate [I] on the CU-CP state must be closed
    under to be kept by every handler: the few primitive updates they are made of, where
    [PD], [PA] and [PC] are what [I] says of a DU context, of an AMF context and of the
    last accepted connection.  The handlers are proved once against this interface
    ([keeps_dispatchF1], [keeps_dispatch]); [cu_wf] is an instance of it. *)
From S2P Require Import Prelude GoNum GoText Asn1 Plmn Ies Net DuContext AmfContext UeContext CuState CuNgapOut CuRrc CuF1 CuNgapIn.

Lemma u64_i64 z : u64 (i64 z) = u64 z.
Proof.
  unfold u64, i64. replace z with ((z + 2 ^ 63) - 2 ^ 63) at 2 by lia.
  by rewrite Zminus_mod_idemp_l.
Qed.

Lemma i64_i64_add z k : i64 (i64 z + k) = i64 (z + k).
Proof.
  unfold i64. f_equal. replace ((z + 2 ^ 63) mod 2 ^ 64 - 2 ^ 63 + k + 2 ^ 63)
    with ((z + 2 ^ 63) mod 2 ^ 64 + k) by lia.
  rewrite Zplus_mod_idemp_l. f_equal. lia.
Qed.

Section Invariant.
Context `{CO : Codec}.

(** ** Primitive updates *)

Lemma pointer_ok_alter {A} (f : A → A) q (st : store A) p :
  pointer_ok st p → pointer_ok (upd_at q f st) p.
Proof.
  intros H l Hl. destruct q as [k|]; [|by apply H]. simpl. rewrite lookup_alter.
  case_decide; [subst; rewrite fmap_is_Some|]; by apply H.
Qed.

Lemma upd_at_lookup {A} (f : A → A) q (st : store A) l a :
  cells (upd_at q f st) !! l = Some a →
  cells st !! l = Some a ∨ ∃ a', q = Some l ∧ cells st !! l = Some a' ∧ a = f a'.
Proof.
  destruct q as [k|]; simpl; [|by left]. rewrite lookup_alter. case_decide; [subst|by left].
  intros (a' & Ha & ->)%fmap_Some. right. eauto.
Qed.

Lemma store_wf_upd_at {A} (f : A → A) q (st : store A) : store_wf st → store_wf (upd_at q f st).
Proof. destruct q; [apply store_wf_alter|done]. Qed.

Lemma upd_at_is_Some {A} (f : A → A) q (st : store A) l :
  is_Some (cells st !! l) → is_Some (cells (upd_at q f st) !! l).
Proof.
  intros H. destruct q as [k|]; [|done]. simpl. rewrite lookup_alter.
  case_decide; [subst; by apply fmap_is_Some|done].
Qed.

Definition ue_state_legal (u : GNBUe) : Prop :=
  ue_State u = UE_INITIALIZED ∨ ue_State u = UE_ONGOING ∨ ue_State u = UE_READY.

(** An update of a UE context that leaves its RRC identifier alone and its state
    legal. *)
Definition ue_update_ok (f : GNBUe → GNBUe) : Prop :=
  ∀ u, (RrcUeId (f u) = RrcUeId u ∧ RanUeNgapId (f u) = RanUeNgapId u) ∧ (ue_state_legal u → ue_state_legal (f u)).

(** *** [cu_shape] under each single update *)
Lemma shape_push e s : cu_shape s → cu_shape (push e s).
Proof. intros []. by constructor. Qed.
Lemma shape_gen g s : cu_shape s → cu_shape (s <| IdRrcUeGenerator := g |>).
Proof. intros []. by constructor. Qed.
Lemma shape_temp c s : cu_shape s → cu_shape (s <| TempDuConn := c |>).
Proof. intros []. by constructor. Qed.
Lemma shape_ready n s : cu_shape s → cu_shape (s <| ready_sends := n |>).
Proof. intros []. by constructor. Qed.
Lemma shape_listener l s : cu_shape s → cu_shape (s <| F1APListener := l |>).
Proof. intros []. by constructor. Qed.
Lemma shape_congested l s : cu_shape s → cu_shape (s <| congested := l |>).
Proof. intros []. by constructor. Qed.

(** What an update of a UE context must respect, for the context at [p]. *)
Definition ue_update_at (p : option loc) (f : GNBUe → GNBUe) (s : CuCpContext) : Prop :=
  ∀ l u, p = Some l → cells (ues s) !! l = Some u →
    (RrcUeId (f u) = RrcUeId u ∧ RanUeNgapId (f u) = RanUeNgapId u) ∧
    (ue_state_legal u → ue_state_legal (f u)).

Lemma shape_upd_ue p f s :
  cu_shape s → ue_update_at p f s → cu_shape (s <| ues := upd_at p f (ues s) |>).
Proof.
  intros [] Hf. constructor; simpl; try done.
  - by apply store_wf_upd_at.
  - by apply pointer_ok_alter.
  - intros l u [Hu|(u' & -> & Hu & ->)]%upd_at_lookup; [by eapply wf_ran_id|].
    destruct (Hf _ _ eq_refl Hu) as [[_ ->] _]. by eapply wf_ran_id.
  - intros l u [Hu|(u' & -> & Hu & ->)]%upd_at_lookup; [by eapply wf_ue_state|].
    apply (Hf _ _ eq_refl Hu). by eapply wf_ue_state.
Qed.
Lemma shape_alloc_ue u s :
  cu_shape s → RanUeNgapId u = 1 → ue_state_legal u →
  cu_shape (s <| ues := (alloc u (ues s)).2 |>).
Proof.
  intros [] Hr Hs. constructor; cbn; try done.
  - by apply (store_wf_alloc u).
  - intros l Hl. cbn. rewrite lookup_insert. case_decide; [by eexists|by apply wf_UE].
  - intros l u'. rewrite lookup_insert. by case_decide; [intros [= <-]|apply wf_ran_id].
  - intros l u'. rewrite lookup_insert. by case_decide; [intros [= <-]|apply wf_ue_state].
Qed.
Lemma shape_set_UE p s :
  cu_shape s → is_Some (cells (ues s) !! p) → cu_shape (s <| UE := Some p |>).
Proof. intros [] Hp. constructor; try done. by intros l [= <-]. Qed.

Lemma shape_alloc_du d s :
  cu_shape s → IsActive d = true → zlen (ServedCells d) = 1 →
  cu_shape (s <| dus := (alloc d (dus s)).2 |>).
Proof.
  intros [] Hact Hcells. constructor; cbn; try done.
  - by apply (store_wf_alloc d).
  - intros l Hl. cbn. rewrite lookup_insert. case_decide; [by eexists|by apply wf_DU].
  - intros k l Hl. rewrite lookup_insert. case_decide; [by eexists|by eapply wf_pool].
  - intros k l d' Hl. rewrite lookup_insert. case_decide as E; [|by eapply wf_pool_id].
    pose proof (wf_dus l (wf_pool _ _ Hl)). lia.
  - intros l d'. rewrite lookup_insert. by case_decide; [intros [= <-]|apply wf_du_active].
Qed.
Lemma shape_pool k p d s :
  cu_shape s → cells (dus s) !! p = Some d → DuId d = k →
  cu_shape (s <| DuPool := <[k := p]> (DuPool s) |>).
Proof.
  intros [] Hp Hk. constructor; cbn; try done.
  - intros k' l. rewrite lookup_insert. case_decide; [intros [= <-]; by eexists|by apply wf_pool].
  - intros k' l d'. rewrite lookup_insert. case_decide; [|by apply wf_pool_id].
    intros [= <-]. rewrite Hp. intros [= <-]. congruence.
Qed.
Lemma shape_set_DU p s :
  cu_shape s → is_Some (cells (dus s) !! p) → cu_shape (s <| DU := Some p |>).
Proof. intros [] Hp. constructor; try done. by intros l [= <-]. Qed.
Lemma shape_set_conn p conn s :
  cu_shape s → cu_shape (s <| dus := upd_at p (set_conn conn) (dus s) |>).
Proof.
  intros []. constructor; simpl; try done.
  - by apply store_wf_upd_at.
  - by apply pointer_ok_alter.
  - intros k l Hk. apply upd_at_is_Some. by eapply wf_pool.
  - intros k l d Hk [Hd|(d' & -> & Hd & ->)]%upd_at_lookup; [by eapply wf_pool_id|].
    by apply (wf_pool_id k l d').
  - intros l d [Hd|(d' & -> & Hd & ->)]%upd_at_lookup; [by eapply wf_du_active|].
    by apply (wf_du_active l d').
Qed.
Lemma shape_upd_amf p a s : cu_shape s → cu_shape (s <| amfs := upd_at p (λ _, a) (amfs s) |>).
Proof.
  intros []. constructor; simpl; try done.
  - by apply store_wf_upd_at.
  - by apply pointer_ok_alter.
Qed.

(** ** The interface *)
Class HandlerInv (I : CuCpContext → Prop) (PD : GNBDU → Prop) (PA : GNBAmf → Prop)
    (PC : option Z → Prop) : Prop := {
  hi_du s p d : I s → find (dus s) p = Some d → PD d;
  hi_amf s p a : I s → find (amfs s) p = Some a → PA a;
  hi_temp s : I s → PC (TempDuConn s);
  hi_log s level f : I s → I (push (EvLog level f) s);
  hi_f1 s d k pdu : I s → PD d → SctpConn d = Some k → I (push (EvWrite k F1AP_PPID pdu) s);
  hi_ng s a k pdu : I s → PA a → connected a k → I (push (EvWrite k NGAP_PPID pdu) s);
  hi_ue s p f :
    I s → ue_update_at p f s →
    I (s <| ues := upd_at p f (ues s) |>);
  hi_new_ue s a duid crnti ident duUeId :
    I s → PA a →
    I (with_new_ue (new_ue duid crnti ident duUeId (IdRrcUeGenerator s) (AmfId a)) s);
  hi_new_du s d :
    I s → IsActive d = true → zlen (ServedCells d) = 1 → SctpConn d = None →
    I (with_new_du (DuId d) d s);
  hi_conn s p conn : I s → PC conn → I (s <| dus := upd_at p (set_conn conn) (dus s) |>);
  hi_setup s p a m a' :
    I s → find (amfs s) p = Some a → amf_after_ng_setup a m = Ok a' →
    I (s <| amfs := upd_at p (λ _, a') (amfs s) |> <| ready_sends := S (ready_sends s) |>)
}.
End Invariant.

Section Handlers.
Context `{CO : Codec} {I PD PA PC} `{HI : !HandlerInv I PD PA PC}.
#[local] Set Default Proof Using "Type HI".
#[local] Abbreviation keeps := (keeps I).

(** ** Primitive operations *)
Lemma ensures_get_ue p : ensures I (get_ue p) (λ _, True).
Proof. intros s Hs. rewrite get_ue_eq. by destruct (find (ues s) p). Qed.
Lemma ensures_get_du p : ensures I (get_du p) PD.
Proof.
  intros s Hs. rewrite get_du_eq. destruct (find (dus s) p) eqn:E; [|done].
  split; [done|]. by eapply hi_du.
Qed.
Lemma ensures_get_amf p : ensures I (get_amf p) PA.
Proof.
  intros s Hs. rewrite get_amf_eq. destruct (find (amfs s) p) eqn:E; [|done].
  split; [done|]. by eapply hi_amf.
Qed.
Lemma ensures_temp : ensures I (gets TempDuConn) PC.
Proof. intros s Hs. split; [done|]. by apply hi_temp. Qed.

Lemma keeps_Error f : keeps (Error f).
Proof. apply keeps_modify. intros. by apply hi_log. Qed.
Lemma keeps_Warn f : keeps (Warn f).
Proof. apply keeps_modify. intros. by apply hi_log. Qed.
Lemma keeps_f1 d b : PD d → keeps (SendF1ap d b).
Proof.
  intros Hd s Hs. unfold SendF1ap. destruct (SctpConn d) eqn:E; [|done]. by eapply (hi_f1 s d).
Qed.
Lemma keeps_setup_response d t v cs : PD d → keeps (SendF1SetupResponse d t v cs).
Proof.
  intros Hd. unfold SendF1SetupResponse.
  destruct (F1apEncode _) as [buf [e|]]; [apply keeps_ret|by apply keeps_f1].
Qed.
Lemma keeps_ng a b : PA a → keeps (SendNgap a b).
Proof.
  intros Ha s Hs. destruct (Tnla_SctpConn a) as [sc|] eqn:Es.
  - destruct (SctpClient.conn sc) as [k|] eqn:Ek.
    + rewrite (SendNgap_run _ _ k) by by exists sc. eapply hi_ng; [done|done|]. by exists sc.
    + unfold SendNgap, SctpClient.Send. rewrite Es. run. rewrite Ek. run.
      by apply (hi_log (PD := PD) (PA := PA) (PC := PC)).
  - unfold SendNgap, SctpClient.Send. by rewrite Es.
Qed.
Lemma keeps_createUE duid crnti ident duUeId : keeps (createUE duid crnti ident duUeId).
Proof.
  intros s Hs. destruct (find (amfs s) (AMF s)) as [a|] eqn:E.
  - rewrite (createUE_eq _ _ _ _ _ a E). apply hi_new_ue; [done|]. by eapply hi_amf.
  - by rewrite (createUE_no_amf _ _ _ _ _ E).
Qed.
Lemma keeps_install_du d :
  IsActive d = true → zlen (ServedCells d) = 1 → SctpConn d = None →
  keeps (install_du (DuId d) d).
Proof. intros ??? s Hs. rewrite install_du_eq. by apply hi_new_du. Qed.
Lemma keeps_upd_ue p f : ue_update_ok f → keeps (upd_ue p f).
Proof. intros Hf s Hs. apply hi_ue; [done|]. intros l u _ _. apply Hf. Qed.
Lemma keeps_set_conn p conn : PC conn → keeps (upd_du p (set_conn conn)).
Proof. intros H s Hs. by apply hi_conn. Qed.
End Handlers.

(** Walk through a handler: a dereferenced context and the last accepted connection
    bring the facts [PD], [PA] and [PC]; updates of a UE context are checked field by
    field. *)
Ltac ue_ok :=
  apply keeps_upd_ue; intros u; split; [split; reflexivity|unfold ue_state_legal; cbn; tauto].
Ltac wf_step :=
  match goal with
  | |- keeps _ (get_ue _ ≫= _) => eapply ensures_bind; [apply ensures_get_ue|intros ? _]
  | |- keeps _ (get_du _ ≫= _) => eapply ensures_bind; [apply ensures_get_du|intros ? ?]
  | |- keeps _ (get_amf _ ≫= _) => eapply ensures_bind; [apply ensures_get_amf|intros ? ?]
  | |- keeps _ (gets TempDuConn ≫= _) => eapply ensures_bind; [apply ensures_temp|intros ? ?]
  | |- keeps _ (upd_ue _ _) => ue_ok
  | |- keeps _ (Error _) => apply keeps_Error
  | |- keeps _ (Warn _) => apply keeps_Warn
  | |- keeps _ (SendF1ap _ _) => apply keeps_f1; assumption
  | |- keeps _ (SendF1SetupResponse _ _ _ _) => apply keeps_setup_response; assumption
  | |- keeps _ (SendNgap _ _) => apply keeps_ng; assumption
  | |- keeps _ (createUE _ _ _ _) => apply keeps_createUE
  | |- keeps _ (upd_du _ (set_conn _)) => apply keeps_set_conn; assumption
  | |- _ => keeps_step
  end.
Ltac wf_tac := repeat wf_step.

Section Dispatch.
Context `{CO : Codec} {I PD PA PC} `{HI : !HandlerInv I PD PA PC}.
#[local] Set Default Proof Using "Type HI".
#[local] Abbreviation keeps := (keeps I).

Lemma keeps_getGnbIdInBytes : keeps getGnbIdInBytes.
Proof. unfold getGnbIdInBytes, log_hex_error. wf_tac. Qed.
Lemma keeps_getTacInBytes : keeps getTacInBytes.
Proof. unfold getTacInBytes, log_hex_error. wf_tac. Qed.
Lemma keeps_getSliceInBytes : keeps getSliceInBytes.
Proof. unfold getSliceInBytes, log_hex_error. wf_tac. Qed.
Lemma keeps_cuGetMccAndMncInOctets : keeps cuGetMccAndMncInOctets.
Proof. unfold cuGetMccAndMncInOctets. wf_tac. Qed.
Lemma keeps_GetPLMNIdentity : keeps GetPLMNIdentity.
Proof. unfold GetPLMNIdentity. wf_tac. Qed.
#[local] Hint Resolve keeps_getGnbIdInBytes keeps_getTacInBytes keeps_getSliceInBytes
  keeps_cuGetMccAndMncInOctets keeps_GetPLMNIdentity : go.
Lemma keeps_GetNRCellIdentity : keeps GetNRCellIdentity.
Proof. unfold GetNRCellIdentity. wf_tac. Qed.
#[local] Hint Resolve keeps_GetNRCellIdentity : go.

Lemma keeps_ngInitialUEMessage n ue : keeps (ngInitialUEMessage n ue).
Proof. unfold ngInitialUEMessage. wf_tac. Qed.
Lemma keeps_ngUplinkNasTransport n ue : keeps (ngUplinkNasTransport n ue).
Proof. unfold ngUplinkNasTransport. wf_tac. Qed.
#[local] Hint Resolve keeps_ngInitialUEMessage keeps_ngUplinkNasTransport : go.
Lemma keeps_SendNasPdu n ue amf : keeps (SendNasPdu n ue amf).
Proof. unfold SendNasPdu, send_to_amf. wf_tac. Qed.
#[local] Hint Resolve keeps_SendNasPdu : go.
Lemma keeps_SendNgSetupRequest amf : keeps (SendNgSetupRequest amf).
Proof. unfold SendNgSetupRequest. wf_tac. Qed.

Lemma keeps_handleRRCSetupRequest du r m : keeps (handleRRCSetupRequest du r m).
Proof. unfold handleRRCSetupRequest. wf_tac. Qed.
Lemma keeps_handleRrcSetupComplete ue m : keeps (handleRrcSetupComplete ue m).
Proof. unfold handleRrcSetupComplete, setup_complete_tmsi. wf_tac. Qed.
Lemma keeps_handleULInformationTransfer ue m : keeps (handleULInformationTransfer ue m).
Proof. unfold handleULInformationTransfer. wf_tac. Qed.
Lemma keeps_handleRRCSecurityModeComplete ue : keeps (handleRRCSecurityModeComplete ue).
Proof. unfold handleRRCSecurityModeComplete. wf_tac. Qed.
Lemma keeps_handleRRCReconfigurationComplete ue :
  keeps (handleRRCReconfigurationComplete ue).
Proof. unfold handleRRCReconfigurationComplete. wf_tac. Qed.
#[local] Hint Resolve keeps_handleRRCSetupRequest keeps_handleRrcSetupComplete
  keeps_handleULInformationTransfer keeps_handleRRCSecurityModeComplete
  keeps_handleRRCReconfigurationComplete : go.

Lemma keeps_log_err r f : keeps (log_err r f).
Proof. unfold log_err. wf_tac. Qed.
#[local] Hint Resolve keeps_log_err : go.
Lemma keeps_handleInitialULRRCMessageTransfer m :
  keeps (handleInitialULRRCMessageTransfer m).
Proof. unfold handleInitialULRRCMessageTransfer. wf_tac. Qed.
Lemma keeps_handleULRRCMessageTransfer m : keeps (handleULRRCMessageTransfer m).
Proof. unfold handleULRRCMessageTransfer, handle_ul_dcch_c1. wf_tac. Qed.
Lemma keeps_handleRRCUEContextSetupResponse : keeps handleRRCUEContextSetupResponse.
Proof. unfold handleRRCUEContextSetupResponse. wf_tac. Qed.

Lemma keeps_install_request req item plmn m n :
  keeps (install_du (req_GNBDUID req) (du_of_request req item plmn m n)).
Proof.
  replace (req_GNBDUID req) with (DuId (du_of_request req item plmn m n))
    by (unfold du_of_request; by destruct (item_GNBDUSystemInformation item)).
  apply keeps_install_du; unfold du_of_request; by destruct (item_GNBDUSystemInformation item).
Qed.

Lemma keeps_handleF1SetupRequest m : keeps (handleF1SetupRequest m).
Proof.
  unfold handleF1SetupRequest. repeat first [apply keeps_install_request | wf_step].
Qed.
#[local] Hint Resolve keeps_handleInitialULRRCMessageTransfer keeps_handleULRRCMessageTransfer
  keeps_handleRRCUEContextSetupResponse keeps_handleF1SetupRequest : go.

Lemma keeps_dispatchF1 raw : keeps (dispatchF1 raw).
Proof. unfold dispatchF1. wf_tac. Qed.

Lemma keeps_handlerNgSetupResponse amf m : keeps (handlerNgSetupResponse amf m).
Proof.
  unfold handlerNgSetupResponse. intros s Hs. apply keeps_at. intros s1 [] E.
  apply call_amf_Ok in E as (a & a' & Ha & Em & ->).
  by apply (hi_setup (PD := PD) (PA := PA) (PC := PC) s amf a m a').
Qed.
Lemma keeps_handleNgDownlinkNasTransport amf m :
  keeps (handleNgDownlinkNasTransport amf m).
Proof. unfold handleNgDownlinkNasTransport. wf_tac. Qed.

Lemma CreateUeContext_update p plmn imeisv ns caps u u' s :
  find (ues s) p = Some u → CreateUeContext u plmn imeisv ns caps = Ok u' →
  ue_update_at p (λ _, u') s.
Proof using Type.
  intros Hu (Hr & _ & _ & Hn & Hst & _)%CreateUeContext_ids l u0 -> Hl. cbn in Hu.
  assert (u0 = u) as -> by congruence. unfold ue_state_legal. by rewrite Hr, Hn, Hst.
Qed.
Lemma keeps_handlerInitialContextSetupRequest m :
  keeps (handlerInitialContextSetupRequest m).
Proof.
  unfold handlerInitialContextSetupRequest. intros s1 Hs. run. apply keeps_at. intros s2 [] E2.
  apply call_ue_Ok in E2 as (u & u' & Hu & Hc & ->).
  apply keeps_upd_ue; [by split|]. apply hi_ue; [done|]. by eapply CreateUeContext_update.
Qed.
#[local] Hint Resolve keeps_handlerNgSetupResponse keeps_handleNgDownlinkNasTransport
  keeps_handlerInitialContextSetupRequest : go.

Lemma keeps_dispatch amf raw : keeps (dispatch amf raw).
Proof. unfold dispatch. wf_tac. Qed.
End Dispatch.
