(* ===== verification/System.v ===== *)
(** The running process as a transition system: the F1AP accept and read loops
    ([internal/context/f1_server.go]), the NGAP reader and its queue
    ([internal/transport/sctpclient.go], [initAmfConn]), and one goroutine per received
    message ([go cu.dispatchF1], [go cu.dispatch]).

    Here a goroutine's handler is one step, and the waiting goroutines run in any order:
    the reordering of messages that the code allows.  The rest of [InitContext] is two
    such steps, so that messages of the AMF may be handled before and after the NG Setup
    Request is sent.  [FineSystem] lets them all interleave action by action. *)
From S2P Require Import Prelude GoNum GoText Config Asn1 Plmn Ies Net DuContext AmfContext UeContext CuState CuNgapOut CuRrc CuF1 CuNgapIn Init CuInv.

Section System.
Context `{CO : Codec}.

Definition defaultChannelBuffer : Z := 5000.

(** Where [main] is in [InitContext] once [initAmfConn] has returned: about to send the
    NG Setup Request, at [<-cuCtx.IsReadyNgap], or past the start of the F1AP server.
    (When it runs preemptively, in [FineSystem], it is a goroutine like the others.) *)
Inductive main_point := AtRequest | AtWait | AtReturn.

Record system := {
  cu : CuCpContext;
  amf_ptr : option loc;            (* the [amf] of [initAmfConn]'s goroutine *)
  main_at : main_point;
  accepted : list Z;               (* associations that were accepted *)
  starting : list Z;               (* those whose [handleF1APConnection] has not run yet *)
  reading : list Z;                (* those whose read loop runs *)
  ng_reading : bool;               (* the NGAP read loop still runs *)
  ReadCh : list (list Z);
  f1_tasks : list (Z * list Z);    (* goroutines about to run [dispatchF1], with the
                                      association the message was read from, which the
                                      code does not pass on *)
  ng_tasks : list (list Z);        (* goroutines about to run [dispatch] *)
  stopped : bool                   (* a panic or [os.Exit] ended the process *)
}.
#[export] Instance eta_system : Eta system := λ s,
  {| cu := cu s; amf_ptr := amf_ptr s; main_at := main_at s; accepted := accepted s;
     starting := starting s; reading := reading s; ng_reading := ng_reading s;
     ReadCh := ReadCh s; f1_tasks := f1_tasks s; ng_tasks := ng_tasks s; stopped := stopped s |}.

(** What [SCTPRead] returns: the bytes with the PPID of their info ([None] for a nil
    info), or an error. *)
Inductive read_result :=
| ReadData (info : option Z) (raw : list Z)
| ReadEOF
| ReadAgain
| ReadError.

Definition log_line (level : log_level) (f : string) (s : system) : system :=
  s <| cu := push (EvLog level f) (cu s) |>.

(** One turn of the read loop of [handleF1APConnection]. *)
Definition f1_read (conn : Z) (r : read_result) (s : system) : system :=
  match r with
  | ReadEOF => s <| reading := filter (λ c, c ≠ conn) (reading s) |>
  | ReadAgain => s
  | ReadError => log_line LError "Read error: %v" s <| reading := filter (λ c, c ≠ conn) (reading s) |>
  | ReadData None _ => log_line LWarn "Received nil info" s
  | ReadData (Some ppid) raw =>
      if negb (ppid =? F1AP_PPID) then log_line LWarn "Wrong PPID %d, expected %d" s
      else s <| f1_tasks := f1_tasks s ++ [(conn, raw)] |>
  end.

(** One turn of [readLoop] of the NGAP client. *)
Definition ng_read (r : read_result) (s : system) : system :=
  match r with
  | ReadEOF => log_line LError "Connection closed by peer" s <| ng_reading := false |>
  | ReadAgain => s
  | ReadError => log_line LError "Read error: %v" s <| ng_reading := false |>
  | ReadData None _ => log_line LError "Received nil info" s
  | ReadData (Some ppid) raw =>
      if negb (ppid =? NGAP_PPID) then log_line LError "Wrong PPID: %d, expected %d" s
      else if zlen (ReadCh s) <? defaultChannelBuffer then s <| ReadCh := ReadCh s ++ [raw] |>
      else log_line LWarn "Drop received msg, cause of full queue" s
  end.

(** [go cu.handleF1APConnection(conn)], and later the start of that goroutine up to its
    read loop. *)
Definition f1_connect (conn : Z) (s : system) : system :=
  s <| accepted := accepted s ++ [conn] |> <| starting := starting s ++ [conn] |>.
Definition f1_start (conn : Z) (s : system) : system :=
  s <| cu := cu s <| TempDuConn := Some conn |> |> <| reading := reading s ++ [conn] |>.

(** What [AcceptSCTP] and [configureF1APConnection] give: [EINTR] or [EAGAIN], another
    error, a nil connection, or a connection and whether it could be configured. *)
Inductive accept_result :=
| AcceptAgain
| AcceptError
| AcceptNil
| Accepted (conn : Z) (configured : bool).

(** One turn of [f1apAcceptLoop], its stop channel being open. *)
Definition f1_accept (r : accept_result) (s : system) : system :=
  match r with
  | AcceptAgain | AcceptNil => s
  | AcceptError => log_line LError "Accept error: %v" s
  | Accepted conn true => f1_connect conn s
  | Accepted conn false => log_line LError "Failed to configure connection: %v" s
  end.

(** The end of a handler: its state, or the end of the process. *)
Definition finish (out : CuCpContext * res unit) (s : system) : system :=
  s <| cu := out.1 |> <| stopped := match out.2 with Ok _ => false | _ => true end |>.

(** What the peers do: connect, once there is a listener, and have something read. *)
Inductive input_step : system → system → Prop :=
| step_accept s r :
    stopped s = false → is_Some (F1APListener (cu s)) →
    (∀ c ok, r = Accepted c ok → c ∉ accepted s) → input_step s (f1_accept r s)
| step_f1_read s c r : stopped s = false → c ∈ reading s → input_step s (f1_read c r s)
| step_ng_read s r : stopped s = false → ng_reading s = true → input_step s (ng_read r s).

Lemma step_connect s c :
  stopped s = false → is_Some (F1APListener (cu s)) → c ∉ accepted s →
  input_step s (f1_connect c s).
Proof. intros Hs Hr Hc. apply (step_accept s (Accepted c true)); [done|done|]. by intros ? ? [= <- _]. Qed.

(** What the process does outside the handlers. *)
Inductive local_step : system → system → Prop :=
| step_f1_start s c p q :
    stopped s = false → starting s = p ++ c :: q →
    local_step s (f1_start c (s <| starting := p ++ q |>))
| step_ng_take s raw q :
    stopped s = false → ReadCh s = raw :: q →
    local_step s (s <| ReadCh := q |> <| ng_tasks := ng_tasks s ++ [raw] |>).

Definition io_step (s s' : system) : Prop := input_step s s' ∨ local_step s s'.

(** [InitContext] past the wait, once a goroutine sends on [IsReadyNgap]. *)
Definition serve_f1 : CU unit := _ ← receive_ready; initF1APServer.

(** A whole handler at once; writes return. *)
Inductive step : system → system → Prop :=
| step_io s s' : io_step s s' → step s s'
| step_request s :
    stopped s = false → main_at s = AtRequest →
    step s (finish (SendNgSetupRequest (amf_ptr s) (cu s)) (s <| main_at := AtWait |>))
| step_serve s :
    stopped s = false → main_at s = AtWait → ready_sends (cu s) ≠ 0%nat →
    step s (finish (serve_f1 (cu s)) (s <| main_at := AtReturn |>))
| step_f1_run s c raw p q :
    stopped s = false → f1_tasks s = p ++ (c, raw) :: q →
    step s (finish (dispatchF1 raw (cu s)) (s <| f1_tasks := p ++ q |>))
| step_ng_run s raw p q :
    stopped s = false → ng_tasks s = p ++ raw :: q →
    step s (finish (dispatch (amf_ptr s) raw (cu s)) (s <| ng_tasks := p ++ q |>)).

(** The process when [initAmfConn] has returned [amf]: the AMF's messages are read, the
    NG Setup Request is yet to be sent. *)
Definition boot (cu0 : CuCpContext) (amf : option loc) : system :=
  {| cu := cu0; amf_ptr := amf; main_at := AtRequest; accepted := []; starting := []; reading := [];
     ng_reading := true; ReadCh := []; f1_tasks := []; ng_tasks := []; stopped := false |}.
End System.
