(* ===== verification/SystemInv.v ===== *)
(** The invariant of the running process: the state of the CU-CP is well formed, every
    message was written to an association that exists, and nothing of F1AP happens
    before the AMF answered the NG Setup Request. *)
From S2P Require Import Prelude GoNum GoText Config Asn1 Plmn Ies Net DuContext AmfContext UeContext CuState CuNgapOut CuRrc CuF1 CuNgapIn Init CuInv System.

(** ** The AMF context keeps its association *)
Lemma AddedPlmn_tnla a p a' : AddedPlmn a p = Ok a' → Tnla_SctpConn a' = Tnla_SctpConn a.
Proof. unfold AddedPlmn. case_match; by intros (? & _ & [= <-])%res_bind_Ok. Qed.
Lemma AddedSlice_tnla a sst sd a' : AddedSlice a sst sd = Ok a' → Tnla_SctpConn a' = Tnla_SctpConn a.
Proof.
  unfold AddedSlice. case_match; [by intros [= <-]|]. by intros (? & _ & [= <-])%res_bind_Ok.
Qed.

Section Tnla.
Context `{CO : Codec}.
Lemma add_slices_tnla sls a a' : add_slices a sls = Ok a' → Tnla_SctpConn a' = Tnla_SctpConn a.
Proof.
  revert a. induction sls as [|sl sls IH]; intros a; cbn; [by intros [= <-]|].
  intros (a1 & H1%AddedSlice_tnla & H2%IH)%res_bind_Ok. congruence.
Qed.
Lemma add_plmns_tnla its a a' : add_plmns a its = Ok a' → Tnla_SctpConn a' = Tnla_SctpConn a.
Proof.
  revert a. induction its as [|it its IH]; intros a; cbn; [by intros [= <-]|].
  intros (a1 & H1%AddedPlmn_tnla & (a2 & H2%add_slices_tnla & H3%IH)%res_bind_Ok)%res_bind_Ok.
  congruence.
Qed.
Lemma amf_after_ng_setup_tnla a m a' :
  amf_after_ng_setup a m = Ok a' → Tnla_SctpConn a' = Tnla_SctpConn a.
Proof.
  by intros (a1 & H%add_plmns_tnla & (? & _ & (? & _ & [= <-])%res_bind_Ok)%res_bind_Ok)%res_bind_Ok.
Qed.
End Tnla.

(** ** The invariant *)
Section Invariant.
Context `{CO : Codec}.
Variable (acc : list Z) (ng : Z).
(** How well-formed the state must be: [cu_wf] between handlers, [cu_shape] between
    actions. *)
Variable (W : CuCpContext → Prop).

(** A write goes to an F1 association that was accepted, or to the AMF's. *)
Definition write_ok (e : event) : Prop :=
  match e with
  | EvWrite c ppid _ => (ppid = F1AP_PPID ∧ c ∈ acc) ∨ (ppid = NGAP_PPID ∧ c = ng)
  | EvLog _ _ => True
  end.
Definition du_ok (d : GNBDU) : Prop := ∀ c, SctpConn d = Some c → c ∈ acc.
Definition amf_ok (a : GNBAmf) : Prop := ∀ k, connected a k → k = ng.
Definition conn_ok (c : option Z) : Prop := ∀ k, c = Some k → k ∈ acc.
Definition amf_active (s : CuCpContext) : Prop :=
  ∃ l a, cells (amfs s) !! l = Some a ∧ amf_State a = AMF_ACTIVE.

Record cu_inv (s : CuCpContext) : Prop := {
  ci_wf : W s;
  ci_temp : conn_ok (TempDuConn s);
  ci_du : ∀ l d, cells (dus s) !! l = Some d → du_ok d;
  ci_amf : ∀ l a, cells (amfs s) !! l = Some a → amf_ok a;
  ci_trace : Forall write_ok (trace s);
  ci_active : (ready_sends s ≠ 0%nat ∨ is_Some (F1APListener s)) → amf_active s
}.

Lemma find_Some {A} (st : store A) p a :
  find st p = Some a → ∃ l, p = Some l ∧ cells st !! l = Some a.
Proof. destruct p as [l|]; cbn; [eauto|done]. Qed.

(** *** [cu_wf] under the primitive updates *)
Lemma wf_push e s : cu_wf s → cu_wf (push e s).
Proof. intros []. constructor; [by apply shape_push|done..]. Qed.
Lemma wf_ue p f s : cu_wf s → ue_update_at p f s → cu_wf (s <| ues := upd_at p f (ues s) |>).
Proof.
  intros [] Hf. constructor; [by apply shape_upd_ue| |]; simpl.
  - unfold upd_at. by destruct p.
  - intros l u [Hu|(u' & -> & Hu & ->)]%upd_at_lookup; [by eapply wf_rrc_id|].
    destruct (Hf _ _ eq_refl Hu) as [[-> _] _]. by eapply wf_rrc_id.
Qed.
Lemma wf_new_ue duid crnti ident duUeId amfId s :
  cu_wf s → cu_wf (with_new_ue (new_ue duid crnti ident duUeId (IdRrcUeGenerator s) amfId) s).
Proof.
  intros []. constructor; cbn.
  - pose proof (shape_gen (i64 (IdRrcUeGenerator s + 1)) s wf_shape) as Hs.
    pose proof (shape_alloc_ue (new_ue duid crnti ident duUeId (IdRrcUeGenerator s) amfId) _ Hs
      eq_refl (or_introl eq_refl)) as Ha.
    refine (shape_set_UE (brk (ues s)) _ Ha _). cbn. by rewrite lookup_insert_eq.
  - rewrite wf_gen, i64_i64_add. f_equal. lia.
  - intros l u. rewrite lookup_insert. case_decide as E; [intros [= <-]|by apply wf_rrc_id].
    cbn. subst l. by rewrite wf_gen, u64_i64.
Qed.
Lemma wf_new_du s d :
  cu_wf s → IsActive d = true → zlen (ServedCells d) = 1 → cu_wf (with_new_du (DuId d) d s).
Proof.
  intros [] Hact Hcells. constructor; [|done..].
  pose proof (shape_alloc_du d s wf_shape Hact Hcells) as H1.
  assert (Hd : cells (alloc d (dus s)).2 !! brk (dus s) = Some d) by (cbn; by rewrite lookup_insert_eq).
  pose proof (shape_pool (DuId d) (brk (dus s)) d _ H1 Hd eq_refl) as H2.
  exact (shape_set_DU (brk (dus s)) _ H2 (ex_intro _ d Hd)).
Qed.
Lemma wf_set_conn p conn s :
  cu_wf s → cu_wf (s <| dus := upd_at p (set_conn conn) (dus s) |>).
Proof. intros []. constructor; [by apply shape_set_conn|done..]. Qed.
Lemma wf_amf p a n s :
  cu_wf s → cu_wf (s <| amfs := upd_at p (λ _, a) (amfs s) |> <| ready_sends := n |>).
Proof. intros []. constructor; [by apply shape_ready, shape_upd_amf|done..]. Qed.

End Invariant.

(** *** [cu_inv] meets the interface of the handlers *)
Section HandlerInvariant.
Context `{CO : Codec}.
Variable (acc : list Z) (ng : Z).
#[local] Abbreviation cu_inv := (cu_inv acc ng cu_wf).
#[local] Abbreviation du_ok := (du_ok acc).
#[local] Abbreviation amf_ok := (amf_ok ng).
#[local] Abbreviation conn_ok := (conn_ok acc).
#[export] Instance cu_inv_handlers : HandlerInv cu_inv du_ok amf_ok conn_ok.
Proof.
  constructor.
  - intros s p d [] (l & -> & Hl)%find_Some. eauto.
  - intros s p a [] (l & -> & Hl)%find_Some. eauto.
  - by intros s [].
  - intros s level f []. constructor; try done; [by apply wf_push|]. by apply Forall_app_2; [|constructor].
  - intros s d k pdu [] Hd Hk. constructor; try done; [by apply wf_push|].
    apply Forall_app_2; [done|]. constructor; [|done]. left. split; [done|]. by apply Hd.
  - intros s a k pdu [] Ha Hk. constructor; try done; [by apply wf_push|].
    apply Forall_app_2; [done|]. constructor; [|done]. right. split; [done|]. by apply Ha.
  - intros s p f [] Hf. constructor; try done. by apply wf_ue.
  - intros s a duid crnti ident duUeId [] Ha. constructor; try done. by apply wf_new_ue.
  - intros s d [] Hact Hc Hn. constructor; try done; [by apply wf_new_du|].
    intros l d'. cbn. rewrite lookup_insert. case_decide; [|eauto]. intros [= <-] c. by rewrite Hn.
  - intros s p conn [] Hc. constructor; try done; [by apply wf_set_conn|].
    intros l d [Hd|(d' & _ & _ & ->)]%upd_at_lookup; [eauto|]. exact Hc.
  - intros s p a m a' [] (l & -> & Hl)%find_Some Hm.
    pose proof (amf_after_ng_setup_tnla _ _ _ Hm) as Ht.
    constructor; try done; [by apply wf_amf| |].
    + intros l' b Hb. apply (upd_at_lookup (λ _, a') (Some l)) in Hb as [Hb|(b' & _ & _ & ->)]; [eauto|].
      intros k (sc & Hsc & Hk). apply (ci_amf0 l a Hl). exists sc. by rewrite <- Ht.
    + intros _. exists l, a'. cbn. rewrite lookup_alter_eq, Hl. split; [done|].
      by eapply amf_after_ng_setup_active.
Qed.
End HandlerInvariant.

(** ** Reachable states

    [acc] is the list of associations that were accepted in the end. *)
Class WfIo `{IE : IeTypes} (W : CuCpContext → Prop) : Prop := {
  io_push s e : W s → W (push e s);
  io_temp s c : W s → W (s <| TempDuConn := c |>);
  io_ready s n : W s → W (s <| ready_sends := n |>);
  io_listener s l : W s → W (s <| F1APListener := l |>);
  io_congested s l : W s → W (s <| congested := l |>)
}.

Section SystemInvariant.
Context `{CO : Codec}.
#[export] Instance shape_io : WfIo cu_shape.
Proof.
  constructor; intros; [by apply shape_push|by apply shape_temp|by apply shape_ready| |].
  - by apply shape_listener.
  - by apply shape_congested.
Qed.
#[export] Instance wf_io : WfIo cu_wf.
Proof.
  constructor; intros s x [];
    (constructor; [first [by apply shape_push|by apply shape_temp|by apply shape_ready
                         |by apply shape_listener|by apply shape_congested]|done|done]).
Qed.

Variable (ng : Z) (W : CuCpContext → Prop).
Context {WIO : WfIo W}.
#[local] Set Default Proof Using "Type WIO".

Record sys_inv (acc : list Z) (s : system) : Prop := {
  si_cu : stopped s = false → cu_inv acc ng W (cu s);
  si_wait : stopped s = false → F1APListener (cu s) = None → accepted s = [];
  si_queue : zlen (ReadCh s) ≤ defaultChannelBuffer;
  si_reading : ∀ k, k ∈ reading s → k ∈ accepted s;
  si_starting : ∀ k, k ∈ starting s → k ∈ accepted s;
  si_acc : accepted s ⊆ acc
}.

Lemma cu_inv_log acc level f s : cu_inv acc ng W s → cu_inv acc ng W (push (EvLog level f) s).
Proof.
  intros []. constructor; try done; [by apply io_push|]. by apply Forall_app_2; [|constructor].
Qed.

Lemma log_line_inv acc level f s : sys_inv acc s → sys_inv acc (log_line level f s).
Proof. intros []. constructor; try done. cbn. intros H. by apply cu_inv_log, si_cu0. Qed.

Lemma f1_read_inv acc k r s : sys_inv acc s → sys_inv acc (f1_read k r s).
Proof.
  intros H. destruct r as [[ppid|] raw| | |]; cbn; try done.
  - destruct (negb _); [by apply log_line_inv|]. destruct H. by constructor.
  - by apply log_line_inv.
  - destruct H. constructor; try done. cbn. intros k'. rewrite list_elem_of_filter. naive_solver.
  - apply (log_line_inv acc LError "Read error: %v") in H. destruct H. constructor; try done.
    cbn. intros k'. rewrite list_elem_of_filter. naive_solver.
Qed.

Lemma ng_read_inv acc r s : sys_inv acc s → sys_inv acc (ng_read r s).
Proof.
  intros H. destruct r as [[ppid|] raw| | |]; cbn; try done.
  - destruct (negb _); [by apply log_line_inv|].
    destruct (Z.ltb_spec (zlen (ReadCh s)) defaultChannelBuffer); [|by apply log_line_inv].
    destruct H. constructor; try done. cbn. rewrite zlen_app. change (zlen [raw]) with 1. lia.
  - by apply log_line_inv.
  - apply (log_line_inv acc LError "Connection closed by peer") in H. destruct H. by constructor.
  - apply (log_line_inv acc LError "Read error: %v") in H. destruct H. by constructor.
Qed.

Lemma f1_start_inv acc k s p q :
  stopped s = false → starting s = p ++ k :: q → sys_inv acc s →
  sys_inv acc (f1_start k (s <| starting := p ++ q |>)).
Proof.
  intros Hst Hk []. assert (k ∈ accepted s) as Hin by (apply si_starting0; rewrite Hk; set_solver).
  constructor; try done; cbn.
  - intros _. destruct (si_cu0 Hst). constructor; try done; [by apply io_temp|].
    intros k' [= <-]. by apply si_acc0.
  - intros k'. rewrite elem_of_app, list_elem_of_singleton. naive_solver.
  - intros k'. rewrite elem_of_app. intros Hk'. apply si_starting0. rewrite Hk. set_solver.
Qed.

Lemma io_step_inv acc s s' : sys_inv acc s → io_step s s' → accepted s' ⊆ acc → sys_inv acc s'.
Proof.
  intros H Hstep Hacc. unfold io_step in Hstep. destruct Hstep as [Hi|Hl]; [destruct Hi as [s r Hst Hr Hk|s k r Hst Hk|s r Hst Hrd]
    |destruct Hl as [s k p q Hst Hk|s raw q Hst Hq]].
  - destruct r as [| | |k []]; cbn in *; try done; [by apply log_line_inv| |by apply log_line_inv].
    destruct H. constructor; try done.
    + cbn. intros _ Hn. rewrite Hn in Hr. by destruct Hr.
    + intros k' Hk'. apply elem_of_app. left. by apply si_reading0.
    + intros k'. cbn. rewrite !elem_of_app. naive_solver.
  - by apply f1_read_inv.
  - by apply ng_read_inv.
  - by apply f1_start_inv.
  - destruct H. constructor; try done. cbn. rewrite Hq, zlen_cons in si_queue0. lia.
Qed.
End SystemInvariant.

Section Reachable.
Context `{CO : Codec}.
Variable (ng : Z).
#[local] Abbreviation sys_inv := (sys_inv ng cu_wf).

Lemma io_step_accepted s s' : io_step s s' → accepted s ⊆ accepted s'.
Proof.
  intros [H|H]; [destruct H as [s r _ _ _|s k r _ _|s r _ _]|by destruct H]; try done; cbn.
  - destruct r as [| | |k []]; cbn; try done. set_solver.
  - destruct r as [[ppid|] raw| | |]; cbn; try done. by destruct (negb _).
  - destruct r as [[ppid|] raw| | |]; cbn; try done. destruct (negb _); [done|].
    by destruct (zlen (ReadCh s) <? defaultChannelBuffer).
Qed.
Lemma step_accepted s s' : step s s' → accepted s ⊆ accepted s'.
Proof. destruct 1; [by apply io_step_accepted|done..]. Qed.

(** The listener is set once and for all by [InitContext]. *)
Definition listening (s : CuCpContext) : Prop := is_Some (F1APListener s).
#[export] Instance listening_handlers : HandlerInv listening (λ _, True) (λ _, True) (λ _, True).
Proof. by constructor. Qed.
(** Its start: the signal came from a goroutine that had made the AMF active. *)
Lemma serve_f1_inv acc W `{!WfIo W} s :
  cu_inv acc ng W s → ready_sends s ≠ 0%nat → live_ok (cu_inv acc ng W) (serve_f1 s).
Proof.
  intros [] Hr. unfold serve_f1, receive_ready, initF1APServer. run. cbn [id].
  destruct (SCTPListen _); [|done]. cbn. constructor; try done.
  - exact (io_listener (s <| ready_sends := pred (ready_sends s) |>) _ (io_ready s _ ci_wf0)).
  - intros _. apply ci_active0. by left.
Qed.
Lemma serve_f1_listening s s' : serve_f1 s = (s', Ok tt) → listening s'.
Proof.
  unfold serve_f1, receive_ready, initF1APServer. run. cbn [id].
  destruct (SCTPListen _); [|done]. intros [= <-]. by eexists.
Qed.

Lemma finish_inv acc (out : CuCpContext * res unit) s :
  live_ok (cu_inv acc ng cu_wf) out → (listening (cu s) → live_ok listening out) → stopped s = false →
  sys_inv acc s → sys_inv acc (finish out s).
Proof.
  intros Hm Hl Hst []. unfold live_ok in *. destruct out as [c [[]| |]]; constructor; try done.
  cbn in *. intros _ Hn. apply si_wait0; [done|]. destruct (F1APListener (cu s)) as [l|] eqn:E; [|done].
  destruct Hl as [l' Hl']; [by exists l|]. congruence.
Qed.
(** In particular by a handler. *)
Lemma finish_handler acc (m : CU unit) s c :
  c = cu s → keeps (cu_inv acc ng cu_wf) m → keeps listening m → stopped s = false →
  sys_inv acc s → sys_inv acc (finish (m c) s).
Proof.
  intros -> Hm Hl Hst H. apply finish_inv; [|by intros ?; apply Hl|done|done]. by apply Hm, H.
Qed.

Lemma step_inv acc s s' : sys_inv acc s → step s s' → accepted s' ⊆ acc → sys_inv acc s'.
Proof.
  intros H Hstep Hacc.
  destruct Hstep as [s s' Hio|s Hst Hm|s Hst Hm Hr|s c raw p q Hst Hq|s raw p q Hst Hq].
  - by eapply io_step_inv; [apply _|..].
  - apply (finish_handler acc (SendNgSetupRequest (amf_ptr s))); [done|apply keeps_SendNgSetupRequest..|done|].
    destruct H. by constructor.
  - apply finish_inv; [apply (serve_f1_inv acc cu_wf); [by apply H|done]| |done|destruct H; by constructor].
    intros _. unfold live_ok. destruct (serve_f1 (cu s)) as [s1 [[]| |]] eqn:E; [|done..].
    by eapply serve_f1_listening.
  - apply (finish_handler acc (dispatchF1 raw)); [done|apply keeps_dispatchF1..|done|].
    destruct H. by constructor.
  - apply (finish_handler acc (dispatch (amf_ptr s) raw)); [done|apply keeps_dispatch..|done|].
    destruct H. by constructor.
Qed.

(** The process once it is connected to the AMF on association [ng]. *)
Definition booted (cfg : Config.Config) (s : system) : Prop :=
  ∃ cu0 p, connect_amf (λ _ _, inl ng) cfg empty_context = (cu0, Ok p) ∧ s = boot cu0 p.
Lemma booted_eq cfg s : booted cfg s → s = boot (connected_context cfg ng) (Some 1%positive).
Proof.
  intros (cu0 & p & Hi & ->). destruct (decide (Config.GnbId (Config.NGAP cfg) = ""%string)) as [E|E].
  - destruct (connect_amf_no_gnbid (λ _ _, inl ng) cfg E) as [s Hs]. by rewrite Hs in Hi.
  - rewrite (connect_amf_connected (λ _ _, inl ng) cfg ng E) in Hi by done. by injection Hi as <- <-.
Qed.

Lemma connected_context_inv acc cfg : cu_inv acc ng cu_wf (connected_context cfg ng).
Proof.
  constructor.
  - constructor; [|done..]. constructor; cbn; try done.
    + apply store_wf_empty.
    + apply store_wf_empty.
    + apply (store_wf_alloc (new_amf cfg ng) empty_store). apply store_wf_empty.
    + intros l [= <-]. by eexists.
  - done.
  - done.
  - intros l a. cbn. rewrite lookup_insert. case_decide; [|done]. intros [= <-] k (sc & [= <-] & [= <-]).
    done.
  - by constructor.
  - intros [?|[? ?]]; done.
Qed.

Lemma booted_inv acc cfg s : booted cfg s → sys_inv acc s.
Proof.
  intros ->%booted_eq. constructor; try done; [|cbn; set_solver].
  intros _. apply connected_context_inv.
Qed.

Lemma star_accepted s s' : star step s s' → accepted s ⊆ accepted s'.
Proof. induction 1 as [|s1 s2 s3 H _ IH]; [done|]. etrans; [by apply step_accepted|done]. Qed.

Lemma reachable_inv cfg s0 s : booted cfg s0 → star step s0 s → sys_inv (accepted s) s.
Proof.
  intros Hb Hs. apply (booted_inv (accepted s)) in Hb.
  remember (accepted s) as acc eqn:E. assert (accepted s ⊆ acc) as Hacc by by subst acc.
  clear E. induction Hs as [|s1 s2 s3 H Hs IH]; [done|]. apply IH; [|done].
  eapply step_inv; [done..|]. etrans; [by apply star_accepted|done].
Qed.
End Reachable.
