(* ===== verification/Prog.v ===== *)
(** Programs as trees of atomic actions, for goroutines that interleave.

    A [proc] is a whole computation on a state.  A [prog] is the same computation cut
    into its actions: [Act g m k] waits until [g] holds, does [m] and goes on with [k]
    from what [m] returned.  [exec] forgets the cuts and the waiting.  Between two actions other goroutines may act, so properties
    of a [prog] are stated against a rely: [safe] says that every action keeps the
    invariant and the rely whatever happened since the action before. *)
From S2P Require Import Prelude.

Inductive prog (S A : Type) : Type :=
| Ret (a : A)
| Act {X : Type} (g : S → bool) (m : proc S X) (k : X → prog S A).
Arguments Ret {_ _} _.
Arguments Act {_ _ _} _ _ _.

#[export] Instance prog_ret S : MRet (prog S) := λ A, Ret.
#[export] Instance prog_bind S : MBind (prog S) := λ A B f,
  fix go p := match p with Ret a => f a | Act g m k => Act g m (λ x, go (k x)) end.
(** A single action, which may have to wait. *)
Definition await {S A} (g : S → bool) (m : proc S A) : prog S A := Act g m Ret.
Definition act {S A} (m : proc S A) : prog S A := await (λ _, true) m.

Fixpoint exec {S A} (p : prog S A) : proc S A :=
  match p with Ret a => mret a | Act _ m k => m ≫= (λ x, exec (k x)) end.

(** ** Cutting up a computation

    [cuts p m]: executed without interruption, [p] is [m]. *)
Section Refines.
Context {S : Type}.

Definition cuts {A} (p : prog S A) (m : proc S A) : Prop := ∀ s, exec p s = m s.

Lemma cuts_ret {A} (a : A) : cuts (mret a) (mret a).
Proof. done. Qed.
Lemma cuts_await {A} g (m : proc S A) : cuts (await g m) m.
Proof. intros s. cbn. unfold mbind, proc_bind. by destruct (m s) as [s' []]. Qed.
Lemma cuts_bind {A B} p m (f : A → prog S B) (g : A → proc S B) :
  cuts p m → (∀ a, cuts (f a) (g a)) → cuts (p ≫= f) (m ≫= g).
Proof.
  intros Hp Hf. assert (cuts (p ≫= f) (exec p ≫= g)) as H.
  { clear m Hp. induction p as [a|X g' m k IH]; intros s; [by apply Hf|].
    cbn [exec]. rewrite bind_assoc. cbn. unfold mbind at 1 3, proc_bind.
    destruct (m s) as [s' [x| |]]; [apply IH|done..]. }
  intros s. rewrite H. unfold mbind, proc_bind. by rewrite Hp.
Qed.
End Refines.

(** ** One action at a time *)
Section Steps.
Context {S : Type}.

(** The next action of [p] at [s] returns and leaves [p'] at [s']. *)
Definition next {A} (p : prog S A) (s : S) (p' : prog S A) (s' : S) : Prop :=
  match p with
  | Ret _ => False | Act g m k => g s = true ∧ ∃ x, m s = (s', Ok x) ∧ p' = k x end.
(** The next action of [p] at [s] ends the process at [s']. *)
Definition halts {A} (p : prog S A) (s s' : S) : Prop :=
  match p with
  | Ret _ => False | Act g m _ => g s = true ∧ (m s).1 = s' ∧ ∀ x, (m s).2 ≠ Ok x end.
(** The next action of [p] has to wait at [s]. *)
Definition blocked {A} (p : prog S A) (s : S) : Prop :=
  match p with Ret _ => False | Act g _ _ => g s = false end.

Lemma prog_progress {A} (p : prog S A) s :
  (∃ a, p = Ret a) ∨ blocked p s ∨ (∃ p' s', next p s p' s') ∨ ∃ s', halts p s s'.
Proof.
  destruct p as [a|X g m k]; [eauto|]. right. cbn. destruct (g s); [right|by left].
  destruct (m s) as [s' [x|e|c]] eqn:E.
  - left. exists (k x), s'. split; [done|]. by exists x.
  - right. by exists s'.
  - right. by exists s'.
Qed.

(** A pool of goroutines: one of them acts, or has returned and goes away. *)
Inductive pool_step : list (prog S unit) → S → list (prog S unit) → S → Prop :=
| pool_act l1 l2 p p' s s' :
    next p s p' s' → pool_step (l1 ++ p :: l2) s (l1 ++ p' :: l2) s'
| pool_done l1 l2 s : pool_step (l1 ++ Ret tt :: l2) s (l1 ++ l2) s.

(** Executing a goroutine to its end is a run of the pool, if it never has to wait:
    [opens E p] says that no action of [p] waits while [E] holds and that each keeps [E]. *)
Definition pool_rel (c1 c2 : list (prog S unit) * S) : Prop :=
  pool_step c1.1 c1.2 c2.1 c2.2.

Section Opens.
Variable (E : S → Prop).
Fixpoint opens {A} (p : prog S A) : Prop :=
  match p with
  | Ret _ => True
  | Act g m k => (∀ s, E s → g s = true) ∧ keeps E m ∧ ∀ x, opens (k x)
  end.

Lemma opens_bind {A B} (p : prog S A) (f : A → prog S B) :
  opens p → (∀ a, opens (f a)) → opens (p ≫= f).
Proof.
  intros Hp Hf. induction p as [a|X g m k IH]; [apply Hf|]. destruct Hp as (Hg & Hm & Hk).
  split; [done|]. split; [done|]. intros x. by apply IH.
Qed.
Lemma opens_await {A} g (m : proc S A) : (∀ s, E s → g s = true) → keeps E m → opens (await g m).
Proof. done. Qed.
Lemma opens_act {A} (m : proc S A) : keeps E m → opens (act m).
Proof. done. Qed.

Lemma opens_next {A} (p p' : prog S A) s s' : opens p → E s → next p s p' s' → opens p' ∧ E s'.
Proof.
  destruct p as [|X g m k]; [done|]. intros (Hg & Hm & Hk) HE (_ & x & Hx & ->).
  split; [done|]. specialize (Hm s HE). by rewrite Hx in Hm.
Qed.

(** Execution, as the actions of one goroutine and as steps of a pool. *)
Definition next_rel {A} (c1 c2 : prog S A * S) : Prop := next c1.1 c1.2 c2.1 c2.2.

Lemma exec_runs {A} (p : prog S A) s s' a :
  opens p → E s → exec p s = (s', Ok a) → star next_rel (p, s) (Ret a, s') ∧ E s'.
Proof.
  revert s. induction p as [b|X g m k IH]; intros s Hp HE H.
  - injection H as -> ->. split; [constructor|done].
  - apply bind_Ok_inv in H as (s1 & x & Hm & Hk). destruct Hp as (Hg & Hkm & Hop).
    assert (E s1) as H1 by (specialize (Hkm s HE); by rewrite Hm in Hkm).
    destruct (IH x s1) as [Hs HE']; [done..|]. split; [|done]. eapply star_step; [|exact Hs].
    split; [by apply Hg|]. by exists x.
Qed.
End Opens.

Lemma runs_bind {A B} (p p' : prog S A) (f : A → prog S B) s s' :
  star next_rel (p, s) (p', s') → star next_rel (p ≫= f, s) (p' ≫= f, s').
Proof.
  intros H. remember (p, s) as c1 eqn:E1. remember (p', s') as c2 eqn:E2. revert p s p' s' E1 E2.
  induction H as [c|c1 [p2 s2] c3 H _ IH]; intros p s p' s' E1 E2.
  - rewrite E1 in E2. injection E2 as -> ->. constructor.
  - subst. eapply star_step; [|by apply IH]. destruct p as [|X g m k]; [done|].
    destruct H as (Hg & x & Hm & Hk). cbn in Hk. subst p2. split; [done|]. by exists x.
Qed.
Lemma runs_pool p p' s s' l1 l2 :
  star next_rel (p, s) (p', s') → star pool_rel (l1 ++ p :: l2, s) (l1 ++ p' :: l2, s').
Proof.
  intros H. remember (p, s) as c1 eqn:E1. remember (p', s') as c2 eqn:E2. revert p s p' s' E1 E2.
  induction H as [c|c1 [p2 s2] c3 H _ IH]; intros p s p' s' E1 E2.
  - rewrite E1 in E2. injection E2 as -> ->. constructor.
  - subst. eapply star_step; [|by apply IH]. by apply pool_act.
Qed.
Lemma exec_pool E p s s' l1 l2 :
  opens E p → E s → exec p s = (s', Ok tt) → star pool_rel (l1 ++ p :: l2, s) (l1 ++ l2, s') ∧ E s'.
Proof.
  intros Hp HE H. destruct (exec_runs E p s s' tt Hp HE H) as [Hs HE']. split; [|done].
  eapply star_trans; [by apply runs_pool|]. apply star_one, pool_done.
Qed.

(** A pool can step unless every goroutine in it waits. *)
Lemma pool_progress (r : list (prog S unit)) s :
  Forall (λ p, blocked p s) r ∨ (∃ r' s', pool_step r s r' s') ∨ ∃ p s', p ∈ r ∧ halts p s s'.
Proof.
  induction r as [|p r [IH|[(r' & s' & IH)|(q & s' & Hq & IH)]]]; [by left| |right; left|right; right].
  - destruct (prog_progress p s) as [[[] ->]|[Hb|[(p' & s' & H)|[s' H]]]].
    + right. left. exists r, s. apply (pool_done []).
    + left. by constructor.
    + right. left. exists (p' :: r), s'. by apply (pool_act []).
    + right. right. exists p, s'. split; [by left|done].
  - exists (p :: r'), s'. destruct IH as [l1 l2 q q' s s' H|l1 l2 s].
    + by apply (pool_act (p :: l1)).
    + apply (pool_done (p :: l1)).
  - exists q, s'. split; [by right|done].
Qed.

Lemma exec_next {A} (p p' : prog S A) s s' : next p s p' s' → exec p s = exec p' s'.
Proof.
  destruct p as [|X g m k]; [done|]. intros (_ & x & Hm & ->). cbn. unfold mbind, proc_bind. by rewrite Hm.
Qed.
Lemma exec_not_halts (p : prog S unit) s s1 s' : exec p s = (s1, Ok tt) → ¬ halts p s s'.
Proof.
  destruct p as [|X g m k]; [by intros _ []|]. intros (s2 & x & Hm & _)%bind_Ok_inv (_ & _ & H).
  apply (H x). by rewrite Hm.
Qed.

(** A step of a pool, up to the order of the goroutines. *)
Lemma pool_step_perm r s r' s' :
  pool_step r s r' s' →
  ∃ p l, r ≡ₚ p :: l ∧ ((∃ p', next p s p' s' ∧ r' ≡ₚ p' :: l) ∨ (p = Ret tt ∧ s' = s ∧ r' ≡ₚ l)).
Proof.
  intros [l1 l2 p p' s1 s1' H|l1 l2 s1].
  - exists p, (l1 ++ l2). split; [by rewrite Permutation_middle|]. left. exists p'.
    split; [done|]. by rewrite Permutation_middle.
  - exists (Ret tt), (l1 ++ l2). split; [by rewrite Permutation_middle|]. by right.
Qed.
(** One of two goroutines. *)
Lemma perm_parts {A} (p : A) l k1 k2 :
  p :: l ≡ₚ k1 ++ k2 → (∃ k, k1 ≡ₚ p :: k ∧ l ≡ₚ k ++ k2) ∨ (∃ k, k2 ≡ₚ p :: k ∧ l ≡ₚ k1 ++ k).
Proof.
  intros H. assert (p ∈ k1 ++ k2) as [Hp|Hp]%elem_of_app by (rewrite <- H; by left).
  - left. apply elem_of_Permutation in Hp as [k Hk]. exists k. split; [done|].
    rewrite Hk in H. by apply Permutation_cons_inv in H.
  - right. apply elem_of_Permutation in Hp as [k Hk]. exists k. split; [done|].
    rewrite Hk, <- Permutation_middle in H. by apply Permutation_cons_inv in H.
Qed.

(** *** Termination: a goroutine has finitely many actions left, and so has a pool *)
Definition child {A} (q p : prog S A) : Prop :=
  match p with Ret _ => False | Act _ _ k => ∃ x, q = k x end.
Lemma child_wf {A} : well_founded (child (A := A)).
Proof. intros p. induction p as [a|X g m k IH]; constructor; [done|]. intros q [x ->]. apply IH. Qed.

Inductive lchild : list (prog S unit) → list (prog S unit) → Prop :=
| lchild_act l1 l2 q p : child q p → lchild (l1 ++ q :: l2) (l1 ++ p :: l2)
| lchild_done l1 l2 a : lchild (l1 ++ l2) (l1 ++ Ret a :: l2).

Lemma pool_step_lchild l s l' s' : pool_step l s l' s' → lchild l' l.
Proof.
  destruct 1 as [l1 l2 p p' s s' H|]; [|apply lchild_done]. apply lchild_act.
  destruct p as [|X g m k]; [done|]. destruct H as (_ & x & _ & ->). by exists x.
Qed.

Lemma lchild_cons_inv l p q :
  lchild l (p :: q) →
  (∃ p', child p' p ∧ l = p' :: q) ∨ l = q ∨ ∃ q', lchild q' q ∧ l = p :: q'.
Proof.
  intros H. remember (p :: q) as k eqn:E. destruct H as [[|p1 l1] l2 q1 p1' H|[|p1 l1] l2 a].
  - injection E as -> ->. left. eauto.
  - injection E as -> <-. right. right. eexists. split; [by apply lchild_act|done].
  - injection E as <- ->. by right; left.
  - injection E as -> <-. right. right. eexists. split; [apply lchild_done|done].
Qed.

Lemma lchild_cons p : Acc child p → ∀ q, Acc lchild q → Acc lchild (p :: q).
Proof.
  induction 1 as [p _ IHp]. induction 1 as [q Hq IHq]. constructor.
  intros l [(p' & Hp & ->)|[->|(q' & Hl & ->)]]%lchild_cons_inv.
  - apply IHp; [done|]. by constructor.
  - by constructor.
  - by apply IHq.
Qed.
Lemma lchild_wf : well_founded lchild.
Proof.
  intros l. induction l as [|p l IH]; [|by apply lchild_cons; [apply child_wf|]].
  constructor. intros l' H. inversion H as [[|? ?]|[|? ?]]; done.
Qed.
End Steps.

(** ** Goroutines that run through

    [goes p Q]: from any state where [I] holds, every action of [p] can go ahead at once,
    returns, keeps [I] and respects [R], and [p] returns a value in [Q]. *)
Section Goes.
Context {S : Type} (I : S → Prop) (R : S → S → Prop).
Fixpoint goes {A} (p : prog S A) (Q : A → Prop) : Prop :=
  match p with
  | Ret a => Q a
  | Act g m k => ∀ s, I s → g s = true ∧ ∃ s' x, m s = (s', Ok x) ∧ I s' ∧ R s s' ∧ goes (k x) Q
  end.

Lemma goes_bind {A B} (p : prog S A) (f : A → prog S B) Q Q' :
  goes p Q → (∀ a, Q a → goes (f a) Q') → goes (p ≫= f) Q'.
Proof.
  intros Hp Hf. induction p as [a|X g m k IH]; [by apply Hf|]. intros s Hs.
  destruct (Hp s Hs) as (Hg & s' & x & Hm & Hs' & HR & Hk). split; [done|]. exists s', x. eauto.
Qed.
Lemma goes_await {A} g (m : proc S A) (Q : A → Prop) :
  (∀ s, I s → g s = true ∧ ∃ s' x, m s = (s', Ok x) ∧ I s' ∧ R s s' ∧ Q x) → goes (await g m) Q.
Proof. done. Qed.
Lemma goes_next {A} (p p' : prog S A) Q s s' :
  goes p Q → I s → next p s p' s' → goes p' Q ∧ I s' ∧ R s s'.
Proof.
  destruct p as [|X g m k]; [done|]. intros Hp Hs (_ & x & Hx & ->).
  destruct (Hp s Hs) as (_ & s1 & y & Hm & HI & HR & Hk). rewrite Hx in Hm. by injection Hm as -> ->.
Qed.
Lemma goes_stuck {A} (p : prog S A) Q s s' :
  goes p Q → I s → blocked p s ∨ halts p s s' → False.
Proof.
  destruct p as [|X g m k]; [by intros _ _ []|]. intros Hp Hs Hb.
  destruct (Hp s Hs) as (Hg & s1 & x & Hm & _). destruct Hb as [Hb|(_ & _ & Hh)]; cbn in *; [congruence|].
  apply (Hh x). by rewrite Hm.
Qed.
End Goes.

(** ** Safety against a rely

    [I] holds between actions; [R] is what every action respects, a preorder.
    [safe p s Q]: started at [s] or at any later state, every action of [p] keeps [I] and
    [R], and what [p] returns satisfies [Q], a fact that later actions do not undo. *)
Section Safe.
Context {S : Type} (I : S → Prop) (R : S → S → Prop) {HPO : PreOrder R}.
#[local] Set Default Proof Using "Type HPO".

Definition act_ok {A} (m : proc S A) (s : S) (Q : A → S → Prop) : Prop :=
  match m s with (s', Ok a) => I s' ∧ R s s' ∧ Q a s' | _ => True end.

Fixpoint safe {A} (p : prog S A) (s : S) (Q : A → S → Prop) : Prop :=
  match p with
  | Ret a => ∀ s', R s s' → I s' → Q a s'
  | Act g m k => ∀ s', R s s' → I s' → g s' = true → act_ok m s' (λ x s2, safe (k x) s2 Q)
  end.

Lemma safe_later {A} (p : prog S A) s s' Q : safe p s Q → R s s' → safe p s' Q.
Proof. destruct p; intros H HR s1 H1; apply H; by etrans. Qed.

Lemma safe_bind {A B} (p : prog S A) (f : A → prog S B) s Q Q' :
  safe p s Q → (∀ a s', R s s' → I s' → Q a s' → safe (f a) s' Q') → safe (p ≫= f) s Q'.
Proof.
  revert s. induction p as [a|X g m k IH]; intros s Hp Hf.
  - cbn in *. destruct (f a) as [b|X g m k] eqn:E; intros s' HR HI;
      specialize (Hf a s' HR HI (Hp s' HR HI)); rewrite E in Hf; by apply Hf.
  - intros s' HR HI Hg. specialize (Hp s' HR HI Hg). unfold act_ok in *.
    destruct (m s') as [s2 [x| |]]; [|done..]. destruct Hp as (HI2 & HR2 & Hk).
    split; [done|]. split; [done|]. apply IH; [done|]. intros a s3 HR3. apply Hf.
    etrans; [done|]. by etrans.
Qed.

Lemma safe_await {A} g (m : proc S A) s Q :
  (∀ s1, R s s1 → I s1 → g s1 = true → act_ok m s1 Q) → (∀ a s1 s2, R s1 s2 → Q a s1 → Q a s2) →
  safe (await g m) s Q.
Proof.
  intros Hm Hst s1 HR HI Hg. specialize (Hm s1 HR HI Hg). unfold act_ok in *.
  destruct (m s1) as [s2 [x| |]]; [|done..]. destruct Hm as (? & ? & ?).
  split; [done|]. split; [done|]. intros s3 HR3 _. by eapply Hst.
Qed.
Lemma safe_act {A} (m : proc S A) s Q :
  (∀ s1, R s s1 → I s1 → act_ok m s1 Q) → (∀ a s1 s2, R s1 s2 → Q a s1 → Q a s2) →
  safe (act m) s Q.
Proof. intros Hm. apply safe_await. intros s1 HR HI _. by apply Hm. Qed.

(** The next action of a safe goroutine. *)
Lemma safe_next {A} (p p' : prog S A) s s' Q :
  safe p s Q → I s → next p s p' s' → I s' ∧ R s s' ∧ safe p' s' Q.
Proof.
  destruct p as [|X g m k]; [done|]. intros H HI (Hg & x & Hm & ->).
  specialize (H s ltac:(done) HI Hg). unfold act_ok in H. by rewrite Hm in H.
Qed.

(** *** Facts about values alone, which other goroutines cannot undo *)
Definition yields {A} (p : prog S A) (Q : A → Prop) : Prop := ∀ s, safe p s (λ a _, Q a).

Lemma yields_bind {A B} (p : prog S A) (f : A → prog S B) Q Q' :
  yields p Q → (∀ a, Q a → yields (f a) Q') → yields (p ≫= f) Q'.
Proof. intros Hp Hf s. eapply safe_bind; [apply Hp|]. intros a s' _ _ Ha. by apply Hf. Qed.
Lemma yields_await {A} g (m : proc S A) (Q : A → Prop) :
  (∀ s, I s → g s = true → act_ok m s (λ a _, Q a)) → yields (await g m) Q.
Proof. intros H s. apply safe_await; [|done]. intros. by apply H. Qed.
Lemma yields_act {A} (m : proc S A) (Q : A → Prop) :
  (∀ s, I s → act_ok m s (λ a _, Q a)) → yields (act m) Q.
Proof. intros H. apply yields_await. intros s Hs _. by apply H. Qed.
End Safe.
