(* ===== verification/Fine.v ===== *)
(** The handlers, cut into actions.

    [cut_up h] is the handler [h] with each of its primitive operations (a read or a
    write of the state, a dereference, an allocation, a method call on one object, a
    write on a socket, a log line) turned into one action of a [prog], and nothing else
    changed: the definitions of [CuRrc], [CuF1], [CuNgapOut] and [CuNgapIn] are unfolded
    down to those operations, which are then replaced.  A write waits while its
    association is congested.  [fine_dispatchF1] and [fine_dispatch] are what a goroutine
    does, [fine_main] what is left of [InitContext]; [cuts_dispatchF1] and the like say
    that, undisturbed, it is what the handler does, [opens_dispatchF1] and the like that
    it does not wait when nothing is congested. *)
From S2P Require Import Prelude Prog GoNum GoText Asn1 Plmn Ies Net DuContext AmfContext UeContext CuState CuNgapOut CuRrc CuF1 CuNgapIn Init CuInv System.

(** Unfold a handler down to its operations. *)
Ltac unfold_handler h :=
  eval cbv beta delta [
    dispatchF1 handleF1SetupRequest handleInitialULRRCMessageTransfer
    handleULRRCMessageTransfer handle_ul_dcch_c1 handleRRCUEContextSetupResponse log_err
    handleRRCSetupRequest handleRrcSetupComplete setup_complete_tmsi
    handleULInformationTransfer handleRRCSecurityModeComplete handleRRCReconfigurationComplete
    dispatch handleNgDownlinkNasTransport handlerInitialContextSetupRequest
    SendNasPdu ngInitialUEMessage ngUplinkNasTransport send_to_amf
    SendNgSetupRequest getSliceInBytes SendF1SetupResponse SendF1ap SendNgap SctpClient.Send
    cuGetMccAndMncInOctets getTacInBytes getGnbIdInBytes GetPLMNIdentity GetNRCellIdentity
    log_hex_error Error Warn emit upd_ue upd_du upd_amf] in h.

Section Fine.
Context `{CO : Codec}.
#[local] Abbreviation St := CuCpContext.
#[local] Abbreviation P := (prog CuCpContext).

(** The association takes another message. *)
Definition can_write (k : Z) (s : CuCpContext) : bool := bool_decide (k ∉ congested s).

(** Replace the operations, and in a second step the monad in the types.  [createUE],
    [install_du] and [handlerNgSetupResponse] are cut up on their own first and become
    [c], [i] and [n]. *)
Ltac cut_up h c i n :=
  let t := unfold_handler h in
  let t := eval pattern (@mbind (proc St) (proc_bind St)), (@mret (proc St) (proc_ret St)),
    (@gets St), (@modify St), (@lift St), (@panics St), (@deref St),
    (@get_ue IE), (@get_du IE), (@get_amf IE), (@alloc_ue IE), (@alloc_du IE),
    (@call_ue IE), (@call_amf IE), (@sctp_write IE CO St CuCp_World),
    (@createUE IE), (@install_du IE), (@handlerNgSetupResponse IE) in t in
  match t with
  | ?F _ _ _ _ _ _ _ _ _ _ _ _ _ _ _ _ _ _ =>
      let F := eval pattern (proc St) in F in
      match F with
      | ?G _ =>
          let t := constr:(G P (@mbind P (prog_bind St)) (@mret P (prog_ret St))
            (λ A f, act (@gets St A f)) (λ f, act (@modify St f)) (λ A r, act (@lift St A r))
            (λ A p, act (@panics St A p)) (λ A o, act (@deref St A o))
            (λ p, act (get_ue p)) (λ p, act (get_du p)) (λ p, act (get_amf p))
            (λ u, act (alloc_ue u)) (λ d, act (alloc_du d))
            (λ p f, act (call_ue p f)) (λ p f, act (call_amf p f))
            (λ k ppid b, await (can_write k) (@sctp_write IE CO St CuCp_World k ppid b)) c i n) in
          let t := eval cbv beta in t in exact t
      end
  end.
(** A procedure that does not call the three. *)
Ltac cut_up_leaf h :=
  cut_up h (λ (_ _ : Z) (_ : list Z) (_ : Z), @Ret St (option loc) None)
    (λ (_ : Z) (_ : GNBDU), @Ret St (option loc) None)
    (λ (_ : option loc) (_ : NGSetupResponse), @Ret St unit tt).

Definition fine_createUE : Z → Z → list Z → Z → P (option loc) :=
  ltac:(let h := eval cbv delta [createUE] in (@createUE IE) in cut_up_leaf h).
Definition fine_install_du : Z → GNBDU → P (option loc) :=
  ltac:(let h := eval cbv delta [install_du] in (@install_du IE) in cut_up_leaf h).
Definition fine_handlerNgSetupResponse : option loc → NGSetupResponse → P unit :=
  ltac:(let h := eval cbv delta [handlerNgSetupResponse] in (@handlerNgSetupResponse IE) in
        cut_up_leaf h).

(** What the goroutine of a received F1AP message does. *)
Definition fine_dispatchF1 : list Z → P unit :=
  ltac:(cut_up (@dispatchF1 IE CO) fine_createUE fine_install_du fine_handlerNgSetupResponse).
(** What the goroutine of a received NGAP message does. *)
Definition fine_dispatch : option loc → list Z → P unit :=
  ltac:(cut_up (@dispatch IE CO) fine_createUE fine_install_du fine_handlerNgSetupResponse).

(** What [main] does from the NG Setup Request on: it receives from [IsReadyNgap] when a
    goroutine sends. *)
Definition fine_SendNgSetupRequest : option loc → P unit :=
  ltac:(cut_up_leaf (@SendNgSetupRequest IE CO)).
Definition signalled (s : CuCpContext) : bool := negb (bool_decide (ready_sends s = 0%nat)).
Definition fine_initF1APServer : P unit :=
  s ← act (gets id);
  match SCTPListen (trace s) with
  | inl l => act (modify (λ s, s <| F1APListener := Some l |>))
  | inr _ =>
      _ ← act (modify (push (EvLog LFatal "Error initializing F1AP server: %v")));
      act (exits 1)
  end.
Definition fine_wait : P unit := _ ← await signalled receive_ready; fine_initF1APServer.
Definition fine_main (amf : option loc) : P unit := _ ← fine_SendNgSetupRequest amf; fine_wait.

(** ** Undisturbed, they are the handlers *)
Ltac cuts_step :=
  match goal with
  | |- cuts (await _ _) _ => apply cuts_await
  | |- cuts (act _) _ => apply cuts_await
  | |- cuts (mret _) (mret _) => apply cuts_ret
  | |- cuts (_ ≫= _) (_ ≫= _) => apply cuts_bind; [|intros]
  | |- cuts _ _ => solve [auto with go]
  | |- cuts (match ?x with _ => _ end) _ => destruct x
  end.

Lemma cuts_createUE a b c d : cuts (fine_createUE a b c d) (createUE a b c d).
Proof. unfold fine_createUE, createUE. repeat cuts_step. Qed.
Lemma cuts_install_du k d : cuts (fine_install_du k d) (install_du k d).
Proof. unfold fine_install_du, install_du. repeat cuts_step. Qed.
Lemma cuts_handlerNgSetupResponse p m :
  cuts (fine_handlerNgSetupResponse p m) (handlerNgSetupResponse p m).
Proof. unfold fine_handlerNgSetupResponse, handlerNgSetupResponse. repeat cuts_step. Qed.
#[local] Hint Resolve cuts_createUE cuts_install_du cuts_handlerNgSetupResponse : go.

Lemma cuts_dispatchF1 raw : cuts (fine_dispatchF1 raw) (dispatchF1 raw).
Proof.
  let h := unfold_handler (@dispatchF1 IE CO) in change (@dispatchF1 IE CO) with h.
  unfold fine_dispatchF1. cbv zeta. repeat cuts_step.
Qed.
Lemma cuts_dispatch p raw : cuts (fine_dispatch p raw) (dispatch p raw).
Proof.
  let h := unfold_handler (@dispatch IE CO) in change (@dispatch IE CO) with h.
  unfold fine_dispatch. cbv zeta. repeat cuts_step.
Qed.
Lemma cuts_SendNgSetupRequest p : cuts (fine_SendNgSetupRequest p) (SendNgSetupRequest p).
Proof.
  let h := unfold_handler (@SendNgSetupRequest IE CO) in change (@SendNgSetupRequest IE CO) with h.
  unfold fine_SendNgSetupRequest. cbv zeta. repeat cuts_step.
Qed.
Lemma cuts_wait : cuts fine_wait serve_f1.
Proof. unfold fine_wait, fine_initF1APServer, serve_f1, initF1APServer, Fatal, emit. repeat cuts_step. Qed.

(** ** Without congestion, they do not wait *)
Definition uncongested (s : CuCpContext) : Prop := congested s = [].
#[export] Instance uncongested_handlers :
  HandlerInv uncongested (λ _, True) (λ _, True) (λ _, True).
Proof. by constructor. Qed.
Lemma opens_write k ppid b : opens uncongested (await (can_write k) (sctp_write k ppid b)).
Proof.
  apply opens_await; [|by apply keeps_sctp_write]. intros s Hs. unfold can_write. rewrite Hs.
  apply bool_decide_eq_true_2, not_elem_of_nil.
Qed.
Lemma keeps_call_ue p f : keeps uncongested (call_ue p f).
Proof.
  intros s Hs. unfold live_ok. destruct (call_ue p f s) as [s' [[]| |]] eqn:E; [|done..].
  by apply call_ue_Ok in E as (? & ? & _ & _ & ->).
Qed.
Lemma keeps_call_amf p f : keeps uncongested (call_amf p f).
Proof.
  intros s Hs. unfold live_ok. destruct (call_amf p f s) as [s' [[]| |]] eqn:E; [|done..].
  by apply call_amf_Ok in E as (? & ? & _ & _ & ->).
Qed.

Ltac opens_step :=
  lazymatch goal with
  | |- opens _ (await (can_write _) _) => apply opens_write
  | |- opens _ (act (call_ue _ _)) => apply opens_act, keeps_call_ue
  | |- opens _ (act (call_amf _ _)) => apply opens_act, keeps_call_amf
  | |- opens _ (act (modify _)) => apply opens_act; by intros ? ?
  | |- opens _ (act (get_ue _)) => apply opens_act; intros ? ?; rewrite get_ue_eq; unfold live_ok; by destruct (find _ _)
  | |- opens _ (act (get_du _)) => apply opens_act; intros ? ?; rewrite get_du_eq; unfold live_ok; by destruct (find _ _)
  | |- opens _ (act (get_amf _)) => apply opens_act; intros ? ?; rewrite get_amf_eq; unfold live_ok; by destruct (find _ _)
  | |- opens _ (act (alloc_ue _)) => apply opens_act; by intros ? ?
  | |- opens _ (act (alloc_du _)) => apply opens_act; by intros ? ?
  | |- opens _ (act _) => apply opens_act; auto with go
  | |- opens _ (mret _) => exact Logic.I
  | |- opens _ (_ ≫= _) => apply opens_bind; [|intros]
  | |- opens _ (match ?x with _ => _ end) => destruct x
  | |- opens _ _ => solve [auto with go]
  end.
Lemma opens_createUE a b c d : opens uncongested (fine_createUE a b c d).
Proof. unfold fine_createUE. repeat opens_step. Qed.
Lemma opens_install_du k d : opens uncongested (fine_install_du k d).
Proof. unfold fine_install_du. repeat opens_step. Qed.
Lemma opens_handlerNgSetupResponse p m : opens uncongested (fine_handlerNgSetupResponse p m).
Proof. unfold fine_handlerNgSetupResponse. repeat opens_step. Qed.
#[local] Hint Resolve opens_createUE opens_install_du opens_handlerNgSetupResponse : go.
Lemma opens_dispatchF1 raw : opens uncongested (fine_dispatchF1 raw).
Proof. unfold fine_dispatchF1. cbv zeta. repeat opens_step. Qed.
Lemma opens_dispatch p raw : opens uncongested (fine_dispatch p raw).
Proof. unfold fine_dispatch. cbv zeta. repeat opens_step. Qed.
Lemma opens_initF1APServer : opens uncongested fine_initF1APServer.
Proof. unfold fine_initF1APServer. repeat opens_step. Qed.
Lemma opens_SendNgSetupRequest p : opens uncongested (fine_SendNgSetupRequest p).
Proof. unfold fine_SendNgSetupRequest. cbv zeta. repeat opens_step. Qed.
End Fine.
