(* ===== verification/FineInv.v ===== *)
(** The invariant of the CU-CP state under single actions.

    Between two actions of a handler the state is [cu_shape] rather than [cu_wf]: the RRC
    identifier generator may be ahead.  [grows] is what every action of every goroutine
    respects: objects stay, a DU keeps its identifier, an active AMF stays, the listener
    stays.  [yields_dispatchF1] and [yields_dispatch]: every action of every handler keeps
    the invariant, whatever the other goroutines do in between. *)
From S2P Require Import Prelude Prog GoNum GoText Asn1 Plmn Ies Net DuContext AmfContext UeContext CuState CuNgapOut CuRrc CuF1 CuNgapIn Init CuInv System SystemInv Fine.

Section Grows.
Context `{CO : Codec}.

Record grows (s s' : CuCpContext) : Prop := {
  gr_ues : ∀ l, is_Some (cells (ues s) !! l) → is_Some (cells (ues s') !! l);
  gr_dus : ∀ l d, cells (dus s) !! l = Some d →
    ∃ d', cells (dus s') !! l = Some d' ∧ DuId d' = DuId d;
  gr_active : amf_active s → amf_active s';
  gr_listening : is_Some (F1APListener s) → is_Some (F1APListener s')
}.
#[export] Instance grows_preorder : PreOrder grows.
Proof.
  split.
  - intros s. constructor; eauto.
  - intros s1 s2 s3 [] []. constructor; try (by auto).
    intros l d Hd. destruct (gr_dus0 l d Hd) as (d1 & H1 & E1).
    destruct (gr_dus1 l d1 H1) as (d2 & H2 & E2). exists d2. split; congruence.
Qed.
(** States that share their stores and their listener. *)
Lemma grows_same s s' :
  ues s' = ues s → dus s' = dus s → amfs s' = amfs s → F1APListener s' = F1APListener s →
  grows s s'.
Proof.
  intros Hu Hd Ha Hl. constructor; [by rewrite Hu|rewrite Hd; eauto| |by rewrite Hl].
  intros (l & a & H & Hs). exists l, a. by rewrite Ha.
Qed.
End Grows.

Section Actions.
Context `{CO : Codec}.
Variable (acc : list Z) (ng : Z).
#[local] Abbreviation I := (cu_inv acc ng cu_shape).
#[local] Abbreviation ok := (act_ok I grows).
#[local] Abbreviation yields := (yields I grows).

(** ** Actions *)
Lemma yields_read {A} (m : CU A) (Q : A → Prop) :
  (∀ s, I s → match m s with (s', Ok a) => s' = s ∧ Q a | _ => True end) → yields (act m) Q.
Proof.
  intros H. apply yields_act; [apply _|]. intros s Hs. unfold act_ok. specialize (H s Hs).
  destruct (m s) as [s' [a| |]]; [|done..]. destruct H as [-> ?]. done.
Qed.
Lemma yields_mret {A} (a : A) : yields (mret a) (λ _, True).
Proof. by intros s s' _ _. Qed.
Lemma yields_gets {A} (f : CuCpContext → A) : yields (act (gets f)) (λ _, True).
Proof. by apply yields_read. Qed.
Lemma yields_temp : yields (act (gets TempDuConn)) (conn_ok acc).
Proof. apply yields_read. intros s []. done. Qed.
Lemma yields_lift {A} (r : res A) : yields (act (lift r)) (λ _, True).
Proof. apply yields_read. by destruct r. Qed.
Lemma yields_deref {A} (o : option A) : yields (act (deref o)) (λ a, o = Some a).
Proof. apply yields_read. by destruct o. Qed.
Lemma yields_panics {A} p (Q : A → Prop) : yields (act (panics p)) Q.
Proof. by apply yields_read. Qed.
Lemma yields_get_ue p : yields (act (get_ue p)) (λ _, True).
Proof. apply yields_read. intros s _. rewrite get_ue_eq. by destruct (find (ues s) p). Qed.
Lemma yields_get_du p : yields (act (get_du p)) (du_ok acc).
Proof.
  apply yields_read. intros s []. rewrite get_du_eq. destruct (find (dus s) p) as [d|] eqn:E; [|done].
  apply find_Some in E as (l & _ & Hl). eauto.
Qed.
Lemma yields_get_amf p : yields (act (get_amf p)) (amf_ok ng).
Proof.
  apply yields_read. intros s []. rewrite get_amf_eq.
  destruct (find (amfs s) p) as [a|] eqn:E; [|done]. apply find_Some in E as (l & _ & Hl). eauto.
Qed.

Lemma yields_modify f :
  (∀ s, I s → I (f s) ∧ grows s (f s)) → yields (act (modify f)) (λ _, True).
Proof. intros H. apply yields_act; [apply _|]. intros s Hs. by destruct (H s Hs). Qed.
Lemma yields_log level f : yields (act (modify (push (EvLog level f)))) (λ _, True).
Proof.
  apply yields_modify. intros s Hs. split; [|by apply grows_same]. apply cu_inv_log; [apply _|]. exact Hs.
Qed.
Lemma yields_upd_ue p f :
  ue_update_ok f → yields (act (modify (λ s, s <| ues := upd_at p f (ues s) |>))) (λ _, True).
Proof.
  intros Hf. apply yields_modify. intros s []. split.
  - constructor; try done. apply shape_upd_ue; [done|]. intros l u _ _. apply Hf.
  - constructor; try done; [|eauto]. intros l. apply upd_at_is_Some.
Qed.
Lemma yields_set_conn p conn :
  conn_ok acc conn →
  yields (act (modify (λ s, s <| dus := upd_at p (set_conn conn) (dus s) |>))) (λ _, True).
Proof.
  intros Hc. apply yields_modify. intros s []. split.
  - constructor; try done; [by apply shape_set_conn|].
    intros l d [Hd|(d' & _ & _ & ->)]%upd_at_lookup; [eauto|exact Hc].
  - constructor; try done. intros l d Hd. destruct p as [k|]; [|eauto]. cbn.
    rewrite lookup_alter. case_decide; [subst|eauto]. rewrite Hd. cbn. by eexists.
Qed.
Lemma yields_f1 d k pdu :
  du_ok acc d → SctpConn d = Some k → yields (await (can_write k) (sctp_write k F1AP_PPID pdu)) (λ _, True).
Proof.
  intros Hd Hk. apply yields_await; [apply _|]. intros s [] _. split; [|split; [by apply grows_same|done]].
  constructor; try done; [by apply shape_push|]. apply Forall_app_2; [done|]. constructor; [|done].
  left. split; [done|]. by apply Hd.
Qed.
Lemma yields_ng a sc k pdu :
  amf_ok ng a → Tnla_SctpConn a = Some sc → SctpClient.conn sc = Some k →
  yields (await (can_write k) (sctp_write k NGAP_PPID pdu)) (λ _, True).
Proof.
  intros Ha Hsc Hk. apply yields_await; [apply _|]. intros s [] _. split; [|split; [by apply grows_same|done]].
  constructor; try done; [by apply shape_push|]. apply Forall_app_2; [done|]. constructor; [|done].
  right. split; [done|]. apply Ha. by exists sc.
Qed.
Lemma yields_CreateUeContext p plmn imeisv ns caps :
  yields (act (call_ue p (λ u, CreateUeContext u plmn imeisv ns caps))) (λ _, True).
Proof.
  apply yields_act; [apply _|]. intros s Hs. unfold act_ok.
  destruct (call_ue p (λ u, CreateUeContext u plmn imeisv ns caps) s) as [s' [[]| |]] eqn:E; [|done..].
  apply call_ue_Ok in E as (u & u' & Hu & Hc & ->). destruct Hs. split; [|split; [|done]].
  - constructor; try done. apply shape_upd_ue; [done|].
    by apply (CreateUeContext_update p plmn imeisv ns caps u u').
  - constructor; try done; [|eauto]. intros l. apply upd_at_is_Some.
Qed.

(** ** Sequences whose steps build on each other *)

(** The pointer of a fresh UE context is still valid when it becomes the current one. *)
Lemma yields_createUE duid crnti ident duUeId :
  yields (fine_createUE duid crnti ident duUeId) (λ _, True).
Proof.
  eapply yields_bind; [apply _|apply yields_gets|intros rrc _].
  eapply yields_bind; [apply _|apply yields_gets|intros loaded _].
  eapply yields_bind; [apply _|apply yields_modify|intros _ _].
  { intros s []. split; [|by apply grows_same]. constructor; try done. by apply shape_gen. }
  eapply yields_bind; [apply _|apply yields_gets|intros amf _].
  eapply yields_bind; [apply _|apply yields_get_amf|intros a _]. cbv zeta. intros s.
  eapply safe_bind; [apply _|apply (safe_act _ _ _ _ (λ p s1, is_Some (cells (ues s1) !! p)))|].
  - intros s1 _ []. split; [|split].
    + constructor; try done. apply shape_alloc_ue; [done|done|by left].
    + constructor; try done; [|eauto]. cbn. intros l Hl. rewrite lookup_insert.
      by case_decide; [eexists|].
    + cbn. rewrite lookup_insert_eq. by eexists.
  - intros p s1 s2 HR. apply HR.
  - intros p s1 _ _ Hp. eapply safe_bind; [apply _|apply (safe_act _ _ _ _ (λ _ _, True))|]; [|done|].
    + intros s2 HR []. split; [|split; [by apply grows_same|done]]. constructor; try done.
      apply shape_set_UE; [done|]. by apply HR.
    + intros _ s3 _ _ _ ?. done.
Qed.

(** The DU pool gets a pointer to a DU of that identifier. *)
Lemma yields_install_du d :
  IsActive d = true → zlen (ServedCells d) = 1 → SctpConn d = None →
  yields (fine_install_du (DuId d) d) (λ _, True).
Proof.
  intros Hact Hcells Hn s.
  set (at_du := λ (p : loc) (s1 : CuCpContext), ∃ d', cells (dus s1) !! p = Some d' ∧ DuId d' = DuId d).
  assert (∀ p s1 s2, grows s1 s2 → at_du p s1 → at_du p s2) as Hst.
  { intros p s1 s2 HR (d1 & H1 & E1). destruct (gr_dus _ _ HR _ _ H1) as (d2 & H2 & E2).
    exists d2. split; congruence. }
  eapply safe_bind; [apply _|apply (safe_act _ _ _ _ at_du)|]; [|eauto|].
  - intros s1 _ []. split; [|split].
    + constructor; try done; [by apply shape_alloc_du|]. intros l d'. cbn. rewrite lookup_insert.
      case_decide; [|eauto]. intros [= <-] c. by rewrite Hn.
    + constructor; try done. cbn. intros l d' Hl. rewrite lookup_insert_ne; [eauto|].
      intros <-. pose proof (wf_dus _ ci_wf (brk (dus s1)) ltac:(by eexists)). lia.
    + exists d. cbn. by rewrite lookup_insert_eq.
  - intros p s1 _ _ Hp. eapply safe_bind; [apply _|apply (safe_act _ _ _ _ (λ _, at_du p))|]; [|eauto|].
    + intros s2 HR []. destruct (Hst p s1 s2 HR Hp) as (d' & Hd' & E).
      split; [|split; [by apply grows_same|by exists d']]. constructor; try done.
      by eapply shape_pool.
    + intros [] s2 _ _ Hp2. eapply safe_bind; [apply _|apply (safe_act _ _ _ _ (λ _ _, True))|]; [|done|].
      * intros s3 HR []. destruct (Hst p s2 s3 HR Hp2) as (d' & Hd' & E).
        split; [|split; [by apply grows_same|done]]. constructor; try done.
        apply shape_set_DU; [done|by eexists].
      * intros _ s3 _ _ _ ?. done.
Qed.

Lemma yields_install_request req item plmn m n :
  yields (fine_install_du (req_GNBDUID req) (du_of_request req item plmn m n)) (λ _, True).
Proof.
  replace (req_GNBDUID req) with (DuId (du_of_request req item plmn m n))
    by (unfold du_of_request; by destruct (item_GNBDUSystemInformation item)).
  apply yields_install_du; unfold du_of_request; by destruct (item_GNBDUSystemInformation item).
Qed.

(** The goroutine signals readiness only after the AMF became active. *)
Lemma yields_handlerNgSetupResponse p m : yields (fine_handlerNgSetupResponse p m) (λ _, True).
Proof.
  intros s. eapply safe_bind; [apply _|apply (safe_act _ _ _ _ (λ _, amf_active))|]; [|by intros ??? []; auto|].
  - intros s1 _ H. unfold act_ok.
    destruct (call_amf p (λ a, amf_after_ng_setup a m) s1) as [s2 [[]| |]] eqn:E; [|done..].
    apply call_amf_Ok in E as (a & a' & (l & -> & Hl)%find_Some & Hm & ->). destruct H.
    assert (amf_active (s1 <| amfs := upd_at (Some l) (λ _, a') (amfs s1) |>)) as Hact.
    { exists l, a'. cbn. rewrite lookup_alter_eq, Hl. split; [done|]. by eapply amf_after_ng_setup_active. }
    split; [|split; [|done]]; [|by constructor; [..|done]; eauto].
    constructor; try done; [by apply shape_upd_amf|].
    intros l' b Hb. apply (upd_at_lookup (λ _, a') (Some l)) in Hb as [Hb|(b' & _ & _ & ->)]; [eauto|].
    intros k (sc & Hsc & Hk). apply (ci_amf l a Hl). exists sc.
    by rewrite <- (amf_after_ng_setup_tnla _ _ _ Hm).
  - intros [] s1 _ _ Hact. apply (safe_act _ _ _ _ (λ _ _, True)); [|done].
    intros s2 HR []. pose proof (gr_active _ _ HR Hact) as Hact2.
    split; [|split; [by apply grows_same|done]]. constructor; try done. by apply shape_ready.
Qed.
End Actions.

(** ** The handlers

    Walk through a handler, keeping what an action yields and what a test decides. *)
Ltac yields_step :=
  lazymatch goal with
  | |- yields _ _ (act (gets TempDuConn) ≫= _) _ =>
      eapply yields_bind; [apply _|apply yields_temp|intros]
  | |- yields _ _ (_ ≫= _) _ => eapply yields_bind; [apply _| |intros]
  | |- yields _ _ (mret _) _ => apply yields_mret
  | |- yields _ _ (act (gets _)) _ => apply yields_gets
  | |- yields _ _ (act (lift _)) _ => apply yields_lift
  | |- yields _ _ (act (deref _)) _ => apply yields_deref
  | |- yields _ _ (act (panics _)) _ => apply yields_panics
  | |- yields _ _ (act (get_ue _)) _ => apply yields_get_ue
  | |- yields _ _ (act (get_du _)) _ => apply yields_get_du
  | |- yields _ _ (act (get_amf _)) _ => apply yields_get_amf
  | |- yields _ _ (act (call_ue _ _)) _ => apply yields_CreateUeContext
  | |- yields _ _ (act (modify (push (EvLog _ _)))) _ => apply yields_log
  | |- yields _ _ (act (modify (λ s, s <| dus := upd_at _ (set_conn _) _ |>))) _ =>
      apply yields_set_conn; assumption
  | |- yields _ _ (act (modify (λ s, s <| ues := upd_at _ _ _ |>))) _ =>
      apply yields_upd_ue; intros ?; split; [split; reflexivity|unfold ue_state_legal; cbn; tauto]
  | |- yields _ _ (await _ (sctp_write _ F1AP_PPID _)) _ => cbv beta in *; eapply yields_f1; eassumption
  | |- yields _ _ (await _ (sctp_write _ NGAP_PPID _)) _ => cbv beta in *; eapply yields_ng; eassumption
  | |- yields _ _ (fine_createUE _ _ _ _) _ => apply yields_createUE
  | |- yields _ _ (fine_handlerNgSetupResponse _ _) _ => apply yields_handlerNgSetupResponse
  | |- yields _ _ (fine_install_du _ (du_of_request _ _ _ _ _)) _ => apply yields_install_request
  | |- yields _ _ (match ?x with _ => _ end) _ => destruct x eqn:?
  end.

Section Handlers.
Context `{CO : Codec}.
Variable (acc : list Z) (ng : Z).
#[local] Abbreviation I := (cu_inv acc ng cu_shape).
#[local] Abbreviation yields := (yields I grows).

Lemma yields_dispatchF1 raw : yields (fine_dispatchF1 raw) (λ _, True).
Proof. unfold fine_dispatchF1. cbv zeta. repeat yields_step. Qed.
Lemma yields_dispatch p raw : yields (fine_dispatch p raw) (λ _, True).
Proof. unfold fine_dispatch. cbv zeta. repeat yields_step. Qed.

(** The listener is set after the wait, when an AMF is active. *)
Lemma yields_wait : yields fine_wait (λ _, True).
Proof.
  intros s. eapply safe_bind; [apply _|apply (safe_await _ _ _ _ _ (λ _, amf_active))|];
    [|by intros ??? []; auto|].
  - intros s1 _ [] Hg. unfold signalled in Hg. case_bool_decide as Hr; [done|].
    split; [|split; [by apply grows_same|by apply ci_active; left]].
    constructor; try done; [by apply shape_ready|]. intros _. apply ci_active. by left.
  - intros [] s1 _ _ Hact. unfold fine_initF1APServer.
    eapply safe_bind; [apply _|apply (safe_act _ _ _ _ (λ _, amf_active))|]; [|by intros ??? []; auto|].
    { intros s2 HR H2. split; [exact H2|]. split; [by apply grows_same|]. by apply (gr_active s1 s2). }
    intros s2 s3 _ _ Hact3. destruct (SCTPListen (trace s2)).
    + apply (safe_act _ _ _ _ (λ _ _, True)); [|done]. intros s4 HR [].
      pose proof (gr_active _ _ HR Hact3). split; [|split; [|done]].
      * constructor; try done. by apply shape_listener.
      * constructor; try done; cbn; eauto.
    + eapply safe_bind; [apply _|apply (yields_log acc ng)|]. intros [] s4 _ _ _.
      by apply (safe_act _ _ _ _ (λ _ _, True)).
Qed.
Lemma yields_main p : yields (fine_main p) (λ _, True).
Proof.
  eapply yields_bind; [apply _| |intros [] _; apply yields_wait].
  unfold fine_SendNgSetupRequest. cbv zeta. repeat yields_step.
Qed.
End Handlers.
