(* ===== verification/FineSystem.v ===== *)
(** The running process with goroutines that interleave action by action.

    [fsystem] adds to [system] the goroutines that are in the middle of a handler, [main]
    being one of them once it has begun with the NG Setup Request.  A step is input from
    the peers, which also decide on which associations a write would block, or [work]:
    the process's own moves, of which it has only finitely many until the peers do
    something. *)
From S2P Require Import Prelude Prog GoNum GoText Config Asn1 Plmn Ies Net DuContext AmfContext UeContext CuState CuNgapOut CuRrc CuF1 CuNgapIn Init CuInv System SystemInv Fine FineInv.

Section FineSystem.
Context `{CO : Codec}.

Record fsystem := { base : system; running : list (prog CuCpContext unit) }.

Inductive work : fsystem → fsystem → Prop :=
| work_local s s' r : local_step s s' → work {| base := s; running := r |} {| base := s'; running := r |}
| work_go_main s r :
    stopped s = false → main_at s = AtRequest →
    work {| base := s; running := r |}
      {| base := s <| main_at := AtReturn |>; running := r ++ [fine_main (amf_ptr s)] |}
| work_go_f1 s c raw p q r :
    stopped s = false → f1_tasks s = p ++ (c, raw) :: q →
    work {| base := s; running := r |}
      {| base := s <| f1_tasks := p ++ q |>; running := r ++ [fine_dispatchF1 raw] |}
| work_go_ng s raw p q r :
    stopped s = false → ng_tasks s = p ++ raw :: q →
    work {| base := s; running := r |}
      {| base := s <| ng_tasks := p ++ q |>; running := r ++ [fine_dispatch (amf_ptr s) raw] |}
| work_act s r r' c :
    stopped s = false → pool_step r (cu s) r' c →
    work {| base := s; running := r |} {| base := s <| cu := c |>; running := r' |}
| work_halt s p c r :
    stopped s = false → p ∈ r → halts p (cu s) c →
    work {| base := s; running := r |}
      {| base := s <| cu := c |> <| stopped := true |>; running := r |}.

Inductive fine_step : fsystem → fsystem → Prop :=
| fine_input s s' r :
    input_step s s' → fine_step {| base := s; running := r |} {| base := s'; running := r |}
| fine_congest s l r :
    stopped s = false →
    fine_step {| base := s; running := r |}
      {| base := s <| cu := cu s <| congested := l |> |>; running := r |}
| fine_work f f' : work f f' → fine_step f f'.

(** No goroutine is in a handler; [main] may be waiting for the AMF. *)
Definition settled (m : main_point) : main_point :=
  match m with AtWait => AtReturn | m => m end.
Definition waiting (m : main_point) : list (prog CuCpContext unit) :=
  match m with AtWait => [fine_wait] | _ => [] end.
Definition at_rest (s : system) : fsystem :=
  {| base := s <| main_at := settled (main_at s) |>; running := waiting (main_at s) |}.

(** ** The atomic handlers are among the interleavings *)
Lemma set_cu_stopped s c : stopped s = false → s <| cu := c |> = finish (c, Ok tt) s.
Proof. destruct s. cbn. by intros ->. Qed.

Lemma work_pool s r c1 c2 :
  stopped s = false → star pool_rel c1 c2 → c1 = (r, cu s) →
  star work {| base := s; running := r |} {| base := s <| cu := c2.2 |>; running := c2.1 |}.
Proof.
  intros Hst Hs. revert s r Hst. induction Hs as [c|c1 c2 c3 H _ IH]; intros s r Hst ->.
  - destruct s. constructor.
  - destruct c2 as [r2 s2]. eapply star_step; [by apply work_act|].
    pose (s1 := s <| cu := s2 |>). exact (IH s1 r2 Hst eq_refl).
Qed.

(** A goroutine runs its handler without interruption. *)
Lemma work_exec s l1 l2 p c :
  stopped s = false → opens uncongested p → uncongested (cu s) → exec p (cu s) = (c, Ok tt) →
  star work {| base := s; running := l1 ++ p :: l2 |} {| base := s <| cu := c |>; running := l1 ++ l2 |} ∧
  uncongested c.
Proof.
  intros Hst Hp HE Hx. destruct (exec_pool uncongested p (cu s) c l1 l2 Hp HE Hx) as [Hs Hc].
  split; [|done]. exact (work_pool s _ _ _ Hst Hs eq_refl).
Qed.

Lemma star_fine_work f f' : star work f f' → star fine_step f f'.
Proof. induction 1; [constructor|]. eapply star_step; [by apply fine_work|done]. Qed.

(** What does not involve [main] is the same with [main] elsewhere. *)
Lemma input_main s s' m : input_step s s' → input_step (s <| main_at := m |>) (s' <| main_at := m |>).
Proof.
  destruct 1 as [s r Hst Hl Hk|s c r Hst Hc|s r Hst Hr].
  - pose proof (step_accept (s <| main_at := m |>) r Hst Hl Hk) as H.
    destruct r as [| | |c []]; exact H.
  - pose proof (step_f1_read (s <| main_at := m |>) c r Hst Hc) as H.
    destruct r as [[ppid|] raw| | |]; try exact H. cbn in *. destruct (negb _); exact H.
  - pose proof (step_ng_read (s <| main_at := m |>) r Hst Hr) as H.
    destruct r as [[ppid|] raw| | |]; try exact H. cbn in *. destruct (negb _); [exact H|].
    destruct (zlen (ReadCh s) <? defaultChannelBuffer); exact H.
Qed.
Lemma local_main s s' m : local_step s s' → local_step (s <| main_at := m |>) (s' <| main_at := m |>).
Proof.
  destruct 1 as [s c p q Hst Hc|s raw q Hst Hq].
  - exact (step_f1_start (s <| main_at := m |>) c p q Hst Hc).
  - exact (step_ng_take (s <| main_at := m |>) raw q Hst Hq).
Qed.
Lemma io_main_at s s' : io_step s s' → main_at s' = main_at s ∧ congested (cu s') = congested (cu s).
Proof.
  intros [[s1 r _ _ _|s1 c r _ _|s1 r _ _]|[s1 c p q _ _|s1 raw q _ _]]; try done.
  - by destruct r as [| | |c []].
  - destruct r as [[ppid|] raw| | |]; try done. cbn. by destruct (negb _).
  - destruct r as [[ppid|] raw| | |]; try done. cbn. destruct (negb _); [done|].
    by destruct (zlen (ReadCh s1) <? defaultChannelBuffer).
Qed.

(** A handler that returns, from the queue to its end. *)
Lemma handler_at_rest s s1 p out :
  (∀ m r, work {| base := s <| main_at := m |>; running := r |}
    {| base := s1 <| main_at := m |>; running := r ++ [p] |}) →
  stopped s1 = false → main_at s1 = main_at s → opens uncongested p → uncongested (cu s1) →
  exec p (cu s1) = out → stopped (finish out s1) = false →
  star fine_step (at_rest s) (at_rest (finish out s1)) ∧ uncongested (cu (finish out s1)).
Proof.
  intros Hw Hst Hm Hp HE Hx Hout. destruct out as [c [[]| |]]; [|done..]. unfold at_rest.
  pose proof (work_exec (s1 <| main_at := settled (main_at s) |>) (waiting (main_at s)) [] p c Hst Hp HE Hx)
    as [H Hc]. split; [|exact Hc]. eapply star_step; [apply fine_work, Hw|]. apply star_fine_work.
  rewrite app_nil_r, set_cu_stopped in H by done.
  change (main_at (finish (c, Ok tt) s1)) with (main_at s1). rewrite Hm. exact H.
Qed.

Lemma exec_SendNgSetupRequest p s : exec (fine_SendNgSetupRequest p) s = SendNgSetupRequest p s.
Proof. apply cuts_SendNgSetupRequest. Qed.

Lemma request_at_rest s :
  stopped s = false → main_at s = AtRequest → uncongested (cu s) →
  let s' := finish (SendNgSetupRequest (amf_ptr s) (cu s)) (s <| main_at := AtWait |>) in
  stopped s' = false → star fine_step (at_rest s) (at_rest s') ∧ uncongested (cu s').
Proof.
  intros Hst Hm HE s' Hst'. subst s'. unfold at_rest. rewrite Hm.
  destruct (SendNgSetupRequest (amf_ptr s) (cu s)) as [c [[]| |]] eqn:Hx; [|done..].
  pose proof Hx as Hx'. rewrite <- exec_SendNgSetupRequest in Hx'.
  destruct (exec_runs uncongested _ _ _ _ (opens_SendNgSetupRequest (amf_ptr s)) HE Hx') as [Hr Hc].
  split; [|exact Hc]. apply (runs_bind _ _ (λ _, fine_wait)) in Hr. apply (runs_pool _ _ _ _ [] []) in Hr.
  eapply star_step; [by apply fine_work, work_go_main|]. apply star_fine_work.
  pose (s1 := s <| main_at := AtReturn |>). pose proof (work_pool s1 _ _ _ Hst Hr eq_refl) as H.
  rewrite set_cu_stopped in H by done. exact H.
Qed.

Lemma serve_at_rest s :
  stopped s = false → main_at s = AtWait → ready_sends (cu s) ≠ 0%nat → uncongested (cu s) →
  let s' := finish (serve_f1 (cu s)) (s <| main_at := AtReturn |>) in
  stopped s' = false → star fine_step (at_rest s) (at_rest s') ∧ uncongested (cu s').
Proof.
  intros Hst Hm Hn HE s' Hst'. subst s'. unfold at_rest. rewrite Hm.
  destruct (serve_f1 (cu s)) as [c [[]| |]] eqn:Hx; [|done..].
  pose proof Hx as Hx'. rewrite <- cuts_wait in Hx'.
  set (c1 := cu s <| ready_sends := pred (ready_sends (cu s)) |>).
  destruct (exec_pool uncongested fine_initF1APServer c1 c [] [] opens_initF1APServer HE Hx')
    as [Hr Hc].
  split; [|exact Hc]. apply star_fine_work.
  pose (s1 := s <| main_at := AtReturn |>).
  assert (star pool_rel ([fine_wait], cu s1) ([], c)) as H.
  { eapply star_step; [|exact Hr]. apply (pool_act [] []). split; [|by exists tt].
    unfold signalled. by rewrite bool_decide_eq_false_2. }
  pose proof (work_pool s1 _ _ _ Hst H eq_refl) as H1. rewrite set_cu_stopped in H1 by done. exact H1.
Qed.

Lemma fine_simulates_step s s' :
  step s s' → uncongested (cu s) → stopped s' = false →
  star fine_step (at_rest s) (at_rest s') ∧ uncongested (cu s').
Proof.
  intros H HE Hst'. destruct H as [s s' Hio|s Hst Hm|s Hst Hm Hn|s c raw p q Hst Hq|s raw p q Hst Hq].
  - destruct (io_main_at s s' Hio) as [Hm Hc]. split; [|unfold uncongested in *; congruence].
    unfold at_rest. rewrite Hm. apply star_one.
    destruct Hio as [Hi|Hl]; [by apply fine_input, input_main|by apply fine_work, work_local, local_main].
  - by apply request_at_rest.
  - by apply serve_at_rest.
  - apply (handler_at_rest s (s <| f1_tasks := p ++ q |>) (fine_dispatchF1 raw)); try done.
    + intros m r. exact (work_go_f1 (s <| main_at := m |>) c raw p q r Hst Hq).
    + apply opens_dispatchF1.
    + apply cuts_dispatchF1.
  - apply (handler_at_rest s (s <| ng_tasks := p ++ q |>) (fine_dispatch (amf_ptr s) raw)); try done.
    + intros m r. exact (work_go_ng (s <| main_at := m |>) raw p q r Hst Hq).
    + apply opens_dispatch.
    + apply cuts_dispatch.
Qed.

Lemma step_running s s' : step s s' → stopped s = false.
Proof. by destruct 1 as [s s' [[]|[]]| | | |]. Qed.

(** Every state that the process reaches with handlers that run one at a time, it reaches
    with preemptive goroutines. *)
Lemma fine_simulates s s' :
  star step s s' → uncongested (cu s) → stopped s' = false →
  star fine_step (at_rest s) (at_rest s') ∧ uncongested (cu s').
Proof.
  induction 1 as [s|s1 s2 s3 H Hs IH]; [by repeat constructor|]. intros HE Hst.
  assert (stopped s2 = false) as Hst2 by (destruct Hs as [|? ? ? Hs']; [done|by eapply step_running]).
  destruct (fine_simulates_step _ _ H HE Hst2) as [H2 HE2]. destruct (IH HE2 Hst) as [H3 HE3].
  split; [by eapply star_trans|done].
Qed.

(** ** Safety *)
Variable (ng : Z).
#[local] Abbreviation I acc := (cu_inv acc ng cu_shape).

Definition safe_in acc s (p : prog CuCpContext unit) : Prop :=
  safe (I acc) grows p s (λ _ _, True).
Definition fine_inv (acc : list Z) (f : fsystem) : Prop :=
  sys_inv ng cu_shape acc (base f) ∧
  (stopped (base f) = false →
   Forall (safe_in acc (cu (base f))) (running f)).

Lemma safe_all acc r s s' :
  grows s s' → Forall (safe_in acc s) r →
  Forall (safe_in acc s') r.
Proof. intros HR Hr. eapply Forall_impl; [exact Hr|]. intros p Hp. by eapply safe_later; [apply _|..]. Qed.

Lemma input_grows s s' : input_step s s' → grows (cu s) (cu s').
Proof.
  destruct 1 as [s r _ _ _|s k r _ _|s r _ _].
  - by destruct r as [| | |k []]; apply grows_same.
  - destruct r as [[ppid|] raw| | |]; cbn; try (by apply grows_same). by destruct (negb _); apply grows_same.
  - destruct r as [[ppid|] raw| | |]; cbn; try (by apply grows_same).
    destruct (negb _); [by apply grows_same|].
    by destruct (zlen (ReadCh s) <? defaultChannelBuffer); apply grows_same.
Qed.
Lemma local_grows s s' : local_step s s' → grows (cu s) (cu s').
Proof. by destruct 1; apply grows_same. Qed.

Lemma pool_step_inv acc r s r' s' :
  I acc s → Forall (safe_in acc s) r → pool_step r s r' s' →
  I acc s' ∧ grows s s' ∧ Forall (safe_in acc s') r'.
Proof.
  intros HI Hr Hstep. destruct Hstep as [l1 l2 p p' s s' Hn|l1 l2 s].
  - apply Forall_app in Hr as [H1 [Hp H2]%Forall_cons].
    apply (safe_next _ _ _ _ _ _ _ Hp HI) in Hn as (HI' & HR & Hp').
    split; [done|]. split; [done|]. apply Forall_app. split; [by eapply safe_all|].
    constructor; [done|by eapply safe_all].
  - split; [done|]. split; [done|]. apply Forall_app in Hr as [H1 [_ H2]%Forall_cons].
    by apply Forall_app.
Qed.

Lemma sys_inv_cu acc s c :
  sys_inv ng cu_shape acc s → I acc c → grows (cu s) c → sys_inv ng cu_shape acc (s <| cu := c |>).
Proof.
  intros [] HI HR. constructor; try done. cbn. intros Hst Hn. apply si_wait; [done|].
  destruct (F1APListener (cu s)) as [l|] eqn:E; [|done].
  destruct (gr_listening _ _ HR) as [l' Hl']; [by exists l|congruence].
Qed.
Lemma sys_inv_halt acc s c :
  sys_inv ng cu_shape acc s → sys_inv ng cu_shape acc (s <| cu := c |> <| stopped := true |>).
Proof. intros []. by constructor. Qed.
Lemma fine_inv_go acc s s' r p :
  fine_inv acc {| base := s; running := r |} → stopped s' = stopped s → cu s' = cu s →
  sys_inv ng cu_shape acc s' → yields (I acc) grows p (λ _, True) →
  fine_inv acc {| base := s'; running := r ++ [p] |}.
Proof.
  intros [_ Hr] Hst Hcu Hs Hp. split; [done|]. cbn in *. rewrite Hst, Hcu. intros H.
  apply Forall_app. split; [by apply Hr|]. constructor; [|done]. apply Hp.
Qed.

Lemma work_inv acc f f' : fine_inv acc f → work f f' → fine_inv acc f'.
Proof.
  intros Hf H. destruct H as [s s' r H|s r Hst Hm|s c raw p q r Hst Hq|s raw p q r Hst Hq
    |s r r' c Hst Hp|s p c r Hst Hin Hh].
  - destruct Hf as [Hs Hr]. split; cbn in *.
    + eapply io_step_inv; [apply _|done|by right|]. destruct Hs. by destruct H.
    + intros _. eapply safe_all; [by apply local_grows|]. apply Hr. by destruct H.
  - eapply fine_inv_go; [done..| |apply yields_main]. destruct Hf as [[] _]. by constructor.
  - eapply fine_inv_go; [done..| |apply yields_dispatchF1]. destruct Hf as [[] _]. by constructor.
  - eapply fine_inv_go; [done..| |apply yields_dispatch]. destruct Hf as [[] _]. by constructor.
  - destruct Hf as [Hs Hr]. cbn in *.
    destruct (pool_step_inv acc r (cu s) r' c) as (HI & HR & Hr'); [by apply Hs|by apply Hr|done|].
    split; [by apply sys_inv_cu|done].
  - destruct Hf as [Hs _]. split; [by apply sys_inv_halt|done].
Qed.

Lemma fine_step_inv acc f f' :
  fine_inv acc f → fine_step f f' → accepted (base f') ⊆ acc → fine_inv acc f'.
Proof.
  intros Hf H Hacc. destruct H as [s s' r H|s l r Hst|f f' H]; [| |by eapply work_inv].
  - destruct Hf as [Hs Hr]. split.
    + eapply io_step_inv; [apply _|done|by left|done].
    + intros _. eapply safe_all; [by apply input_grows|]. apply Hr. by destruct H.
  - destruct Hf as [Hs Hr]. cbn in *.
    assert (grows (cu s) (cu s <| congested := l |>)) as Hg by by apply grows_same.
    split; [|intros _; by eapply safe_all, Hr]. apply sys_inv_cu; [done| |done].
    destruct (si_cu _ _ _ _ Hs Hst). constructor; try done. by apply shape_congested.
Qed.

Lemma fine_step_accepted f f' : fine_step f f' → accepted (base f) ⊆ accepted (base f').
Proof.
  destruct 1 as [s s' r H|s l r _|f f' H]; [by apply io_step_accepted; left|done|].
  destruct H as [s s' r H| | | | |]; try done. by apply io_step_accepted; right.
Qed.
Lemma fine_star_accepted f f' : star fine_step f f' → accepted (base f) ⊆ accepted (base f').
Proof. induction 1 as [|f1 f2 f3 H _ IH]; [done|]. etrans; [by apply fine_step_accepted|done]. Qed.

Lemma sys_inv_shape acc s : sys_inv ng cu_wf acc s → sys_inv ng cu_shape acc s.
Proof.
  intros []. constructor; try done. intros Hst. destruct (si_cu Hst).
  constructor; try done. by apply wf_shape.
Qed.

Lemma fine_reachable_inv cfg s0 f :
  booted ng cfg s0 → star fine_step (at_rest s0) f → fine_inv (accepted (base f)) f.
Proof.
  intros Hb Hs. assert (at_rest s0 = {| base := s0; running := [] |}) as E0.
  { by rewrite (booted_eq ng cfg s0 Hb). }
  apply (booted_inv ng (accepted (base f))), sys_inv_shape in Hb.
  assert (fine_inv (accepted (base f)) (at_rest s0)) as H0
    by (rewrite E0; exact (conj Hb (λ _, Forall_nil_2 _))).
  clear E0.
  clear Hb. remember (at_rest s0) as f0 eqn:E0. clear E0.
  remember (accepted (base f)) as acc eqn:E.
  assert (accepted (base f) ⊆ acc) as Hacc by by subst acc.
  clear E. induction Hs as [|f1 f2 f3 H Hs IH]; [done|]. apply IH; [|done].
  eapply fine_step_inv; [done..|]. etrans; [by apply fine_star_accepted|done].
Qed.

(** ** Termination of the work at hand *)

(** Moves left outside running goroutines. *)
Definition backlog (s : system) : nat :=
  (match main_at s with AtRequest => 1 | _ => 0 end) + (if stopped s then 0 else 1) +
  length (starting s) + 2 * length (ReadCh s) + length (f1_tasks s) + length (ng_tasks s).

Lemma work_measure f f' :
  work f f' →
  (backlog (base f') < backlog (base f))%nat ∨
  (backlog (base f') = backlog (base f) ∧ lchild (running f') (running f)).
Proof.
  destruct 1 as [s s' r H|s r Hst Hm|s c raw p q r Hst Hq|s raw p q r Hst Hq|s r r' c Hst Hp
    |s p c r Hst Hin Hh]; unfold backlog; cbn.
  - left. destruct H as [s c p q Hst Hc|s raw q Hst Hq]; cbn;
      [rewrite Hc|rewrite Hq]; rewrite !length_app; cbn; lia.
  - left. rewrite Hm. lia.
  - left. rewrite Hq, !length_app. cbn. lia.
  - left. rewrite Hq, !length_app. cbn. lia.
  - right. split; [done|]. by eapply pool_step_lchild.
  - left. rewrite Hst. lia.
Qed.

Lemma work_wf : well_founded (λ f' f, work f f').
Proof.
  intros f. remember (backlog (base f)) as n eqn:En. revert f En.
  induction n as [n IHn] using lt_wf_ind. intros f En. remember (running f) as r eqn:Er.
  revert f En Er. induction (lchild_wf r) as [r _ IHr]. intros f -> ->. constructor.
  intros f' [Hlt|[Heq Hc]]%work_measure; [by eapply IHn|]. by eapply IHr.
Qed.

(** Nothing is left to do: the process ended, or every message was taken and whoever is
    still in a handler waits. *)
Definition quiet (f : fsystem) : Prop :=
  stopped (base f) = true ∨
  (main_at (base f) ≠ AtRequest ∧ starting (base f) = [] ∧ ReadCh (base f) = [] ∧
   f1_tasks (base f) = [] ∧ ng_tasks (base f) = [] ∧
   Forall (λ p, blocked p (cu (base f))) (running f)).

Lemma work_progress f : quiet f ∨ ∃ f', work f f'.
Proof.
  destruct f as [s r]. unfold quiet. cbn. destruct (stopped s) eqn:Hst; [by auto|].
  destruct (pool_progress r (cu s)) as [Hr|[(r' & c & H)|(p & c & Hp & H)]].
  2:{ right. eexists. by apply (work_act s r r' c). }
  2:{ right. eexists. by apply (work_halt s p c). }
  destruct (main_at s) eqn:Hm.
  { right. eexists. by apply work_go_main. }
  all: destruct (starting s) as [|c q] eqn:Hc;
    [|right; eexists; by apply work_local, (step_f1_start s c [] q)].
  all: destruct (ReadCh s) as [|raw q] eqn:Hq; [|right; eexists; by eapply work_local, step_ng_take].
  all: destruct (f1_tasks s) as [|[c raw] q] eqn:Hf; [|right; eexists; by apply (work_go_f1 s c raw [] q)].
  all: destruct (ng_tasks s) as [|raw q] eqn:Hn; [|right; eexists; by apply (work_go_ng s raw [] q)].
  all: left; right; by repeat split.
Qed.
End FineSystem.
