(* ===== verification/CuNas.v ===== *)
(** What the handlers of the CU-CP do, exactly: the state each leaves and the
    messages it sends, on the runs where the codecs succeed and the associations
    are up.  These equations are the lemmas behind the theorems of [CuProps] and
    [CuFlow]. *)
From S2P Require Import Prelude GoNum GoText Asn1 Plmn Ies Net DuContext AmfContext UeContext CuState CuNgapOut CuRrc CuF1 CuNgapIn.

(** ** Reading a message off the wire *)
Ltac read_pdu := run; cbn [f1_Present f1_ProcedureCode f1_Msg ng_Present ng_ProcedureCode ng_Msg].

Section Wire.
Context `{CL : CodecLaws}.
#[local] Set Default Proof Using "Type CL".

Definition f1_delivers (raw : list Z) (present code : Z) (m : F1In) : Prop :=
  raw ≠ [] ∧ F1apDecode raw =
    (Some {| f1_Present := present; f1_ProcedureCode := code; f1_Msg := m |}, None).
Definition ng_delivers (raw : list Z) (present code : Z) (m : NgapIn) : Prop :=
  raw ≠ [] ∧ NgapDecode raw =
    (Some {| ng_Present := present; ng_ProcedureCode := code; ng_Msg := m |}, None).

Lemma dispatchF1_initiating raw code m s :
  f1_delivers raw F1apPduInitiatingMessage code m → code ≠ 0 →
  dispatchF1 raw s =
    (if code =? F1_ProcedureCode_F1Setup then
       match m with F1SetupRequestMsg m => handleF1SetupRequest m | _ => panics BadAssertion end
     else if code =? F1_ProcedureCode_InitialULRRCMessageTransfer then
       match m with
       | InitialULRRCMessageTransferMsg m => handleInitialULRRCMessageTransfer m
       | _ => Error "Failed to cast Initial UL RRC Message Transfer" end
     else if code =? F1_ProcedureCode_ULRRCMessageTransfer then
       match m with
       | ULRRCMessageTransferMsg m => handleULRRCMessageTransfer m
       | _ => Error "Failed to cast Initial UL RRC Message Transfer" end
     else Warn "Received unknown F1AP message with procedure code %d") s.
Proof.
  intros [Hr Hd] Hc. unfold dispatchF1. rewrite (zlen_nil _ Hr), Hd. read_pdu.
  rewrite (proj2 (Z.eqb_neq _ _) (proj1 f1_present_nonzero)), (proj2 (Z.eqb_neq _ _) Hc).
  by rewrite Z.eqb_refl.
Qed.

Lemma dispatchF1_setup raw m s :
  f1_delivers raw F1apPduInitiatingMessage F1_ProcedureCode_F1Setup (F1SetupRequestMsg m) →
  dispatchF1 raw s = handleF1SetupRequest m s.
Proof.
  intros H. rewrite (dispatchF1_initiating _ _ _ _ H) by apply f1_codes_nonzero.
  by rewrite Z.eqb_refl.
Qed.

Lemma dispatchF1_initial_ul raw m s :
  f1_delivers raw F1apPduInitiatingMessage F1_ProcedureCode_InitialULRRCMessageTransfer
    (InitialULRRCMessageTransferMsg m) →
  dispatchF1 raw s = handleInitialULRRCMessageTransfer m s.
Proof.
  intros H. rewrite (dispatchF1_initiating _ _ _ _ H) by apply f1_codes_nonzero.
  destruct (NoDup_eqb _ _ _ f1_codes_distinct) as (-> & _ & _).
  by rewrite Z.eqb_refl.
Qed.

Lemma dispatchF1_ul raw m s :
  f1_delivers raw F1apPduInitiatingMessage F1_ProcedureCode_ULRRCMessageTransfer
    (ULRRCMessageTransferMsg m) →
  dispatchF1 raw s = handleULRRCMessageTransfer m s.
Proof.
  intros H. rewrite (dispatchF1_initiating _ _ _ _ H) by apply f1_codes_nonzero.
  destruct (NoDup_eqb _ _ _ f1_codes_distinct) as (_ & -> & ->).
  by rewrite Z.eqb_refl.
Qed.

Lemma dispatchF1_ctx_setup raw s :
  f1_delivers raw F1apPduSuccessfulOutcome F1_ProcedureCode_UEContextSetup
    UEContextSetupResponseMsg →
  dispatchF1 raw s = handleRRCUEContextSetupResponse s.
Proof.
  intros [Hr Hd]. unfold dispatchF1. rewrite (zlen_nil _ Hr), Hd. read_pdu.
  rewrite (proj2 (Z.eqb_neq _ _) (proj2 f1_present_nonzero)).
  rewrite (proj2 (Z.eqb_neq _ 0)) by apply f1_codes_nonzero. cbn [orb].
  destruct (NoDup_eqb _ _ _ f1_present_distinct) as (-> & _ & _).
  by rewrite !Z.eqb_refl.
Qed.

Lemma dispatch_dl_nas amf raw m s :
  ng_delivers raw NgapPduInitiatingMessage NG_ProcedureCode_DownlinkNASTransport
    (DownlinkNASTransportMsg m) →
  dispatch amf raw s = handleNgDownlinkNasTransport amf m s.
Proof.
  intros [Hr Hd]. unfold dispatch. rewrite (zlen_nil _ Hr), Hd. read_pdu. by rewrite !Z.eqb_refl.
Qed.

Lemma dispatch_ctx_setup amf raw m s :
  ng_delivers raw NgapPduInitiatingMessage NG_ProcedureCode_InitialContextSetup
    (InitialContextSetupRequestMsg m) →
  dispatch amf raw s = handlerInitialContextSetupRequest m s.
Proof.
  intros [Hr Hd]. unfold dispatch. rewrite (zlen_nil _ Hr), Hd. read_pdu. rewrite !Z.eqb_refl.
  pose proof ng_codes_distinct. by rewrite (proj2 (Z.eqb_neq _ _)) by done.
Qed.

Lemma dispatch_ng_setup amf raw m s :
  ng_delivers raw NgapPduSuccessfulOutcome NG_ProcedureCode_NGSetup (NGSetupResponseMsg m) →
  dispatch amf raw s = handlerNgSetupResponse amf m s.
Proof.
  intros [Hr Hd]. unfold dispatch. rewrite (zlen_nil _ Hr), Hd. read_pdu.
  pose proof ng_present_distinct.
  by rewrite (proj2 (Z.eqb_neq _ NgapPduInitiatingMessage)), !Z.eqb_refl by done.
Qed.
End Wire.

(** ** Uplink and downlink *)
Section Runs.
Context `{CO : Codec}.

(** The configured identifiers decode without an error. *)
Record ids_hex (s : CuCpContext) : Prop := {
  hex_gnbid : (DecodeString (ng_gnbId (ci s))).2 = None;
  hex_tac : (DecodeString (tac (ci s))).2 = None
}.

(** The location information put in every uplink NAS message. *)
Definition uli_of (s : CuCpContext) : UserLocationInformationNR :=
  let plmn := PlmnIdToNgap (mcc (ci s)) (mnc (ci s)) in
  {| uli_NRCellIdentity :=
       {| Bytes := (DecodeString (ng_gnbId (ci s))).1 ++ [0; 0]; NumBits := 36 |};
     uli_NRCGI_PLMN := plmn; uli_TAI_PLMN := plmn; uli_TAC := [0x00; 0x00; 0x01] |}.

(** The NGAP message a NAS PDU of a UE travels in. *)
Definition nas_message (s : CuCpContext) (u : GNBUe) (nas : list Z) : NgapOut :=
  if ue_State u =? UE_INITIALIZED then
    InitialUEMessage (RanUeNgapId u) nas (uli_of s) RRCEstablishmentCauseMosignalling (Tmsi5gs u)
  else UplinkNASTransport (AmfUeNgapId u) (RanUeNgapId u) nas (uli_of s).

(** The state with UE context [u] at pointer [p]. *)
Definition put_ue (p : option loc) (u : GNBUe) (s : CuCpContext) : CuCpContext :=
  s <| ues := upd_at p (λ _, u) (ues s) |>.

Arguments put_ue : simpl never.
Lemma find_put_ue p u u0 s : find (ues s) p = Some u0 → find (ues (put_ue p u s)) p = Some u.
Proof. apply (find_upd_at _ _ (λ _, u)). Qed.

(** An update through a valid pointer stores the new object there. *)
Lemma upd_at_put {A} (st : store A) p f a :
  find st p = Some a → upd_at p f st = upd_at p (λ _, f a) st.
Proof.
  destruct p as [l|]; [|done]. unfold find, upd_at, store_alter. cbn. intros Hl. f_equal.
  apply map_eq. intros k. rewrite !lookup_alter. case_decide; [subst|done]. by rewrite Hl.
Qed.
Lemma upd_at_same {A} (st : store A) p a : find st p = Some a → upd_at p (λ _, a) st = st.
Proof.
  destruct p as [l|], st as [h b]; [|done]. unfold find, upd_at, store_alter. cbn. intros Hl.
  f_equal. apply map_eq. intros k. rewrite !lookup_alter. case_decide; [subst|done].
  by rewrite Hl.
Qed.
Lemma upd_at_twice {A} (st : store A) p (a b : A) :
  upd_at p (λ _, b) (upd_at p (λ _, a) st) = upd_at p (λ _, b) st.
Proof.
  destruct p as [l|], st as [h k]; [|done]. unfold upd_at, store_alter. cbn.
  f_equal. apply map_eq. intros j. rewrite !lookup_alter. case_decide; [|done].
  rewrite decide_True by done. by destruct (h !! l).
Qed.

Lemma put_ue_same p u s : find (ues s) p = Some u → put_ue p u s = s.
Proof. intros H. unfold put_ue. rewrite upd_at_same by done. by destruct s. Qed.
Lemma put_put_ue p u v s : put_ue p v (put_ue p u s) = put_ue p v s.
Proof. unfold put_ue. cbn. by rewrite upd_at_twice. Qed.
Lemma run_with_ue {B} p f (k : unit → CU B) u s :
  find (ues s) p = Some u → (upd_ue p f ≫= k) s = k tt (put_ue p (f u) s).
Proof. intros H. rewrite run_upd_ue. unfold put_ue. by rewrite (upd_at_put _ _ f u). Qed.

Lemma run_GetNRCellIdentity {B} (k : BitString → CU B) s :
  ids_hex s →
  (GetNRCellIdentity ≫= k) s =
    k {| Bytes := (DecodeString (ng_gnbId (ci s))).1 ++ [0; 0]; NumBits := 36 |} s.
Proof. intros []. unfold GetNRCellIdentity. run. by rewrite run_getGnbId. Qed.

Lemma run_GetPLMNIdentity {B} (k : list Z → CU B) s :
  (GetPLMNIdentity ≫= k) s = k (PlmnIdToNgap (mcc (ci s)) (mnc (ci s))) s.
Proof. unfold GetPLMNIdentity. by run. Qed.

(** [SendNasPdu]: one write to the AMF, of the message [nas_message]; the UE leaves
    state [UE_INITIALIZED]. *)
Lemma SendNasPdu_run nas ue amf s u a k buf :
  find (ues s) ue = Some u → ue_State u ∈ [UE_INITIALIZED; UE_ONGOING; UE_READY] →
  find (amfs s) amf = Some a → connected a k → ids_hex s →
  NgapEncode (nas_message s u nas) = (buf, None) →
  SendNasPdu nas ue amf s =
    (push (EvWrite k NGAP_PPID buf)
       (if ue_State u =? UE_INITIALIZED
        then put_ue ue (u <| ue_State := UE_ONGOING |>) s else s), Ok tt).
Proof.
  intros Hu Hst Ha Hk Hx Henc. pose proof Hx as [Hg Ht]. unfold SendNasPdu, nas_message in *.
  rewrite (run_get_ue _ u) by done. destruct (ue_State u =? UE_INITIALIZED) eqn:E.
  - unfold ngInitialUEMessage. run. rewrite run_getTac by done. run. rewrite run_GetPLMNIdentity.
    run. rewrite run_GetNRCellIdentity by done. run. rewrite (run_get_ue _ u) by done. run.
    fold (uli_of s). rewrite Henc. cbn. unfold send_to_amf.
    rewrite (run_with_ue _ _ _ u) by done. rewrite (run_get_amf _ a) by done.
    by rewrite (bind_Ok _ _ _ _ _ (SendNgap_run _ _ _ _ Hk)).
  - assert ((ue_State u =? UE_ONGOING) || (ue_State u =? UE_READY) = true) as ->.
    { repeat setoid_rewrite elem_of_cons in Hst. rewrite elem_of_nil in Hst. lia. }
    unfold ngUplinkNasTransport. run. rewrite (run_get_ue _ u) by done. run.
    rewrite run_GetNRCellIdentity by done. do 2 (run; rewrite run_GetPLMNIdentity). run.
    rewrite run_getTac by done. run.
    fold (uli_of s). rewrite Henc. unfold send_to_amf. rewrite (run_get_amf _ a) by done.
    by rewrite (bind_Ok _ _ _ _ _ (SendNgap_run _ _ _ _ Hk)).
Qed.

(** Associations that are up and accept the write. *)
Definition ready_amf (s : CuCpContext) (amf : option loc) (k : Z) : Prop :=
  ∃ a, find (amfs s) amf = Some a ∧ connected a k.
Definition ready_du (s : CuCpContext) (du : option loc) (d : GNBDU) (k : Z) : Prop :=
  find (dus s) du = Some d ∧ SctpConn d = Some k.
Definition writes_ok : Prop := ∀ h k pdu, SCTPWrite h k pdu = None.

Lemma run_SendNasPdu {B} nas ue amf s u k buf (c : unit → CU B) :
  find (ues s) ue = Some u → ue_State u ∈ [UE_INITIALIZED; UE_ONGOING; UE_READY] →
  ready_amf s amf k → ids_hex s → NgapEncode (nas_message s u nas) = (buf, None) →
  (SendNasPdu nas ue amf ≫= c) s =
    c tt (push (EvWrite k NGAP_PPID buf)
       (if ue_State u =? UE_INITIALIZED
        then put_ue ue (u <| ue_State := UE_ONGOING |>) s else s)).
Proof.
  intros Hu Hst (a & Ha & Hk) Hx Henc. apply bind_Ok. by apply (SendNasPdu_run _ _ _ _ u a).
Qed.

Lemma run_SendF1ap {B} d k pdu s (c : option string → CU B) :
  SctpConn d = Some k → writes_ok →
  (SendF1ap d pdu ≫= c) s = c None (push (EvWrite k F1AP_PPID pdu) s).
Proof.
  intros Hk Hw. apply bind_Ok. rewrite (SendF1ap_run _ _ _ _ Hk). by rewrite (Hw _ k pdu).
Qed.

Lemma run_SendNgap {B} a k pdu s (c : option string → CU B) :
  connected a k → (SendNgap a pdu ≫= c) s = c None (push (EvWrite k NGAP_PPID pdu) s).
Proof. intros Hk. apply bind_Ok. by apply SendNgap_run. Qed.

(** *** UL information transfer *)
Lemma handleULInformationTransfer_run ue nas s u k buf :
  find (ues s) ue = Some u → ready_amf s (AMF s) k → ids_hex s →
  NgapEncode (UplinkNASTransport (AmfUeNgapId u) (RanUeNgapId u) nas (uli_of s)) = (buf, None) →
  handleULInformationTransfer ue (Some (Some nas)) s =
    (push (EvWrite k NGAP_PPID buf) (put_ue ue (u <| ue_State := UE_ONGOING |>) s), Ok None).
Proof.
  intros Hu Ha Hx Henc. unfold handleULInformationTransfer.
  rewrite (run_get_ue _ u) by done. rewrite (run_with_ue _ _ _ u) by done. run.
  rewrite (run_SendNasPdu _ _ _ _ (u <| ue_State := UE_ONGOING |>) k buf); try done.
  - by eapply find_put_ue.
  - set_solver.
  - by destruct Hx.
Qed.

(** *** RRC Setup Complete *)
(** The 5G-S-TMSI bytes the message gives, [[]] when it gives none; and what they
    make of the UE context; [None] for a nil dereference and for bytes that do not
    decode. *)
Definition tmsi_bytes (u : GNBUe) (tv : TmsiValue) : option (list Z) :=
  match tv_Choice tv, Tmsi5gs_part1 u with
  | TmsiPart2, Some part1 => Some (Build5GSTMSI (tv_Part2 tv) part1)
  | TmsiFull, _ => Bytes <$> tv_Tmsi tv
  | _, _ => Some []
  end.
Definition tmsi_step (u : GNBUe) (v : option TmsiValue) : option GNBUe :=
  match v with
  | None => Some u
  | Some tv =>
      bs ← tmsi_bytes u tv;
      if 0 <? zlen bs then
        match Decode5GSTMSI bs with
        | inl t => Some (u <| Tmsi5gs := Some t |> <| Random_ue_identity := bs |>)
        | inr _ => None
        end
      else Some u
  end.

Lemma setup_complete_tmsi_run u tv bs s :
  tmsi_bytes u tv = Some bs → setup_complete_tmsi u tv s = (s, Ok bs).
Proof.
  unfold tmsi_bytes, setup_complete_tmsi.
  destruct (tv_Choice tv), (Tmsi5gs_part1 u), (tv_Tmsi tv); cbn; by intros [= <-].
Qed.

Lemma handleRrcSetupComplete_run ue v nas s u u' k buf :
  find (ues s) ue = Some u → tmsi_step u v = Some u' →
  ready_amf s (AMF s) k → ids_hex s →
  NgapEncode (InitialUEMessage (RanUeNgapId u') nas (uli_of s)
    RRCEstablishmentCauseMosignalling (Tmsi5gs u')) = (buf, None) →
  handleRrcSetupComplete ue
    (Some {| rsc_Ng_5G_S_TMSI_Value := v; rsc_DedicatedNAS_Message := Some nas |}) s =
  (push (EvWrite k NGAP_PPID buf) (put_ue ue (u' <| ue_State := UE_ONGOING |>) s), Ok None).
Proof.
  intros Hu Hv Ha Hx Henc. unfold handleRrcSetupComplete. run. cbn [rsc_Ng_5G_S_TMSI_Value].
  rewrite (bind_Ok _ _ _ (put_ue ue u' s) None).
  - rewrite (run_get_ue _ u') by by eapply find_put_ue.
    rewrite (run_with_ue _ _ _ u') by by eapply find_put_ue. run. cbn [rsc_DedicatedNAS_Message].
    run. rewrite (run_SendNasPdu _ _ _ _ (u' <| ue_State := UE_INITIALIZED |>) k buf); try done.
    + cbn. by rewrite !put_put_ue.
    + by repeat eapply find_put_ue.
    + set_solver.
    + by destruct Hx.
  - unfold tmsi_step in Hv. destruct v as [tv|].
    2:{ injection Hv as <-. by rewrite put_ue_same. }
    apply bind_Some in Hv as (bs & Hbs & Hv). rewrite (run_get_ue _ u) by done.
    rewrite (bind_Ok _ _ _ _ _ (setup_complete_tmsi_run _ _ _ _ Hbs)).
    destruct (0 <? zlen bs); [|injection Hv as <-; by rewrite put_ue_same].
    destruct (Decode5GSTMSI bs) as [t|e]; [|done]. injection Hv as <-.
    by rewrite (run_with_ue _ _ _ u).
Qed.

(** *** Security mode complete: the UE Context Setup Request *)
Definition ue_context_setup (u : GNBUe) (plmn : list Z) (cell : BitString) : F1Out :=
  UEContextSetupRequestOut
    {| ucs_GNBCUUEF1APID := i64 (RrcUeId u); ucs_GNBDUUEF1APID := Some (i64 (DuUeId u));
       ucs_SpCellID := {| PLMNIdentity := plmn; NRCellIdentity := cell |};
       ucs_ServCellIndex := 0; ucs_CGConfigInfo := [0x00];
       ucs_SRBsToBeSetupList := [2]; ucs_DRBsToBeSetupList := [0];
       ucs_SidelinkAMBR := 1000000000; ucs_CHOTrigger := CHOtriggerInterDUChoinitiation |}.

Lemma handleRRCSecurityModeComplete_run ue s u plmn cell d k buf :
  find (ues s) ue = Some u → GetMccAndMncInOctets (mcc (ci s)) (mnc (ci s)) = Ok plmn →
  NrCellId u = Some cell → ready_du s (DU s) d k → writes_ok →
  F1apEncode (ue_context_setup u plmn cell) = (buf, None) →
  handleRRCSecurityModeComplete ue s = (push (EvWrite k F1AP_PPID buf) s, Ok None).
Proof.
  intros Hu Hp Hc [Hd Hk] Hw Henc. unfold handleRRCSecurityModeComplete.
  rewrite (run_get_ue _ u) by done. unfold cuGetMccAndMncInOctets. run. cbn [id].
  rewrite Hp. run. rewrite Hc. run. unfold ue_context_setup in Henc. rewrite Henc. run.
  rewrite (run_get_du _ d) by done. by rewrite (run_SendF1ap _ k).
Qed.

(** *** RRC Reconfiguration Complete *)
Lemma handleRRCReconfigurationComplete_run ue s u k buf :
  find (ues s) ue = Some u → ready_amf s (AMF s) k →
  NgapEncode (InitialContextSetupResponse (AmfUeNgapId u) (RanUeNgapId u)) = (buf, None) →
  handleRRCReconfigurationComplete ue s =
    (push (EvWrite k NGAP_PPID buf) (put_ue ue (u <| ue_State := UE_READY |>) s), Ok None).
Proof.
  intros Hu (a & Ha & Hk) Henc. unfold handleRRCReconfigurationComplete.
  rewrite (run_get_ue _ u) by done. rewrite (run_with_ue _ _ _ u) by done.
  rewrite (run_get_ue _ (u <| ue_State := UE_READY |>)) by by eapply find_put_ue.
  cbn [AmfUeNgapId RanUeNgapId set_field]. rewrite Henc. run.
  rewrite (run_get_amf _ a) by done. by rewrite (run_SendNgap _ k).
Qed.

(** *** UE Context Setup Response: the RRC Reconfiguration, as raw RRC bytes *)
Lemma handleRRCUEContextSetupResponse_run s u d k cg buf :
  find (ues s) (UE s) = Some u → ready_du s (DU s) d k → writes_ok →
  RrcEncodeCellGroup (MasterCellGroup u) = Ok (cg, None) →
  RrcEncode (rrc_reconfiguration_pdu cg (RegistrationAccept u)) = (buf, None) →
  handleRRCUEContextSetupResponse s = (push (EvWrite k F1AP_PPID buf) s, Ok tt).
Proof.
  intros Hu [Hd Hk] Hw Hcg Henc. unfold handleRRCUEContextSetupResponse. run.
  rewrite (run_get_ue _ u) by done. rewrite Hcg. run. rewrite Henc. run.
  rewrite (run_get_du _ d) by done. by rewrite (run_SendF1ap _ k).
Qed.

(** *** Downlink NAS *)
Lemma handleNgDownlinkNasTransport_run amf m s u a d k rrc buf :
  find (ues s) (UE s) = Some u → find (amfs s) amf = Some a → ready_du s (DU s) d k →
  writes_ok → RrcEncode (DL_DCCH_DlInformationTransfer 0 (dnt_NASPDU m)) = (rrc, None) →
  F1apEncode (dl_nas_transfer (AmfId a) (DuId d) rrc) = (buf, None) →
  handleNgDownlinkNasTransport amf m s =
    (push (EvWrite k F1AP_PPID buf)
       (put_ue (UE s) (u <| AmfUeNgapId := dnt_AMFUENGAPID m |>) s), Ok tt).
Proof.
  intros Hu Ha [Hd Hk] Hw Hrrc Henc. unfold handleNgDownlinkNasTransport. run.
  rewrite (run_get_ue _ u) by done. rewrite (run_with_ue _ _ _ u) by done. rewrite Hrrc.
  rewrite (run_get_amf _ a) by done. rewrite (run_get_du _ d) by done. rewrite Henc. run.
  by rewrite (run_SendF1ap _ k).
Qed.

(** *** Initial Context Setup Request *)
Lemma handlerInitialContextSetupRequest_run m s u u' :
  find (ues s) (UE s) = Some u →
  CreateUeContext u (informed_or (ics_MobilityRestrictionList m))
    (match ics_MaskedIMEISV m with
     | None => "not informed"%string | Some v => fmt_x_imeisv v end)
    (map snssai_text (ics_AllowedNSSAI m)) (Some (ics_UESecurityCapabilities m)) = Ok u' →
  handlerInitialContextSetupRequest m s =
    (put_ue (UE s) (u' <| RegistrationAccept := ics_NASPDU m |>) s, Ok tt).
Proof.
  intros Hu Hc. unfold handlerInitialContextSetupRequest. run.
  rewrite (run_call_ue _ _ u u') by done. fold (put_ue (UE s) u' s).
  unfold upd_ue, modify. rewrite (upd_at_put _ _ _ u') by by eapply find_put_ue.
  fold (put_ue (UE s) (u' <| RegistrationAccept := ics_NASPDU m |>) (put_ue (UE s) u' s)).
  by rewrite put_put_ue.
Qed.

(** *** UL RRC Message Transfer: the guards *)
Lemma handleULRRCMessageTransfer_run m s u c1 :
  find (ues s) (UE s) = Some u → u64 (ul_GNBDUUEF1APID m) = DuUeId u → 1 ≤ ul_SRBID m →
  RrcDecodeUlDcch (ul_RRCContainer m) = inl {| dcch_Choice := 1; dcch_C1 := Some c1 |} →
  handleULRRCMessageTransfer m s = handle_ul_dcch_c1 (UE s) c1 s.
Proof.
  intros Hu Hid Hsrb Hdec. unfold handleULRRCMessageTransfer. run.
  rewrite (run_get_ue _ u) by done. rewrite Hid, Z.eqb_refl. cbn [negb].
  rewrite (proj2 (Z.ltb_ge _ _)) by lia. by rewrite Hdec.
Qed.

(** *** RRC Setup Request *)
Lemma find_with_new_ue u s : find (ues (with_new_ue u s)) (UE (with_new_ue u s)) = Some u.
Proof. cbn. by rewrite lookup_insert_eq. Qed.

Lemma put_with_new_ue u v s :
  put_ue (Some (brk (ues s))) v (with_new_ue u s) = with_new_ue v s.
Proof.
  unfold put_ue, with_new_ue. cbn. unfold store_alter. cbn. do 2 f_equal.
  apply map_eq. intros k. rewrite lookup_alter, !lookup_insert.
  case_decide; [|done]. by rewrite decide_True.
Qed.

Definition request_identity (r : RRCSetupRequest_IEs) : list Z :=
  match rsr_Choice r with Ng_5G_S_TMSI_Part1 => Bytes (rsr_Ng_5G_S_TMSI_Part1 r) | _ => [] end.

(** The context of a UE whose RRC Setup Request was served. *)
Definition requested_ue (s : CuCpContext) (d : GNBDU) (a : GNBAmf) (r : RRCSetupRequest_IEs)
    (m : InitialULRRCMessageTransfer) (cg : CellGroupConfig) : GNBUe :=
  let u := new_ue (DuId d) (iul_CRNTI m) (request_identity r) (iul_GNBDUUEF1APID m)
             (IdRrcUeGenerator s) (AmfId a) in
  u <| Tmsi5gs_part1 :=
         match rsr_Choice r with
         | Ng_5G_S_TMSI_Part1 => Some (rsr_Ng_5G_S_TMSI_Part1 r) | _ => None end |>
    <| MasterCellGroup := Some cg |>
    <| EstablishmentCause := Some (rsr_EstablishmentCause r) |>
    <| NrCellId := Some (NRCellIdentity (iul_NRCGI m)) |>.

Lemma handleRRCSetupRequest_run du r m s d a k container cg rrc buf :
  rsr_Choice r ≠ OtherIdentity →
  find (amfs s) (AMF s) = Some a → ready_du s du d k → writes_ok →
  iul_DUtoCURRCContainer m = Some container → RrcDecodeCellGroup container = inl cg →
  RrcEncode (rrc_setup_pdu container) = (rrc, None) →
  F1apEncode (dl_rrc_setup (u64 (IdRrcUeGenerator s)) (u64 (iul_GNBDUUEF1APID m)) rrc)
    = (buf, None) →
  handleRRCSetupRequest du r m s =
    (push (EvWrite k F1AP_PPID buf) (with_new_ue (requested_ue s d a r m cg) s), Ok None).
Proof.
  intros Hch Ha [Hd Hk] Hw Hcont Hcg Hrrc Henc. unfold handleRRCSetupRequest.
  rewrite (run_get_du _ d) by done.
  set (u0 := new_ue (DuId d) (iul_CRNTI m) (request_identity r) (iul_GNBDUUEF1APID m)
             (IdRrcUeGenerator s) (AmfId a)).
  set (u1 := u0 <| Tmsi5gs_part1 :=
         match rsr_Choice r with
         | Ng_5G_S_TMSI_Part1 => Some (rsr_Ng_5G_S_TMSI_Part1 r) | _ => None end |>).
  rewrite (bind_Ok _ _ _ (with_new_ue u1 s) (Some (brk (ues s)), None)).
  - rewrite Hcont, Hcg. rewrite (run_with_ue _ _ _ u1) by apply find_with_new_ue.
    rewrite put_with_new_ue. rewrite (run_with_ue _ _ _ (u1 <| MasterCellGroup := Some cg |>))
      by apply find_with_new_ue.
    rewrite put_with_new_ue, Hrrc.
    set (u2 := requested_ue s d a r m cg).
    match goal with |- context [with_new_ue ?v s] => change (with_new_ue v s) with (with_new_ue u2 s) end.
    rewrite (run_get_ue _ u2) by apply find_with_new_ue.
    change (RrcUeId u2) with (u64 (IdRrcUeGenerator s)).
    change (DuUeId u2) with (u64 (iul_GNBDUUEF1APID m)). rewrite Henc.
    rewrite (run_get_du _ d) by exact Hd.
    rewrite (SendF1ap_run _ _ _ _ Hk). by rewrite Hw.
  - unfold u1, u0, request_identity.
    destruct (rsr_Choice r); [| |done]; rewrite (bind_Ok _ _ _ _ _ (createUE_eq _ _ _ _ _ a Ha));
      [done|]. erewrite run_with_ue by apply find_with_new_ue.
    by rewrite put_with_new_ue.
Qed.

Lemma handleInitialULRRCMessageTransfer_run m r s s' :
  RrcDecodeUlCcch (iul_RRCContainer m) = inl {| ccch_C1 := Some (Some r) |} →
  handleRRCSetupRequest (DU s) r m s = (s', Ok None) →
  handleInitialULRRCMessageTransfer m s = (s', Ok tt).
Proof.
  intros Hdec H. unfold handleInitialULRRCMessageTransfer. run. rewrite Hdec. run.
  cbn [ccch_C1]. run. by rewrite (bind_Ok _ _ _ _ _ H).
Qed.
End Runs.

(** ** From the wire to the handler of an uplink RRC message *)
Section Uplink.
Context `{CL : CodecLaws}.
#[local] Set Default Proof Using "Type CL".

(** [raw] carries a UL-DCCH message [c1] of the UE whose context is [u]. *)
Definition ul_delivers (raw : list Z) (u : GNBUe) (c1 : UL_DCCH_C1) : Prop :=
  ∃ m, f1_delivers raw F1apPduInitiatingMessage F1_ProcedureCode_ULRRCMessageTransfer
         (ULRRCMessageTransferMsg m) ∧
    u64 (ul_GNBDUUEF1APID m) = DuUeId u ∧ 1 ≤ ul_SRBID m ∧
    RrcDecodeUlDcch (ul_RRCContainer m) = inl {| dcch_Choice := 1; dcch_C1 := Some c1 |}.

Lemma dispatchF1_ul_c1 raw u c1 s :
  ul_delivers raw u c1 → find (ues s) (UE s) = Some u →
  dispatchF1 raw s = handle_ul_dcch_c1 (UE s) c1 s.
Proof.
  intros (m & Hm & Hid & Hs & Hd) Hu. rewrite (dispatchF1_ul _ m) by done.
  by apply (handleULRRCMessageTransfer_run _ _ u).
Qed.

Definition initial_delivers (raw : list Z) (m : InitialULRRCMessageTransfer)
    (r : RRCSetupRequest_IEs) : Prop :=
  f1_delivers raw F1apPduInitiatingMessage F1_ProcedureCode_InitialULRRCMessageTransfer
    (InitialULRRCMessageTransferMsg m) ∧
  RrcDecodeUlCcch (iul_RRCContainer m) = inl {| ccch_C1 := Some (Some r) |}.

(** The C1 messages of the registration. *)
Definition c1_setup_complete (v : option TmsiValue) (nas : list Z) : UL_DCCH_C1 :=
  {| c1_Choice := C1_RrcSetupComplete;
     c1_RrcSetupComplete := Some (Some
       {| rsc_Ng_5G_S_TMSI_Value := v; rsc_DedicatedNAS_Message := Some nas |});
     c1_UlInformationTransfer := None; c1_SecurityModeComplete := None;
     c1_RrcReconfigurationComplete := None |}.
Definition c1_ul_information (nas : list Z) : UL_DCCH_C1 :=
  {| c1_Choice := C1_UlInformationTransfer; c1_RrcSetupComplete := None;
     c1_UlInformationTransfer := Some (Some (Some nas)); c1_SecurityModeComplete := None;
     c1_RrcReconfigurationComplete := None |}.
Definition c1_security_complete : UL_DCCH_C1 :=
  {| c1_Choice := C1_SecurityModeComplete; c1_RrcSetupComplete := None;
     c1_UlInformationTransfer := None; c1_SecurityModeComplete := Some tt;
     c1_RrcReconfigurationComplete := None |}.
Definition c1_reconfiguration_complete : UL_DCCH_C1 :=
  {| c1_Choice := C1_RrcReconfigurationComplete; c1_RrcSetupComplete := None;
     c1_UlInformationTransfer := None; c1_SecurityModeComplete := None;
     c1_RrcReconfigurationComplete := Some tt |}.

Lemma log_err_None {B} f (k : unit → CU B) s : (log_err None f ≫= k) s = k tt s.
Proof. done. Qed.

(** A handler of [handle_ul_dcch_c1] that returns no error. *)
Lemma no_error (h : CU (option string)) f s s' :
  h s = (s', Ok None) → (err ← h; log_err err f) s = (s', Ok tt).
Proof. intros H. by rewrite (bind_Ok _ _ _ _ _ H). Qed.

(** *** One lemma per message of the registration *)
Lemma step_rrc_setup raw m r s d a k container cg rrc buf :
  initial_delivers raw m r → rsr_Choice r ≠ OtherIdentity →
  find (amfs s) (AMF s) = Some a → ready_du s (DU s) d k → writes_ok →
  iul_DUtoCURRCContainer m = Some container → RrcDecodeCellGroup container = inl cg →
  RrcEncode (rrc_setup_pdu container) = (rrc, None) →
  F1apEncode (dl_rrc_setup (u64 (IdRrcUeGenerator s)) (u64 (iul_GNBDUUEF1APID m)) rrc)
    = (buf, None) →
  dispatchF1 raw s =
    (push (EvWrite k F1AP_PPID buf) (with_new_ue (requested_ue s d a r m cg) s), Ok tt).
Proof.
  intros [Hraw Hdec]. intros. rewrite (dispatchF1_initial_ul _ m) by done.
  apply (handleInitialULRRCMessageTransfer_run _ r); [done|].
  by eapply handleRRCSetupRequest_run.
Qed.

Lemma step_setup_complete raw v nas s u u' k buf :
  ul_delivers raw u (c1_setup_complete v nas) → find (ues s) (UE s) = Some u →
  tmsi_step u v = Some u' → ready_amf s (AMF s) k → ids_hex s →
  NgapEncode (InitialUEMessage (RanUeNgapId u') nas (uli_of s)
    RRCEstablishmentCauseMosignalling (Tmsi5gs u')) = (buf, None) →
  dispatchF1 raw s =
    (push (EvWrite k NGAP_PPID buf) (put_ue (UE s) (u' <| ue_State := UE_ONGOING |>) s), Ok tt).
Proof.
  intros Hraw Hu. intros. rewrite (dispatchF1_ul_c1 _ u _ _ Hraw Hu).
  apply no_error. by eapply handleRrcSetupComplete_run.
Qed.

Lemma step_ul_information raw nas s u k buf :
  ul_delivers raw u (c1_ul_information nas) → find (ues s) (UE s) = Some u →
  ready_amf s (AMF s) k → ids_hex s →
  NgapEncode (UplinkNASTransport (AmfUeNgapId u) (RanUeNgapId u) nas (uli_of s)) = (buf, None) →
  dispatchF1 raw s =
    (push (EvWrite k NGAP_PPID buf) (put_ue (UE s) (u <| ue_State := UE_ONGOING |>) s), Ok tt).
Proof.
  intros Hraw Hu. intros. rewrite (dispatchF1_ul_c1 _ u _ _ Hraw Hu).
  apply no_error. by apply handleULInformationTransfer_run.
Qed.

Lemma step_security_complete raw s u plmn cell d k buf :
  ul_delivers raw u c1_security_complete → find (ues s) (UE s) = Some u →
  GetMccAndMncInOctets (mcc (ci s)) (mnc (ci s)) = Ok plmn →
  NrCellId u = Some cell → ready_du s (DU s) d k → writes_ok →
  F1apEncode (ue_context_setup u plmn cell) = (buf, None) →
  dispatchF1 raw s = (push (EvWrite k F1AP_PPID buf) s, Ok tt).
Proof.
  intros Hraw Hu. intros. rewrite (dispatchF1_ul_c1 _ u _ _ Hraw Hu).
  apply no_error. by eapply handleRRCSecurityModeComplete_run.
Qed.

Lemma step_reconfiguration_complete raw s u k buf :
  ul_delivers raw u c1_reconfiguration_complete → find (ues s) (UE s) = Some u →
  ready_amf s (AMF s) k →
  NgapEncode (InitialContextSetupResponse (AmfUeNgapId u) (RanUeNgapId u)) = (buf, None) →
  dispatchF1 raw s =
    (push (EvWrite k NGAP_PPID buf) (put_ue (UE s) (u <| ue_State := UE_READY |>) s), Ok tt).
Proof.
  intros Hraw Hu. intros. rewrite (dispatchF1_ul_c1 _ u _ _ Hraw Hu).
  apply no_error. by apply handleRRCReconfigurationComplete_run.
Qed.

Lemma step_downlink raw amf m s u a d k rrc buf :
  ng_delivers raw NgapPduInitiatingMessage NG_ProcedureCode_DownlinkNASTransport
    (DownlinkNASTransportMsg m) →
  find (ues s) (UE s) = Some u → find (amfs s) amf = Some a → ready_du s (DU s) d k →
  writes_ok → RrcEncode (DL_DCCH_DlInformationTransfer 0 (dnt_NASPDU m)) = (rrc, None) →
  F1apEncode (dl_nas_transfer (AmfId a) (DuId d) rrc) = (buf, None) →
  dispatch amf raw s =
    (push (EvWrite k F1AP_PPID buf)
       (put_ue (UE s) (u <| AmfUeNgapId := dnt_AMFUENGAPID m |>) s), Ok tt).
Proof.
  intros. rewrite (dispatch_dl_nas _ _ m) by done. by eapply handleNgDownlinkNasTransport_run.
Qed.

Lemma step_context raw amf m s u u' :
  ng_delivers raw NgapPduInitiatingMessage NG_ProcedureCode_InitialContextSetup
    (InitialContextSetupRequestMsg m) →
  find (ues s) (UE s) = Some u →
  CreateUeContext u (informed_or (ics_MobilityRestrictionList m))
    (match ics_MaskedIMEISV m with
     | None => "not informed"%string | Some v => fmt_x_imeisv v end)
    (map snssai_text (ics_AllowedNSSAI m)) (Some (ics_UESecurityCapabilities m)) = Ok u' →
  dispatch amf raw s = (put_ue (UE s) (u' <| RegistrationAccept := ics_NASPDU m |>) s, Ok tt).
Proof.
  intros. rewrite (dispatch_ctx_setup _ _ m) by done.
  by eapply handlerInitialContextSetupRequest_run.
Qed.

Lemma step_context_response raw s u d k cg buf :
  f1_delivers raw F1apPduSuccessfulOutcome F1_ProcedureCode_UEContextSetup
    UEContextSetupResponseMsg →
  find (ues s) (UE s) = Some u → ready_du s (DU s) d k → writes_ok →
  RrcEncodeCellGroup (MasterCellGroup u) = Ok (cg, None) →
  RrcEncode (rrc_reconfiguration_pdu cg (RegistrationAccept u)) = (buf, None) →
  dispatchF1 raw s = (push (EvWrite k F1AP_PPID buf) s, Ok tt).
Proof.
  intros. rewrite dispatchF1_ctx_setup by done. by eapply handleRRCUEContextSetupResponse_run.
Qed.
End Uplink.
