(* ===== verification/Sample.v ===== *)
(** A concrete codec, on which the witnesses evaluate: messages are looked up by the
    first byte of a buffer, encoders tag and concatenate the fields, and every SCTP
    write succeeds.  The constants are those of TS 38.473 and TS 38.413.  A small
    CU-CP state with one AMF (association 7) and one DU (association 5) goes with it. *)
From S2P Require Import Prelude GoNum GoText Config Asn1 Plmn Ies Net DuContext AmfContext UeContext CuState CuNas.

Module Sample.
#[export] Instance ie : IeTypes :=
  {| CellGroupConfig := list Z; EstablishmentCause_t := Z; UESecurityCapabilities_t := Z;
     MaskedIMEISV_t := list Z; RRCVersion := Z; Cause := Z |}.

Definition pick {A} (l : list A) (raw : list Z) : option A :=
  match raw with [] => None | k :: _ => l !! Z.to_nat k end.
Definition decode {A} (l : list A) (raw : list Z) : option A * option string :=
  match pick l raw with
  | Some a => (Some a, None) | None => (None, Some "cannot decode"%string) end.
Definition decode' {A} (l : list A) (raw : list Z) : A + string :=
  match pick l raw with Some a => inl a | None => inr "cannot decode"%string end.

Definition enc_f1 (m : F1Out) : list Z :=
  match m with
  | F1SetupResponse t v cs name => [1; t; v; zlen cs] ++ name
  | DLRRCMessageTransferOut m =>
      [2; dl_GNBCUUEF1APID m; dl_GNBDUUEF1APID m; dl_SRBID m] ++ dl_RRCContainer m
  | UEContextSetupRequestOut m =>
      [3; ucs_GNBCUUEF1APID m; default 0 (ucs_GNBDUUEF1APID m)]
        ++ Bytes (NRCellIdentity (ucs_SpCellID m))
  end.
Definition enc_ng (m : NgapOut) : list Z :=
  match m with
  | NGSetupRequestOut m => 10 :: Bytes (nsq_GNBID m) ++ nsq_TAC m
  | InitialUEMessage r nas uli _ _ => [11; r] ++ nas
  | UplinkNASTransport a r nas uli => [12; a; r] ++ nas
  | InitialContextSetupResponse a r => [13; a; r]
  end.
Definition enc_rrc (m : RrcDl) : list Z :=
  match m with
  | DL_CCCH_RrcSetup m => 20 :: rs_MasterCellGroup m
  | DL_DCCH_DlInformationTransfer t nas => [21; t] ++ nas
  | DL_DCCH_RrcReconfiguration m => 22 :: rr_MasterCellGroup m ++ concat (rr_DedicatedNAS_MessageList m)
  end.

Definition codec (f1s : list F1apPdu) (ngs : list NgapPdu) (ccchs : list UL_CCCH_Message)
    (dcchs : list UL_DCCH_Message) : Codec :=
  {| F1apDecode := decode f1s; F1apEncode m := (enc_f1 m, None);
     NgapDecode := decode ngs; NgapEncode m := (enc_ng m, None);
     RrcDecodeUlCcch := decode' ccchs; RrcDecodeUlDcch := decode' dcchs;
     RrcDecodeCellGroup b := inl b; RrcEncode m := (enc_rrc m, None);
     RrcEncodeCellGroup cg := match cg with Some b => Ok (b, None) | None => Panic NilDeref end;
     F1SetupFailureEncode t c := ([4; t; c], None); CauseMiscUnspecified := 0;
     PlmnIdToNgap m n := str_bytes m ++ str_bytes n; fmt_x_imeisv := fmt_x;
     SCTPWrite _ _ _ := None; SCTPListen _ := inl 1;
     CHOtriggerInterDUChoinitiation := 0; RRCEstablishmentCauseMosignalling := 3;
     PagingDRXV128 := 2; F1apPduInitiatingMessage := 1; F1apPduSuccessfulOutcome := 2;
     F1apPduUnsuccessfulOutcome := 3; F1_ProcedureCode_F1Setup := 1;
     F1_ProcedureCode_InitialULRRCMessageTransfer := 11;
     F1_ProcedureCode_ULRRCMessageTransfer := 13; F1_ProcedureCode_UEContextSetup := 5;
     NgapPduInitiatingMessage := 1; NgapPduSuccessfulOutcome := 2;
     NG_ProcedureCode_DownlinkNASTransport := 4; NG_ProcedureCode_InitialContextSetup := 14;
     NG_ProcedureCode_NGSetup := 21 |}.

#[export] Instance codec_laws f1s ngs ccchs dcchs :
  CodecLaws (CO := codec f1s ngs ccchs dcchs).
Proof.
  constructor; cbn; try done; repeat split; try done;
    repeat first [apply NoDup_nil_2 | apply NoDup_cons_2; [set_solver|]].
Defined.

Definition cells_of (plmns : list (list Z)) : ServedCellItem :=
  {| item_ServedCellInformation :=
       {| sci_NRCGI := {| PLMNIdentity := [0; 241; 16];
            NRCellIdentity := {| Bytes := [0; 0; 0; 1; 16]; NumBits := 36 |} |};
          sci_NRPCI := 3; sci_FiveGSTAC := [0; 0; 1]; sci_ServedPLMNs := plmns;
          sci_MeasurementTimingConfiguration := [9] |};
     item_GNBDUSystemInformation := None |}.
Definition setup_request (cells : list ServedCellItem) : F1SetupRequest :=
  {| req_TransactionID := 17; req_GNBDUID := 42; req_GNBDUName := [68; 85];
     req_GNBDUServedCellsList := cells; req_GNBDURRCVersion := 5 |}.

Definition amf : GNBAmf :=
  {| AmfIp := "10.0.0.1"; AmfPort := 38412; AmfId := 9;
     Tnla_SctpConn := Some {| SctpClient.gnbId := "000008"; SctpClient.localAddr := "l";
       SctpClient.remoteAddr := "r"; SctpClient.conn := Some 7 |};
     RelativeAmfCapacity := 0; amf_State := AMF_INACTIVE; Name := "";
     RegionId := zero_BitString; SetId := zero_BitString; Pointer := zero_BitString;
     Plmns := None; Slices := None; LenSlice := 0; LenPlmn := 0; BackupAMF := "";
     plmn_nodes := empty_store; slice_nodes := empty_store |}.
Definition du : GNBDU :=
  zero_GNBDU <| DuId := 42 |> <| State := DU_ACTIVE |> <| SctpConn := Some 5 |>
    <| ServedCells := [{| CellID := 17; GlobalCellID := "x"; PLMN := {| MCC := "001"; MNC := "01" |};
         PCI := 3; BandwidthMHz := 0; TAC := [0; 0; 1] |}] |>.

Definition config : ControlInfo :=
  {| mcc := "001"; mnc := "01"; tac := "000001"; ng_gnbId := "000008"; ng_gnbIp := "l";
     ng_gnbPort := 9487; f1_gnbId := "000008"; f1_gnbIp := "l"; f1_gnbPort := 38472;
     n2 := SctpClient.NewSctpConn "000008" "l" "r" |}.

(** Before F1 Setup: no DU, the last accepted connection is [conn]. *)
Definition fresh (conn : option Z) : CuCpContext :=
  {| ci := config; UE := None; AMF := Some 1%positive; DuPool := ∅; DU := None;
     TempDuConn := conn; F1APListener := Some 1; SliceInfo := {| sd := ""; sst := "01" |};
     IdAmfGenerator := 1; IdRrcUeGenerator := 0; ready_sends := 0;
     ues := empty_store; dus := empty_store;
     amfs := (alloc amf empty_store).2; trace := []; congested := [] |}.
(** With the DU. *)
Definition up : CuCpContext :=
  fresh (Some 5) <| dus := (alloc du empty_store).2 |> <| DU := Some 1%positive |>
    <| DuPool := <[42 := 1%positive]> ∅ |>.
Lemma up_shape : cu_shape up.
Proof.
  constructor; try done.
  - apply store_wf_empty.
  - apply (store_wf_alloc du), store_wf_empty.
  - apply (store_wf_alloc amf), store_wf_empty.
  - intros l [= <-]. by eexists.
  - intros l [= <-]. by eexists.
  - intros k l. cbn. rewrite lookup_insert. case_decide; [|done]. intros [= <-]. by eexists.
  - intros k l d. cbn. rewrite !lookup_insert. case_decide; [|done]. intros [= <-]. by intros [= <-].
  - intros l d. cbn. rewrite lookup_insert. case_decide; [|done]. by intros [= <-].
Qed.
(** With a UE whose context is [u]. *)
Definition with_current (u : GNBUe) : CuCpContext :=
  up <| ues := (alloc u empty_store).2 |> <| UE := Some 1%positive |>
     <| IdRrcUeGenerator := 1 |>.

Definition ue : GNBUe :=
  zero_GNBUe <| RanUeNgapId := 1 |> <| AmfUeNgapId := 1 |> <| DuUeId := 6 |>
    <| NrCellId := Some {| Bytes := [1; 2; 3; 4; 80]; NumBits := 36 |} |>
    <| MasterCellGroup := Some [33] |>.

(** A configuration, with the gNB id and the MNC to choose. *)
Definition cfg (gnbid mnc : string) : Config.Config :=
  {| Config.CUCP := {| Config.NodeID := "cu1"; Config.NodeName := "cu";
       Config.cu_PLMN := {| Config.MCC := "001"; Config.MNC := mnc; Config.MNCLength := 2 |};
       Config.Slices := [{| Config.SST := "01"; Config.SD := "112233" |}]; Config.TAC := "000007" |};
     Config.F1AP := {| Config.f1_LocalAddress := "l"; Config.f1_LocalPort := 38472;
       Config.f1_SCTP := {| Config.InStreams := 2; Config.OutStreams := 2 |}; Config.Timers := {| Config.F1Setup := 1 |} |};
     Config.E1AP := {| Config.e1_LocalAddress := "l"; Config.e1_LocalPort := 38462;
       Config.e1_SCTP := {| Config.InStreams := 2; Config.OutStreams := 2 |} |};
     Config.NGAP := {| Config.GnbId := gnbid; Config.AMFAddress := "a"; Config.AMFPort := 38412;
       Config.ng_LocalAddress := "l"; Config.ng_LocalPort := 9487;
       Config.ng_SCTP := {| Config.InStreams := 2; Config.OutStreams := 2 |} |};
     Config.Logging := {| Config.Level := "info"; Config.Format := "json" |};
     Config.Features := {| Config.SplitArchitecture := true; Config.ConnectedInactiveState := false |};
     Config.Tunables := {| Config.UEStoreShards := 64 |} |}.
End Sample.
