(* ===== verification/CuProps.v ===== *)
(** Theorems on the procedures of the CU-CP: F1 Setup, RRC Setup, and the paths of
    NAS messages between the UE and the AMF.  They are stated on [dispatchF1] and
    [dispatch], from the bytes received to the bytes sent. *)
From S2P Require Import Prelude GoNum GoText Asn1 Plmn Ies Net DuContext AmfContext UeContext CuState CuNgapOut CuRrc CuF1 CuNgapIn CuNas Sample.

(** ** F1 Setup *)
Section F1Setup.
Context `{CO : Codec}.

(** What the code requires of a request, as a function of the CU's own PLMN. *)
Definition f1_setup_acceptable (cuPlmn : list Z) (m : F1SetupRequest) : bool :=
  match req_GNBDUServedCellsList m with
  | [item] =>
      match sci_ServedPLMNs (item_ServedCellInformation item) with
      | plmn :: _ => plmnMatches plmn cuPlmn
      | [] => false
      end
  | _ => false
  end.

Lemma handleF1SetupRequest_accept m s item plmn plmns cu conn buf :
  req_GNBDUServedCellsList m = [item] →
  sci_ServedPLMNs (item_ServedCellInformation item) = plmn :: plmns →
  GetMccAndMncInOctets (mcc (ci s)) (mnc (ci s)) = Ok cu → plmnMatches plmn cu = true →
  TempDuConn s = Some conn → writes_ok →
  F1apEncode (F1SetupResponse_of (req_TransactionID m) (req_GNBDURRCVersion m)
    [cell_to_activate item plmn]) = (buf, None) →
  handleF1SetupRequest m s =
    (push (EvWrite conn F1AP_PPID buf)
       (with_new_du (req_GNBDUID m)
          (set_conn (Some conn) (du_of_request m item plmn (mcc (ci s)) (mnc (ci s)))) s),
     Ok tt).
Proof.
  intros Hl Hp Hcu Hm Hc Hw Henc. unfold handleF1SetupRequest. rewrite Hl. run.
  change (index [item] 0) with (Ok item). run. change (zlen [item] =? 1) with true. cbn [negb].
  rewrite Hp. unfold zlen. cbn [length]. rewrite (proj2 (Z.eqb_neq _ 0)) by lia. run.
  change (index (plmn :: plmns) 0) with (Ok plmn). run.
  unfold cuGetMccAndMncInOctets. run. cbn [id]. rewrite Hcu. run. rewrite Hm. cbn [negb]. run.
  cbn [id]. rewrite (bind_Ok _ _ _ _ _ (install_du_eq _ _ _)). run.
  change (TempDuConn (with_new_du _ _ s)) with (TempDuConn s).
  rewrite Hc, run_with_new_du. rewrite (run_get_du _ _ _ _ (find_with_new_du _ _ _)).
  unfold SendF1SetupResponse. rewrite Henc.
  by rewrite (run_SendF1ap _ conn).
Qed.

(** A request that is not acceptable, without a panic: an error line and nothing
    else. *)
Lemma handleF1SetupRequest_reject m s cu :
  req_GNBDUServedCellsList m ≠ [] →
  GetMccAndMncInOctets (mcc (ci s)) (mnc (ci s)) = Ok cu → f1_setup_acceptable cu m = false →
  ∃ line, handleF1SetupRequest m s = (push (EvLog LError line) s, Ok tt).
Proof.
  intros Hne Hcu. unfold f1_setup_acceptable, handleF1SetupRequest.
  destruct (req_GNBDUServedCellsList m) as [|item [|item2 items]] eqn:Hl; [done| |].
  - change (index [item] 0) with (Ok item). run. change (zlen [item] =? 1) with true.
    cbn [negb]. destruct (sci_ServedPLMNs _) as [|plmn plmns] eqn:Hp.
    { intros _. by eexists. }
    intros Hm. unfold zlen. cbn [length]. rewrite (proj2 (Z.eqb_neq _ 0)) by lia. run.
    change (index (plmn :: plmns) 0) with (Ok plmn). run.
    unfold cuGetMccAndMncInOctets. run. cbn [id]. rewrite Hcu. run. rewrite Hm. cbn [negb].
    by eexists.
  - intros _. change (index (item :: item2 :: items) 0) with (Ok item). run.
    rewrite (proj2 (Z.eqb_neq (zlen (item :: item2 :: items)) 1))
      by (rewrite !zlen_cons; pose proof (zlen_nonneg items); lia).
    by eexists.
Qed.

Lemma handleF1SetupRequest_empty m s :
  req_GNBDUServedCellsList m = [] → handleF1SetupRequest m s = (s, Panic IndexOutOfRange).
Proof. intros Hl. unfold handleF1SetupRequest. by rewrite Hl. Qed.
End F1Setup.

Section F1SetupTheorems.
Context `{CL : CodecLaws}.
#[local] Set Default Proof Using "Type CL".

(** C5: An F1 Setup Request with one served cell whose first PLMN is the CU's creates an
    active DU context with that cell, files it in the pool under the gNB-DU id, makes it
    the current DU bound to the connection accepted last, and answers on that connection
    with one F1 Setup Response that carries the request's transaction id, echoes its RRC
    version and activates exactly that cell.  No other context changes.  These are all
    the conditions: the DUs registered before are not looked at, so that a request that
    the documentation has rejected as a duplicate is accepted too
    ([f1_setup_duplicates]). *)
Theorem f1_setup_accepted raw m s item plmn plmns cu conn buf
  (Hraw : f1_delivers raw F1apPduInitiatingMessage F1_ProcedureCode_F1Setup (F1SetupRequestMsg m))
  (Hcells : req_GNBDUServedCellsList m = [item])
  (Hplmns : sci_ServedPLMNs (item_ServedCellInformation item) = plmn :: plmns)
  (Hcu : GetMccAndMncInOctets (mcc (ci s)) (mnc (ci s)) = Ok cu)
  (Hmatch : plmnMatches plmn cu = true)
  (Hconn : TempDuConn s = Some conn) (Hw : writes_ok)
  (Henc : F1apEncode (F1SetupResponse (req_TransactionID m) (req_GNBDURRCVersion m)
    [{| cta_NRCGI := {| PLMNIdentity := plmn;
          NRCellIdentity := NRCellIdentity (sci_NRCGI (item_ServedCellInformation item)) |};
        cta_NRPCI := i64 (sci_NRPCI (item_ServedCellInformation item)) |}]
    (str_bytes "CU-CP")) = (buf, None)) :
  ∃ s' l d c, dispatchF1 raw s = (s', Ok tt) ∧
    DU s' = Some l ∧ DuPool s' = <[req_GNBDUID m := l]> (DuPool s) ∧
    cells (dus s') !! l = Some d ∧ DuId d = req_GNBDUID m ∧ IsActive d = true ∧
    SctpConn d = Some conn ∧ SetupReq d = Some m ∧ ServedCells d = [c] ∧
    CellID c = extractCellIDValue
      (NRCellIdentity (sci_NRCGI (item_ServedCellInformation item))) ∧
    PLMN c = {| MCC := mcc (ci s); MNC := mnc (ci s) |} ∧
    (∀ l', l' ≠ l → cells (dus s') !! l' = cells (dus s) !! l') ∧
    ues s' = ues s ∧ UE s' = UE s ∧ amfs s' = amfs s ∧
    trace s' = trace s ++ [EvWrite conn 62 buf].
Proof.
  do 4 eexists. split.
  { rewrite (dispatchF1_setup _ m) by done.
    by apply (handleF1SetupRequest_accept m s item plmn plmns cu conn buf). }
  cbn. split; [done|]. split; [done|]. split; [by rewrite lookup_insert_eq|].
  unfold du_of_request. destruct (item_GNBDUSystemInformation item); cbn;
    (repeat (split; [reflexivity|]); split; [|done]; intros l' Hl'; by rewrite lookup_insert_ne).
Qed.


(** C31: Any other F1 Setup Request (several cells, no PLMN, another PLMN) changes
    nothing but the log: one error line, no DU context, and nothing is sent to the
    requester, not even an F1 Setup Failure. A request with no cell at all panics
    before any check. *)
Theorem f1_setup_rejected raw m s cu
  (Hraw : f1_delivers raw F1apPduInitiatingMessage F1_ProcedureCode_F1Setup (F1SetupRequestMsg m))
  (Hcu : GetMccAndMncInOctets (mcc (ci s)) (mnc (ci s)) = Ok cu)
  (Hbad : f1_setup_acceptable cu m = false) :
  if decide (req_GNBDUServedCellsList m = []) then
    dispatchF1 raw s = (s, Panic IndexOutOfRange)
  else ∃ line, dispatchF1 raw s = (s <| trace := trace s ++ [EvLog LError line] |>, Ok tt).
Proof.
  rewrite (dispatchF1_setup _ m) by done. case_decide.
  - by apply handleF1SetupRequest_empty.
  - by apply (handleF1SetupRequest_reject m s cu).
Qed.
End F1SetupTheorems.

Lemma f1_setup_accepted_witness :
  let item := Sample.cells_of [[0; 241; 16]] in
  let m := Sample.setup_request [item] in
  let C := Sample.codec [{| f1_Present := 1; f1_ProcedureCode := 1; f1_Msg := F1SetupRequestMsg m |}]
             [] [] [] in
  ∃ s' l, dispatchF1 (CO := C) [0] (Sample.fresh (Some 5)) = (s', Ok tt) ∧ DU s' = Some l ∧
    trace s' = [EvWrite 5 62 ([1; 17; 5; 1] ++ str_bytes "CU-CP")].
Proof.
  intros item m C.
  destruct (f1_setup_accepted (CO := C) (CL := Sample.codec_laws _ _ _ _) [0] m (Sample.fresh (Some 5)) item [0; 241; 16] [] [0; 241; 16]
    5 ([1; 17; 5; 1] ++ str_bytes "CU-CP")) as (s' & l & d & c & H & HD & _ & _ & _ & _ & _ & _ & _
    & _ & _ & _ & _ & _ & _ & Ht).
  1: by split. 1-7: (reflexivity || by intros ?).
  by exists s', l.
Defined.


Lemma f1_setup_rejected_witness :
  let m := Sample.setup_request [Sample.cells_of [[0; 241; 32]]] in
  let C := Sample.codec [{| f1_Present := 1; f1_ProcedureCode := 1; f1_Msg := F1SetupRequestMsg m |}]
             [] [] [] in
  ∃ line, dispatchF1 (CO := C) [0] (Sample.fresh (Some 5)) =
    (Sample.fresh (Some 5) <| trace := [EvLog LError line] |>, Ok tt).
Proof.
  intros m C.
  assert (H := f1_setup_rejected (CO := C) (CL := Sample.codec_laws _ _ _ _) [0] m (Sample.fresh (Some 5)) [0; 241; 16]).
  apply H; [by split|reflexivity|reflexivity].
Defined.

(** ** RRC and NAS *)
Section NasTheorems.
Context `{CL : CodecLaws}.
#[local] Set Default Proof Using "Type CL".

(** C6: An RRC Setup Request with a random value or a 5G-S-TMSI part 1, in an
    Initial UL RRC Message Transfer with a cell group that decodes, is answered with
    one DL RRC Message Transfer on SRB0 that carries the RRC Setup, the UE's gNB-DU
    id and a fresh RRC identifier as gNB-CU id.  A new UE context is allocated and
    becomes current; every UE context that existed is untouched, and the identifier
    generator advances. *)
Theorem rrc_setup_served raw m r s d a k container cg rrc buf
  (Hraw : initial_delivers raw m r) (Hch : rsr_Choice r ≠ OtherIdentity)
  (Hwf : store_wf (ues s)) (Ha : find (amfs s) (AMF s) = Some a)
  (Hd : ready_du s (DU s) d k) (Hw : writes_ok)
  (Hcont : iul_DUtoCURRCContainer m = Some container)
  (Hcg : RrcDecodeCellGroup container = inl cg)
  (Hrrc : RrcEncode (DL_CCCH_RrcSetup {| rs_TransactionIdentifier := 0;
    rs_Srb_ToAddModList := [1]; rs_MasterCellGroup := container |}) = (rrc, None))
  (Henc : F1apEncode (DLRRCMessageTransferOut
    {| dl_GNBCUUEF1APID := i64 (u64 (IdRrcUeGenerator s));
       dl_GNBDUUEF1APID := i64 (u64 (iul_GNBDUUEF1APID m)); dl_SRBID := 0;
       dl_RRCContainer := rrc; dl_ExecuteDuplication := 0; dl_RedirectedRRCmessage := [0] |})
    = (buf, None)) :
  ∃ s' l u, dispatchF1 raw s = (s', Ok tt) ∧
    trace s' = trace s ++ [EvWrite k 62 buf] ∧
    cells (ues s) !! l = None ∧ UE s' = Some l ∧ cells (ues s') !! l = Some u ∧
    (∀ l', l' ≠ l → cells (ues s') !! l' = cells (ues s) !! l') ∧
    ue_State u = UE_INITIALIZED ∧ RrcUeId u = u64 (IdRrcUeGenerator s) ∧
    DuUeId u = u64 (iul_GNBDUUEF1APID m) ∧ MasterCellGroup u = Some cg ∧
    NrCellId u = Some (NRCellIdentity (iul_NRCGI m)) ∧
    IdRrcUeGenerator s' = i64 (IdRrcUeGenerator s + 1) ∧
    DU s' = DU s ∧ dus s' = dus s ∧ amfs s' = amfs s.
Proof.
  eexists _, (brk (ues s)), _. split; [by eapply step_rrc_setup|].
  split; [done|]. split; [by apply alloc_fresh|]. split; [done|].
  split; [cbn; by rewrite lookup_insert_eq|].
  split; [intros l' Hl'; cbn; by rewrite lookup_insert_ne|]. by repeat split.
Qed.

Lemma ul_refused raw m s u :
  f1_delivers raw F1apPduInitiatingMessage F1_ProcedureCode_ULRRCMessageTransfer
    (ULRRCMessageTransferMsg m) →
  find (ues s) (UE s) = Some u → u64 (ul_GNBDUUEF1APID m) ≠ DuUeId u ∨ ul_SRBID m < 1 →
  ∃ line, dispatchF1 raw s = (s <| trace := trace s ++ [EvLog LError line] |>, Ok tt).
Proof.
  intros Hraw Hu Hbad. rewrite (dispatchF1_ul _ m) by done. unfold handleULRRCMessageTransfer. run.
  rewrite (run_get_ue _ u) by done.
  destruct (Z.eqb_spec (u64 (ul_GNBDUUEF1APID m)) (DuUeId u)) as [E|E]; cbn [negb].
  - destruct Hbad as [?|Hs]; [done|]. rewrite (proj2 (Z.ltb_lt _ _) Hs). by eexists.
  - by eexists.
Qed.

(** C32: The guard of the uplink: a UL RRC Message Transfer whose gNB-DU UE id is
    not the current UE's, or on SRB0, is refused with an error line; no message is
    sent, no context changes. *)
Theorem ul_rrc_guarded raw m s u
  (Hraw : f1_delivers raw F1apPduInitiatingMessage F1_ProcedureCode_ULRRCMessageTransfer
            (ULRRCMessageTransferMsg m))
  (Hu : find (ues s) (UE s) = Some u)
  (Hbad : u64 (ul_GNBDUUEF1APID m) ≠ DuUeId u ∨ ul_SRBID m < 1) :
  ∃ line, dispatchF1 raw s = (s <| trace := trace s ++ [EvLog LError line] |>, Ok tt).
Proof. by eapply ul_refused. Qed.

(** Messages handled one after the other. *)
Definition handle_all (raws : list (list Z)) (s : CuCpContext) : CuCpContext :=
  foldl (λ s raw, (dispatchF1 raw s).1) s raws.
(** A UL RRC Message Transfer with the gNB-DU UE id [duUeId]. *)
Definition uplink_of (duUeId : Z) (raw : list Z) : Prop :=
  ∃ m, f1_delivers raw F1apPduInitiatingMessage F1_ProcedureCode_ULRRCMessageTransfer
         (ULRRCMessageTransferMsg m) ∧ u64 (ul_GNBDUUEF1APID m) = duUeId.

Lemma all_refused raws duUeId s u :
  find (ues s) (UE s) = Some u → duUeId ≠ DuUeId u → Forall (uplink_of duUeId) raws →
  ∃ lines, handle_all raws s = s <| trace := trace s ++ map (EvLog LError) lines |>.
Proof.
  intros Hu Hne H. revert s Hu. induction H as [|raw raws (m & Hraw & Hid) _ IH]; intros s Hu.
  - exists []. cbn. rewrite app_nil_r. by destruct s.
  - destruct (ul_refused raw m s u Hraw Hu) as [line Hl]; [left; congruence|].
    destruct (IH (s <| trace := trace s ++ [EvLog LError line] |>)) as [lines Hls]; [done|].
    exists (line :: lines). unfold handle_all in *. cbn [foldl]. rewrite Hl. cbn [fst]. rewrite Hls.
    cbn. by rewrite <- app_assoc.
Qed.

(** C33: The process serves one UE.  When a second UE sets up its RRC connection, the
    context of the first stays in memory, unchanged, but is current no more: however many
    UL RRC messages the first UE sends, and whatever they contain, each is refused with
    an error line; no context changes and nothing is sent. *)
Theorem second_ue_evicts raw m r s d a k container cg rrc buf l1 u1 raws
  (Hfirst : UE s = Some l1) (Hu1 : cells (ues s) !! l1 = Some u1)
  (Hraw : initial_delivers raw m r) (Hch : rsr_Choice r ≠ OtherIdentity)
  (Hwf : store_wf (ues s)) (Ha : find (amfs s) (AMF s) = Some a)
  (Hd : ready_du s (DU s) d k) (Hw : writes_ok)
  (Hcont : iul_DUtoCURRCContainer m = Some container)
  (Hcg : RrcDecodeCellGroup container = inl cg)
  (Hrrc : RrcEncode (rrc_setup_pdu container) = (rrc, None))
  (Henc : F1apEncode (dl_rrc_setup (u64 (IdRrcUeGenerator s)) (u64 (iul_GNBDUUEF1APID m)) rrc)
    = (buf, None))
  (Hne : DuUeId u1 ≠ u64 (iul_GNBDUUEF1APID m)) (Hraws : Forall (uplink_of (DuUeId u1)) raws) :
  ∃ s' lines, dispatchF1 raw s = (s', Ok tt) ∧
    cells (ues s') !! l1 = Some u1 ∧ UE s' ≠ Some l1 ∧
    handle_all raws s' = s' <| trace := trace s' ++ map (EvLog LError) lines |>.
Proof.
  pose proof (alloc_fresh (ues s) Hwf) as Hfresh.
  assert (brk (ues s) ≠ l1) as Hl by (intros E; congruence).
  set (s' := push (EvWrite k F1AP_PPID buf) (with_new_ue (requested_ue s d a r m cg) s)).
  destruct (all_refused raws (DuUeId u1) s' (requested_ue s d a r m cg)) as [lines Hlines];
    [by apply find_with_new_ue|exact Hne|done|].
  exists s', lines. split; [by eapply step_rrc_setup|].
  split; [cbn; by rewrite lookup_insert_ne|]. split; [cbn; congruence|done].
Qed.

(** C7: The NAS PDU of an RRC Setup Complete reaches the AMF unchanged, in one
    Initial UE Message with the UE's RAN id, the cell and tracking area of the CU and
    the 5G-S-TMSI of the UE; the UE is in procedure afterwards. *)
Theorem setup_complete_forwarded raw v nas s u u' k buf
  (Hraw : ul_delivers raw u (c1_setup_complete v nas))
  (Hu : find (ues s) (UE s) = Some u) (Htmsi : tmsi_step u v = Some u')
  (Ha : ready_amf s (AMF s) k) (Hx : ids_hex s)
  (Henc : NgapEncode (InitialUEMessage (RanUeNgapId u) nas (uli_of s)
    RRCEstablishmentCauseMosignalling (Tmsi5gs u')) = (buf, None)) :
  ∃ s', dispatchF1 raw s = (s', Ok tt) ∧ trace s' = trace s ++ [EvWrite k 60 buf] ∧
    find (ues s') (UE s') = Some (u' <| ue_State := UE_ONGOING |>).
Proof.
  assert (RanUeNgapId u' = RanUeNgapId u) as Hran.
  { unfold tmsi_step in Htmsi. destruct v as [tv|]; [|by simplify_eq].
    apply bind_Some in Htmsi as (bs & _ & H). destruct (0 <? zlen bs); [|by simplify_eq].
    destruct (Decode5GSTMSI bs); by simplify_eq. }
  rewrite <- Hran in Henc. eexists. split; [by eapply step_setup_complete|]. split; [done|].
  by eapply (find_put_ue (UE s)).
Qed.

(** C8: The NAS PDU of a UL Information Transfer reaches the AMF unchanged, in one
    Uplink NAS Transport with both NGAP ids of the UE; the UE is in procedure
    afterwards, also when it was ready before. *)
Theorem uplink_nas_forwarded raw nas s u k buf
  (Hraw : ul_delivers raw u (c1_ul_information nas))
  (Hu : find (ues s) (UE s) = Some u) (Ha : ready_amf s (AMF s) k) (Hx : ids_hex s)
  (Henc : NgapEncode (UplinkNASTransport (AmfUeNgapId u) (RanUeNgapId u) nas (uli_of s))
    = (buf, None)) :
  ∃ s', dispatchF1 raw s = (s', Ok tt) ∧ trace s' = trace s ++ [EvWrite k 60 buf] ∧
    find (ues s') (UE s') = Some (u <| ue_State := UE_ONGOING |>).
Proof.
  eexists. split; [by eapply step_ul_information|]. split; [done|].
  by eapply (find_put_ue (UE s)).
Qed.

(** C9: The NAS PDU of a Downlink NAS Transport goes to the DU inside an RRC DL
    Information Transfer, unchanged, and the UE learns its AMF UE NGAP id.  The F1
    message around it names the AMF and the DU where the UE's two F1 ids belong, on
    SRB0: it does not depend on the UE at all. *)
Theorem downlink_nas_forwarded amf raw m s u a d k rrc buf
  (Hraw : ng_delivers raw NgapPduInitiatingMessage NG_ProcedureCode_DownlinkNASTransport
            (DownlinkNASTransportMsg m))
  (Hu : find (ues s) (UE s) = Some u) (Ha : find (amfs s) amf = Some a)
  (Hd : ready_du s (DU s) d k) (Hw : writes_ok)
  (Hrrc : RrcEncode (DL_DCCH_DlInformationTransfer 0 (dnt_NASPDU m)) = (rrc, None))
  (Henc : F1apEncode (DLRRCMessageTransferOut
    {| dl_GNBCUUEF1APID := i64 (AmfId a); dl_GNBDUUEF1APID := i64 (DuId d); dl_SRBID := 0;
       dl_RRCContainer := rrc; dl_ExecuteDuplication := 0; dl_RedirectedRRCmessage := [0] |})
    = (buf, None)) :
  ∃ s', dispatch amf raw s = (s', Ok tt) ∧ trace s' = trace s ++ [EvWrite k 62 buf] ∧
    find (ues s') (UE s') = Some (u <| AmfUeNgapId := dnt_AMFUENGAPID m |>).
Proof.
  eexists. split; [by eapply step_downlink|]. split; [done|]. by eapply (find_put_ue (UE s)).
Qed.
End NasTheorems.

(** ** Messages before their time

    [cu.UE] is nil until the first RRC Setup Request and [cu.DU] until the first F1
    Setup; the handlers dereference them unchecked. *)
Section NilTheorems.
Context `{CL : CodecLaws}.
#[local] Set Default Proof Using "Type CL".

(** C38: In a process that has not yet seen an F1 Setup nor an RRC Setup Request,
    each of these messages stops the process with a nil dereference, the state
    unchanged: a UL RRC Message Transfer, a Downlink NAS Transport, an Initial Context
    Setup Request, an RRC Setup Request. *)
Theorem early_message_panics raw amf s (HU : UE s = None) (HD : DU s = None) :
  (∀ m, f1_delivers raw F1apPduInitiatingMessage F1_ProcedureCode_ULRRCMessageTransfer
          (ULRRCMessageTransferMsg m) → dispatchF1 raw s = (s, Panic NilDeref)) ∧
  (∀ m, ng_delivers raw NgapPduInitiatingMessage NG_ProcedureCode_DownlinkNASTransport
          (DownlinkNASTransportMsg m) → dispatch amf raw s = (s, Panic NilDeref)) ∧
  (∀ m, ng_delivers raw NgapPduInitiatingMessage NG_ProcedureCode_InitialContextSetup
          (InitialContextSetupRequestMsg m) → dispatch amf raw s = (s, Panic NilDeref)) ∧
  (∀ m r, initial_delivers raw m r → dispatchF1 raw s = (s, Panic NilDeref)).
Proof.
  repeat split.
  - intros m H. rewrite (dispatchF1_ul _ m) by done. unfold handleULRRCMessageTransfer. run.
    by rewrite run_get_ue_nil by by rewrite HU.
  - intros m H. rewrite (dispatch_dl_nas _ _ m) by done. unfold handleNgDownlinkNasTransport.
    run. by rewrite run_get_ue_nil by by rewrite HU.
  - intros m H. rewrite (dispatch_ctx_setup _ _ m) by done.
    unfold handlerInitialContextSetupRequest. run.
    by rewrite run_call_ue_nil by by rewrite HU.
  - intros m r [H Hdec]. rewrite (dispatchF1_initial_ul _ m) by done.
    unfold handleInitialULRRCMessageTransfer. run. rewrite Hdec. run. cbn [ccch_C1]. run.
    unfold handleRRCSetupRequest. apply bind_Panic. by rewrite run_get_du_nil by by rewrite HD.
Qed.
End NilTheorems.

(** ** Witnesses *)
Module NasSamples.
Import Sample.
Definition ul (dcch duid srb : Z) : F1apPdu :=
  {| f1_Present := 1; f1_ProcedureCode := 13;
     f1_Msg := ULRRCMessageTransferMsg {| ul_GNBCUUEF1APID := 0; ul_GNBDUUEF1APID := duid;
                 ul_SRBID := srb; ul_RRCContainer := [dcch] |} |}.
Definition initial : InitialULRRCMessageTransfer :=
  {| iul_GNBDUUEF1APID := 6;
     iul_NRCGI := {| PLMNIdentity := [0; 241; 16];
                     NRCellIdentity := {| Bytes := [1; 2; 3; 4; 80]; NumBits := 36 |} |};
     iul_CRNTI := 17; iul_RRCContainer := [0]; iul_DUtoCURRCContainer := Some [33] |}.
Definition request (c : UeIdentityChoice) : RRCSetupRequest_IEs :=
  {| rsr_Choice := c; rsr_Ng_5G_S_TMSI_Part1 := {| Bytes := [1; 2; 3; 4; 128]; NumBits := 39 |};
     rsr_EstablishmentCause := (3 : EstablishmentCause_t) |}.
Definition initial_pdu : F1apPdu :=
  {| f1_Present := 1; f1_ProcedureCode := 11; f1_Msg := InitialULRRCMessageTransferMsg initial |}.
Definition ccch (c : UeIdentityChoice) : UL_CCCH_Message :=
  {| ccch_C1 := Some (Some (request c)) |}.
Definition dcch (c1 : UL_DCCH_C1) : UL_DCCH_Message := {| dcch_Choice := 1; dcch_C1 := Some c1 |}.
Definition ng (code : Z) (m : NgapIn) : NgapPdu :=
  {| ng_Present := 1; ng_ProcedureCode := code; ng_Msg := m |}.
End NasSamples.
Import Sample NasSamples.

Lemma rrc_setup_served_witness :
  ∃ s' l, dispatchF1 (CO := codec [initial_pdu] [] [ccch RandomValue] []) [0] up = (s', Ok tt) ∧
    UE s' = Some l ∧ trace s' = [EvWrite 5 62 [2; 0; 6; 0; 20; 33]].
Proof.
  destruct (rrc_setup_served (CL := codec_laws [initial_pdu] [] [ccch RandomValue] [])
    [0] initial (request RandomValue) up du amf 5 [33] [33] [20; 33] [2; 0; 6; 0; 20; 33])
    as (s' & l & u & H & Ht & _ & HU & _).
  all: try reflexivity; try done.
  1: apply store_wf_empty.
  by exists s', l.
Defined.

(** The first UE has gNB-DU UE id 6, the second 7. *)
Lemma second_ue_evicts_witness :
  let second := {| f1_Present := 1; f1_ProcedureCode := 11;
    f1_Msg := InitialULRRCMessageTransferMsg {| iul_GNBDUUEF1APID := 7; iul_NRCGI := iul_NRCGI initial;
      iul_CRNTI := 18; iul_RRCContainer := [0]; iul_DUtoCURRCContainer := Some [33] |} |} in
  let C := codec [second; ul 0 6 1] [] [ccch RandomValue] [] in
  ∃ s' lines, dispatchF1 (CO := C) [0] (with_current ue) = (s', Ok tt) ∧ UE s' ≠ Some 1%positive ∧
    handle_all (CO := C) [[1]; [1]] s' = s' <| trace := trace s' ++ map (EvLog LError) lines |>.
Proof.
  intros second C. destruct (second_ue_evicts (CO := C) (CL := codec_laws _ _ _ _) [0]
    {| iul_GNBDUUEF1APID := 7; iul_NRCGI := iul_NRCGI initial; iul_CRNTI := 18;
       iul_RRCContainer := [0]; iul_DUtoCURRCContainer := Some [33] |}
    (request RandomValue) (with_current ue) du amf 5 [33] [33] [20; 33] [2; 1; 7; 0; 20; 33] 1%positive ue
    [[1]; [1]]) as (s' & lines & H & _ & HU & Hl).
  all: try reflexivity; try done.
  - apply store_wf_alloc, store_wf_empty.
  - repeat constructor; (eexists; split; [by split|reflexivity]).
  - by exists s', lines.
Defined.

Lemma ul_rrc_guarded_witness :
  ∃ line, dispatchF1 (CO := codec [ul 0 9 1] [] [] []) [0] (with_current ue) =
    (with_current ue <| trace := [EvLog LError line] |>, Ok tt).
Proof.
  apply (ul_rrc_guarded (CL := codec_laws [ul 0 9 1] [] [] []) [0]
    {| ul_GNBCUUEF1APID := 0; ul_GNBDUUEF1APID := 9; ul_SRBID := 1; ul_RRCContainer := [0] |}
    (with_current ue) ue); [by split|reflexivity|by left].
Defined.

Lemma setup_complete_forwarded_witness :
  let C := codec [ul 0 6 1] [] [] [dcch (c1_setup_complete None [126; 0; 65])] in
  ∃ s', dispatchF1 (CO := C) [0] (with_current ue) = (s', Ok tt) ∧
    trace s' = [EvWrite 7 60 [11; 1; 126; 0; 65]].
Proof.
  intros C. destruct (setup_complete_forwarded (CO := C) (CL := codec_laws _ _ _ _) [0] None
    [126; 0; 65] (with_current ue) ue ue 7 [11; 1; 126; 0; 65]) as (s' & H & Ht & _).
  - eexists. split; [split; [done|reflexivity]|]. split; [reflexivity|]. split; [cbn; lia|done].
  - reflexivity.
  - reflexivity.
  - exists amf. split; [reflexivity|]. by eexists.
  - by split.
  - reflexivity.
  - by exists s'.
Defined.

Lemma uplink_nas_forwarded_witness :
  let C := codec [ul 0 6 1] [] [] [dcch (c1_ul_information [126; 0; 87])] in
  ∃ s', dispatchF1 (CO := C) [0] (with_current (ue <| ue_State := UE_READY |>)) = (s', Ok tt) ∧
    trace s' = [EvWrite 7 60 [12; 1; 1; 126; 0; 87]].
Proof.
  intros C. destruct (uplink_nas_forwarded (CO := C) (CL := codec_laws _ _ _ _) [0] [126; 0; 87]
    (with_current (ue <| ue_State := UE_READY |>)) (ue <| ue_State := UE_READY |>)
    7 [12; 1; 1; 126; 0; 87]) as (s' & H & Ht & _).
  - eexists. split; [split; [done|reflexivity]|]. split; [reflexivity|]. split; [cbn; lia|done].
  - reflexivity.
  - exists amf. split; [reflexivity|]. by eexists.
  - by split.
  - reflexivity.
  - by exists s'.
Defined.

Lemma downlink_nas_forwarded_witness :
  let C := codec [] [ng 4 (DownlinkNASTransportMsg
                       {| dnt_AMFUENGAPID := 77; dnt_NASPDU := [126; 0; 86] |})] [] [] in
  ∃ s', dispatch (CO := C) (Some 1%positive) [0] (with_current ue) = (s', Ok tt) ∧
    trace s' = [EvWrite 5 62 [2; 9; 42; 0; 21; 0; 126; 0; 86]].
Proof.
  intros C. destruct (downlink_nas_forwarded (CO := C) (CL := codec_laws _ _ _ _)
    (Some 1%positive) [0] {| dnt_AMFUENGAPID := 77; dnt_NASPDU := [126; 0; 86] |}
    (with_current ue) ue amf du 5 [21; 0; 126; 0; 86] [2; 9; 42; 0; 21; 0; 126; 0; 86])
    as (s' & H & Ht & _).
  all: try reflexivity; try done.
  by exists s'.
Defined.

Lemma early_message_panics_witness :
  dispatchF1 (CO := codec [ul 0 9 1] [] [] []) [0] (fresh None) = (fresh None, Panic NilDeref).
Proof.
  destruct (early_message_panics (CL := codec_laws [ul 0 9 1] [] [] []) [0] None (fresh None)
    eq_refl eq_refl) as (H & _).
  apply (H {| ul_GNBCUUEF1APID := 0; ul_GNBDUUEF1APID := 9; ul_SRBID := 1; ul_RRCContainer := [0] |}).
  split; [done|reflexivity].
Defined.
