(* ===== verification/AmfProps.v ===== *)
(** NG Setup: the lists of PLMNs and slices the AMF context keeps are those of the
    NG Setup Response.  The linked lists of [AmfContext] are related to Coq lists by
    [amf_lists]; the handler's nested loops are shown to append in order. *)
From S2P Require Import Prelude GoNum GoText Asn1 Plmn Ies Net DuContext AmfContext UeContext CuState CuNgapOut CuRrc CuF1 CuNgapIn CuNas Sample CuProps.

Section NgSetup.
Context `{CO : Codec}.

(** The entries a response stands for. *)
Definition slice_of (s : SNSSAI) : SliceSupported :=
  {| ss_Sst := fmt_x_opt (SST s); ss_Sd := fmt_x_opt (SD s); ss_Status := "" |}.
Definition slices_of (items : list PLMNSupportItem) : list SliceSupported :=
  concat (map (λ it, map slice_of (psi_SliceSupportList it)) items).
Definition plmns_of (items : list PLMNSupportItem) (ps : list PlmnSupported) : Prop :=
  Forall2 (λ it p, plmn_payload (fmt_x (psi_PLMNIdentity it)) = Ok p) items ps.

Definition same_fields (a a' : GNBAmf) : Prop :=
  Name a' = Name a ∧ RelativeAmfCapacity a' = RelativeAmfCapacity a.

Lemma AddedSlice_fields a sst sd a' : AddedSlice a sst sd = Ok a' → same_fields a a'.
Proof.
  unfold AddedSlice. case_match; [by intros [= <-]|]. by intros (? & _ & [= <-])%res_bind_Ok.
Qed.
Lemma AddedPlmn_fields a p a' : AddedPlmn a p = Ok a' → same_fields a a'.
Proof. unfold AddedPlmn. case_match; by intros (? & _ & [= <-])%res_bind_Ok. Qed.
Lemma same_fields_trans a b c : same_fields a b → same_fields b c → same_fields a c.
Proof. unfold same_fields. intros [-> ->] [-> ->]. done. Qed.

Lemma add_slices_lists sls a ps ss :
  amf_lists a ps ss → zlen ss + zlen sls < 2 ^ 62 →
  ∃ a', add_slices a sls = Ok a' ∧ amf_lists a' ps (ss ++ map slice_of sls) ∧ same_fields a a'.
Proof.
  revert a ss. induction sls as [|sl sls IH]; intros a ss Hl Hb.
  { exists a. cbn. by rewrite app_nil_r. }
  rewrite zlen_cons in Hb. pose proof (zlen_nonneg sls).
  destruct (AddedSlice_lists a ps ss (fmt_x_opt (SST sl)) (fmt_x_opt (SD sl)) Hl)
    as (a1 & E1 & Hl1 & _); [lia|]. apply AddedSlice_fields in E1 as Hf.
  destruct (IH a1 _ Hl1) as (a' & E & Hl' & Hf').
  { rewrite zlen_app, zlen_cons. change (zlen []) with 0. lia. }
  exists a'. cbn. rewrite E1. cbn. split; [done|]. split; [by rewrite <- app_assoc in Hl'|].
  by eapply same_fields_trans.
Qed.

Lemma add_plmns_lists items a ps ss ps' :
  amf_lists a ps ss → plmns_of items ps' → zlen ps + zlen items < 2 ^ 62 →
  zlen ss + zlen (slices_of items) < 2 ^ 62 →
  ∃ a', add_plmns a items = Ok a' ∧ amf_lists a' (ps ++ ps') (ss ++ slices_of items) ∧
    same_fields a a'.
Proof.
  intros Hl Hps. revert a ps ss Hl. induction Hps as [|it p items ps' Hp _ IH]; intros a ps ss Hl Hb Hc.
  { exists a. cbn. by rewrite !app_nil_r. }
  rewrite zlen_cons in Hb. pose proof (zlen_nonneg items).
  unfold slices_of in Hc. cbn in Hc. fold (slices_of items) in Hc. rewrite zlen_app in Hc.
  pose proof (zlen_nonneg (slices_of items)). pose proof (zlen_nonneg (psi_SliceSupportList it)).
  assert (zlen (map slice_of (psi_SliceSupportList it)) = zlen (psi_SliceSupportList it)) as Hm
    by (unfold zlen; by rewrite length_map).
  destruct (AddedPlmn_lists a ps ss (fmt_x (psi_PLMNIdentity it)) p Hl) as (a1 & E1 & Hl1 & _); [lia|done|].
  apply AddedPlmn_fields in E1 as Hf1.
  destruct (add_slices_lists (psi_SliceSupportList it) a1 _ _ Hl1) as (a2 & E2 & Hl2 & Hf2); [lia|].
  destruct (IH a2 _ _ Hl2) as (a' & E & Hl' & Hf').
  { rewrite zlen_app, zlen_cons. change (zlen []) with 0. lia. }
  { rewrite zlen_app. lia. }
  exists a'. cbn. rewrite E1. cbn. rewrite E2. cbn. split; [done|]. split.
  - unfold slices_of. cbn. fold (slices_of items).
    by rewrite <- !app_assoc in Hl'.
  - by eapply same_fields_trans, same_fields_trans.
Qed.

Lemma check_supported_ok get n i :
  (∀ j, (j < n)%nat → ∃ r, get (i + Z.of_nat j) = Ok r) → check_supported get n i = Ok tt.
Proof.
  revert i. induction n as [|n IH]; intros i H; cbn; [done|].
  destruct (H 0%nat) as [r Hr]; [lia|]. rewrite Z.add_0_r in Hr. rewrite Hr. cbn. apply IH.
  intros j Hj. destruct (H (S j)) as [r' Hr']; [lia|]. exists r'. rewrite <- Hr'. f_equal. lia.
Qed.

Lemma amf_lists_state a ps ss st : amf_lists a ps ss → amf_lists (a <| amf_State := st |>) ps ss.
Proof. done. Qed.

(** The whole handler on the AMF object, from empty lists. *)
Lemma amf_after_ng_setup_lists a m ps :
  amf_lists a [] [] → plmns_of (nsr_PLMNSupportList m) ps →
  zlen (nsr_PLMNSupportList m) < 2 ^ 62 → zlen (slices_of (nsr_PLMNSupportList m)) < 2 ^ 62 →
  ∃ a', amf_after_ng_setup a m = Ok a' ∧ amf_lists a' ps (slices_of (nsr_PLMNSupportList m)) ∧
    Name a' = bytes_str (nsr_AMFName m) ∧ RelativeAmfCapacity a' = nsr_RelativeAMFCapacity m ∧
    amf_State a' = AMF_ACTIVE.
Proof.
  intros Hl Hps Hb Hc. unfold amf_after_ng_setup.
  set (a0 := a <| Name := _ |> <| RelativeAmfCapacity := _ |>).
  destruct (add_plmns_lists (nsr_PLMNSupportList m) a0 [] [] ps Hl Hps) as (a1 & E1 & Hl1 & Hn & Hr);
    [done|done|].
  rewrite E1. cbn [mbind res_bind]. set (a2 := a1 <| amf_State := AMF_ACTIVE |>).
  assert (amf_lists a2 ps (slices_of (nsr_PLMNSupportList m))) as Hl2 by done.
  exists a2. rewrite (check_supported_ok (GetPlmnSupport a2)), (check_supported_ok (GetSliceSupport a2)).
  - done.
  - intros j Hj. pose proof Hl2 as (_ & _ & _ & Ls). rewrite Ls, to_nat_zlen in Hj.
    apply lookup_lt_is_Some in Hj as [x Hx]. eexists. by eapply GetSliceSupport_list.
  - intros j Hj. pose proof Hl2 as (_ & Lp & _). rewrite Lp, to_nat_zlen in Hj.
    apply lookup_lt_is_Some in Hj as [x Hx]. eexists. by eapply GetPlmnSupport_list.
Qed.
End NgSetup.

Section NgSetupTheorem.
Context `{CL : CodecLaws}.
#[local] Set Default Proof Using "Type CL".

(** C11: An NG Setup Response whose PLMNs have a readable form makes the AMF active
    and records its name and capacity, its PLMNs in order and the slices of all of them
    in order: the i-th query returns the i-th entry.  One goroutine is left to signal
    that NGAP is ready; nothing is sent. *)
Theorem ng_setup_recorded amf raw m s a ps
  (Hraw : ng_delivers raw NgapPduSuccessfulOutcome NG_ProcedureCode_NGSetup (NGSetupResponseMsg m))
  (Ha : find (amfs s) amf = Some a) (Hl : amf_lists a [] [])
  (Hps : plmns_of (nsr_PLMNSupportList m) ps)
  (Hb : zlen (nsr_PLMNSupportList m) < 2 ^ 62)
  (Hc : zlen (slices_of (nsr_PLMNSupportList m)) < 2 ^ 62) :
  ∃ s' a', dispatch amf raw s = (s', Ok tt) ∧ find (amfs s') amf = Some a' ∧
    amf_State a' = AMF_ACTIVE ∧ Name a' = bytes_str (nsr_AMFName m) ∧
    RelativeAmfCapacity a' = nsr_RelativeAMFCapacity m ∧
    LenPlmn a' = zlen (nsr_PLMNSupportList m) ∧
    (∀ i p, ps !! i = Some p → GetPlmnSupport a' (Z.of_nat i) = Ok (ps_Mcc p, ps_Mnc p)) ∧
    (∀ i sl, slices_of (nsr_PLMNSupportList m) !! i = Some sl →
       GetSliceSupport a' (Z.of_nat i) = Ok (ss_Sst sl, ss_Sd sl)) ∧
    ready_sends s' = S (ready_sends s) ∧ trace s' = trace s.
Proof.
  destruct (amf_after_ng_setup_lists a m ps Hl Hps Hb Hc) as (a' & E & Hl' & Hn & Hr & Hst).
  eexists _, a'. split.
  { rewrite (dispatch_ng_setup _ _ m) by done. unfold handlerNgSetupResponse.
    by rewrite (run_call_amf _ _ a a'). }
  split; [by apply (find_upd_at _ _ (λ _, a') a)|]. split; [done|]. split; [done|].
  split; [done|]. split.
  { destruct Hl' as (_ & -> & _). unfold zlen. f_equal. symmetry. by eapply Forall2_length. }
  split; [intros; by eapply GetPlmnSupport_list|]. split; [intros; by eapply GetSliceSupport_list|].
  done.
Qed.
End NgSetupTheorem.

Import Sample NasSamples.
Lemma ng_setup_recorded_witness :
  let m := {| nsr_AMFName := [65]; nsr_RelativeAMFCapacity := 5;
              nsr_PLMNSupportList := [{| psi_PLMNIdentity := [0; 241; 16];
                psi_SliceSupportList := [{| SST := Some [1]; SD := None |}] |}] |} in
  let C := codec [] [{| ng_Present := 2; ng_ProcedureCode := 21; ng_Msg := NGSetupResponseMsg m |}] [] [] in
  ∃ s' a', dispatch (CO := C) (Some 1%positive) [0] up = (s', Ok tt) ∧
    find (amfs s') (Some 1%positive) = Some a' ∧ LenPlmn a' = 1 ∧
    GetPlmnSupport a' 0 = Ok ("001"%string, "01"%string) ∧ GetSliceSupport a' 0 = Ok ("01"%string, ""%string).
Proof.
  intros m C. destruct (ng_setup_recorded (CO := C) (CL := codec_laws _ _ _ _) (Some 1%positive) [0] m up
    amf [{| ps_Mcc := "001"; ps_Mnc := "01" |}]) as (s' & a' & H & Hf & _ & _ & _ & Hn & Hp & Hs & _).
  - by split.
  - reflexivity.
  - split; [split; [apply store_wf_empty|by exists []; split; [apply NoDup_nil_2|]]|].
    split; [done|]. split; [split; [apply store_wf_empty|by exists []; split; [apply NoDup_nil_2|]]|done].
  - constructor; [vm_compute; reflexivity|constructor].
  - by vm_compute.
  - by vm_compute.
  - exists s', a'. exact (conj H (conj Hf (conj Hn (conj (Hp 0%nat _ eq_refl) (Hs 0%nat _ eq_refl))))).
Defined.
