(* ===== verification/CuFlow.v ===== *)
(** The whole registration of one UE, message by message: RRC setup, the NAS
    messages of authentication and security mode through the CU, the initial context
    setup, the UE context setup at the DU and the RRC reconfiguration.  The lemmas of
    [CuNas] for the single messages are chained. *)
From S2P Require Import Prelude GoNum GoText Asn1 Plmn Ies Net DuContext AmfContext UeContext CuState CuNgapOut CuRrc CuF1 CuNgapIn CuNas Sample CuProps.

(** A message taken from the DU's or the AMF's association; [serve] runs its handler
    to the end before the next one is taken. *)
Inductive input := FromDu (raw : list Z) | FromAmf (raw : list Z).

Section Serve.
Context `{CO : Codec}.
Definition serve (amf : option loc) (i : input) : CU unit :=
  match i with FromDu raw => dispatchF1 raw | FromAmf raw => dispatch amf raw end.
Fixpoint serve_all (amf : option loc) (ins : list input) : CU unit :=
  match ins with [] => mret tt | i :: ins' => _ ← serve amf i; serve_all amf ins' end.

Lemma serve_all_cons amf i ins s s' :
  serve amf i s = (s', Ok tt) → serve_all amf (i :: ins) s = serve_all amf ins s'.
Proof. intros H. cbn. by rewrite (bind_Ok _ _ _ _ _ H). Qed.
End Serve.

Section Registration.
Context `{CL : CodecLaws}.
#[local] Set Default Proof Using "Type CL".

(** The payloads that arrive during the registration, in order. *)
Record registration := {
  rg_initial : InitialULRRCMessageTransfer;
  rg_request : RRCSetupRequest_IEs;
  rg_container : list Z;
  rg_cellgroup : CellGroupConfig;
  rg_tmsi : option TmsiValue;
  rg_nas_request : list Z;
  rg_downlink : DownlinkNASTransport;
  rg_nas_response : list Z;
  rg_context : InitialContextSetupRequest
}.

(** The UE contexts the CU goes through. *)
Definition ue_in_procedure (u : GNBUe) : GNBUe := u <| ue_State := UE_ONGOING |>.
Definition ue_known_to_amf (rg : registration) (u : GNBUe) : GNBUe :=
  u <| AmfUeNgapId := dnt_AMFUENGAPID (rg_downlink rg) |>.
Definition create_context (rg : registration) (u : GNBUe) : res GNBUe :=
  CreateUeContext u (informed_or (ics_MobilityRestrictionList (rg_context rg)))
    (match ics_MaskedIMEISV (rg_context rg) with
     | None => "not informed"%string | Some v => fmt_x_imeisv v end)
    (map snssai_text (ics_AllowedNSSAI (rg_context rg)))
    (Some (ics_UESecurityCapabilities (rg_context rg))).
Definition ue_with_accept (rg : registration) (u : GNBUe) : GNBUe :=
  u <| RegistrationAccept := ics_NASPDU (rg_context rg) |>.

(** The eight inputs [ins] carry the payloads of [rg], for a UE whose context after
    RRC setup is [u1], after RRC Setup Complete [u2]. *)
Record carries (rg : registration) (ins : list input) (u1 u2 u5 : GNBUe) : Prop := {
  ca_inputs : ∃ i1 i2 i3 i4 i5 i6 i7 i8,
    ins = [FromDu i1; FromDu i2; FromAmf i3; FromDu i4; FromAmf i5; FromDu i6; FromDu i7; FromDu i8] ∧
    initial_delivers i1 (rg_initial rg) (rg_request rg) ∧
    ul_delivers i2 u1 (c1_setup_complete (rg_tmsi rg) (rg_nas_request rg)) ∧
    ng_delivers i3 NgapPduInitiatingMessage NG_ProcedureCode_DownlinkNASTransport
      (DownlinkNASTransportMsg (rg_downlink rg)) ∧
    ul_delivers i4 u1 (c1_ul_information (rg_nas_response rg)) ∧
    ng_delivers i5 NgapPduInitiatingMessage NG_ProcedureCode_InitialContextSetup
      (InitialContextSetupRequestMsg (rg_context rg)) ∧
    ul_delivers i6 u1 c1_security_complete ∧
    f1_delivers i7 F1apPduSuccessfulOutcome F1_ProcedureCode_UEContextSetup
      UEContextSetupResponseMsg ∧
    ul_delivers i8 u1 c1_reconfiguration_complete;
  ca_identity : rsr_Choice (rg_request rg) ≠ OtherIdentity;
  ca_container : iul_DUtoCURRCContainer (rg_initial rg) = Some (rg_container rg);
  ca_cellgroup : RrcDecodeCellGroup (rg_container rg) = inl (rg_cellgroup rg);
  ca_tmsi : tmsi_step u1 (rg_tmsi rg) = Some u2;
  ca_context : create_context rg (ue_in_procedure (ue_known_to_amf rg (ue_in_procedure u2))) = Ok u5
}.

(** The messages the CU is to send, and their encodings [b1 .. b8]. *)
Record encodes (rg : registration) (s : CuCpContext) (d : GNBDU) (a : GNBAmf) (u1 u2 : GNBUe)
    (b1 b2 b3 b4 b6 b7 b8 : list Z) : Prop := {
  en_setup : ∃ rrc, RrcEncode (rrc_setup_pdu (rg_container rg)) = (rrc, None) ∧
    F1apEncode (dl_rrc_setup (RrcUeId u1) (DuUeId u1) rrc) = (b1, None);
  en_initial : NgapEncode (InitialUEMessage 1 (rg_nas_request rg) (uli_of s)
    RRCEstablishmentCauseMosignalling (Tmsi5gs u2)) = (b2, None);
  en_downlink : ∃ rrc,
    RrcEncode (DL_DCCH_DlInformationTransfer 0 (dnt_NASPDU (rg_downlink rg))) = (rrc, None) ∧
    F1apEncode (dl_nas_transfer (AmfId a) (DuId d) rrc) = (b3, None);
  en_uplink : NgapEncode (UplinkNASTransport (dnt_AMFUENGAPID (rg_downlink rg)) 1
    (rg_nas_response rg) (uli_of s)) = (b4, None);
  en_context : ∃ plmn, GetMccAndMncInOctets (mcc (ci s)) (mnc (ci s)) = Ok plmn ∧
    F1apEncode (ue_context_setup u1 plmn (NRCellIdentity (iul_NRCGI (rg_initial rg))))
      = (b6, None);
  en_reconfiguration : ∃ cg, RrcEncodeCellGroup (Some (rg_cellgroup rg)) = Ok (cg, None) ∧
    RrcEncode (rrc_reconfiguration_pdu cg (ics_NASPDU (rg_context rg))) = (b7, None);
  en_response : NgapEncode (InitialContextSetupResponse (dnt_AMFUENGAPID (rg_downlink rg)) 1)
    = (b8, None)
}.

(** The fields the later messages rely on survive the earlier ones. *)
Record same_ue (u v : GNBUe) : Prop := {
  su_ran : RanUeNgapId u = RanUeNgapId v;
  su_rrc : RrcUeId u = RrcUeId v;
  su_du : DuUeId u = DuUeId v;
  su_cell : NrCellId u = NrCellId v;
  su_group : MasterCellGroup u = MasterCellGroup v
}.

Lemma tmsi_step_same u v u' :
  tmsi_step u v = Some u' → same_ue u u' ∧ AmfUeNgapId u' = AmfUeNgapId u.
Proof.
  unfold tmsi_step. destruct v as [tv|]; [|by intros [= ->]].
  intros (bs & _ & H)%bind_Some. destruct (0 <? zlen bs); [|by simplify_eq].
  destruct (Decode5GSTMSI bs); by simplify_eq.
Qed.

Lemma ul_delivers_same raw u v c1 : same_ue u v → ul_delivers raw u c1 → ul_delivers raw v c1.
Proof. intros [_ _ E _ _] (m & H & Hid & Hr). exists m. by rewrite <- E. Qed.

Lemma ue_context_setup_same u v plmn cell :
  same_ue u v → ue_context_setup u plmn cell = ue_context_setup v plmn cell.
Proof. intros [_ Er Ed _ _]. unfold ue_context_setup. by rewrite Er, Ed. Qed.

(** The states in between: the new context is [u], the messages [evs] were sent. *)
Definition at_ue (u : GNBUe) (evs : list event) (s : CuCpContext) : CuCpContext :=
  with_new_ue u s <| trace := trace s ++ evs |>.

Lemma push_at_ue e u evs s : push e (at_ue u evs s) = at_ue u (evs ++ [e]) s.
Proof. unfold at_ue. cbn. by rewrite app_assoc. Qed.
Lemma find_at_ue u evs s : find (ues (at_ue u evs s)) (UE (at_ue u evs s)) = Some u.
Proof. apply find_with_new_ue. Qed.
Lemma put_at_ue u v evs s :
  put_ue (UE (at_ue u evs s)) v (at_ue u evs s) = at_ue v evs s.
Proof.
  pose proof (put_with_new_ue u v s) as H. apply (f_equal (λ t, t <| trace := trace s ++ evs |>)) in H.
  exact H.
Qed.

Lemma at_ue_final u evs s :
  store_wf (ues s) →
  trace (at_ue u evs s) = trace s ++ evs ∧ cells (ues s) !! brk (ues s) = None ∧
  UE (at_ue u evs s) = Some (brk (ues s)) ∧ cells (ues (at_ue u evs s)) !! brk (ues s) = Some u ∧
  (∀ l', l' ≠ brk (ues s) → cells (ues (at_ue u evs s)) !! l' = cells (ues s) !! l').
Proof.
  intros Hwf. split; [done|]. split; [by apply alloc_fresh|]. split; [done|].
  split; [cbn; by rewrite lookup_insert_eq|]. intros l' Hl'. cbn. by rewrite lookup_insert_ne.
Qed.

(** Serve the next input of [s] with lemma [step], which leads to [at_ue v evs s]. *)
Ltac next v evs s step :=
  rewrite (serve_all_cons _ _ _ _ (at_ue v evs s));
  [|etrans; [eapply step; try eassumption; try apply find_at_ue; try reflexivity
            |rewrite ?put_at_ue, ?push_at_ue; reflexivity]].

Lemma registration_contexts rg u1 u2 u5 :
  tmsi_step u1 (rg_tmsi rg) = Some u2 →
  create_context rg (ue_in_procedure (ue_known_to_amf rg (ue_in_procedure u2))) = Ok u5 →
  same_ue u1 u2 ∧ same_ue u1 u5 ∧ AmfUeNgapId u5 = dnt_AMFUENGAPID (rg_downlink rg).
Proof.
  intros Htmsi Hctx. destruct (tmsi_step_same _ _ _ Htmsi) as [Hs2 _]. split; [done|].
  apply CreateUeContext_ids in Hctx as (R1 & R2 & R3 & R4 & R5 & R6 & R7 & _). split; [|done].
  destruct Hs2. constructor; cbn in *; congruence.
Qed.

Lemma registration_served rg ins s d a k ka u2 u5 b1 b2 b3 b4 b6 b7 b8
  (Hwf : store_wf (ues s)) (Ha : find (amfs s) (AMF s) = Some a) (Hka : connected a ka)
  (Hd : ready_du s (DU s) d k) (Hw : writes_ok) (Hx : ids_hex s)
  (Hins : carries rg ins (requested_ue s d a (rg_request rg) (rg_initial rg) (rg_cellgroup rg)) u2 u5)
  (Henc : encodes rg s d a (requested_ue s d a (rg_request rg) (rg_initial rg) (rg_cellgroup rg)) u2
            b1 b2 b3 b4 b6 b7 b8) :
  ∃ s' l u, serve_all (AMF s) ins s = (s', Ok tt) ∧
    trace s' = trace s ++
      [EvWrite k 62 b1; EvWrite ka 60 b2; EvWrite k 62 b3; EvWrite ka 60 b4;
       EvWrite k 62 b6; EvWrite k 62 b7; EvWrite ka 60 b8] ∧
    cells (ues s) !! l = None ∧ UE s' = Some l ∧ cells (ues s') !! l = Some u ∧
    (∀ l', l' ≠ l → cells (ues s') !! l' = cells (ues s) !! l') ∧
    ue_State u = UE_READY ∧ RrcUeId u = u64 (IdRrcUeGenerator s) ∧
    DuUeId u = u64 (iul_GNBDUUEF1APID (rg_initial rg)) ∧
    AmfUeNgapId u = dnt_AMFUENGAPID (rg_downlink rg) ∧ RanUeNgapId u = 1 ∧
    RegistrationAccept u = ics_NASPDU (rg_context rg).
Proof.
  set (u1 := requested_ue _ _ _ _ _ _) in *.
  destruct Hins as [(i1 & i2 & i3 & i4 & i5 & i6 & i7 & i8 & -> & H1 & H2 & H3 & H4 & H5 & H6
    & H7 & H8) Hch Hcont Hcg Htmsi Hctx].
  destruct Henc as [(rrc1 & Er1 & E1) E2 (rrc3 & Er3 & E3) E4 (plmn & Hplmn & E6)
    (cg & Ecg & E7) E8].
  destruct (registration_contexts _ _ _ _ Htmsi Hctx) as (Hs2 & Hs5 & Hamf5).
  set (u2' := ue_in_procedure u2). set (u3 := ue_known_to_amf rg u2').
  set (u4 := ue_in_procedure u3). set (u6 := ue_with_accept rg u5).
  set (evs := [EvWrite k 62 b1; EvWrite ka 60 b2; EvWrite k 62 b3; EvWrite ka 60 b4;
    EvWrite k 62 b6; EvWrite k 62 b7; EvWrite ka 60 b8]).
  set (u8 := u6 <| ue_State := UE_READY |>).
  exists (at_ue u8 evs s), (brk (ues s)), u8. split.
  2:{ pose proof (at_ue_final u8 evs s Hwf) as (F1 & F2 & F3 & F4 & F5).
      destruct Hs5 as [R1 R2 R3 _ _]. rewrite <- Hamf5. repeat (split; [done|]). done. }
  assert (ready_amf s (AMF s) ka) as Hra by by exists a.
  assert (same_ue u1 u3) as Hs3 by by destruct Hs2.
  assert (same_ue u1 u6) as Hs6 by by destruct Hs5.
  apply (ul_delivers_same _ _ _ _ Hs3) in H4. apply (ul_delivers_same _ _ _ _ Hs6) in H6, H8.
  rewrite (ue_context_setup_same _ _ _ _ Hs6) in E6.
  change (MasterCellGroup u1) with (Some (rg_cellgroup rg)) in *.
  next u1 [EvWrite k 62 b1] s step_rrc_setup.
  next u2' [EvWrite k 62 b1; EvWrite ka 60 b2] s step_setup_complete.
  2: by destruct Hx. 2: by rewrite <- (su_ran _ _ Hs2).
  next u3 [EvWrite k 62 b1; EvWrite ka 60 b2; EvWrite k 62 b3] s step_downlink.
  next u4 [EvWrite k 62 b1; EvWrite ka 60 b2; EvWrite k 62 b3; EvWrite ka 60 b4] s
    step_ul_information.
  2: by destruct Hx. 2: by rewrite <- (su_ran _ _ Hs3).
  next u6 [EvWrite k 62 b1; EvWrite ka 60 b2; EvWrite k 62 b3; EvWrite ka 60 b4] s step_context.
  next u6 [EvWrite k 62 b1; EvWrite ka 60 b2; EvWrite k 62 b3; EvWrite ka 60 b4;
    EvWrite k 62 b6] s step_security_complete.
  2: by rewrite <- (su_cell _ _ Hs6).
  next u6 [EvWrite k 62 b1; EvWrite ka 60 b2; EvWrite k 62 b3; EvWrite ka 60 b4;
    EvWrite k 62 b6; EvWrite k 62 b7] s step_context_response.
  2: by rewrite <- (su_group _ _ Hs6).
  next u8 evs s step_reconfiguration_complete.
  - done.
  - rewrite <- E8. change (AmfUeNgapId u6) with (AmfUeNgapId u5).
    by rewrite Hamf5, <- (su_ran _ _ Hs6).
  - exact E7.
Qed.

(** C1: End to end.  With the AMF and the DU connected, the eight messages of a
    registration, taken in order, are all handled without a panic, and the process
    sends exactly seven messages: RRC Setup to the DU, Initial UE Message to the AMF,
    the downlink NAS to the DU, Uplink NAS Transport, UE Context Setup Request,
    RRC Reconfiguration with the registration accept, Initial Context Setup Response.
    The UE ends ready, in a fresh context with its ids and the registration accept, and
    no other UE context is changed. *)
Theorem registration_flow rg ins s d a k ka u2 u5 b1 b2 b3 b4 b6 b7 b8
  (Hwf : store_wf (ues s)) (Ha : find (amfs s) (AMF s) = Some a) (Hka : connected a ka)
  (Hd : ready_du s (DU s) d k) (Hw : writes_ok) (Hx : ids_hex s)
  (Hins : carries rg ins (requested_ue s d a (rg_request rg) (rg_initial rg) (rg_cellgroup rg)) u2 u5)
  (Henc : encodes rg s d a (requested_ue s d a (rg_request rg) (rg_initial rg) (rg_cellgroup rg)) u2
            b1 b2 b3 b4 b6 b7 b8) :
  ∃ s' l u, serve_all (AMF s) ins s = (s', Ok tt) ∧
    trace s' = trace s ++
      [EvWrite k 62 b1; EvWrite ka 60 b2; EvWrite k 62 b3; EvWrite ka 60 b4;
       EvWrite k 62 b6; EvWrite k 62 b7; EvWrite ka 60 b8] ∧
    cells (ues s) !! l = None ∧ UE s' = Some l ∧ cells (ues s') !! l = Some u ∧
    (∀ l', l' ≠ l → cells (ues s') !! l' = cells (ues s) !! l') ∧
    ue_State u = UE_READY ∧ RrcUeId u = u64 (IdRrcUeGenerator s) ∧
    DuUeId u = u64 (iul_GNBDUUEF1APID (rg_initial rg)) ∧
    AmfUeNgapId u = dnt_AMFUENGAPID (rg_downlink rg) ∧ RanUeNgapId u = 1 ∧
    RegistrationAccept u = ics_NASPDU (rg_context rg).
Proof. by eapply registration_served. Qed.
End Registration.

(** The registration of a UE with a random identity on the sample codec. *)
Module FlowSample.
Import Sample NasSamples.
Definition rg : registration :=
  {| rg_initial := initial; rg_request := request RandomValue; rg_container := [33];
     rg_cellgroup := [33] : CellGroupConfig; rg_tmsi := None; rg_nas_request := [126; 0; 65];
     rg_downlink := {| dnt_AMFUENGAPID := 77; dnt_NASPDU := [126; 0; 86] |};
     rg_nas_response := [126; 0; 87];
     rg_context := {| ics_AllowedNSSAI := [{| SST := Some [1]; SD := None |}];
       ics_MobilityRestrictionList := None; ics_MaskedIMEISV := None;
       ics_UESecurityCapabilities := 0 : UESecurityCapabilities_t; ics_NASPDU := [126; 0; 66] |} |}.
Definition C : Codec :=
  codec [initial_pdu; ul 0 6 1; ul 1 6 1; ul 2 6 1;
         {| f1_Present := 2; f1_ProcedureCode := 5; f1_Msg := UEContextSetupResponseMsg |};
         ul 3 6 1]
    [ng 4 (DownlinkNASTransportMsg (rg_downlink rg));
     ng 14 (InitialContextSetupRequestMsg (rg_context rg))]
    [ccch RandomValue]
    [dcch (c1_setup_complete None [126; 0; 65]); dcch (c1_ul_information [126; 0; 87]);
     dcch c1_security_complete; dcch c1_reconfiguration_complete].
Definition inputs : list input :=
  [FromDu [0]; FromDu [1]; FromAmf [0]; FromDu [2]; FromAmf [1]; FromDu [3]; FromDu [4]; FromDu [5]].
Definition u1 : GNBUe := requested_ue up du amf (request RandomValue) initial [33].
Definition u5 : GNBUe :=
  match create_context (CO := C) rg (ue_in_procedure (ue_known_to_amf rg (ue_in_procedure u1))) with
  | Ok u => u | _ => u1 end.
End FlowSample.
Import Sample FlowSample.

Lemma registration_flow_witness :
  ∃ s' l u, serve_all (CO := C) (AMF up) inputs up = (s', Ok tt) ∧
    trace s' =
      [EvWrite 5 62 [2; 0; 6; 0; 20; 33]; EvWrite 7 60 [11; 1; 126; 0; 65];
       EvWrite 5 62 [2; 9; 42; 0; 21; 0; 126; 0; 86]; EvWrite 7 60 [12; 77; 1; 126; 0; 87];
       EvWrite 5 62 [3; 0; 6; 1; 2; 3; 4; 80]; EvWrite 5 62 [22; 33; 126; 0; 66];
       EvWrite 7 60 [13; 77; 1]] ∧
    cells (ues s') !! l = Some u ∧ ue_State u = UE_READY.
Proof.
  destruct (registration_flow (CO := C) (CL := codec_laws _ _ _ _) rg inputs up du amf 5 7 u1 u5
    [2; 0; 6; 0; 20; 33] [11; 1; 126; 0; 65] [2; 9; 42; 0; 21; 0; 126; 0; 86]
    [12; 77; 1; 126; 0; 87] [3; 0; 6; 1; 2; 3; 4; 80] [22; 33; 126; 0; 66] [13; 77; 1])
    as (s' & l & u & H & Ht & _ & _ & Hu & _ & Hst & _).
  - apply store_wf_empty.
  - reflexivity.
  - by eexists.
  - by split.
  - by intros ?.
  - by split.
  - constructor; try done; try reflexivity. do 8 eexists. split; [reflexivity|].
    repeat split; try done; try reflexivity;
      (eexists; split; [split; [done|reflexivity]|split; [reflexivity|split; [cbn; lia|reflexivity]]]).
  - constructor; try reflexivity; by repeat eexists.
  - exists s', l, u. exact (conj H (conj Ht (conj Hu Hst))).
Defined.
