(* ===== verification/SystemProps.v ===== *)
(** Theorems on the running process: start-up, what holds in every reachable state, and
    what the order of goroutines can do. *)
From S2P Require Import Prelude GoNum GoText Config Asn1 Plmn Ies Net DuContext AmfContext UeContext CuState CuNgapOut CuRrc CuF1 CuNgapIn Init CuInv System SystemInv CuNas Sample CuProps.

(** ** Start-up *)
Section StartUp.
Context `{CO : Codec}.

(** C10: With an AMF that answers and identifiers that decode, [InitContext] connects,
    creates the AMF context, and sends exactly one NG Setup Request on the association:
    the configured gNB id, the PLMN in octets, the SST of the first slice, never an SD,
    and tracking area 000001 whatever the configured one is.  Then it waits: no F1AP
    listener yet. *)
Theorem start_up cfg c plmn buf
  (Hid : Config.GnbId (Config.NGAP cfg) ≠ ""%string) (Hx : config_hex cfg)
  (Hplmn : GetMccAndMncInOctets (Config.MCC (Config.cu_PLMN (Config.CUCP cfg)))
    (Config.MNC (Config.cu_PLMN (Config.CUCP cfg))) = Ok plmn)
  (Henc : NgapEncode (NGSetupRequestOut
    {| nsq_GNB_PLMN := plmn;
       nsq_GNBID := {| Bytes := (DecodeString (Config.GnbId (Config.NGAP cfg))).1; NumBits := 24 |};
       nsq_RANNodeName := str_bytes "cu-cp"; nsq_TAC := [0; 0; 1]; nsq_BroadcastPLMN := plmn;
       nsq_SST := (DecodeString (sst (first_slice cfg))).1; nsq_SD := None;
       nsq_DefaultPagingDRX := PagingDRXV128 |}) = (buf, None)) :
  ∃ s p a, InitContext (λ _ _, inl c) cfg empty_context = (s, Ok p) ∧
    trace s = [EvWrite c 60 buf] ∧ find (amfs s) p = Some a ∧ AMF s = p ∧ connected a c ∧
    amf_State a = AMF_INACTIVE ∧ F1APListener s = None ∧ UE s = None ∧ DU s = None.
Proof.
  eexists _, (Some 1%positive), (new_amf cfg c). split.
  { rewrite (InitContext_connected (λ _ _, inl c) cfg c Hid) by done.
    by rewrite (bind_Ok _ _ _ _ _ (SendNgSetupRequest_connected cfg c plmn buf Hx Hplmn Henc)). }
  repeat (split; [done|]). split; [by eexists|]. done.
Qed.

(** C37: [Validate] does not protect the start.  Of the configurations it accepts, one
    without a gNB id makes [InitContext] dereference a nil client, whatever dialling would
    give; one whose MNC is a single digit makes it panic on an index once the AMF was
    dialled, before anything is sent (and a failed dial is fatal earlier). *)
Theorem validate_not_enough cfg mcc d
  (Hvalid : Config.Validate cfg = None) :
  (Config.GnbId (Config.NGAP cfg) = ""%string →
   ∀ dial, ∃ s, InitContext dial cfg empty_context = (s, Panic NilDeref)) ∧
  (Config.GnbId (Config.NGAP cfg) ≠ ""%string →
   all_digits mcc → Config.MCC (Config.cu_PLMN (Config.CUCP cfg)) = digits mcc →
   is_digit d → Config.MNC (Config.cu_PLMN (Config.CUCP cfg)) = digits [d] →
   (∀ c, ∃ s a, InitContext (λ _ _, inl c) cfg empty_context = (s, Panic IndexOutOfRange) ∧
      find (amfs s) (AMF s) = Some a ∧ connected a c ∧ trace s = []) ∧
   (∀ e, ∃ s, InitContext (λ _ _, inr e) cfg empty_context = (s, Exit 1))).
Proof.
  split; [intros Hg dial; by apply InitContext_no_gnbid|]. intros Hg Hm Emcc Hd Emnc. split.
  - intros c. exists (connected_context cfg c), (new_amf cfg c). split; [|by repeat (split; [by try eexists|])].
    apply (InitContext_bad_plmn (λ _ _, inl c) cfg c _ Hg); [done|]. rewrite Emcc, Emnc.
    apply GetMccAndMncInOctets_panics; [done|by constructor| |cbn; lia].
    apply Config.Validate_None, Config.v_mcc in Hvalid. rewrite Emcc in Hvalid.
    unfold Config.strlen in Hvalid. rewrite <- str_bytes_length, str_digits in Hvalid by done.
    unfold digit_chars in Hvalid. rewrite length_map in Hvalid. lia.
  - intros e. by apply (InitContext_dial_fails (λ _ _, inr e) cfg e).
Qed.
End StartUp.

Lemma start_up_witness :
  ∃ s p, InitContext (CO := Sample.codec [] [] [] []) (λ _ _, inl 7) (Sample.cfg "000008" "01")
      empty_context = (s, Ok p) ∧ trace s = [EvWrite 7 60 [10; 0; 0; 8; 0; 0; 1]].
Proof.
  destruct (start_up (CO := Sample.codec [] [] [] []) (Sample.cfg "000008" "01") 7 [0; 241; 16]
    [10; 0; 0; 8; 0; 0; 1]) as (s & p & a & H & Ht & _).
  - done.
  - by constructor.
  - reflexivity.
  - reflexivity.
  - exists s, p. exact (conj H Ht).
Defined.

(** ** Reachable states *)
Section Reachable.
Context `{CO : Codec}.

(** In every reachable state of a running process, whatever the peers send and in
    whatever order the goroutines run: the CU-CP state is well formed ([cu_wf]: no
    dangling pointer, the DU pool filed by id, DUs active with one cell, legal UE
    states); every message was written with the F1AP PPID to an accepted F1 association
    or with the NGAP PPID to the AMF's; no F1 association is accepted before the AMF
    was set up; the read queue is bounded. *)
Theorem reachable_safe ng cfg s0 s
  (Hboot : booted ng cfg s0) (Hreach : star step s0 s) (Hrun : stopped s = false) :
  cu_wf (cu s) ∧
  (∀ c ppid pdu, EvWrite c ppid pdu ∈ trace (cu s) →
     (ppid = 62 ∧ c ∈ accepted s) ∨ (ppid = 60 ∧ c = ng)) ∧
  (accepted s ≠ [] → amf_active (cu s)) ∧
  zlen (ReadCh s) ≤ 5000.
Proof.
  destruct (reachable_inv ng cfg s0 s Hboot Hreach) as [Hcu Hw Hq _ _ _].
  destruct (Hcu Hrun) as [Hwf _ _ _ Htr Hact]. split; [done|]. split; [|split; [|done]].
  - intros c p b Hin. rewrite Forall_forall in Htr. by apply (Htr _ Hin).
  - intros Hne. apply Hact. right. destruct (F1APListener (cu s)); [by eexists|]. by destruct Hne; apply Hw.
Qed.

(** With handlers that run one at a time, two UE contexts (of the first 2^64) have
    different RRC identifiers. *)
Lemma rrc_ids_differ ng cfg s0 s l1 l2 u1 u2 :
  booted ng cfg s0 → star step s0 s → stopped s = false →
  cells (ues (cu s)) !! l1 = Some u1 → cells (ues (cu s)) !! l2 = Some u2 →
  l1 ≠ l2 → Z.pos l1 < 2 ^ 64 → Z.pos l2 < 2 ^ 64 → RrcUeId u1 ≠ RrcUeId u2.
Proof.
  intros Hboot Hreach Hrun H1 H2 Hne Hb1 Hb2.
  destruct (si_cu _ _ _ _ (reachable_inv ng cfg s0 s Hboot Hreach) Hrun) as [Hwf _ _ _ _ _].
  rewrite (wf_rrc_id _ Hwf _ _ H1), (wf_rrc_id _ Hwf _ _ H2).
  unfold u64. rewrite !Z.mod_small by lia. lia.
Qed.
End Reachable.

(** ** Interleavings *)
Section Interleavings.
Context `{CL : CodecLaws}.
#[local] Set Default Proof Using "Type CL".

Lemma run_f1_task s c raw p q s' :
  stopped s = false → f1_tasks s = p ++ (c, raw) :: q → dispatchF1 raw (cu s) = (s', Ok tt) →
  step s (s <| f1_tasks := p ++ q |> <| cu := s' |>).
Proof.
  intros Hst Hq Hd. pose proof (step_f1_run s c raw p q Hst Hq) as H. rewrite Hd in H.
  replace (s <| f1_tasks := p ++ q |> <| cu := s' |>)
    with (finish (s', Ok tt) (s <| f1_tasks := p ++ q |>)); [done|].
  unfold finish. cbn. by rewrite Hst.
Qed.

(** A DU connects: its association is accepted and the goroutine of its read loop starts. *)
Definition attach (c : Z) (s : system) : system := f1_start c (f1_connect c s <| starting := starting s |>).
Lemma attach_steps c s :
  stopped s = false → is_Some (F1APListener (cu s)) → c ∉ accepted s → star step s (attach c s).
Proof.
  intros Hst Hl Hc. eapply star_step; [by apply step_io, or_introl, (step_connect s c)|].
  apply star_one, step_io, or_intror.
  pose proof (step_f1_start (f1_connect c s) c (starting s) [] Hst eq_refl) as H.
  by rewrite app_nil_r in H.
Qed.

(** C39: The F1 Setup Response goes to the association that connected last, not to the
    one that asked.  A DU connects on [c1] and its F1 Setup Request is read there.  If the
    request is handled now, the response goes to [c1].  If a second DU connects on [c2]
    before the waiting goroutine runs, the same request, read from [c1], is answered on
    [c2], the requester gets nothing, and its DU context is bound to [c2]. *)
Theorem f1_setup_misdirected s c1 c2 raw m item plmn plmns octets buf
  (Hrun : stopped s = false) (Hlisten : is_Some (F1APListener (cu s))) (Htasks : f1_tasks s = [])
  (Hc1 : c1 ∉ accepted s) (Hc2 : c2 ∉ accepted s) (Hne : c1 ≠ c2)
  (Hraw : f1_delivers raw F1apPduInitiatingMessage F1_ProcedureCode_F1Setup (F1SetupRequestMsg m))
  (Hcells : req_GNBDUServedCellsList m = [item])
  (Hplmns : sci_ServedPLMNs (item_ServedCellInformation item) = plmn :: plmns)
  (Hcu : GetMccAndMncInOctets (mcc (ci (cu s))) (mnc (ci (cu s))) = Ok octets)
  (Hmatch : plmnMatches plmn octets = true) (Hw : writes_ok)
  (Henc : F1apEncode (F1SetupResponse_of (req_TransactionID m) (req_GNBDURRCVersion m)
    [cell_to_activate item plmn]) = (buf, None)) :
  let connected1 := attach c1 s in
  let requested := f1_read c1 (ReadData (Some 62) raw) connected1 in
  let connected2 := attach c2 requested in
  star step s connected1 ∧ step connected1 requested ∧ star step requested connected2 ∧
  f1_tasks requested = [(c1, raw)] ∧ f1_tasks connected2 = [(c1, raw)] ∧
  (∃ answered, step requested answered ∧ f1_tasks answered = [] ∧
     trace (cu answered) = trace (cu s) ++ [EvWrite c1 62 buf]) ∧
  ∃ misdirected d, step connected2 misdirected ∧ f1_tasks misdirected = [] ∧
    trace (cu misdirected) = trace (cu s) ++ [EvWrite c2 62 buf] ∧
    find (dus (cu misdirected)) (DU (cu misdirected)) = Some d ∧
    DuId d = req_GNBDUID m ∧ SctpConn d = Some c2.
Proof.
  intros connected1 requested connected2.
  assert (f1_tasks requested = [(c1, raw)]) as Hreq by (cbn; by rewrite Htasks).
  split; [by apply attach_steps|].
  split; [apply step_io, or_introl, step_f1_read; [done|]; cbn; set_solver|].
  split; [apply attach_steps; [exact Hrun|exact Hlisten|cbn; set_solver]|].
  split; [exact Hreq|]. split; [exact Hreq|].
  assert (∀ t c, ci (cu t) = ci (cu s) → TempDuConn (cu t) = Some c → dispatchF1 raw (cu t) =
    (push (EvWrite c F1AP_PPID buf) (with_new_du (req_GNBDUID m)
       (set_conn (Some c) (du_of_request m item plmn (mcc (ci (cu t))) (mnc (ci (cu t))))) (cu t)),
     Ok tt)) as Hd.
  { intros t c Hci Htemp. rewrite (dispatchF1_setup _ m) by done.
    by apply (handleF1SetupRequest_accept m _ item plmn plmns octets c buf); rewrite ?Hci. }
  split.
  - eexists. split; [by apply (run_f1_task requested c1 raw [] []), (Hd requested c1)|by split].
  - eexists _, _. split; [by apply (run_f1_task connected2 c1 raw [] []), (Hd connected2 c2)|].
    split; [done|]. split; [done|]. split; [apply find_with_new_du|].
    unfold du_of_request. by destruct (item_GNBDUSystemInformation item).
Qed.

(** C15: Uplink NAS messages can overtake each other.  Of two UL Information Transfers
    of one UE read one after the other from its association, the second may reach the
    AMF first. *)
Theorem uplink_nas_reordered s c raw1 raw2 nas1 nas2 u k b1 b2
  (Hrun : stopped s = false) (Hc : c ∈ reading s) (Htasks : f1_tasks s = [])
  (Hu : find (ues (cu s)) (UE (cu s)) = Some u)
  (H1 : ul_delivers raw1 u (c1_ul_information nas1))
  (H2 : ul_delivers raw2 u (c1_ul_information nas2))
  (Ha : ready_amf (cu s) (AMF (cu s)) k) (Hx : ids_hex (cu s))
  (E1 : NgapEncode (UplinkNASTransport (AmfUeNgapId u) (RanUeNgapId u) nas1 (uli_of (cu s))) = (b1, None))
  (E2 : NgapEncode (UplinkNASTransport (AmfUeNgapId u) (RanUeNgapId u) nas2 (uli_of (cu s))) = (b2, None)) :
  ∃ s', star step (f1_read c (ReadData (Some 62) raw2) (f1_read c (ReadData (Some 62) raw1) s)) s' ∧
    step s (f1_read c (ReadData (Some 62) raw1) s) ∧
    trace (cu s') = trace (cu s) ++ [EvWrite k 60 b2; EvWrite k 60 b1].
Proof.
  set (u' := u <| ue_State := UE_ONGOING |>).
  set (s2 := push (EvWrite k NGAP_PPID b2) (put_ue (UE (cu s)) u' (cu s))).
  assert (find (ues s2) (UE s2) = Some u') as Hu' by by eapply (find_put_ue (UE (cu s))).
  eexists. split; [|split].
  - eapply star_step.
    + apply (run_f1_task _ c raw2 [(c, raw1)] []); [done|by cbn; rewrite Htasks|].
      by eapply step_ul_information.
    + apply star_one, (run_f1_task _ c raw1 [] []); [done|done|].
      eapply (step_ul_information _ nas1 s2 u' k b1); try done.
      by destruct Hx.
  - by apply step_io, or_introl, step_f1_read.
  - cbn. by rewrite <- app_assoc.
Qed.
End Interleavings.

(** ** Witnesses *)
Module SystemSamples.
Import Sample NasSamples.
Definition setup_pdu : F1apPdu :=
  {| f1_Present := 1; f1_ProcedureCode := 1;
     f1_Msg := F1SetupRequestMsg (setup_request [cells_of [[0; 241; 16]]]) |}.
Definition uplinks : Codec :=
  codec [ul 0 6 1; ul 1 6 1] [] []
    [dcch (c1_ul_information [1]); dcch (c1_ul_information [2])].
Definition running (s : CuCpContext) (conns : list Z) : system :=
  boot s (Some 1%positive) <| main_at := AtReturn |> <| accepted := conns |> <| reading := conns |>.
End SystemSamples.
Import Sample NasSamples SystemSamples.

(** A start, the NG Setup, a DU, two UEs. *)
Module Run.
Definition C : Codec :=
  codec [setup_pdu; initial_pdu]
    [{| ng_Present := 2; ng_ProcedureCode := 21;
        ng_Msg := NGSetupResponseMsg {| nsr_AMFName := [65]; nsr_RelativeAMFCapacity := 5;
          nsr_PLMNSupportList := [{| psi_PLMNIdentity := [0; 241; 16];
            psi_SliceSupportList := [{| SST := Some [1]; SD := None |}] |}] |} |}]
    [ccch RandomValue] [].
#[local] Existing Instance C.
Definition s0 : system := boot (connected_context (cfg "000008" "01") 7) (Some 1%positive).
Definition run_ng (s : system) : system :=
  finish (dispatch (amf_ptr s) [0] (cu s)) (s <| ng_tasks := [] ++ [] |>).
Definition run_f1 (raw : list Z) (s : system) : system :=
  finish (dispatchF1 raw (cu s)) (s <| f1_tasks := [] ++ [] |>).
Definition get_f1 (raw : list Z) : system → system := f1_read 5 (ReadData (Some 62) raw).
Definition s1 : system := finish (SendNgSetupRequest (amf_ptr s0) (cu s0)) (s0 <| main_at := AtWait |>).
Definition s2 : system := ng_read (ReadData (Some 60) [0]) s1.
Definition s3 : system := run_ng (s2 <| ReadCh := [] |> <| ng_tasks := ng_tasks s2 ++ [[0]] |>).
Definition s4 : system := finish (serve_f1 (cu s3)) (s3 <| main_at := AtReturn |>).
Definition s5 : system := attach 5 s4.
Definition s6 : system := run_f1 [0] (get_f1 [0] s5).
Definition s7 : system := run_f1 [1] (get_f1 [1] s6).
Definition s8 : system := run_f1 [1] (get_f1 [1] s7).

Definition ue_at (l : loc) : GNBUe := default zero_GNBUe (cells (ues (cu s8)) !! l).

Lemma booted_s0 : booted 7 (cfg "000008" "01") s0.
Proof. eexists _, _. split; [|reflexivity]. reflexivity. Qed.
Lemma reach_s5 : star step s0 s5.
Proof.
  eapply star_step; [by apply (step_request s0)|].
  eapply star_step; [apply step_io, or_introl, (step_ng_read s1 (ReadData (Some 60) [0])); by vm_compute|].
  eapply star_step; [apply step_io, or_intror, (step_ng_take s2 [0] []); by vm_compute|].
  eapply star_step; [by apply (step_ng_run (s2 <| ReadCh := [] |> <| ng_tasks := ng_tasks s2 ++ [[0]] |>) [0] [] []); vm_compute|].
  eapply star_step; [apply (step_serve s3); by vm_compute|].
  apply (attach_steps 5 s4); [by vm_compute|by vm_compute; eexists|by vm_compute; apply not_elem_of_nil].
Qed.
Lemma reach_f1 s raw :
  stopped s = false → reading s = [5] → f1_tasks s = [] →
  star step s (run_f1 raw (get_f1 raw s)).
Proof.
  intros Hs Hr Ht. eapply star_step.
  - apply step_io, or_introl, (step_f1_read s 5 (ReadData (Some 62) raw)); [done|rewrite Hr; set_solver].
  - apply star_one, (step_f1_run (get_f1 raw s) 5 raw [] []); [done|]. cbn. by rewrite Ht.
Qed.
Lemma reach_s6 : star step s0 s6.
Proof. eapply star_trans; [apply reach_s5|]. apply (reach_f1 s5 [0]); by vm_compute. Qed.
Lemma reach_s8 : star step s0 s8.
Proof.
  eapply star_trans; [apply reach_s6|].
  eapply star_trans; [apply (reach_f1 s6 [1]); by vm_compute|].
  apply (reach_f1 s7 [1]); by vm_compute.
Qed.
End Run.

Lemma reachable_safe_witness :
  cu_wf (cu Run.s8) ∧ amf_active (cu Run.s8) ∧ zlen (ReadCh Run.s8) ≤ 5000.
Proof.
  destruct (reachable_safe (CO := Run.C) 7 _ Run.s0 Run.s8 Run.booted_s0 Run.reach_s8)
    as (Hwf & _ & Ha & Hq); [by vm_compute|].
  exact (conj Hwf (conj (Ha ltac:(by vm_compute)) Hq)).
Defined.

Lemma validate_not_enough_witness :
  (∃ s, InitContext (CO := Run.C) (λ _ _, inl 7) (cfg "" "01") empty_context = (s, Panic NilDeref)) ∧
  (∃ s a, InitContext (CO := Run.C) (λ _ _, inl 7) (cfg "000008" "7") empty_context =
     (s, Panic IndexOutOfRange) ∧ find (amfs s) (AMF s) = Some a ∧ connected a 7 ∧ trace s = []).
Proof.
  split.
  - exact (proj1 (validate_not_enough (CO := Run.C) (cfg "" "01") [] 0 eq_refl) eq_refl _).
  - apply (validate_not_enough (CO := Run.C) (cfg "000008" "7") [0; 0; 1] 7 eq_refl).
    + done.
    + forall_lia.
    + reflexivity.
    + lia.
    + reflexivity.
Defined.

Lemma f1_setup_misdirected_witness :
  let s := attach 6 (Run.get_f1 [0] (attach 5 Run.s4)) in
  ∃ s', step (CO := Run.C) s s' ∧ f1_tasks s = [(5, [0])] ∧
    trace (cu s') = trace (cu Run.s4) ++ [EvWrite 6 62 ([1; 17; 5; 1] ++ str_bytes "CU-CP")].
Proof.
  destruct (f1_setup_misdirected (CO := Run.C) (CL := codec_laws _ _ _ _) Run.s4 5 6 [0]
    (setup_request [cells_of [[0; 241; 16]]]) (cells_of [[0; 241; 16]]) [0; 241; 16] [] [0; 241; 16]
    ([1; 17; 5; 1] ++ str_bytes "CU-CP")) as (_ & _ & _ & _ & Hq & _ & s' & d & Hs & _ & Ht & _).
  1: by vm_compute.
  1: by vm_compute; eexists.
  1: by vm_compute.
  1-2: vm_compute; apply not_elem_of_nil.
  1: done.
  1: by split.
  1-6: (by vm_compute) || (by intros ?).
  exists s'. exact (conj Hs (conj Hq Ht)).
Defined.

Lemma uplink_nas_reordered_witness :
  let s := running (with_current ue) [5] in
  ∃ s', star (step (CO := uplinks))
      (f1_read 5 (ReadData (Some 62) [1]) (f1_read 5 (ReadData (Some 62) [0]) s)) s' ∧
    trace (cu s') = [EvWrite 7 60 [12; 1; 1; 2]; EvWrite 7 60 [12; 1; 1; 1]].
Proof.
  intros s. destruct (uplink_nas_reordered (CO := uplinks) (CL := codec_laws _ _ _ _) s 5 [0] [1]
    [1] [2] ue 7 [12; 1; 1; 1] [12; 1; 1; 2]) as (s' & Hs & _ & Ht).
  1: done. 1: cbn; set_solver. 1-2: done.
  1-2: eexists; split; [split; [done|reflexivity]|split; [reflexivity|split; [cbn; lia|reflexivity]]].
  1: by exists amf; split; [|eexists].
  1: by split. 1-2: reflexivity.
  exists s'. exact (conj Hs Ht).
Defined.
