(* ===== verification/FineStart.v ===== *)
(** The start-up in its interleavings: [main] sends the NG Setup Request and waits on
    [IsReadyNgap] while a goroutine handles the NG Setup Response.

    [phase] lists the points at which the two can be; [phase_work] says that every move
    of the process leads from one of them to another or opens the listener. *)
From S2P Require Import Prelude Prog GoNum GoText Config Asn1 Plmn Ies Net DuContext AmfContext UeContext CuState CuNgapOut CuRrc CuF1 CuNgapIn Init CuInv System SystemInv Fine FineInv FineSystem CuNas.

Section Request.
Context `{CO : Codec}.
Variable (info : ControlInfo) (ng : Z) (amf : option loc) (octets : list Z).

(** What [main] needs to send the request, and all it changes. *)
Definition can_start (c : CuCpContext) : Prop :=
  ci c = info ∧ (ng ∉ congested c) ∧ ∃ a, find (amfs c) amf = Some a ∧ connected a ng.
Definition only_logs (c c' : CuCpContext) : Prop := c' = (c <| trace := trace c' |>).
#[local] Abbreviation goes := (goes can_start only_logs).

Lemma goes_read {A} (m : CU A) (Q : A → Prop) :
  (∀ s, can_start s → ∃ x, m s = (s, Ok x) ∧ Q x) → goes (act m) Q.
Proof.
  intros H. apply goes_await. intros s Hs. split; [done|]. destruct (H s Hs) as (x & E & HQ).
  exists s, x. split; [done|]. split; [done|]. by split; [destruct s|].
Qed.
Lemma goes_id : goes (act (gets id)) (λ c, ci c = info).
Proof. apply goes_read. intros s [Hs _]. by exists s. Qed.
Lemma goes_amf : goes (act (get_amf amf)) (λ a, connected a ng).
Proof. apply goes_read. intros s (_ & _ & a & Ha & Hc). exists a. by rewrite get_amf_eq, Ha. Qed.
Lemma goes_log level f : goes (act (modify (push (EvLog level f)))) (λ _, True).
Proof. apply goes_await. intros s Hs. split; [done|]. by eexists _, tt. Qed.
Lemma goes_mret {A} (a : A) : goes (mret a) (λ _, True).
Proof. done. Qed.
Lemma goes_write pdu : goes (await (can_write ng) (sctp_write ng NGAP_PPID pdu)) (λ _, True).
Proof.
  apply goes_await. intros s Hs. split; [by apply bool_decide_eq_true_2, Hs|]. by eexists _, _.
Qed.
Lemma goes_octets (c : CuCpContext) :
  GetMccAndMncInOctets (mcc info) (mnc info) = Ok octets → ci c = info →
  goes (act (lift (GetMccAndMncInOctets (mcc (ci c)) (mnc (ci c))))) (λ _, True).
Proof. intros Ho Hc. apply goes_read. intros s _. rewrite Hc, Ho. by exists octets. Qed.

Ltac goes_step :=
  lazymatch goal with
  | |- goes (act (gets id) ≫= _) _ => eapply goes_bind; [apply goes_id|intros ? ?]
  | |- goes (act (get_amf _) ≫= _) _ =>
      eapply goes_bind; [apply goes_amf|intros ? (sc & -> & Hsc)]; cbn [deref]
  | |- goes (act (mret ?sc) ≫= _) _ =>
      eapply (goes_bind _ _ _ _ (λ x, x = sc)); [apply goes_read; by eauto|intros ? ->]
  | |- goes (_ ≫= _) _ => eapply (goes_bind _ _ _ _ (λ _, True)); [|intros ? ?]
  | |- goes (mret _) _ => apply goes_mret
  | |- goes (act (lift (GetMccAndMncInOctets _ _))) _ => by apply goes_octets
  | |- goes (act (modify (push (EvLog _ _)))) _ => apply goes_log
  | |- goes (await _ (sctp_write _ _ _)) _ => apply goes_write
  | H : SctpClient.conn ?sc = Some _ |- goes (match SctpClient.conn ?sc with _ => _ end) _ => rewrite H
  | |- goes (match ?x with _ => _ end) _ => destruct x
  end.
Lemma goes_SendNgSetupRequest :
  GetMccAndMncInOctets (mcc info) (mnc info) = Ok octets →
  goes (fine_SendNgSetupRequest amf) (λ _, True).
Proof. intros Ho. unfold fine_SendNgSetupRequest. cbv zeta. repeat goes_step. Qed.
End Request.

Section Phases.
Context `{CL : CodecLaws}.
#[local] Set Default Proof Using "Type CL".
#[local] Abbreviation goroutine := (prog CuCpContext unit).

(** The one message of the AMF is [m], sent as [raw]; it turns the AMF's object [a] into
    [a']. *)
Context (info : ControlInfo) (ng : Z) (amf : option loc) (octets : list Z)
  (raw : list Z) (m : NGSetupResponse) (a a' : GNBAmf).
#[local] Abbreviation can_start := (can_start info ng amf).
#[local] Abbreviation goes p := (goes can_start only_logs p (λ _, True)).

(** Nobody but the AMF has anything to say. *)
Record lone (s : system) : Prop := {
  ln_running : stopped s = false;
  ln_starting : starting s = [];
  ln_tasks : f1_tasks s = [];
  ln_amf : amf_ptr s = amf;
  ln_can : can_start (cu s)
}.

(** [main] has not received the signal yet: what it runs, if it has begun. *)
Definition asking (s : system) (ms : list goroutine) : Prop :=
  (main_at s = AtRequest ∧ ms = []) ∨
  (main_at s = AtReturn ∧ ∃ p : goroutine, goes p ∧ ms = [p ≫= λ _, fine_wait]).
(** It has. *)
Definition listen_on (c : CuCpContext) : goroutine :=
  match SCTPListen (trace c) with
  | inl l => act (modify (λ s, s <| F1APListener := Some l |>))
  | inr _ =>
      _ ← act (modify (push (EvLog LFatal "Error initializing F1AP server: %v")));
      act (exits 1)
  end.
Definition serving (s : system) (ms : list goroutine) : Prop :=
  main_at s = AtReturn ∧
  (ms = [fine_initF1APServer] ∨ (∃ c, ms = [listen_on c]) ∨
   (ms = [act (exits 1)] ∧
    last (trace (cu s)) = Some (EvLog LFatal "Error initializing F1AP server: %v"))).

(** The response, until the signal; and after it. *)
Definition signal : goroutine := act (modify (λ s, s <| ready_sends := S (ready_sends s) |>)).
Definition setup_at (b : GNBAmf) (s : system) : Prop :=
  ready_sends (cu s) = 0%nat ∧ find (amfs (cu s)) amf = Some b.
Inductive reply (s : system) : list goroutine → Prop :=
| rp_queued : setup_at a s → ReadCh s = [raw] → ng_tasks s = [] → reply s []
| rp_taken : setup_at a s → ReadCh s = [] → ng_tasks s = [raw] → reply s []
| rp_handled p :
    setup_at a s → ReadCh s = [] → ng_tasks s = [] →
    p = fine_dispatch amf raw ∨ p = fine_handlerNgSetupResponse amf m → reply s [p]
| rp_recorded : setup_at a' s → ReadCh s = [] → ng_tasks s = [] → reply s [signal].
Definition replied (s : system) (hs : list goroutine) : Prop :=
  ReadCh s = [] ∧ ng_tasks s = [] ∧ (hs = [] ∨ hs = [Ret tt]).

Definition phase (f : fsystem) : Prop :=
  lone (base f) ∧ ∃ ms hs, running f ≡ₚ ms ++ hs ∧
    ((asking (base f) ms ∧
        (reply (base f) hs ∨ (replied (base f) hs ∧ ready_sends (cu (base f)) = 1%nat))) ∨
     (serving (base f) ms ∧ replied (base f) hs)).
(** The F1AP listener is open, or could not be opened and the process exits. *)
Definition opened (s : system) : Prop :=
  (stopped s = false ∧ is_Some (F1APListener (cu s))) ∨
  (stopped s = true ∧
   last (trace (cu s)) = Some (EvLog LFatal "Error initializing F1AP server: %v")).
(** Before the response was read. *)
Definition before (f : fsystem) : Prop :=
  lone (base f) ∧ asking (base f) (running f) ∧ setup_at a (base f) ∧
  ReadCh (base f) = [] ∧ ng_tasks (base f) = [].

(** *** The moves of [main] *)
Lemma lone_cu s c : lone s → can_start c → lone (s <| cu := c |>).
Proof. intros [] Hc. by constructor. Qed.
Lemma logs_setup_at b s c : only_logs (cu s) c → setup_at b s → setup_at b (s <| cu := c |>).
Proof. unfold setup_at. intros E [H1 H2]. cbn. by rewrite E. Qed.
Lemma reply_logs s c hs : only_logs (cu s) c → reply s hs → reply (s <| cu := c |>) hs.
Proof. intros E H. destruct H; econstructor; try done; by apply logs_setup_at. Qed.

Lemma ask_next (p : goroutine) c q c' :
  goes p → can_start c → next (p ≫= λ _, fine_wait) c q c' →
  (∃ p' : goroutine, goes p' ∧ q = (p' ≫= λ _, fine_wait) ∧ can_start c' ∧ only_logs c c') ∨
  (ready_sends c ≠ 0%nat ∧ q = fine_initF1APServer ∧
   c' = c <| ready_sends := pred (ready_sends c) |>).
Proof.
  destruct p as [[]|X g k n]; intros Hp Hc.
  - intros (Hg & [] & [= <-] & ->). right. split; [|done]. unfold signalled in Hg. by case_bool_decide.
  - intros (Hg & x & Hx & ->). left. exists (n x).
    destruct (goes_next can_start only_logs (Act g k n) (n x) (λ _, True) c c' Hp Hc) as (H1 & H2 & H3);
      [by split; [|exists x]|]. done.
Qed.
Lemma ask_not_halts (p : goroutine) c c' : goes p → can_start c → ¬ halts (p ≫= λ _, fine_wait) c c'.
Proof.
  destruct p as [[]|X g k n]; intros Hp Hc.
  - intros (_ & _ & H). by apply (H tt).
  - intros H. by apply (goes_stuck can_start only_logs (Act g k n) (λ _, True) c c' Hp Hc); right.
Qed.
Lemma ask_not_blocked (p : goroutine) c :
  goes p → can_start c → ready_sends c ≠ 0%nat ∨ (∃ (X : Type) g m n, p = @Act _ _ X g m n) →
  ¬ blocked (p ≫= λ _, fine_wait) c.
Proof.
  destruct p as [[]|X g k n]; intros Hp Hc Hr.
  - destruct Hr as [Hr|(? & ? & ? & ? & ?)]; [|done]. cbn. unfold signalled. by rewrite bool_decide_eq_false_2.
  - intros H. by apply (goes_stuck can_start only_logs (Act g k n) (λ _, True) c c Hp Hc); left.
Qed.

Lemma asking_next s p q c :
  lone s → asking s [p] → next p (cu s) q c →
  lone (s <| cu := c |>) ∧
  ((asking (s <| cu := c |>) [q] ∧ only_logs (cu s) c) ∨
   (ready_sends (cu s) ≠ 0%nat ∧ serving (s <| cu := c |>) [q])).
Proof.
  intros Hl [[_ ?]|(Hm & p0 & Hp & [= ->])] Hn; [done|].
  destruct (ask_next p0 (cu s) q c Hp (ln_can s Hl) Hn) as [(p' & Hp' & -> & Hc & HR)|(Hr & -> & ->)].
  - split; [by apply lone_cu|]. left. split; [|done]. right. eauto.
  - split; [apply lone_cu; [done|apply Hl]|]. right. split; [done|]. split; [done|by left].
Qed.
Lemma serving_next s p q c :
  lone s → serving s [p] → next p (cu s) q c →
  (lone (s <| cu := c |>) ∧ serving (s <| cu := c |>) [q]) ∨ opened (s <| cu := c |>).
Proof.
  intros Hl [Hm Hp] Hn. pose proof (ln_can s Hl) as Hc.
  destruct Hp as [[= ->]|[[c0 [= ->]]|[[= ->] _]]].
  - destruct Hn as (_ & x & [= <- <-] & ->). left. split; [by apply lone_cu|]. split; [done|].
    right. left. by exists (cu s).
  - unfold listen_on in Hn. destruct (SCTPListen (trace c0)) as [l|e].
    + destruct Hn as (_ & x & [= <- <-] & ->). right. left. split; [apply Hl|by eexists].
    + destruct Hn as (_ & x & [= <- <-] & ->). left. split; [by apply lone_cu|]. split; [done|].
      right. right. split; [done|]. cbn. by rewrite last_snoc.
  - by destruct Hn as (_ & x & Hx & _).
Qed.
Lemma serving_halts s p c :
  lone s → serving s [p] → halts p (cu s) c → opened (s <| cu := c |> <| stopped := true |>).
Proof.
  intros Hl [Hm Hp] H. destruct Hp as [[= ->]|[[c0 [= ->]]|[[= ->] Ht]]].
  - destruct H as (_ & _ & H). by destruct (H (cu s)).
  - unfold listen_on in H. destruct (SCTPListen (trace c0)); destruct H as (_ & _ & H); by destruct (H tt).
  - destruct H as (_ & <- & _). by right.
Qed.

(** *** The moves of the goroutine with the response *)
Context (Hraw : ng_delivers raw NgapPduSuccessfulOutcome NG_ProcedureCode_NGSetup (NGSetupResponseMsg m))
  (Hsetup : amf_after_ng_setup a m = Ok a') (Hconn : connected a ng).
#[local] Set Default Proof Using "Type CL Hraw Hsetup Hconn".

Lemma connected_setup : connected a' ng.
Proof.
  destruct Hconn as (sc & Hsc & Hk). exists sc. by rewrite (amf_after_ng_setup_tnla _ _ _ Hsetup).
Qed.
(** The response is decoded first, then handled. *)
Lemma dispatch_next c q c' :
  next (fine_dispatch amf raw) c q c' → q = fine_handlerNgSetupResponse amf m ∧ c' = c.
Proof.
  destruct Hraw as [Hne Hd]. unfold fine_dispatch. cbv zeta. rewrite (zlen_nil _ Hne), Hd.
  intros (_ & x & [= <- <-] & ->). split; [|done]. cbn. pose proof ng_present_distinct.
  by rewrite (proj2 (Z.eqb_neq _ NgapPduInitiatingMessage)), !Z.eqb_refl by done.
Qed.
Lemma dispatch_runs c : ¬ blocked (fine_dispatch amf raw) c ∧ ∀ c', ¬ halts (fine_dispatch amf raw) c c'.
Proof.
  destruct Hraw as [Hne Hd]. unfold fine_dispatch. cbv zeta. rewrite (zlen_nil _ Hne), Hd.
  split; [done|]. intros c' (_ & _ & H). by eapply H.
Qed.
Lemma handler_next c q c' :
  find (amfs c) amf = Some a → next (fine_handlerNgSetupResponse amf m) c q c' →
  q = signal ∧ c' = c <| amfs := upd_at amf (λ _, a') (amfs c) |>.
Proof.
  intros Ha (_ & [] & Hx & ->). split; [done|]. unfold call_amf in Hx. rewrite Ha, Hsetup in Hx.
  by injection Hx as <-.
Qed.
Lemma setup_handler_runs c :
  find (amfs c) amf = Some a →
  ¬ blocked (fine_handlerNgSetupResponse amf m) c ∧ ∀ c', ¬ halts (fine_handlerNgSetupResponse amf m) c c'.
Proof.
  intros Ha. split; [done|]. intros c' (_ & _ & H). apply (H tt). unfold call_amf. by rewrite Ha, Hsetup.
Qed.

Lemma reply_next s p q c :
  lone s → reply s [p] → next p (cu s) q c →
  lone (s <| cu := c |>) ∧
  (reply (s <| cu := c |>) [q] ∨ (replied (s <| cu := c |>) [q] ∧ ready_sends c = 1%nat)).
Proof.
  intros Hl Hr Hn. inversion Hr as [| |p' [Hz Ha] Hch Ht Hp|[Hz Ha] Hch Ht]; subst.
  - destruct Hp as [->| ->].
    + apply dispatch_next in Hn as [-> ->]. split; [apply lone_cu; [done|apply Hl]|]. left.
      apply rp_handled; try done. by right.
    + apply handler_next in Hn as [-> ->]; [|done]. split.
      * apply lone_cu; [done|]. destruct (ln_can s Hl) as (Hi & Hk & _). split; [done|]. split; [done|].
        exists a'. split; [by apply (find_upd_at _ _ (λ _, a') a)|apply connected_setup].
      * left. apply rp_recorded; try done. split; [done|]. by apply (find_upd_at _ _ (λ _, a') a).
  - destruct Hn as (_ & [] & [= <-] & ->). split; [apply lone_cu; [done|apply Hl]|]. right. cbn.
    rewrite Hz. split; [|done]. split; [done|]. split; [done|by right].
Qed.
Lemma reply_runs s p :
  reply s [p] → ¬ blocked p (cu s) ∧ ∀ c, ¬ halts p (cu s) c.
Proof.
  intros Hr. inversion Hr as [| |p' [Hz Ha] Hch Ht Hp|[Hz Ha] Hch Ht]; subst.
  - destruct Hp as [->| ->]; [apply dispatch_runs|by apply setup_handler_runs].
  - split; [done|]. intros c' (_ & _ & H). by apply (H tt).
Qed.

Lemma reply_not_ret s : ¬ reply s [Ret tt].
Proof.
  intros Hr. inversion Hr as [| |p' _ _ _ [Hp|Hp]|]; subst; [|done..]. revert Hp.
  destruct Hraw as [Hne Hd]. unfold fine_dispatch. cbv zeta. by rewrite (zlen_nil _ Hne), Hd.
Qed.

(** *** Both *)
Lemma asking_length s ms : asking s ms → (length ms ≤ 1)%nat.
Proof. by intros [[_ ->]|(_ & p & _ & ->)]; cbn; lia. Qed.
Lemma serving_length s ms : serving s ms → (length ms ≤ 1)%nat.
Proof. by intros [_ [->|[[c ->]|[-> _]]]]; cbn; lia. Qed.
Lemma reply_length s hs : reply s hs → (length hs ≤ 1)%nat.
Proof. destruct 1; cbn; lia. Qed.
Lemma replied_length s hs : replied s hs → (length hs ≤ 1)%nat.
Proof. intros (_ & _ & [->| ->]); cbn; lia. Qed.

Context (Hplmn : GetMccAndMncInOctets (mcc info) (mnc info) = Ok octets).
#[local] Set Default Proof Using "All".

(** [main] begins. *)
Lemma asking_begin s ms :
  lone s → asking s ms ∨ serving s ms → main_at s = AtRequest →
  ms = [] ∧ lone (s <| main_at := AtReturn |>) ∧
  asking (s <| main_at := AtReturn |>) [fine_main (amf_ptr s)].
Proof.
  intros Hl [[[Hm ->]|[Hm _]]|[Hm _]] Hm'; [|congruence..]. split; [done|].
  split; [destruct Hl; by constructor|]. right. split; [done|].
  exists (fine_SendNgSetupRequest (amf_ptr s)). rewrite (ln_amf s Hl). split; [|done].
  by apply (goes_SendNgSetupRequest info ng amf octets).
Qed.

#[local] Opaque fine_main fine_dispatch.

Lemma phase_main_next s p l ms hs q c :
  lone s → ms ≡ₚ p :: l → next p (cu s) q c →
  (asking s ms ∧ (reply s hs ∨ (replied s hs ∧ ready_sends (cu s) = 1%nat))) ∨
  (serving s ms ∧ replied s hs) →
  phase {| base := s <| cu := c |>; running := q :: l ++ hs |} ∨ opened (s <| cu := c |>).
Proof.
  intros Hl Hms Hn [[Ha Hr]|[Ha Hr]].
  - apply singleton_cons in Hms as [-> ->]; [|by eapply asking_length].
    destruct (asking_next s p q c Hl Ha Hn) as [Hl' [[Ha' HR]|[Hz Hs]]]; left; (split; [done|]); exists [q], hs.
    + split; [done|]. left. split; [done|]. destruct Hr as [Hr|[Hr Hz]]; [left; by apply reply_logs|right].
      split; [done|]. cbn. by rewrite HR.
    + split; [done|]. right. split; [done|]. destruct Hr as [Hr|[Hr _]]; [|done].
      exfalso. destruct Hr as [[Hz' _]|[Hz' _]|p' [Hz' _]|[Hz' _]]; congruence.
  - apply singleton_cons in Hms as [-> ->]; [|by eapply serving_length].
    destruct (serving_next s p q c Hl Ha Hn) as [[Hl' Ha']|Ho]; [left|by right].
    split; [done|]. exists [q], hs. split; [done|]. by right.
Qed.
Lemma phase_reply_next s p l ms hs q c :
  lone s → hs ≡ₚ p :: l → next p (cu s) q c →
  (asking s ms ∧ (reply s hs ∨ (replied s hs ∧ ready_sends (cu s) = 1%nat))) ∨
  (serving s ms ∧ replied s hs) →
  phase {| base := s <| cu := c |>; running := q :: ms ++ l |}.
Proof.
  intros Hl Hhs Hn H.
  assert (∀ k, replied s k → k ≡ₚ p :: l → False) as Hno.
  { intros k Hr Hk. apply singleton_cons in Hk as [-> _]; [|by eapply replied_length].
    destruct Hr as (_ & _ & [?|[= ->]]); [done|]. exact Hn. }
  destruct H as [[Ha [Hr|[Hr _]]]|[_ Hr]]; [|by destruct (Hno _ Hr)..].
  apply singleton_cons in Hhs as [-> ->]; [|by eapply reply_length]. rewrite app_nil_r.
  destruct (reply_next s p q c Hl Hr Hn) as [Hl' Hr']. split; [done|].
  exists ms, [q]. split; [by rewrite Permutation_app_comm|]. left. split; [|done].
  destruct Ha as [?|(? & p0 & ? & ->)]; [by left|]. right. by eauto.
Qed.

Lemma pool_step_phase s r r' c :
  phase {| base := s; running := r |} → pool_step r (cu s) r' c →
  phase {| base := s <| cu := c |>; running := r' |} ∨ opened (s <| cu := c |>).
Proof.
  intros (Hl & ms & hs & Hr & H) (p & l & Hp & Hstep)%pool_step_perm. cbn in *.
  rewrite Hr in Hp. symmetry in Hp. apply perm_parts in Hp.
  assert (∀ r1, r' ≡ₚ r1 → phase {| base := s <| cu := c |>; running := r1 |} →
    phase {| base := s <| cu := c |>; running := r' |}) as Hperm.
  { intros r1 E (Hl' & ms' & hs' & E' & H'). split; [done|]. exists ms', hs'. cbn in *. by rewrite E. }
  destruct Hstep as [(q & Hn & Hr')|(-> & -> & Hr')]; destruct Hp as [(k & Hk & El)|(k & Hk & El)];
    rewrite El in Hr'.
  - destruct (phase_main_next s p k ms hs q c Hl Hk Hn H); [left|by right]. by eapply Hperm.
  - left. eapply Hperm; [done|]. by eapply phase_reply_next.
  - exfalso. destruct H as [[Ha _]|[Ha _]].
    + apply singleton_cons in Hk as [-> _]; [|by eapply asking_length].
      destruct Ha as [[_ ?]|(_ & [[]|] & _ & ?)]; done.
    + apply singleton_cons in Hk as [-> _]; [|by eapply serving_length].
      destruct Ha as [_ [?|[[c0 H]|[? _]]]]; try done. unfold listen_on in H. by destruct (SCTPListen _).
  - left. eapply Hperm; [done|]. replace (s <| cu := cu s |>) with s by by destruct s.
    split; [done|]. exists ms, k. split; [done|].
    assert (∀ hs, replied s hs → hs ≡ₚ Ret () :: k → replied s k) as Hdone.
    { intros hs' (H1 & H2 & H3) E. split; [done|]. split; [done|].
      apply singleton_cons in E as [_ ->]; [by left|by eapply replied_length]. }
    destruct H as [[Ha [Hr1|[Hr1 Hz]]]|[Ha Hr1]].
    + exfalso. apply singleton_cons in Hk as [-> _]; [|by eapply reply_length].
      by eapply reply_not_ret.
    + left. split; [done|]. right. split; [|done]. by eapply Hdone.
    + right. split; [done|]. by eapply Hdone.
Qed.
Lemma phase_reply_runs s ms hs p :
  (asking s ms ∧ (reply s hs ∨ (replied s hs ∧ ready_sends (cu s) = 1%nat))) ∨
  (serving s ms ∧ replied s hs) →
  p ∈ hs → ¬ blocked p (cu s) ∧ ∀ c, ¬ halts p (cu s) c.
Proof.
  intros H Hp. assert (reply s hs ∨ replied s hs) as [Hr|(_ & _ & [->| ->])].
  { destruct H as [[_ [?|[? _]]]|[_ ?]]; auto. }
  - apply elem_of_Permutation in Hp as [k Hk].
    apply singleton_cons in Hk as [-> _]; [by apply reply_runs|by eapply reply_length].
  - by apply not_elem_of_nil in Hp.
  - apply list_elem_of_singleton in Hp as ->. split; [by intros []|]. by intros c [].
Qed.
Lemma halts_phase s r p c :
  phase {| base := s; running := r |} → p ∈ r → halts p (cu s) c →
  opened (s <| cu := c |> <| stopped := true |>).
Proof.
  intros (Hl & ms & hs & Hr & H) Hp Hh. cbn in *. rewrite Hr, elem_of_app in Hp.
  destruct Hp as [Hp|Hp]; [|by destruct (proj2 (phase_reply_runs s ms hs p H Hp) c)].
  apply elem_of_Permutation in Hp as [k Hk]. destruct H as [[Ha _]|[Ha _]].
  - apply singleton_cons in Hk as [-> _]; [|by eapply asking_length].
    destruct Ha as [[_ ?]|(_ & p0 & Hp0 & [= ->])]; [done|].
    by destruct (ask_not_halts p0 (cu s) c Hp0 (ln_can s Hl)).
  - apply singleton_cons in Hk as [-> _]; [|by eapply serving_length]. by eapply serving_halts.
Qed.

Lemma phase_work f f' : phase f → work f f' → phase f' ∨ opened (base f').
Proof.
  intros Hf H. destruct H as [s s' r H|s r Hst Hm|s c raw' p q r Hst Hq|s raw' p q r Hst Hq
    |s r r' c Hst Hp|s p c r Hst Hin Hh].
  - left. destruct Hf as (Hl & ms & hs & Hr & H'). cbn in *.
    destruct H as [s c p q Hst Hc|s raw' q Hst Hq]; [by rewrite (ln_starting s Hl) in Hc; destruct p|].
    assert (∀ k, replied s k → False) as Hno by (intros k (Hk & _); congruence).
    destruct H' as [[Ha [Hrep|[Hrep _]]]|[_ Hrep]]; [|by destruct (Hno _ Hrep)..].
    split; [destruct Hl; by constructor|]. exists ms, hs. split; [done|]. left. split; [exact Ha|]. left.
    inversion Hrep as [Hs Hch Ht|Hs Hch Ht|p' Hs Hch|Hs Hch]; [|congruence..]. clear Hrep.
    rewrite Hq in Hch. injection Hch as -> ->. apply rp_taken; [exact Hs|done|]. cbn. by rewrite Ht.
  - left. destruct Hf as (Hl & ms & hs & Hr & H'). cbn in *.
    destruct (asking_begin s ms Hl) as (-> & Hl' & Ha'); [destruct H' as [[? _]|[? _]]; auto|done|]. split; [done|].
    exists [fine_main (amf_ptr s)], hs. split; [cbn [running]; by rewrite Hr, Permutation_app_comm|].
    destruct H' as [[_ H']|[[H' _] _]]; [|congruence]. left. split; [done|].
    destruct H' as [H'|H']; [left|by right].
    destruct H' as [Hs ??|Hs ??|p' Hs ???|Hs ??]; by constructor.
  - destruct Hf as (Hl & _). cbn in Hl. rewrite (ln_tasks s Hl) in Hq. by destruct p.
  - left. destruct Hf as (Hl & ms & hs & Hr & H'). cbn in *.
    assert (∀ k, replied s k → False) as Hno by (intros k (_ & Hk & _); rewrite Hk in Hq; by destruct p).
    destruct H' as [[Ha [Hrep|[Hrep _]]]|[_ Hrep]]; [|by destruct (Hno _ Hrep)..].
    inversion Hrep as [Hs Hch Ht|Hs Hch Ht|p' Hs Hch Ht|Hs Hch Ht]; subst;
      rewrite Ht in Hq; try by destruct p.
    symmetry in Hq. apply app_cons_one in Hq as (-> & -> & ->). rewrite (ln_amf s Hl).
    split; [destruct Hl; by constructor|]. exists ms, [fine_dispatch amf raw].
    rewrite app_nil_r in Hr. split; [cbn [running]; by rewrite Hr|]. left. split; [exact Ha|]. left.
    apply rp_handled; try done. by left.
  - by eapply pool_step_phase.
  - right. by eapply halts_phase.
Qed.

Lemma phase_not_quiet f : phase f → ¬ quiet f.
Proof.
  intros (Hl & ms & hs & Hr & H) [Hq|(Hq1 & _ & Hq2 & _ & Hq3 & Hq4)]; [by rewrite (ln_running _ Hl) in Hq|].
  rewrite Hr, Forall_app, !Forall_forall in Hq4. destruct Hq4 as [Hb1 Hb2].
  destruct H as [[Ha [Hrep|[_ Hz]]]|[[_ Hs] _]].
  - pose proof Hrep as Hrep'. destruct Hrep' as [? Hch|? Hch Ht|p|]; [congruence..| |].
    1-2: eapply (proj1 (reply_runs _ _ Hrep)), Hb2; by left.
  - destruct Ha as [[Hm _]|(_ & p & Hp & ->)]; [done|].
    eapply ask_not_blocked; [exact Hp|apply Hl|left; by rewrite Hz|]. apply Hb1. by left.
  - destruct Hs as [->|[[c ->]|[-> _]]]; specialize (Hb1 _ ltac:(by left)); [done| |done].
    unfold listen_on in Hb1. by destruct (SCTPListen _).
Qed.

(** In every scheduling the listener opens. *)
Lemma phase_opens f : phase f → eventually work (λ f, opened (base f)) f.
Proof.
  intros Hf. apply (eventually_inv work (λ f, phase f ∨ opened (base f))); [apply work_wf| |by left].
  intros f1 [H|H]; [|by left]. right. split.
  - destruct (work_progress f1) as [Hq|Hp]; [by destruct (phase_not_quiet f1)|done].
  - intros f2. by apply phase_work.
Qed.

(** The response may come at any point of the start. *)
Lemma before_work f f' : before f → work f f' → before f'.
Proof.
  intros (Hl & Ha & Hs & Hch & Ht) H. destruct H as [s s' r H|s r Hst Hm|s c raw' p q r Hst Hq
    |s raw' p q r Hst Hq|s r r' c Hst Hp|s p c r Hst Hin Hh]; cbn in *.
  - destruct H as [s c p q Hst Hc|s raw' q Hst Hq]; [|congruence].
    rewrite (ln_starting s Hl) in Hc. by destruct p.
  - destruct (asking_begin s r Hl (or_introl Ha) Hm) as (-> & Hl' & Ha'). exact (conj Hl' (conj Ha' (conj Hs (conj Hch Ht)))).
  - rewrite (ln_tasks s Hl) in Hq. by destruct p.
  - rewrite Ht in Hq. by destruct p.
  - apply pool_step_perm in Hp as (p & l & Hr & Hstep).
    apply singleton_cons in Hr as [-> ->]; [|by eapply asking_length].
    destruct Hstep as [(q & Hn & Hr')|(-> & -> & Hr')].
    + symmetry in Hr'. apply Permutation_singleton_l in Hr' as <-.
      destruct (asking_next s p q c Hl Ha Hn) as [Hl' [[Ha' HR]|[Hz _]]]; [|by destruct Hs].
      exact (conj Hl' (conj Ha' (conj (logs_setup_at a s c HR Hs) (conj Hch Ht)))).
    + by destruct Ha as [[_ ?]|(_ & [[]|] & _ & ?)].
  - destruct Ha as [[_ ->]|(_ & p0 & Hp0 & ->)]; [by apply not_elem_of_nil in Hin|].
    apply list_elem_of_singleton in Hin as ->. by destruct (ask_not_halts p0 (cu s) c Hp0 (ln_can s Hl)).
Qed.
Lemma before_read s r :
  before {| base := s; running := r |} →
  phase {| base := ng_read (ReadData (Some 60) raw) s; running := r |}.
Proof.
  intros (Hl & Ha & Hs & Hch & Ht). cbn in *. change (60 =? NGAP_PPID) with true. cbn. rewrite Hch.
  split; [destruct Hl; by constructor|]. exists r, []. split; [by rewrite app_nil_r|]. left.
  split; [done|]. left. by apply rp_queued.
Qed.
Lemma read_opens f s r :
  before f → star work f {| base := s; running := r |} →
  eventually work (λ f, opened (base f)) {| base := ng_read (ReadData (Some 60) raw) s; running := r |}.
Proof.
  intros Hf Hs. apply phase_opens, before_read. revert Hs Hf. apply star_invariant.
  intros c c'. apply before_work.
Qed.
End Phases.
