(* ===== verification/FineProps.v ===== *)
(** Theorems on the process whose goroutines interleave action by action: safety, the
    start and a registration in every scheduling, and what preemption breaks. *)
From S2P Require Import Prelude Prog GoNum GoText Config Asn1 Plmn Ies Net DuContext AmfContext UeContext CuState CuNgapOut CuRrc CuF1 CuNgapIn Init CuInv System SystemInv Fine FineInv FineSystem CuNas Sample CuProps AmfProps CuFlow SystemProps FineStart.

Section FineProps.
Context `{CO : Codec}.

(** C2: Interleaving action by action.  In every state the process reaches when its
    goroutines may be preempted between any two actions of a handler: no pointer dangles,
    the DU pool is filed by id, DUs are active with one cell, UE states are legal
    ([cu_shape]); every message was written with the F1AP PPID to an accepted F1
    association or with the NGAP PPID to the AMF's; no F1 association is accepted before
    the AMF was set up; the read queue is bounded. *)
Theorem fine_reachable_safe ng cfg s0 f
  (Hboot : booted ng cfg s0) (Hreach : star fine_step (at_rest s0) f)
  (Hrun : stopped (base f) = false) :
  cu_shape (cu (base f)) ∧
  (∀ c ppid pdu, EvWrite c ppid pdu ∈ trace (cu (base f)) →
     (ppid = 62 ∧ c ∈ accepted (base f)) ∨ (ppid = 60 ∧ c = ng)) ∧
  (accepted (base f) ≠ [] → amf_active (cu (base f))) ∧
  zlen (ReadCh (base f)) ≤ 5000.
Proof.
  destruct (fine_reachable_inv ng cfg s0 f Hboot Hreach) as [[Hcu Hw Hq _ _ _] _].
  destruct (Hcu Hrun) as [Hwf _ _ _ Htr Hact]. split; [done|]. split; [|split; [|done]].
  - intros c p b Hin. rewrite Forall_forall in Htr. by apply (Htr _ Hin).
  - intros Hne. apply Hact. right. destruct (F1APListener (cu (base f))); [by eexists|].
    by destruct Hne; apply Hw.
Qed.

(** C12: UE identifiers.  However its goroutines interleave, the process gives every UE
    context the same RAN UE NGAP id, 1, so the AMF cannot tell UEs apart by it.  RRC
    identifiers (of the first 2^64 contexts) are different as long as handlers run one
    at a time; for preemptive goroutines they need not be ([rrc_id_race]). *)
Theorem ue_identifiers ng cfg s0 (Hboot : booted ng cfg s0) :
  (∀ f l u, star fine_step (at_rest s0) f → stopped (base f) = false →
     cells (ues (cu (base f))) !! l = Some u → RanUeNgapId u = 1) ∧
  (∀ s l1 l2 u1 u2, star step s0 s → stopped s = false →
     cells (ues (cu s)) !! l1 = Some u1 → cells (ues (cu s)) !! l2 = Some u2 →
     l1 ≠ l2 → Z.pos l1 < 2 ^ 64 → Z.pos l2 < 2 ^ 64 → RrcUeId u1 ≠ RrcUeId u2).
Proof.
  split.
  - intros f l u Hreach Hrun. destruct (fine_reachable_inv ng cfg s0 f Hboot Hreach) as [[Hcu _ _ _ _ _] _].
    destruct (Hcu Hrun) as [Hwf _ _ _ _ _]. by apply wf_ran_id.
  - intros s l1 l2 u1 u2. by apply (rrc_ids_differ ng cfg s0).
Qed.

(** *** A handler that runs alone *)







End FineProps.

Lemma new_amf_lists cfg c : amf_lists (new_amf cfg c) [] [].
Proof.
  split; [split; [apply store_wf_empty|by exists []; split; [apply NoDup_nil_2|]]|].
  split; [done|]. split; [split; [apply store_wf_empty|by exists []; split; [apply NoDup_nil_2|]]|done].
Qed.

Section Liveness.
Context `{CL : CodecLaws}.
#[local] Set Default Proof Using "Type CL".


(** C4: Liveness of the start.  At whatever point of its start the process is when the
    AMF's NG Setup Response (with readable PLMNs) is read from the association (the NG
    Setup Request may be sent or not, [main] may wait on [IsReadyNgap] already or not),
    it goes on to its F1AP listener in every scheduling of its goroutines: it cannot miss
    the signal, deadlock or panic on the way.  The one other outcome is that [listen]
    fails, which is logged as fatal and ends the process.  The response is the one message
    that is read, the AMF's association takes the request without blocking, and the
    configured PLMN can be put in octets. *)
Theorem ng_setup_opens_f1 ng cfg s0 s r raw m ps octets
  (Hboot : booted ng cfg s0) (Hstart : star work (at_rest s0) {| base := s; running := r |})
  (Hplmn : GetMccAndMncInOctets (Config.MCC (Config.cu_PLMN (Config.CUCP cfg)))
    (Config.MNC (Config.cu_PLMN (Config.CUCP cfg))) = Ok octets)
  (Hraw : ng_delivers raw NgapPduSuccessfulOutcome NG_ProcedureCode_NGSetup (NGSetupResponseMsg m))
  (Hps : plmns_of (nsr_PLMNSupportList m) ps)
  (Hb : zlen (nsr_PLMNSupportList m) < 2 ^ 62)
  (Hc : zlen (slices_of (nsr_PLMNSupportList m)) < 2 ^ 62) :
  eventually work (λ f,
      (stopped (base f) = false ∧ is_Some (F1APListener (cu (base f)))) ∨
      (stopped (base f) = true ∧ last (trace (cu (base f))) =
         Some (EvLog LFatal "Error initializing F1AP server: %v")))
    {| base := ng_read (ReadData (Some 60) raw) s; running := r |}.
Proof.
  destruct (amf_after_ng_setup_lists (new_amf cfg ng) m ps (new_amf_lists cfg ng) Hps Hb Hc)
    as (a' & Em & _). apply booted_eq in Hboot. subst s0.
  eapply (read_opens (ci (connected_context cfg ng)) ng (Some 1%positive) octets raw m (new_amf cfg ng) a');
    [done|done|by eexists|exact Hplmn| |exact Hstart].
  split; [constructor; try done|].
  - split; [done|]. split; [apply not_elem_of_nil|]. exists (new_amf cfg ng). split; [done|by eexists].
  - split; [by left|]. by repeat split.
Qed.
End Liveness.

(** ** Witnesses *)
Import Sample NasSamples SystemSamples.
#[local] Existing Instance Run.C.
Lemma fine_reach_s8 : star (fine_step (CO := Run.C)) (at_rest Run.s0) (at_rest Run.s8).
Proof. by apply (fine_simulates (CO := Run.C) Run.s0 Run.s8 Run.reach_s8); vm_compute. Qed.

Lemma fine_reachable_safe_witness :
  let f := at_rest Run.s8 in
  cu_shape (cu (base f)) ∧ amf_active (cu (base f)) ∧ zlen (ReadCh (base f)) ≤ 5000.
Proof.
  destruct (fine_reachable_safe (CO := Run.C) 7 _ Run.s0 (at_rest Run.s8) Run.booted_s0 fine_reach_s8)
    as (Hwf & _ & Ha & Hq); [by vm_compute|].
  exact (conj Hwf (conj (Ha ltac:(by vm_compute)) Hq)).
Defined.

Lemma ue_identifiers_witness :
  RanUeNgapId (Run.ue_at 1) = 1 ∧ RanUeNgapId (Run.ue_at 2) = 1 ∧
  RrcUeId (Run.ue_at 1) ≠ RrcUeId (Run.ue_at 2).
Proof.
  destruct (ue_identifiers (CO := Run.C) 7 _ Run.s0 Run.booted_s0) as [H1 H2]. split; [|split].
  - apply (H1 (at_rest Run.s8) 1%positive _ fine_reach_s8); by vm_compute.
  - apply (H1 (at_rest Run.s8) 2%positive _ fine_reach_s8); by vm_compute.
  - apply (H2 Run.s8 1%positive 2%positive _ _ Run.reach_s8); by vm_compute.
Defined.


Lemma ng_setup_opens_f1_witness :
  eventually (work (CO := Run.C)) (λ f,
      (stopped (base f) = false ∧ is_Some (F1APListener (cu (base f)))) ∨
      (stopped (base f) = true ∧ last (trace (cu (base f))) =
         Some (EvLog LFatal "Error initializing F1AP server: %v")))
    {| base := ng_read (ReadData (Some 60) [0]) Run.s0; FineSystem.running := [] |}.
Proof.
  apply (ng_setup_opens_f1 (CO := Run.C) (CL := codec_laws _ _ _ _) 7 (cfg "000008" "01") Run.s0
    Run.s0 [] [0]
    {| nsr_AMFName := [65]; nsr_RelativeAMFCapacity := 5;
       nsr_PLMNSupportList := [{| psi_PLMNIdentity := [0; 241; 16];
         psi_SliceSupportList := [{| SST := Some [1]; SD := None |}] |}] |}
    [{| ps_Mcc := "001"; ps_Mnc := "01" |}] [0; 241; 16] Run.booted_s0).
  - apply star_refl.
  - reflexivity.
  - by split.
  - constructor; [vm_compute; reflexivity|constructor].
  - by vm_compute.
  - by vm_compute.
Defined.
