(* ===== verification/FineRace.v ===== *)
(** A data race between preemptive goroutines: two RRC Setup Requests that draw the same
    RRC identifier.

    [setup_loads]: the goroutine of an RRC Setup Request comes to the store of
    [cu.IdRrcUeGenerator++] having changed nothing, in the same way from every state with
    that DU and that value of the generator.  So whatever it does after the store it does
    as on a state where the generator was never advanced. *)
From S2P Require Import Prelude Prog GoNum GoText Config Asn1 Plmn Ies Net DuContext AmfContext UeContext CuState CuNgapOut CuRrc CuF1 CuNgapIn Init CuInv System SystemInv Fine FineInv FineSystem CuNas Sample CuProps AmfProps CuFlow SystemProps FineStart FineProps.

Section Race.
Context `{CL : CodecLaws}.
#[local] Set Default Proof Using "Type CL".

Lemma runs_Act {X B} g (m : CU X) (k : X → prog CuCpContext B) s x s1 c :
  g s = true → m s = (s1, Ok x) → star next_rel (k x, s1) c → star next_rel (Act g m k, s) c.
Proof. intros Hg Hm. apply star_step. split; [done|]. by exists x. Qed.

Definition store_generator (g : Z) : CU unit := modify (λ s, s <| IdRrcUeGenerator := i64 (g + 1) |>).

Lemma setup_loads raw m r du d g :
  initial_delivers raw m r → rsr_Choice r ≠ OtherIdentity →
  ∃ K, ∀ t, DU t = du → find (dus t) du = Some d → IdRrcUeGenerator t = g →
    star next_rel (fine_dispatchF1 raw, t) (Act (λ _, true) (store_generator g) K, t).
Proof.
  intros [[Hraw Hdec] Hccch] Hch. unfold fine_dispatchF1. cbv zeta. rewrite (zlen_nil _ Hraw), Hdec.
  destruct (rsr_Choice r) eqn:Er; [| |done].
  all: eexists; intros t HDU Hd Hg; eapply runs_Act; [done|reflexivity|].
  all: cbn [f1_Present f1_ProcedureCode f1_Msg].
  all: rewrite (proj2 (Z.eqb_neq _ _) (proj1 f1_present_nonzero)), (proj2 (Z.eqb_neq _ 0))
    by apply f1_codes_nonzero.
  all: destruct (NoDup_eqb _ _ _ f1_codes_distinct) as (-> & _ & _); rewrite !Z.eqb_refl; cbn [orb].
  all: eapply runs_Act; [done|reflexivity|]; rewrite Hccch; cbn [ccch_C1].
  all: do 2 (eapply runs_Act; [done|reflexivity|]).
  all: eapply runs_Act; [done|rewrite get_du_eq, HDU, Hd; reflexivity|]; rewrite Er.
  all: do 2 (eapply runs_Act; [done|reflexivity|]); cbv beta; rewrite Hg, HDU; apply star_refl.
Qed.

Lemma opens_star (E : CuCpContext → Prop) (p p' : prog CuCpContext unit) s s' :
  star next_rel (p, s) (p', s') → opens E p → E s → opens E p'.
Proof.
  intros H. remember (p, s) as c1 eqn:E1. remember (p', s') as c2 eqn:E2. revert p s E1.
  induction H as [c|c1 [p2 s2] c3 H _ IH]; intros p s E1 Hp HE; [by simplify_eq|]. subst.
  destruct (opens_next E p p2 s s2 Hp HE H) as [Hp2 HE2]. by eapply IH.
Qed.
Lemma exec_star (p p' : prog CuCpContext unit) s s' :
  star next_rel (p, s) (p', s') → exec p s = exec p' s'.
Proof.
  intros H. remember (p, s) as c1 eqn:E1. remember (p', s') as c2 eqn:E2. revert p s E1.
  induction H as [c|c1 [p2 s2] c3 H _ IH]; intros p s E1; [by simplify_eq|]. subst.
  rewrite (exec_next p p2 s s2 H). by apply IH.
Qed.

(** The generator as another goroutine left it is overwritten. *)
Lemma store_generator_twice (K : unit → prog CuCpContext unit) s g :
  exec (Act (λ _, true) (store_generator g) K) s =
  exec (Act (λ _, true) (store_generator g) K) (s <| IdRrcUeGenerator := g |>).
Proof. done. Qed.

(** Of two waiting goroutines the first is preempted before the store, the second runs
    through, and the first goes on. *)
Lemma preempted raw1 m r du d s s2 s3 p2 l :
  initial_delivers raw1 m r → rsr_Choice r ≠ OtherIdentity →
  DU s = du → find (dus s) du = Some d →
  opens uncongested p2 → uncongested s → exec p2 s = (s2, Ok tt) →
  DU s2 = du → find (dus s2) du = Some d →
  dispatchF1 raw1 (s2 <| IdRrcUeGenerator := IdRrcUeGenerator s |>) = (s3, Ok tt) →
  star pool_rel (l ++ [fine_dispatchF1 raw1; p2], s) (l, s3).
Proof.
  intros Hraw Hch HDU Hd Hp2 HE Hx2 HDU2 Hd2 Hx3.
  destruct (setup_loads raw1 m r du d (IdRrcUeGenerator s) Hraw Hch) as [K HK].
  set (p1 := Act (λ _, true) (store_generator (IdRrcUeGenerator s)) K) in *.
  assert (star next_rel (fine_dispatchF1 raw1, s) (p1, s)) as H1 by by apply HK.
  assert (opens uncongested p1) as Hp1 by (eapply opens_star; [exact H1|apply opens_dispatchF1|done]).
  eapply star_trans; [apply (runs_pool _ _ _ _ l [p2] H1)|].
  destruct (exec_pool uncongested p2 s s2 (l ++ [p1]) [] Hp2 HE Hx2) as [H2 HE2].
  rewrite <- !app_assoc in H2. eapply star_trans; [exact H2|]. cbn [app].
  destruct (exec_pool uncongested p1 s2 s3 l [] Hp1 HE2) as [H3 _]; [|by rewrite app_nil_r in H3].
  unfold p1. rewrite store_generator_twice.
  rewrite <- (exec_star (fine_dispatchF1 raw1) _ (s2 <| IdRrcUeGenerator := IdRrcUeGenerator s |>)).
  - by rewrite cuts_dispatchF1.
  - by apply HK.
Qed.

(** Two goroutines start. *)
Lemma go_two s c1 c2 raw1 raw2 c :
  stopped s = false → f1_tasks s = [(c1, raw1); (c2, raw2)] →
  star pool_rel (waiting (main_at s) ++ [fine_dispatchF1 raw1; fine_dispatchF1 raw2], cu s)
    (waiting (main_at s), c) →
  star fine_step (at_rest s) (at_rest (s <| f1_tasks := [] |> <| cu := c |>)).
Proof.
  intros Hst Ht Hp. apply star_fine_work. unfold at_rest.
  set (s1 := s <| main_at := settled (main_at s) |>).
  eapply star_step; [by apply (work_go_f1 s1 c1 raw1 [] [(c2, raw2)])|].
  pose (s2 := s1 <| f1_tasks := [(c2, raw2)] |>).
  eapply star_step; [by apply (work_go_f1 s2 c2 raw2 [] [])|]. rewrite <- app_assoc.
  pose (s3 := s1 <| f1_tasks := [] |>). exact (work_pool s3 _ _ _ Hst Hp eq_refl).
Qed.

(** C13: A data race.  [createUE] reads the generator of RRC identifiers and increments it
    (a load and a store) without a lock.  Take any state that the started process reaches
    in which two RRC Setup Requests were read from the DU and wait for their goroutines.
    Preemptive goroutines can handle both and come to rest with two UE contexts of the
    same RRC identifier: one increment is lost, and the DU is sent two DL RRC Message
    Transfers, one for each of its UEs, with that same identifier as gNB-CU UE F1AP id.
    If from that state on handlers run one at a time, in any order and with any further
    messages, this cannot happen. *)
Theorem rrc_id_race ng cfg s0 s c1 c2 raw1 raw2 m1 m2 r1 r2 d a k container1 container2 cg1 cg2
    rrc1 rrc2 buf1 buf2
  (Hboot : booted ng cfg s0) (Hreach : star step s0 s) (Hrun : stopped s = false)
  (Htasks : f1_tasks s = [(c1, raw1); (c2, raw2)])
  (H1 : initial_delivers raw1 m1 r1) (Hch1 : rsr_Choice r1 ≠ OtherIdentity)
  (H2 : initial_delivers raw2 m2 r2) (Hch2 : rsr_Choice r2 ≠ OtherIdentity)
  (Ha : find (amfs (cu s)) (AMF (cu s)) = Some a)
  (Hd : ready_du (cu s) (DU (cu s)) d k) (Hw : writes_ok)
  (Hcont1 : iul_DUtoCURRCContainer m1 = Some container1) (Hcg1 : RrcDecodeCellGroup container1 = inl cg1)
  (Hcont2 : iul_DUtoCURRCContainer m2 = Some container2) (Hcg2 : RrcDecodeCellGroup container2 = inl cg2)
  (Hrrc1 : RrcEncode (rrc_setup_pdu container1) = (rrc1, None))
  (Hrrc2 : RrcEncode (rrc_setup_pdu container2) = (rrc2, None)) :
  let g := IdRrcUeGenerator (cu s) in
  let transfer id rrc := DLRRCMessageTransferOut
    {| dl_GNBCUUEF1APID := i64 (u64 g); dl_GNBDUUEF1APID := i64 (u64 id); dl_SRBID := 0;
       dl_RRCContainer := rrc; dl_ExecuteDuplication := 0; dl_RedirectedRRCmessage := [0] |} in
  F1apEncode (transfer (iul_GNBDUUEF1APID m1) rrc1) = (buf1, None) →
  F1apEncode (transfer (iul_GNBDUUEF1APID m2) rrc2) = (buf2, None) →
  (∃ c l1 l2 u1 u2,
     star fine_step (at_rest s0) (at_rest (s <| f1_tasks := [] |> <| cu := c |>)) ∧
     l1 ≠ l2 ∧ cells (ues (cu s)) !! l1 = None ∧ cells (ues (cu s)) !! l2 = None ∧
     cells (ues c) !! l1 = Some u1 ∧ cells (ues c) !! l2 = Some u2 ∧
     DuUeId u1 = u64 (iul_GNBDUUEF1APID m1) ∧ DuUeId u2 = u64 (iul_GNBDUUEF1APID m2) ∧
     RrcUeId u1 = u64 g ∧ RrcUeId u2 = u64 g ∧ IdRrcUeGenerator c = i64 (g + 1) ∧
     trace c = trace (cu s) ++ [EvWrite k 62 buf2; EvWrite k 62 buf1]) ∧
  (∀ s' l1 l2 u1 u2, star step s s' → stopped s' = false →
     cells (ues (cu s')) !! l1 = Some u1 → cells (ues (cu s')) !! l2 = Some u2 →
     l1 ≠ l2 → Z.pos l1 < 2 ^ 64 → Z.pos l2 < 2 ^ 64 → RrcUeId u1 ≠ RrcUeId u2).
Proof.
  intros g transfer He1 He2. split.
  2:{ intros s' l1 l2 u1 u2 Hs'. apply (rrc_ids_differ ng cfg s0); [done|by eapply star_trans]. }
  destruct (si_cu _ _ _ _ (reachable_inv ng cfg s0 s Hboot Hreach) Hrun) as [[Hwf _ _] _ _ _ _ _].
  destruct (fine_simulates s0 s Hreach) as [Hfine HE]; [by rewrite (booted_eq ng cfg s0 Hboot)|done|].
  set (u2 := requested_ue (cu s) d a r2 m2 cg2).
  set (s2 := push (EvWrite k F1AP_PPID buf2) (with_new_ue u2 (cu s))).
  set (t := s2 <| IdRrcUeGenerator := g |>). set (u1 := requested_ue t d a r1 m1 cg1).
  assert (dispatchF1 raw2 (cu s) = (s2, Ok tt)) as Hx2 by by eapply step_rrc_setup.
  assert (dispatchF1 raw1 t = (push (EvWrite k F1AP_PPID buf1) (with_new_ue u1 t), Ok tt)) as Hx1
    by by eapply (step_rrc_setup _ m1).
  exists (push (EvWrite k F1AP_PPID buf1) (with_new_ue u1 t)), (brk (ues s2)), (brk (ues (cu s))), u1, u2.
  split.
  { eapply star_trans; [exact Hfine|]. eapply go_two; [done|done|].
    apply (preempted raw1 m1 r1 (DU (cu s)) d _ s2); try done; try apply Hd; [apply opens_dispatchF1|].
    by rewrite cuts_dispatchF1. }
  pose proof (wf_ues _ Hwf) as Hues. 
  split; [cbn; lia|]. split; [apply eq_None_not_Some; intros Hl; specialize (Hues _ Hl); cbn in Hues; lia|].
  split; [by apply alloc_fresh|]. split; [cbn; by rewrite lookup_insert_eq|].
  split; [cbn; rewrite lookup_insert_ne by lia; by rewrite lookup_insert_eq|].
  repeat (split; [done|]). cbn. by rewrite <- app_assoc.
Qed.
End Race.

(** ** Witness: two requests of one DU, after a start and an F1 Setup. *)
Import Sample NasSamples.
#[local] Existing Instance Run.C.
Module Race.
Definition s : system := Run.get_f1 [1] (Run.get_f1 [1] Run.s6).
Lemma reads_two s raw1 raw2 :
  stopped s = false → 5 ∈ reading s → star (step (CO := Run.C)) s (Run.get_f1 raw2 (Run.get_f1 raw1 s)).
Proof.
  intros Hs Hr. eapply star_step; [by apply step_io, or_introl, (step_f1_read s 5 (ReadData (Some 62) raw1))|].
  apply star_one, step_io, or_introl.
  by apply (step_f1_read (Run.get_f1 raw1 s) 5 (ReadData (Some 62) raw2)).
Qed.
Lemma reach_s : star (step (CO := Run.C)) Run.s0 s.
Proof.
  eapply star_trans; [exact Run.reach_s6|]. apply reads_two; [by vm_compute|].
  replace (reading Run.s6) with [5] by by vm_compute. by left.
Qed.
End Race.
Lemma rrc_id_race_witness :
  ∃ c u1 u2,
    star (fine_step (CO := Run.C)) (at_rest Run.s0) (at_rest (Race.s <| f1_tasks := [] |> <| cu := c |>)) ∧
    RrcUeId u1 = 0 ∧ RrcUeId u2 = 0 ∧
    trace c = trace (cu Race.s) ++
      [EvWrite 5 62 [2; 0; 6; 0; 20; 33]; EvWrite 5 62 [2; 0; 6; 0; 20; 33]].
Proof.
  destruct (rrc_id_race (CO := Run.C) (CL := codec_laws _ _ _ _) 7 (cfg "000008" "01") Run.s0 Race.s
    5 5 [1] [1] initial initial (request RandomValue) (request RandomValue)
    (set_conn (Some 5) (default zero_GNBDU (find (dus (cu Race.s)) (DU (cu Race.s)))))
    (default amf (find (amfs (cu Race.s)) (AMF (cu Race.s)))) 5
    [33] [33] [33] [33] [20; 33] [20; 33] [2; 0; 6; 0; 20; 33] [2; 0; 6; 0; 20; 33]) as [H _].
  - exact Run.booted_s0.
  - exact Race.reach_s.
  - by vm_compute.
  - by vm_compute.
  - by split.
  - done.
  - by split.
  - done.
  - by vm_compute.
  - split; by vm_compute.
  - by intros ?.
  - done.
  - done.
  - done.
  - done.
  - done.
  - done.
  - by vm_compute.
  - by vm_compute.
  - destruct H as (c & l1 & l2 & u1 & u2 & H & _ & _ & _ & _ & _ & _ & _ & E1 & E2 & _ & Ht).
    exists c, u1, u2. exact (conj H (conj E1 (conj E2 Ht))).
Defined.
