(* ===== verification/Shutdown.v ===== *)
(** Start and shutdown of the process: [cmd/main.go], [App.Start] and [App.Stop] of
    [internal/app/app.go], [Terminate] of [context_cucp.go], the last goroutine of
    [InitContext] and [Close] of [sctpclient.go].

    Each goroutine is its list of operations; an operation that Go would block on has no
    step.  A channel without buffer needs a sender and a receiver at the same time.  The
    goroutines that serve the network ([Fine] models them) appear by what they can do to
    these: run for a while, log lines of their own, let the NGAP reader return, and end the
    process by a panic or a fatal error. *)
From S2P Require Import Prelude Config Ies Net CuState Sample.

(** The channels of [signal.Notify]: [waitForShutdown]'s and the one of the goroutine
    that exits. *)
Inductive sig_chan := Cmain | Cexit.
Inductive ctx_kind := BackgroundCtx | AppCtx.
#[export] Instance sig_chan_eq_dec : EqDecision sig_chan.
Proof. solve_decision. Defined.

Inductive instr :=
| Notify (c : sig_chan)         (* signal.Notify(c, SIGINT, SIGTERM) *)
| RecvSig (c : sig_chan)        (* <-c *)
| Println (t : string)
| Info (t : string)
| Err (t : string)
| SetCtx                        (* cuCtx.Ctx = a.ctx *)
| ReadCtx                       (* cuCtx.Ctx.Done(), before the receive *)
| WaitDone (k : ctx_kind)       (* <-ctx.Done() *)
| Cancel                        (* a.cancel() *)
| SendClose                     (* cu.Close <- struct{}{} *)
| RecvClose                     (* <-cu.Close *)
| CloseConn                     (* sc.conn.Close() *)
| WaitReader                    (* sc.wg.Wait() *)
| CloseStop                     (* close(cu.f1apStop) *)
| CloseListener                 (* cu.F1APListener.Close() *)
| GoExit                        (* the go statement of main *)
| OsExit (code : Z)
| MainReturn.

(** The goroutine of [main] that exits. *)
Definition exit_code : list instr := [Notify Cexit; RecvSig Cexit; OsExit 0].

Section Code.
Context `{IE : IeTypes}.
(** What the SCTP library's [Close] calls return. *)
Variable conn_close listener_close : option string.

(** [SctpConn.Close]: an error of the connection is returned before the wait. *)
Definition Close (sc : SctpClient.SctpConn) : list instr :=
  match SctpClient.conn sc, conn_close with
  | Some _, Some _ => [CloseConn]
  | Some _, None => [CloseConn; WaitReader]
  | None, _ => [WaitReader]
  end.

Definition Terminate (cu : CuCpContext) : list instr :=
  [SendClose; Info "NAS channel Terminated"] ++
  match n2 (ci cu) with
  | Some sc => Info "N2/TNLA Terminated" :: Close sc
  | None => []
  end ++
  match F1APListener cu with
  | Some _ =>
      [Info "F1AP SCTP server Terminated"; CloseStop; CloseListener] ++
      match listener_close with Some _ => [Err "F1AP listener close error: %v"] | None => [] end
  | None => []
  end ++
  [Info "CU-CP Terminated"].

(** [App.Stop] returns a nil error. *)
Definition Stop (cu : CuCpContext) : list instr :=
  [Info "Stopping CU-CP application"; Cancel] ++ Terminate cu ++ [Info "CU-CP application stopped"].

Definition waitForShutdown (cu : CuCpContext) : list instr :=
  [Notify Cmain; RecvSig Cmain; Println "shutdown signal received"] ++ Stop cu ++
  [Println "central-unit stopped"].

(** [main] from the point where [InitContext] returned to [Start]. *)
Definition main_code (cu : CuCpContext) : list instr :=
  [SetCtx; Info "CU-CP application started successfully"; GoExit] ++ waitForShutdown cu ++ [MainReturn].
(** The last goroutine of [InitContext]. *)
Definition watch_code (cu : CuCpContext) : list instr := ReadCtx :: Terminate cu.
End Code.

Inductive ending := ExitStatus (code : Z) | KilledBySignal.

(** [main] up to [svc.Start], which returns a nil error: a configuration to serve, or
    the end of the process with a line on stderr.  [created] is what [app.New] gives. *)
Definition exit (err : string) : ending * string := (ExitStatus 1, "fatal: " +:+ err)%string.
Definition main (created : Config.Config + string) : Config.Config + ending * string :=
  match created with
  | inr err => inr (exit ("create app: " +:+ err))
  | inl svc => inl svc
  end.

Inductive line := Stdout (t : string) | LogInfo (t : string) | LogError (t : string).

Record process := {
  goroutines : list (list instr);
  Ctx : ctx_kind;
  cancelled : bool;
  notified : sig_chan → bool;      (* registered with signal.Notify *)
  pending : sig_chan → bool;       (* a signal in the channel's buffer of one *)
  conn_closed : bool;
  reader_done : bool;              (* the NGAP read loop returned *)
  stop_closed : bool;
  listener_closed : bool;
  busy : nat;                      (* what the network's goroutines have left to do *)
  out : list line;
  ended : option ending
}.
#[export] Instance eta_process : Eta process := λ s,
  {| goroutines := goroutines s; Ctx := Ctx s; cancelled := cancelled s; notified := notified s;
     pending := pending s; conn_closed := conn_closed s; reader_done := reader_done s;
     stop_closed := stop_closed s; listener_closed := listener_closed s; busy := busy s; out := out s;
     ended := ended s |}.

Definition put (f : sig_chan → bool) (c : sig_chan) (b : bool) : sig_chan → bool :=
  λ c', if decide (c' = c) then b else f c'.
Definition print (l : line) (s : process) : process := s <| out := out s ++ [l] |>.

(** An operation that does not involve another goroutine: the state after it and the
    operations it leaves to do first; [None] when it blocks. *)
Definition effect (i : instr) (s : process) : option (process * list instr) :=
  match i with
  | Notify c => Some (s <| notified := put (notified s) c true |>, [])
  | RecvSig c => if pending s c then Some (s <| pending := put (pending s) c false |>, []) else None
  | Println t => Some (print (Stdout t) s, [])
  | Info t => Some (print (LogInfo t) s, [])
  | Err t => Some (print (LogError t) s, [])
  | SetCtx => Some (s <| Ctx := AppCtx |>, [])
  | ReadCtx => Some (s, [WaitDone (Ctx s)])
  | WaitDone BackgroundCtx => None
  | WaitDone AppCtx => if cancelled s then Some (s, []) else None
  | Cancel => Some (s <| cancelled := true |>, [])
  | SendClose | RecvClose => None
  | CloseConn => Some (s <| conn_closed := true |>, [])
  | WaitReader => if reader_done s then Some (s, []) else None
  | CloseStop => Some (s <| stop_closed := true |>, [])
  | CloseListener => Some (s <| listener_closed := true |>, [])
  | GoExit => Some (s <| goroutines := goroutines s ++ [exit_code] |>, [])
  | OsExit c => Some (s <| ended := Some (ExitStatus c) |>, [])
  | MainReturn => Some (s <| ended := Some (ExitStatus 0) |>, [])
  end.

Inductive move : process → process → Prop :=
| move_one s n i code s' pre :
    ended s = None → goroutines s !! n = Some (i :: code) → effect i s = Some (s', pre) →
    move s (s' <| goroutines := <[n := pre ++ code]> (goroutines s') |>)
| move_close s n m code1 code2 :
    ended s = None → goroutines s !! n = Some (SendClose :: code1) →
    goroutines s !! m = Some (RecvClose :: code2) →
    move s (s <| goroutines := <[n := code1]> (<[m := code2]> (goroutines s)) |>)
| move_reader s : ended s = None → reader_done s = false → conn_closed s = true →
    move s (s <| reader_done := true |>).

(** The goroutines that serve the network: a log line of theirs, another operation, or a
    panic (status 2) or fatal error (status 1). *)
Definition foreign (l : line) : bool :=
  match l with
  | Stdout _ => false | LogInfo t => bool_decide (t ≠ "CU-CP Terminated"%string) | LogError _ => true
  end.
Inductive background : process → process → Prop :=
| bg_log s n l : ended s = None → busy s = S n → foreign l = true →
    background s (print l (s <| busy := n |>))
| bg_quiet s n : ended s = None → busy s = S n → background s (s <| busy := n |>)
| bg_crash s n c : ended s = None → busy s = S n → c = 1 ∨ c = 2 →
    background s (s <| busy := n |> <| ended := Some (ExitStatus c) |>).
Definition any_move (s s' : process) : Prop := move s s' ∨ background s s'.

(** A SIGINT or SIGTERM: to the buffers of the registered channels, dropped where one is
    full; the default action kills the process when there is none. *)
Definition deliver (s : process) : process :=
  if notified s Cmain || notified s Cexit
  then s <| pending := λ c, pending s c || notified s c |>
  else s <| ended := Some KilledBySignal |>.

(** The peers may send more at any time, and end the NGAP reader. *)
Inductive step : process → process → Prop :=
| step_move s s' : any_move s s' → step s s'
| step_input s n : ended s = None → step s (s <| busy := n |>)
| step_signal s : ended s = None → step s (deliver s)
| step_peer s : ended s = None → step s (s <| reader_done := true |>).
(** When [InitContext] returns, its last goroutine has not run yet. *)
Definition started `{IE : IeTypes} (conn_close listener_close : option string) (cu : CuCpContext)
    : process :=
  {| goroutines := [main_code conn_close listener_close cu; watch_code conn_close listener_close cu];
     Ctx := BackgroundCtx; cancelled := false; notified := λ _, false; pending := λ _, false;
     conn_closed := false; reader_done := false; stop_closed := false; listener_closed := false;
     busy := 0; out := []; ended := None |}.

(** ** Nothing gets past [cu.Close <- struct{}{}] *)

(** The operations a goroutine may do before its first [SendClose]. *)
Definition harmless (i : instr) : bool :=
  match i with
  | SendClose | RecvClose | CloseConn | CloseStop | CloseListener | MainReturn => false
  | Println t => bool_decide (t ≠ "central-unit stopped"%string)
  | Info t => bool_decide (t ≠ "CU-CP Terminated"%string)
  | _ => true
  end.
Fixpoint guarded (code : list instr) : bool :=
  match code with
  | [] => true
  | SendClose :: _ => true
  | i :: code => harmless i && guarded code
  end.

Record not_cleaned (s : process) : Prop := {
  nc_code : Forall (λ c, guarded c = true) (goroutines s);
  nc_conn : conn_closed s = false;
  nc_stop : stop_closed s = false;
  nc_listener : listener_closed s = false;
  nc_stdout : Stdout "central-unit stopped" ∉ out s;
  nc_log : LogInfo "CU-CP Terminated" ∉ out s
}.

Lemma guarded_head s n i code :
  not_cleaned s → goroutines s !! n = Some (i :: code) →
  i = SendClose ∨ (harmless i = true ∧ guarded code = true).
Proof.
  intros [] Hn. rewrite Forall_lookup in nc_code0. specialize (nc_code0 _ _ Hn).
  destruct i; cbn in nc_code0; try discriminate; auto; right; by apply andb_true_iff in nc_code0.
Qed.

Lemma not_in_snoc {A} (x y : A) l : x ∉ l → x ≠ y → x ∉ l ++ [y].
Proof. rewrite elem_of_app, list_elem_of_singleton. naive_solver. Qed.

(** A harmless operation cleans up nothing, whatever it leaves the goroutine to do. *)
Lemma effect_not_cleaned i s s' pre code n :
  not_cleaned s → harmless i = true → guarded code = true → effect i s = Some (s', pre) →
  not_cleaned (s' <| goroutines := <[n := pre ++ code]> (goroutines s') |>).
Proof.
  intros [] Hi Hc He.
  destruct i; cbn in *; try done;
    repeat match goal with
    | H : context [if ?b then _ else _] |- _ => destruct b; [|done]
    | H : context [match ?k with BackgroundCtx => _ | AppCtx => _ end] |- _ => destruct k; [done|]
    end; injection He as <- <-; constructor; cbn; try done;
    first [by apply Forall_insert
          | by (apply Forall_insert; [apply Forall_app; split; [|constructor]|])
          | by (apply not_in_snoc; [done|]; intros [= E]; subst; by case_bool_decide)
          | by apply not_in_snoc].
Qed.

Lemma step_not_cleaned s s' : not_cleaned s → step s s' → not_cleaned s'.
Proof.
  intros H Hs. destruct Hs as [s s' [Hm|Hb]|s n _|s _|s _].
  - destruct Hm as [s n i code s' pre _ Hn He|s n m c1 c2 _ _ Hm|s _ _ Hc].
    + destruct (guarded_head _ _ _ _ H Hn) as [->|[Hi Hc]]; [done|]. by eapply effect_not_cleaned.
    + by destruct (guarded_head _ _ _ _ H Hm) as [|[? _]].
    + destruct H. by constructor.
  - destruct H, Hb as [s n l _ _ Hl|s n _ _|s n c _ _ _]; constructor; try done; cbn;
      (apply not_in_snoc; [done|]); intros <-; cbn in Hl; [done|]. by case_bool_decide.
  - destruct H. by constructor.
  - unfold deliver. destruct H, (_ || _); by constructor.
  - destruct H. by constructor.
Qed.

(** ** Termination: the operations that are left *)
Definition weight (i : instr) : nat :=
  match i with GoExit => 4 | ReadCtx => 2 | _ => 1 end.
Definition code_weight (code : list instr) : nat := sum_list_with weight code.
Definition left_to_do (s : process) : nat :=
  sum_list_with code_weight (goroutines s) + (if reader_done s then 0 else 1) + busy s.

Lemma sum_insert (f : list instr → nat) l n c c' :
  l !! n = Some c → (sum_list_with f (<[n := c']> l) + f c = sum_list_with f l + f c')%nat.
Proof.
  revert n. induction l as [|x l IH]; intros [|n] H; simplify_eq/=; [lia|].
  specialize (IH n H). lia.
Qed.

Lemma effect_weight i s s' pre n code :
  goroutines s !! n = Some (i :: code) → effect i s = Some (s', pre) →
  (left_to_do (s' <| goroutines := <[n := pre ++ code]> (goroutines s') |>) < left_to_do s)%nat.
Proof.
  intros Hn He.
  pose proof (sum_insert code_weight _ _ _ (pre ++ code) Hn) as Hs.
  unfold left_to_do, code_weight in *.
  destruct i; cbn in He; try done;
    repeat match goal with
    | H : context [if ?b then _ else _] |- _ => destruct b eqn:?; [|done]
    | H : context [match ?k with BackgroundCtx => _ | AppCtx => _ end] |- _ => destruct k; [done|]
    end; injection He as <- <-; cbn in *; try (repeat case_match; done || lia).
  rewrite insert_app_l by (by eapply lookup_lt_Some). rewrite sum_list_with_app. cbn. lia.
Qed.

Lemma move_weight s s' : move s s' → (left_to_do s' < left_to_do s)%nat.
Proof.
  destruct 1 as [s n i code s' pre _ Hn He|s n m c1 c2 _ Hn Hm|s _ Hr _].
  - by eapply effect_weight.
  - unfold left_to_do. cbn. pose proof (sum_insert code_weight _ _ _ c2 Hm).
    assert (<[m := c2]> (goroutines s) !! n = Some (SendClose :: c1)) as Hn2.
    { rewrite list_lookup_insert_ne; [done|]. intros ->. congruence. }
    pose proof (sum_insert code_weight _ _ _ c1 Hn2).
    unfold code_weight in *. cbn in *. lia.
  - unfold left_to_do. cbn. rewrite Hr. lia.
Qed.
Lemma background_weight s s' : background s s' → (left_to_do s' < left_to_do s)%nat.
Proof. unfold left_to_do. destruct 1 as [s n l _ Hb _|s n _ Hb|s n c _ Hb _]; cbn; rewrite Hb; lia. Qed.
(** Hence any moves come to an end, with or without those of the other goroutines. *)
Lemma moves_wf (R : process → process → Prop) s :
  (∀ s s', R s s' → any_move s s') → Acc (λ s' s, R s s') s.
Proof.
  intros HR.
  remember (left_to_do s) as n eqn:E. revert s E. induction n as [n IH] using lt_wf_ind.
  intros s ->. constructor. intros s' H. eapply IH; [|done].
  destruct (HR _ _ H); [by apply move_weight|by apply background_weight].
Qed.

(** ** The goroutine that exits

    Its stages, with what the process knows of its channel. *)
Definition exit_stage (c : list instr) (s : process) : Prop :=
  match c with
  | [Notify Cexit; RecvSig Cexit; OsExit 0] => notified s Cexit = false
  | [RecvSig Cexit; OsExit 0] => notified s Cexit = true
  | [OsExit 0] => True
  | _ => False
  end.
(** The other goroutines leave it alone. *)
Definition apart (i : instr) : bool :=
  match i with
  | Notify Cexit | RecvSig Cexit | OsExit _ | GoExit | MainReturn | RecvClose => false | _ => true end.
Definition all_apart (code : list instr) : Prop := Forall (λ i, apart i = true) code.

(** [main] before and after its go statement; the watcher; the goroutine that exits. *)
Definition apart_then_return (m : list instr) : Prop := ∃ k, m = k ++ [MainReturn] ∧ all_apart k.
Definition shape (s : process) : Prop :=
  (∃ m1 m2 w, goroutines s = [m1 ++ GoExit :: m2; w] ∧ all_apart m1 ∧ apart_then_return m2 ∧
     all_apart w ∧ notified s Cexit = false) ∨
  (∃ m w c, goroutines s = [m; w; c] ∧ apart_then_return m ∧ all_apart w ∧ exit_stage c s).

Lemma effect_apart i s s' pre :
  apart i = true → effect i s = Some (s', pre) →
  all_apart pre ∧ goroutines s' = goroutines s ∧ notified s' Cexit = notified s Cexit ∧
  ended s' = ended s ∧ (pending s Cexit = true → pending s' Cexit = true).
Proof.
  intros Hi He.
  destruct i as [[]|[]| | | | | |[]| | | | | | | | | |]; cbn in *; try done;
    repeat match goal with
    | H : context [if ?b then _ else _] |- _ => destruct b eqn:?; [|done]
    end; injection He as <- <-; by repeat constructor.
Qed.

Lemma apart_tail i code : all_apart (i :: code) → apart i = true ∧ all_apart code.
Proof. by intros [? ?]%Forall_cons. Qed.
Lemma return_tail i code :
  apart_then_return (i :: code) →
  (i = MainReturn ∧ code = []) ∨ (apart i = true ∧ apart_then_return code).
Proof.
  intros ([|j k] & E & Hk); injection E as -> ->; [by left|].
  apply apart_tail in Hk as [? ?]. right. split; [done|]. by exists k.
Qed.
Lemma return_app pre code : all_apart pre → apart_then_return code → apart_then_return (pre ++ code).
Proof.
  intros Hp (k & -> & Hk). exists (pre ++ k). rewrite app_assoc. split; [done|].
  by apply Forall_app.
Qed.

(** A step of [main] or of the watcher, and one of the third goroutine. *)
Lemma three_lookup (m w c code : list instr) n :
  [m; w; c] !! n = Some code → (n = 0%nat ∧ code = m) ∨ (n = 1%nat ∧ code = w) ∨ (n = 2%nat ∧ code = c).
Proof. destruct n as [|[|[|[]]]]; cbn; intros [= <-]; auto. Qed.
Lemma two_lookup (m w code : list instr) n :
  [m; w] !! n = Some code → (n = 0%nat ∧ code = m) ∨ (n = 1%nat ∧ code = w).
Proof. destruct n as [|[|[]]]; cbn; intros [= <-]; auto. Qed.

Definition settled (s : process) : Prop := ended s = None → shape s.

Lemma no_receiver s n code : shape s → goroutines s !! n = Some (RecvClose :: code) → False.
Proof.
  intros [(m1 & m2 & w & Hg & H1 & _ & Hw & _)|(m & w & c & Hg & Hm & Hw & Hc)] Hn; rewrite Hg in Hn.
  - apply two_lookup in Hn as [[_ E]|[_ E]].
    + destruct m1 as [|i m1]; injection E as ? ?; [done|]. subst. by apply apart_tail in H1 as [? _].
    + subst. by apply apart_tail in Hw as [? _].
  - apply three_lookup in Hn as [[_ E]|[[_ E]|[_ E]]]; subst.
    + apply return_tail in Hm as [[? _]|[? _]]; done.
    + by apply apart_tail in Hw as [? _].
    + done.
Qed.

Lemma one_settled s n i code s' pre :
  shape s → goroutines s !! n = Some (i :: code) → effect i s = Some (s', pre) →
  settled (s' <| goroutines := <[n := pre ++ code]> (goroutines s') |>).
Proof.
  intros [(m1 & m2 & w & Hg & H1 & H2 & Hw & Hno)|(m & w & c & Hg & Hm & Hw & Hc)] Hn He Hend;
    rewrite Hg in Hn; cbn in Hend.
  - apply two_lookup in Hn as [[-> E]|[-> E]].
    + destruct m1 as [|j m1]; injection E as -> ->.
      * cbn in He. injection He as <- <-. right. cbn. rewrite Hg. by exists m2, w, exit_code.
      * apply apart_tail in H1 as [Hj H1]. destruct (effect_apart _ _ _ _ Hj He) as (Hp & Hg' & Hno' & _).
        left. cbn. rewrite Hg', Hg. exists (pre ++ m1), m2, w. rewrite <- app_assoc, Hno'.
        repeat split; try done. by apply Forall_app.
    + subst w. apply apart_tail in Hw as [Hj Hw].
      destruct (effect_apart _ _ _ _ Hj He) as (Hp & Hg' & Hno' & _).
      left. cbn. rewrite Hg', Hg. exists m1, m2, (pre ++ code). rewrite Hno'.
      repeat split; try done. by apply Forall_app.
  - assert (∀ s1, notified s1 Cexit = notified s Cexit → exit_stage c s1) as Hstage.
    { intros s1 E. unfold exit_stage in *. repeat case_match; try done; congruence. }
    apply three_lookup in Hn as [[-> E]|[[-> E]|[-> E]]]; subst.
    + apply return_tail in Hm as [[-> ->]|[Hj Hm]]; [by injection He as <- <-|].
      destruct (effect_apart _ _ _ _ Hj He) as (Hp & Hg' & Hno' & _).
      right. cbn. rewrite Hg', Hg. exists (pre ++ code), w, c. repeat split; try done.
      * by apply return_app.
      * by apply Hstage.
    + apply apart_tail in Hw as [Hj Hw]. destruct (effect_apart _ _ _ _ Hj He) as (Hp & Hg' & Hno' & _).
      right. cbn. rewrite Hg', Hg. exists m, (pre ++ code), c. repeat split; try done.
      * by apply Forall_app.
      * by apply Hstage.
    + right. unfold exit_stage in Hc.
      repeat (case_match; try done); simplify_eq; cbn in He.
      all: try (destruct (pending s Cexit); [|done]); injection He as <- <-; try done.
      all: cbn; rewrite Hg; eexists m, w, _; cbn; repeat split; try done.
Qed.

Lemma step_settled s s' : settled s → step s s' → settled s'.
Proof.
  intros H Hs. destruct Hs as [s s' [Hm|Hb]|s n Hend|s Hend|s Hend].
  - destruct Hm as [s n i code s' pre Hend Hn He|s n m c1 c2 Hend _ Hm|s Hend _ _].
    + eapply one_settled; [by apply H|done|done].
    + by destruct (no_receiver _ _ _ (H Hend) Hm).
    + exact H.
  - destruct Hb; [exact H|exact H|by intros ?].
  - exact H.
  - unfold deliver. destruct (_ || _); [exact H|by intros ?].
  - exact H.
Qed.

(** The goroutine that exits has its signal. *)
Definition armed (s : process) : Prop :=
  ended s = None ∧ ∃ m w c, goroutines s = [m; w; c] ∧ apart_then_return m ∧ all_apart w ∧
    ((c = [RecvSig Cexit; OsExit 0] ∧ pending s Cexit = true) ∨ c = [OsExit 0]).

Lemma armed_settled s : settled s → ended s = None → notified s Cexit = true → armed (deliver s).
Proof.
  intros H Hend Hn. unfold deliver. rewrite Hn, orb_true_r. split; [done|].
  destruct (H Hend) as [(m1 & m2 & w & _ & _ & _ & _ & Hno)|(m & w & c & Hg & Hm & Hw & Hc)]; [congruence|].
  exists m, w, c. repeat split; try done. cbn. rewrite Hn, orb_true_r. unfold exit_stage in Hc.
  repeat (case_match; try done); simplify_eq; first [congruence | by left | by right].
Qed.

Lemma armed_move s s' : armed s → move s s' → ended s' = Some (ExitStatus 0) ∨ armed s'.
Proof.
  intros [Hend (m & w & c & Hg & Hm & Hw & Hc)] Hs.
  destruct Hs as [s n i code s' pre _ Hn He|s n k c1 c2 _ _ Hk|s _ _ _].
  - rewrite Hg in Hn. apply three_lookup in Hn as [[-> E]|[[-> E]|[-> E]]]; subst.
    + apply return_tail in Hm as [[-> ->]|[Hj Hm]]; [injection He as <- <-; by left|].
      destruct (effect_apart _ _ _ _ Hj He) as (Hp & Hg' & _ & Hend' & Hpend).
      right. split; [cbn; congruence|]. cbn. rewrite Hg', Hg. exists (pre ++ code), w, c.
      repeat split; try done; [by apply return_app|]. naive_solver.
    + apply apart_tail in Hw as [Hj Hw]. destruct (effect_apart _ _ _ _ Hj He) as (Hp & Hg' & _ & Hend' & Hpend).
      right. split; [cbn; congruence|]. cbn. rewrite Hg', Hg. exists m, (pre ++ code), c.
      repeat split; try done; [by apply Forall_app|]. naive_solver.
    + destruct Hc as [[[= -> ->] Hpe]|[= -> ->]]; cbn in He.
      * rewrite Hpe in He. injection He as <- <-. right. split; [done|]. cbn. rewrite Hg.
        exists m, w, [OsExit 0]. auto.
      * injection He as <- <-. by left.
  - exfalso. rewrite Hg in Hk. apply three_lookup in Hk as [[_ E]|[[_ E]|[_ E]]]; subst.
    + apply return_tail in Hm as [[? _]|[? _]]; done.
    + by apply apart_tail in Hw as [? _].
    + destruct Hc as [[? _]|?]; done.
  - right. split; [done|]. by exists m, w, c.
Qed.

Lemma armed_can_move s : armed s → ∃ s', move s s'.
Proof.
  intros [Hend (m & w & c & Hg & _ & _ & Hc)].
  destruct Hc as [[-> Hp]| ->]; eexists.
  - eapply (move_one s 2 (RecvSig Cexit)); [done|by rewrite Hg|cbn; by rewrite Hp].
  - eapply (move_one s 2 (OsExit 0)); [done|by rewrite Hg|done].
Qed.

Lemma armed_exits s : armed s → eventually move (λ s, ended s = Some (ExitStatus 0)) s.
Proof.
  intros H. apply (eventually_inv move (λ s, ended s = Some (ExitStatus 0) ∨ armed s));
    [apply moves_wf; by left| |by right].
  intros s1 [He|H1]; [by left|]. right. split; [by apply armed_can_move|].
  intros s2. by apply armed_move.
Qed.

(** The other goroutines leave it armed, or end the process themselves. *)
Definition crashed (s : process) : Prop := ended s = Some (ExitStatus 1) ∨ ended s = Some (ExitStatus 2).
Lemma armed_background s s' : armed s → background s s' → armed s' ∨ crashed s'.
Proof.
  intros [Hend (m & w & c & Hg & Hm & Hw & Hc)] Hb.
  destruct Hb as [s n l _ _ _|s n _ _|s n k _ _ [-> | ->]]; [left|left|by right; left|by right; right];
    (split; [done|]); by exists m, w, c.
Qed.
Lemma armed_ends s :
  armed s → eventually any_move (λ s, ended s = Some (ExitStatus 0) ∨ crashed s) s.
Proof.
  intros H. apply (eventually_inv any_move (λ s, (ended s = Some (ExitStatus 0) ∨ crashed s) ∨ armed s));
    [by apply moves_wf| |by right].
  intros s1 [He|H1]; [by left|]. right. split.
  - destruct (armed_can_move s1 H1) as [s2 H2]. exists s2. by left.
  - intros s2 [H2|H2]; [destruct (armed_move _ _ H1 H2); auto|destruct (armed_background _ _ H1 H2); auto].
Qed.

(** The moves of chosen goroutines, executed. *)
Definition move_nth (n : nat) (s : process) : option process :=
  match ended s, goroutines s !! n with
  | None, Some (i :: code) =>
      '(s', pre) ← effect i s; Some (s' <| goroutines := <[n := pre ++ code]> (goroutines s') |>)
  | _, _ => None
  end.
Fixpoint moves (l : list nat) (s : process) : option process :=
  match l with [] => Some s | n :: l => move_nth n s ≫= moves l end.
Lemma moves_star l s s' : moves l s = Some s' → star step s s'.
Proof.
  revert s. induction l as [|n l IH]; intros s; cbn; [intros [= ->]; constructor|].
  intros (s1 & H & Hl)%bind_Some. eapply star_step; [|by apply IH]. apply step_move. left.
  unfold move_nth in H. destruct (ended s) eqn:He; [done|].
  destruct (goroutines s !! n) as [[|i code]|] eqn:Hn; [done| |done].
  apply bind_Some in H as ([s2 pre] & Heff & [= <-]). by eapply move_one.
Qed.

(** The hang: [main] has registered and its goroutine has not; the signal; the end. *)
Section Hang.
Context `{IE : IeTypes}.
Variable conn_close listener_close : option string.
Variable cu : CuCpContext.
Definition registered : process :=
  {| goroutines := [drop 4 (main_code conn_close listener_close cu);
                    watch_code conn_close listener_close cu; exit_code];
     Ctx := AppCtx; cancelled := false; notified := put (λ _, false) Cmain true;
     pending := λ _, false; conn_closed := false; reader_done := false; stop_closed := false;
     listener_closed := false; busy := 0; out := [LogInfo "CU-CP application started successfully"];
     ended := None |}.
Definition hung : process :=
  {| goroutines := [drop 8 (main_code conn_close listener_close cu);
                    Terminate conn_close listener_close cu; [RecvSig Cexit; OsExit 0]];
     Ctx := AppCtx; cancelled := true; notified := put (notified registered) Cexit true;
     pending := put (pending (deliver registered)) Cmain false;
     conn_closed := false; reader_done := false; stop_closed := false; listener_closed := false;
     busy := 0; out := [LogInfo "CU-CP application started successfully"; Stdout "shutdown signal received";
             LogInfo "Stopping CU-CP application"];
     ended := None |}.
Lemma hung_first :
  moves [0; 0; 0; 0]%nat (started conn_close listener_close cu) = Some registered.
Proof. reflexivity. Qed.
Lemma hung_second : moves [0; 0; 0; 0; 1; 1; 2]%nat (deliver registered) = Some hung.
Proof. reflexivity. Qed.
Lemma hung_reached : star step (started conn_close listener_close cu) hung.
Proof.
  eapply star_trans; [apply (moves_star [0; 0; 0; 0]%nat), hung_first|].
  eapply star_step; [by apply step_signal|].
  apply (moves_star [0; 0; 0; 0; 1; 1; 2]%nat), hung_second.
Qed.
End Hang.

Lemma all_blocked s k1 k2 k3 :
  goroutines s = [SendClose :: k1; SendClose :: k2; RecvSig Cexit :: k3] →
  pending s Cexit = false → conn_closed s = false → busy s = 0%nat → ∀ s', ¬ any_move s s'.
Proof.
  intros Hg Hp Hcl Hb s' [Hm|Hm]; [|destruct Hm as [? ? ? _ E|? ? _ E|? ? ? _ E]; by rewrite Hb in E]. destruct Hm as [s n i code s2 pre _ Hn He|s n m c1 c2 _ _ Hk|s _ _ Hc].
  - rewrite Hg in Hn. apply three_lookup in Hn as [[_ E]|[[_ E]|[_ E]]]; injection E as -> _; try done.
    cbn in He. by rewrite Hp in He.
  - rewrite Hg in Hk. by apply three_lookup in Hk as [[_ E]|[[_ E]|[_ E]]].
  - congruence.
Qed.

Section Theorems.
Context `{IE : IeTypes}.
Variable conn_close listener_close : option string.

Lemma started_not_cleaned cu : not_cleaned (started conn_close listener_close cu).
Proof. constructor; try done; try apply not_elem_of_nil. by repeat constructor. Qed.

Lemma Close_apart sc : all_apart (Close conn_close sc).
Proof. unfold Close. repeat case_match; by repeat constructor. Qed.
Lemma Terminate_apart cu : all_apart (Terminate conn_close listener_close cu).
Proof.
  unfold Terminate. apply Forall_app. split; [by repeat constructor|].
  apply Forall_app. split; [destruct (n2 (ci cu)); [constructor; [done|apply Close_apart]|constructor]|].
  apply Forall_app. split; [|by repeat constructor].
  destruct (F1APListener cu), listener_close; by repeat constructor.
Qed.
Lemma started_settled cu : settled (started conn_close listener_close cu).
Proof.
  intros _. left. eexists [_; _], _, _. split; [reflexivity|]. split; [by repeat constructor|].
  split; [|split; [|done]].
  - eexists. split; [reflexivity|]. unfold waitForShutdown, Stop.
    apply Forall_app_2; [by repeat constructor|]. apply Forall_app_2; [|by repeat constructor].
    apply Forall_app_2; [by repeat constructor|].
    apply Forall_app_2; [apply Terminate_apart|by repeat constructor].
  - constructor; [done|apply Terminate_apart].
Qed.

(** C17: The shutdown never cleans up.  Whatever signals the process gets, however its
    goroutines are scheduled and whatever those that serve the network do: the connection
    to the AMF, the F1AP listener and its stop channel are never closed, and neither
    "CU-CP Terminated" nor "central-unit stopped" is ever reported.  [Terminate] first
    sends on [cu.Close], a channel without buffer that nothing receives from. *)
Theorem shutdown_never_cleans cu s
  (Hreach : star step (started conn_close listener_close cu) s) :
  conn_closed s = false ∧ listener_closed s = false ∧ stop_closed s = false ∧
  (Stdout "central-unit stopped" ∉ out s) ∧ (LogInfo "CU-CP Terminated" ∉ out s).
Proof.
  enough (not_cleaned s) as [] by done.
  eapply (star_invariant step not_cleaned); [apply step_not_cleaned|done|]. apply started_not_cleaned.
Qed.

(** C16: Liveness of the exit.  Once the goroutine that exits has registered its
    channel, a signal ends the process with status 0 in every scheduling of [main], the
    last goroutine of [InitContext] and the goroutine that exits, although the first two
    hang in [Terminate].  If the goroutines that serve the network still have something to
    do, the process ends all the same, with status 0 unless one of them panics (2) or
    fails fatally (1) before. *)
Theorem signal_exits cu s
  (Hreach : star step (started conn_close listener_close cu) s) (Hrun : ended s = None)
  (Hnotified : notified s Cexit = true) :
  eventually move (λ s, ended s = Some (ExitStatus 0)) (deliver s) ∧
  eventually any_move (λ s, ended s = Some (ExitStatus 0) ∨
    ended s = Some (ExitStatus 1) ∨ ended s = Some (ExitStatus 2)) (deliver s).
Proof.
  assert (armed (deliver s)) as H.
  { apply armed_settled; [|done|done].
    eapply (star_invariant step settled); [apply step_settled|done|]. apply started_settled. }
  split; [by apply armed_exits|by apply armed_ends].
Qed.

(** C18: The shutdown can hang.  [main] starts the goroutine that exits before it waits
    itself, but the two register for signals independently.  When the signal comes after
    [main] has registered and before the goroutine has, the process prints "shutdown
    signal received" and then [main], the last goroutine of [InitContext] and the
    goroutine that exits all block for ever; with the network silent no goroutine has a
    step left, and only another signal ends the process. *)
Theorem shutdown_can_hang cu :
  ∃ s, star step (started conn_close listener_close cu) s ∧ ended s = None ∧
    Stdout "shutdown signal received" ∈ out s ∧ (∀ s', ¬ any_move s s') ∧
    notified s Cexit = true ∧ pending s Cexit = false.
Proof.
  exists (hung conn_close listener_close cu). split; [|split; [done|split; [|split; [|done]]]].
  - apply hung_reached.
  - cbn. set_solver.
  - by eapply all_blocked.
Qed.
End Theorems.

(** ** Witnesses *)
Import Sample.
Lemma shutdown_never_cleans_witness :
  let s := hung None None up in
  star step (started None None up) s ∧
  conn_closed s = false ∧ listener_closed s = false.
Proof.
  intros s. pose proof (hung_reached None None up) as H.
  destruct (shutdown_never_cleans None None up s H) as (Hc & Hl & _).
  exact (conj H (conj Hc Hl)).
Defined.
Lemma signal_exits_witness :
  eventually move (λ s, ended s = Some (ExitStatus 0)) (deliver (hung None None up)).
Proof.
  exact (proj1 (signal_exits None None up (hung None None up) (hung_reached None None up) eq_refl eq_refl)).
Defined.
